(** * MTOS kernel core: a shallow embedding and its verified properties

    The development follows the C sources of the MTOS teaching kernel:

    - [kernel/interfaces/kernel_interfaces.c]   (module [Registry])
    - [kernel/memory/bitmap_allocator.c]        (module [Bitmap])
    - [kernel/memory/buddy_allocator.c]         (module [Buddy])
    - [kernel/scheduler/priority_scheduler.c]   (module [Prio])
    - [kernel/scheduler/round_robin_scheduler.c] (module [RR])
    - [kernel/ipc/shared_memory_ipc.c]          (module [Shm])
    - [kernel/ipc/message_queue_ipc.c]          (module [MQ])

    Each C translation unit keeps its state in one file-scope [static struct];
    here every function takes that state and returns the new one.  Unsigned
    32-bit fields are integers in [Z] with the wrap-around written out
    ([wrap32]); pointers into a static array are indices into the list that
    models the array, [None] standing for [NULL]. *)

From Stdlib Require Import ZArith Lia Bool List String Ascii.
From stdpp Require Import base list.
Import ListNotations.

Local Open Scope Z_scope.

(** ** Machine integers *)

Definition wrap32 (z : Z) : Z := z mod 4294967296.
Definition wrap8 (z : Z) : Z := z mod 256.
Definition UINT32_MAX : Z := 4294967295.

(** [(uint32_t)x] for a C [int] [x]. *)
Definition int_to_uint32 (z : Z) : Z := wrap32 z.

(** ** The subsystem registry ([kernel_interfaces.c]) *)

Module Registry.

(** A capability table; only the two diagnostic strings matter to the
    registry, which never calls through the function pointers. *)
Record ops_table := mk_ops { name : string; description : string }.

Definition bitmap_allocator_ops : ops_table :=
  mk_ops "bitmap" "Simple bitmap-based page allocator with linear search".
Definition buddy_allocator_ops : ops_table :=
  mk_ops "buddy" "Binary buddy system allocator with efficient merging and splitting".
Definition round_robin_scheduler_ops : ops_table :=
  mk_ops "round_robin" "Classic time-sliced round-robin scheduler with configurable quantum".
Definition priority_scheduler_ops : ops_table :=
  mk_ops "priority" "Multi-level priority scheduler with aging and dynamic time slices".
Definition message_queue_ipc_ops : ops_table :=
  mk_ops "message_queue" "Classic message passing with configurable queues and flow control".
Definition shared_memory_ipc_ops : ops_table :=
  mk_ops "shared_memory"
         "High-performance IPC using shared memory regions with basic synchronization".

(** [kernel_registry_t]: one pointer per role, [None] for [NULL]. *)
Record kernel_registry := mk_registry {
  physical_allocator : option ops_table;
  virtual_memory : option ops_table;
  heap_allocator : option ops_table;
  scheduler : option ops_table;
  process_loader : option ops_table;
  ipc_transport : option ops_table;
  num_drivers : Z
}.

(** [kernel_registry_t g_kernel_registry = {0};] *)
Definition g_kernel_registry0 : kernel_registry :=
  mk_registry None None None None None None 0.

Definition register_physical_allocator (ops : option ops_table) (r : kernel_registry)
  : Z * kernel_registry :=
  match ops with
  | None => (-1, r)
  | Some o =>
      (0, mk_registry (Some o) (virtual_memory r) (heap_allocator r) (scheduler r)
                      (process_loader r) (ipc_transport r) (num_drivers r))
  end.

Definition register_scheduler (ops : option ops_table) (r : kernel_registry)
  : Z * kernel_registry :=
  match ops with
  | None => (-1, r)
  | Some o =>
      (0, mk_registry (physical_allocator r) (virtual_memory r) (heap_allocator r) (Some o)
                      (process_loader r) (ipc_transport r) (num_drivers r))
  end.

Definition register_ipc_transport (ops : option ops_table) (r : kernel_registry)
  : Z * kernel_registry :=
  match ops with
  | None => (-1, r)
  | Some o =>
      (0, mk_registry (physical_allocator r) (virtual_memory r) (heap_allocator r) (scheduler r)
                      (process_loader r) (Some o) (num_drivers r))
  end.

(** [s[i]] on a NUL-terminated C string: the terminator is read at the end.
    The C code only reads [s[1]] after [s[0]] matched a letter, so every
    access stays inside the string. *)
Definition char_at (s : string) (i : nat) : ascii :=
  match String.get i s with
  | Some c => c
  | None => Ascii.zero
  end.

Definition chr_eq (a b : ascii) : bool := Ascii.eqb a b.

Definition switch_component (component_type component_name : option string)
           (r : kernel_registry) : Z * kernel_registry :=
  match component_type, component_name with
  | Some ty, Some nm =>
      if chr_eq (char_at ty 0) "p" && chr_eq (char_at ty 1) "h" then
        if chr_eq (char_at nm 0) "b" && chr_eq (char_at nm 1) "i" then
          register_physical_allocator (Some bitmap_allocator_ops) r
        else if chr_eq (char_at nm 0) "b" && chr_eq (char_at nm 1) "u" then
          register_physical_allocator (Some buddy_allocator_ops) r
        else (-1, r)
      else if chr_eq (char_at ty 0) "s" then
        if chr_eq (char_at nm 0) "r" then
          register_scheduler (Some round_robin_scheduler_ops) r
        else if chr_eq (char_at nm 0) "p" then
          register_scheduler (Some priority_scheduler_ops) r
        else (-1, r)
      else if chr_eq (char_at ty 0) "i" then
        if chr_eq (char_at nm 0) "m" then
          register_ipc_transport (Some message_queue_ipc_ops) r
        else if chr_eq (char_at nm 0) "s" then
          register_ipc_transport (Some shared_memory_ipc_ops) r
        else (-1, r)
      else (-1, r)
  | _, _ => (-1, r)
  end.

Definition init_kernel_registry (r : kernel_registry) : kernel_registry :=
  let r1 := snd (register_physical_allocator (Some bitmap_allocator_ops) r) in
  let r2 := snd (register_scheduler (Some round_robin_scheduler_ops) r1) in
  snd (register_ipc_transport (Some message_queue_ipc_ops) r2).

(** The role identifiers and built-in variant names of the registry
    boundary, as the specification lists them. *)
Definition known_component (ty nm : string) : bool :=
  (String.eqb ty "physical_allocator" && (String.eqb nm "bitmap" || String.eqb nm "buddy"))
  || (String.eqb ty "scheduler" && (String.eqb nm "round_robin" || String.eqb nm "priority"))
  || (String.eqb ty "ipc_transport"
      && (String.eqb nm "message_queue" || String.eqb nm "shared_memory")).

(** What the code really tests: leading characters only. *)
Definition selects_component (ty nm : string) : bool :=
  (String.prefix "ph" ty && (String.prefix "bi" nm || String.prefix "bu" nm))
  || (String.prefix "s" ty && (String.prefix "r" nm || String.prefix "p" nm))
  || (String.prefix "i" ty && (String.prefix "m" nm || String.prefix "s" nm)).

End Registry.

(** ** The bitmap page allocator ([bitmap_allocator.c]) *)

Module Bitmap.

Definition PAGE_SIZE : Z := 4096.
Definition PAGES_PER_WORD : Z := 32.

(** [bitmap_state].  The bitmap itself lives at [start_addr] inside the
    managed region; [bitmap] holds its 32-bit words.  For every page number
    below [total_pages] the word index is below the length of the list. *)
Record bitmap_state := mk_state {
  bitmap : list Z;
  total_pages : Z;
  free_pages : Z;
  start_addr : Z;
  page_size : Z;
  last_allocated : Z
}.

(** The zero-initialised static struct. *)
Definition bitmap_state0 : bitmap_state := mk_state [] 0 0 0 0 0.

Definition word_at (bm : list Z) (i : Z) : Z := default 0 (bm !! Z.to_nat i).

Definition with_bitmap (bm : list Z) (st : bitmap_state) : bitmap_state :=
  mk_state bm (total_pages st) (free_pages st) (start_addr st) (page_size st)
           (last_allocated st).
Definition with_free_pages (n : Z) (st : bitmap_state) : bitmap_state :=
  mk_state (bitmap st) (total_pages st) n (start_addr st) (page_size st)
           (last_allocated st).
Definition with_last_allocated (n : Z) (st : bitmap_state) : bitmap_state :=
  mk_state (bitmap st) (total_pages st) (free_pages st) (start_addr st) (page_size st) n.

Definition set_page_used (page_num : Z) (st : bitmap_state) : bitmap_state :=
  let word_idx := page_num / PAGES_PER_WORD in
  let bit_idx := page_num mod PAGES_PER_WORD in
  with_bitmap (<[Z.to_nat word_idx := Z.lor (word_at (bitmap st) word_idx) (Z.shiftl 1 bit_idx)]>
                 (bitmap st)) st.

Definition set_page_free (page_num : Z) (st : bitmap_state) : bitmap_state :=
  let word_idx := page_num / PAGES_PER_WORD in
  let bit_idx := page_num mod PAGES_PER_WORD in
  with_bitmap (<[Z.to_nat word_idx :=
                   Z.land (word_at (bitmap st) word_idx)
                          (Z.lxor UINT32_MAX (Z.shiftl 1 bit_idx))]> (bitmap st)) st.

Definition is_page_free (page_num : Z) (st : bitmap_state) : bool :=
  let word_idx := page_num / PAGES_PER_WORD in
  let bit_idx := page_num mod PAGES_PER_WORD in
  Z.land (word_at (bitmap st) word_idx) (Z.shiftl 1 bit_idx) =? 0.

(** [for (page = from; page < from + n; page++) if (is_page_free(page)) return page;] *)
Fixpoint scan_free (st : bitmap_state) (from : Z) (n : nat) : option Z :=
  match n with
  | O => None
  | S n' => if is_page_free from st then Some from else scan_free st (from + 1) n'
  end.

Definition find_free_page (start_page : Z) (st : bitmap_state) : Z :=
  match scan_free st start_page (Z.to_nat (total_pages st - start_page)) with
  | Some page => page
  | None =>
      match scan_free st 0 (Z.to_nat start_page) with
      | Some page => page
      | None => 4294967295
      end
  end.

(** [for (i = from; i < from + n; i++) { set_page_used(i); free_pages--; }] *)
Fixpoint mark_used (from : Z) (n : nat) (st : bitmap_state) : bitmap_state :=
  match n with
  | O => st
  | S n' =>
      let st1 := set_page_used from st in
      mark_used (from + 1) n' (with_free_pages (wrap32 (free_pages st1 - 1)) st1)
  end.

Definition bitmap_init (start_addr end_addr : Z) (st : bitmap_state) : Z * bitmap_state :=
  let total := wrap32 (end_addr - start_addr) / PAGE_SIZE in
  let bitmap_size := wrap32 (total + PAGES_PER_WORD - 1) / PAGES_PER_WORD in
  let st1 := mk_state (replicate (Z.to_nat bitmap_size) 0) total total start_addr PAGE_SIZE 0 in
  let bitmap_pages := wrap32 (wrap32 (bitmap_size * 4) + PAGE_SIZE - 1) / PAGE_SIZE in
  (0, mark_used 0 (Z.to_nat bitmap_pages) st1).

Definition bitmap_alloc_page (st : bitmap_state) : Z * bitmap_state :=
  if free_pages st =? 0 then (0, st)
  else
    let page_num := find_free_page (last_allocated st) st in
    if page_num =? 4294967295 then (0, st)
    else
      let st1 := set_page_used page_num st in
      let st2 := with_free_pages (wrap32 (free_pages st1 - 1)) st1 in
      let st3 := with_last_allocated page_num st2 in
      (wrap32 (start_addr st3 + wrap32 (page_num * PAGE_SIZE)), st3).

(** The inner check [for (i = 0; i < count; i++) if (!is_page_free(start_page + i)) ...]. *)
Fixpoint run_is_free (st : bitmap_state) (from : Z) (n : nat) : bool :=
  match n with
  | O => true
  | S n' => if is_page_free from st then run_is_free st (from + 1) n' else false
  end.

(** The outer loop over [start_page], [n] candidate positions left. *)
Fixpoint search_run (count : Z) (start_page : Z) (n : nat) (st : bitmap_state)
  : Z * bitmap_state :=
  match n with
  | O => (0, st)
  | S n' =>
      if run_is_free st start_page (Z.to_nat count) then
        let st1 := mark_used start_page (Z.to_nat count) st in
        (wrap32 (start_addr st1 + wrap32 (start_page * PAGE_SIZE)), st1)
      else search_run count (start_page + 1) n' st
  end.

Definition bitmap_alloc_pages (count : Z) (st : bitmap_state) : Z * bitmap_state :=
  if (count =? 0) || (free_pages st <? count) then (0, st)
  else search_run count 0 (Z.to_nat (wrap32 (total_pages st - count) + 1)) st.

Definition bitmap_free_page (paddr : Z) (st : bitmap_state) : bitmap_state :=
  if paddr <? start_addr st then st
  else
    let page_num := wrap32 (paddr - start_addr st) / PAGE_SIZE in
    if total_pages st <=? page_num then st
    else if is_page_free page_num st then st
    else
      let st1 := set_page_free page_num st in
      with_free_pages (wrap32 (free_pages st1 + 1)) st1.

Definition bitmap_get_free_pages (st : bitmap_state) : Z := free_pages st.
Definition bitmap_get_total_pages (st : bitmap_state) : Z := total_pages st.

(** The address of page [p] of the region starting at [start]. *)
Definition page_addr (start p : Z) : Z := wrap32 (start + wrap32 (p * PAGE_SIZE)).

(** Scenario S2 on the region [[start, start + 16 pages)]: four single-page
    allocations, the second one freed, then [alloc_pages(2)] and
    [alloc_pages(1)].  The result lists the six addresses returned. *)
Definition scenario_S2 (start : Z) (st : bitmap_state) : list Z * bitmap_state :=
  let st0 := snd (bitmap_init start (start + 16 * PAGE_SIZE) st) in
  let (a1, st1) := bitmap_alloc_page st0 in
  let (a2, st2) := bitmap_alloc_page st1 in
  let (a3, st3) := bitmap_alloc_page st2 in
  let (a4, st4) := bitmap_alloc_page st3 in
  let st5 := bitmap_free_page a2 st4 in
  let (r2, st6) := bitmap_alloc_pages 2 st5 in
  let (r1, st7) := bitmap_alloc_pages 1 st6 in
  ([a1; a2; a3; a4; r2; r1], st7).

(** [bitmap_free_pages]:
    [for (i = i0; i < i0 + n; i++) bitmap_free_page(paddr + (i * PAGE_SIZE));] *)
Fixpoint free_pages_loop (paddr i : Z) (n : nat) (st : bitmap_state) : bitmap_state :=
  match n with
  | O => st
  | S n' =>
      free_pages_loop paddr (i + 1) n'
        (bitmap_free_page (wrap32 (paddr + wrap32 (i * PAGE_SIZE))) st)
  end.

Definition bitmap_free_pages (paddr count : Z) (st : bitmap_state) : bitmap_state :=
  free_pages_loop paddr 0 (Z.to_nat count) st.

Definition bitmap_is_available (paddr : Z) (st : bitmap_state) : bool :=
  if paddr <? start_addr st then false
  else
    let page_num := wrap32 (paddr - start_addr st) / PAGE_SIZE in
    if total_pages st <=? page_num then false
    else is_page_free page_num st.

(** The loop of [bitmap_alloc_aligned]:
    [for (start_page = s; start_page <= total_pages - pages_needed;
          start_page += align_pages)].
    With [align_pages = 0] the loop need not end; [fuel] bounds the number
    of rounds and [None] says it ran out. *)
Fixpoint aligned_search (fuel : nat) (pages_needed align_pages start_page : Z)
         (st : bitmap_state) : option (Z * bitmap_state) :=
  match fuel with
  | O => None
  | S fuel' =>
      if start_page <=? wrap32 (total_pages st - pages_needed) then
        if run_is_free st start_page (Z.to_nat pages_needed) then
          let st1 := mark_used start_page (Z.to_nat pages_needed) st in
          Some (wrap32 (start_addr st1 + wrap32 (start_page * PAGE_SIZE)), st1)
        else aligned_search fuel' pages_needed align_pages
                            (wrap32 (start_page + align_pages)) st
      else Some (0, st)
  end.

Definition bitmap_alloc_aligned (fuel : nat) (size alignment : Z) (st : bitmap_state)
  : option (Z * bitmap_state) :=
  let pages_needed := wrap32 (size + PAGE_SIZE - 1) / PAGE_SIZE in
  let align_pages := wrap32 (alignment + PAGE_SIZE - 1) / PAGE_SIZE in
  aligned_search fuel pages_needed align_pages 0 st.

(** *** What the allocator relies on *)

(** Every page below [total_pages] has its word in the bitmap, the words
    are 32-bit values, and the next-fit position is a page of the region
    (or its end). *)
Definition wf (st : bitmap_state) : Prop :=
  0 <= total_pages st <= 1048576
  /\ total_pages st <= Z.of_nat (length (bitmap st)) * PAGES_PER_WORD
  /\ Forall (fun w => 0 <= w < 4294967296) (bitmap st)
  /\ 0 <= last_allocated st <= total_pages st.

(** The managed region lies inside the 32-bit address space. *)
Definition region_ok (st : bitmap_state) : Prop :=
  0 <= start_addr st
  /\ start_addr st + total_pages st * PAGE_SIZE <= 4294967296.

(** The number of pages below [n] whose bit is clear. *)
Fixpoint count_free_upto (st : bitmap_state) (n : nat) : Z :=
  match n with
  | O => 0
  | S n' => count_free_upto st n' + (if is_page_free (Z.of_nat n') st then 1 else 0)
  end.

Definition count_free (st : bitmap_state) : Z :=
  count_free_upto st (Z.to_nat (total_pages st)).

(** The counter [free_pages] tells the truth about the bitmap. *)
Definition consistent (st : bitmap_state) : Prop :=
  wf st /\ free_pages st = count_free st.

(** The calls of the allocator interface, as a command language. *)
Inductive op :=
| Init (start_addr end_addr : Z)
| AllocPage
| AllocPages (count : Z)
| FreePage (paddr : Z)
| FreePages (paddr count : Z).

Definition step (o : op) (st : bitmap_state) : bitmap_state :=
  match o with
  | Init s e => snd (bitmap_init s e st)
  | AllocPage => snd (bitmap_alloc_page st)
  | AllocPages n => snd (bitmap_alloc_pages n st)
  | FreePage a => bitmap_free_page a st
  | FreePages a n => bitmap_free_pages a n st
  end.

Definition run (ops : list op) (st : bitmap_state) : bitmap_state :=
  fold_left (fun s o => step o s) ops st.

(** A region of 16 pages at 1 MiB, after [bitmap_init]. *)
Definition region16 : bitmap_state :=
  snd (bitmap_init 1048576 (1048576 + 16 * PAGE_SIZE) bitmap_state0).

End Bitmap.

(** ** The priority scheduler ([priority_scheduler.c]) *)

Module Prio.

Definition MAX_PRIORITY : Z := 31.
Definition DEFAULT_PRIORITY : Z := 15.

(** A non-null [process_t *]: the address of a descriptor owned by the host. *)
Definition proc_ptr := nat.

(** [struct process].  The intrusive links [next]/[prev] are carried by the
    order of the list that models the queue the descriptor is linked into. *)
Record process := mk_process {
  pid : Z;
  priority : Z;
  original_priority : Z;
  age : Z;
  time_slice : Z;
  remaining_slice : Z;
  is_running : bool;
  is_blocked : bool
}.

Definition set_priority (v : Z) (p : process) : process :=
  mk_process (pid p) v (original_priority p) (age p) (time_slice p) (remaining_slice p)
             (is_running p) (is_blocked p).
Definition set_original_priority (v : Z) (p : process) : process :=
  mk_process (pid p) (priority p) v (age p) (time_slice p) (remaining_slice p)
             (is_running p) (is_blocked p).
Definition set_age (v : Z) (p : process) : process :=
  mk_process (pid p) (priority p) (original_priority p) v (time_slice p) (remaining_slice p)
             (is_running p) (is_blocked p).
Definition set_time_slice (v : Z) (p : process) : process :=
  mk_process (pid p) (priority p) (original_priority p) (age p) v (remaining_slice p)
             (is_running p) (is_blocked p).
Definition set_remaining_slice (v : Z) (p : process) : process :=
  mk_process (pid p) (priority p) (original_priority p) (age p) (time_slice p) v
             (is_running p) (is_blocked p).
Definition set_is_running (v : bool) (p : process) : process :=
  mk_process (pid p) (priority p) (original_priority p) (age p) (time_slice p)
             (remaining_slice p) v (is_blocked p).
Definition set_is_blocked (v : bool) (p : process) : process :=
  mk_process (pid p) (priority p) (original_priority p) (age p) (time_slice p)
             (remaining_slice p) (is_running p) v.

(** [priority_queue_t]: [items] is the chain from [head] to [tail]. *)
Record priority_queue := mk_queue {
  items : list proc_ptr;
  count : Z
}.

Definition empty_queue : priority_queue := mk_queue [] 0.

(** [priority_state] together with the descriptors its pointers refer to. *)
Record priority_state := mk_state {
  ready_queues : list priority_queue;
  current_process : option proc_ptr;
  blocked_processes : list proc_ptr;
  total_processes : Z;
  context_switches : Z;
  total_wait_time : Z;
  current_tick : Z;
  initialized : bool;
  procs : proc_ptr -> process
}.

Definition with_ready_queues (v : list priority_queue) (st : priority_state) :=
  mk_state v (current_process st) (blocked_processes st) (total_processes st)
           (context_switches st) (total_wait_time st) (current_tick st) (initialized st)
           (procs st).
Definition with_current_process (v : option proc_ptr) (st : priority_state) :=
  mk_state (ready_queues st) v (blocked_processes st) (total_processes st)
           (context_switches st) (total_wait_time st) (current_tick st) (initialized st)
           (procs st).
Definition with_total_processes (v : Z) (st : priority_state) :=
  mk_state (ready_queues st) (current_process st) (blocked_processes st) v
           (context_switches st) (total_wait_time st) (current_tick st) (initialized st)
           (procs st).
Definition with_context_switches (v : Z) (st : priority_state) :=
  mk_state (ready_queues st) (current_process st) (blocked_processes st) (total_processes st)
           v (total_wait_time st) (current_tick st) (initialized st) (procs st).
Definition with_total_wait_time (v : Z) (st : priority_state) :=
  mk_state (ready_queues st) (current_process st) (blocked_processes st) (total_processes st)
           (context_switches st) v (current_tick st) (initialized st) (procs st).
Definition with_current_tick (v : Z) (st : priority_state) :=
  mk_state (ready_queues st) (current_process st) (blocked_processes st) (total_processes st)
           (context_switches st) (total_wait_time st) v (initialized st) (procs st).
Definition with_procs (v : proc_ptr -> process) (st : priority_state) :=
  mk_state (ready_queues st) (current_process st) (blocked_processes st) (total_processes st)
           (context_switches st) (total_wait_time st) (current_tick st) (initialized st) v.

(** A write through a descriptor pointer: [proc->field = ...]. *)
Definition upd_proc (proc : proc_ptr) (f : process -> process) (st : priority_state)
  : priority_state :=
  with_procs (fun q => if Nat.eqb q proc then f (procs st proc) else procs st q) st.

(** [priority_state.ready_queues[i]]. *)
Definition queue_at (st : priority_state) (i : Z) : priority_queue :=
  default empty_queue (ready_queues st !! Z.to_nat i).

Definition set_queue (i : Z) (q : priority_queue) (st : priority_state) : priority_state :=
  with_ready_queues (<[Z.to_nat i := q]> (ready_queues st)) st.

Definition enqueue_process (qi : Z) (proc : proc_ptr) (st : priority_state) : priority_state :=
  let q := queue_at st qi in
  set_queue qi (mk_queue (items q ++ [proc]) (wrap32 (count q + 1))) st.

Definition dequeue_process (qi : Z) (st : priority_state) : option proc_ptr * priority_state :=
  let q := queue_at st qi in
  match items q with
  | [] => (None, st)
  | proc :: rest => (Some proc, set_queue qi (mk_queue rest (wrap32 (count q - 1))) st)
  end.

(** Unlinking [proc] from the chain it is linked into. *)
Fixpoint unlink (proc : proc_ptr) (l : list proc_ptr) : list proc_ptr :=
  match l with
  | [] => []
  | x :: rest => if Nat.eqb x proc then rest else x :: unlink proc rest
  end.

Definition remove_process_from_queue (qi : Z) (proc : proc_ptr) (st : priority_state)
  : priority_state :=
  let q := queue_at st qi in
  set_queue qi (mk_queue (unlink proc (items q)) (wrap32 (count q - 1))) st.

(** [for (priority = n - 1; priority >= MIN_PRIORITY; priority--)]. *)
Fixpoint find_highest_from (st : priority_state) (n : nat) : Z :=
  match n with
  | O => -1
  | S n' =>
      if 0 <? count (queue_at st (Z.of_nat n')) then Z.of_nat n'
      else find_highest_from st n'
  end.

Definition find_highest_priority (st : priority_state) : Z :=
  find_highest_from st (Z.to_nat (MAX_PRIORITY + 1)).





Definition calculate_time_slice (prio : Z) : Z := wrap32 (10 + wrap32 (prio * 2)).

Definition priority_init (st : priority_state) : Z * priority_state :=
  if initialized st then (0, st)
  else (0, mk_state (replicate (Z.to_nat (MAX_PRIORITY + 1)) empty_queue)
                    None [] 0 0 0 0 true (procs st)).

Definition priority_add_process (proc : option proc_ptr) (st : priority_state)
  : priority_state :=
  match proc with
  | None => st
  | Some p =>
      let st1 := if MAX_PRIORITY <? priority (procs st p)
                 then upd_proc p (set_priority DEFAULT_PRIORITY) st else st in
      let st2 := upd_proc p (fun d => set_original_priority (priority d) d) st1 in
      let st3 := upd_proc p (set_age 0) st2 in
      let st4 := upd_proc p (fun d => set_time_slice (calculate_time_slice (priority d)) d) st3 in
      let st5 := upd_proc p (fun d => set_remaining_slice (time_slice d) d) st4 in
      let st6 := upd_proc p (set_is_running false) st5 in
      let st7 := upd_proc p (set_is_blocked false) st6 in
      let st8 := enqueue_process (priority (procs st7 p)) p st7 in
      with_total_processes (wrap32 (total_processes st8 + 1)) st8
  end.

Definition priority_get_next (st : priority_state) : option proc_ptr * priority_state :=
  let highest_priority := find_highest_priority st in
  if highest_priority <? 0 then (None, st)
  else dequeue_process highest_priority st.

Definition ptr_eqb (a b : option proc_ptr) : bool :=
  match a, b with
  | None, None => true
  | Some x, Some y => Nat.eqb x y
  | _, _ => false
  end.

Definition priority_schedule (st : priority_state) : priority_state :=
  let (next_process, st1) := priority_get_next st in
  if negb (ptr_eqb next_process (current_process st1)) then
    let st2 :=
      match current_process st1 with
      | Some cur =>
          let sa := upd_proc cur (set_is_running false) st1 in
          if negb (is_blocked (procs sa cur))
          then enqueue_process (priority (procs sa cur)) cur sa
          else sa
      | None => st1
      end in
    let st3 := with_current_process next_process st2 in
    let st4 :=
      match next_process with
      | Some nxt =>
          let sa := upd_proc nxt (set_is_running true) st3 in
          let sb := upd_proc nxt (fun d => set_remaining_slice (time_slice d) d) sa in
          upd_proc nxt (set_age 0) sb
      | None => st3
      end in
    with_context_switches (wrap32 (context_switches st4 + 1)) st4
  else st1.




(** The static state before [priority_init], over the host's descriptors. *)
Definition priority_state0 (heap : proc_ptr -> process) : priority_state :=
  mk_state (replicate (Z.to_nat (MAX_PRIORITY + 1)) empty_queue) None [] 0 0 0 0 false heap.

(** How often [p] is linked into [ready_queues[j]]. *)
Definition links (p : proc_ptr) (st : priority_state) (j : nat) : nat :=
  count_occ Nat.eq_dec (items (default empty_queue (ready_queues st !! j))) p.


(** *** Measures for the aging bound *)

(** What the scheduler knows about [p]: its level and age, and that it is
    linked exactly once, into the ready queue of that level. *)
Definition view (p : proc_ptr) (st : priority_state) (i : nat) (a : Z) : Prop :=
  priority (procs st p) = Z.of_nat i
  /\ age (procs st p) = a
  /\ length (ready_queues st) = Z.to_nat (MAX_PRIORITY + 1)
  /\ (i <= Z.to_nat MAX_PRIORITY)%nat
  /\ forall j, links p st j = if (j =? i)%nat then 1%nat else 0%nat.







(** *** Blocking and unblocking *)

Definition with_blocked_processes (v : list proc_ptr) (st : priority_state) :=
  mk_state (ready_queues st) (current_process st) v (total_processes st)
           (context_switches st) (total_wait_time st) (current_tick st) (initialized st)
           (procs st).

(** The blocked list is threaded through [next]: a push at the front. *)
Definition priority_block (proc : option proc_ptr) (st : priority_state) : priority_state :=
  match proc with
  | None => st
  | Some p =>
      let st1 := upd_proc p (set_is_blocked true) st in
      let st2 :=
        if ptr_eqb proc (current_process st1)
        then priority_schedule (with_current_process None st1)
        else remove_process_from_queue (priority (procs st1 p)) p st1 in
      with_blocked_processes (p :: blocked_processes st2) st2
  end.

Definition priority_unblock (proc : option proc_ptr) (st : priority_state) : priority_state :=
  match proc with
  | None => st
  | Some p =>
      if negb (is_blocked (procs st p)) then st
      else
        let st1 := with_blocked_processes (unlink p (blocked_processes st)) st in
        let st2 := upd_proc p (set_is_blocked false) st1 in
        let st3 := upd_proc p (fun d => set_priority (original_priority d) d) st2 in
        let st4 := upd_proc p (set_age 0) st3 in
        enqueue_process (priority (procs st4 p)) p st4
  end.

(** Every ready queue's [count] is the length of its chain. *)
Definition counted (st : priority_state) : Prop :=
  length (ready_queues st) = Z.to_nat (MAX_PRIORITY + 1)
  /\ forall k, 0 <= k <= MAX_PRIORITY ->
               count (queue_at st k) = Z.of_nat (length (items (queue_at st k)))
               /\ count (queue_at st k) < 4294967296.

(** Three processes of priorities 5, 20 and 5 (descriptors 1, 2, 3) enrolled
    in that order; nothing has been dispatched yet. *)
Definition three_ready : priority_state :=
  priority_add_process (Some 3%nat)
    (priority_add_process (Some 2%nat)
       (priority_add_process (Some 1%nat)
          (snd (priority_init
                  (priority_state0
                     (fun q => mk_process (Z.of_nat q) (if Nat.eqb q 2 then 20 else 5)
                                          0 0 0 0 false false)))))).

(** [three_ready] after descriptor 1 has been aged from level 5 to level 6. *)
Definition one_aged : priority_state :=
  enqueue_process 6 1%nat
    (upd_proc 1%nat (set_priority 6) (remove_process_from_queue 5 1%nat three_ready)).

End Prio.

(** ** The round-robin scheduler ([round_robin_scheduler.c]) *)

Module RR.

Definition DEFAULT_TIME_QUANTUM : Z := 20.
Definition MIN_TIME_QUANTUM : Z := 1.
Definition MAX_TIME_QUANTUM : Z := 1000.
Definition NODE_POOL_SIZE : Z := 64.

Definition proc_ptr := nat.
(** A non-null [rr_process_node_t *]: an index into [node_pool]. *)
Definition node_ptr := nat.

Record rr_process_node := mk_node {
  process : option proc_ptr;
  next : option node_ptr;
  prev : option node_ptr;
  wait_time : Z
}.

Definition node0 : rr_process_node := mk_node None None None 0.

(** [rr_state], with the two function-local statics of
    [create_process_node] ([node_pool], [node_index]). *)
Record rr_state := mk_state {
  ready_queue_head : option node_ptr;
  ready_queue_tail : option node_ptr;
  blocked_processes : option node_ptr;
  current_process : option proc_ptr;
  time_quantum : Z;
  remaining_quantum : Z;
  process_count : Z;
  context_switches : Z;
  total_wait_time : Z;
  current_tick : Z;
  initialized : bool;
  node_pool : list rr_process_node;
  node_index : Z
}.

Definition rr_state0 : rr_state :=
  mk_state None None None None 0 0 0 0 0 0 false
           (replicate (Z.to_nat NODE_POOL_SIZE) node0) 0.

Definition with_head (v : option node_ptr) (st : rr_state) :=
  mk_state v (ready_queue_tail st) (blocked_processes st) (current_process st)
           (time_quantum st) (remaining_quantum st) (process_count st) (context_switches st)
           (total_wait_time st) (current_tick st) (initialized st) (node_pool st)
           (node_index st).
Definition with_tail (v : option node_ptr) (st : rr_state) :=
  mk_state (ready_queue_head st) v (blocked_processes st) (current_process st)
           (time_quantum st) (remaining_quantum st) (process_count st) (context_switches st)
           (total_wait_time st) (current_tick st) (initialized st) (node_pool st)
           (node_index st).
Definition with_blocked (v : option node_ptr) (st : rr_state) :=
  mk_state (ready_queue_head st) (ready_queue_tail st) v (current_process st)
           (time_quantum st) (remaining_quantum st) (process_count st) (context_switches st)
           (total_wait_time st) (current_tick st) (initialized st) (node_pool st)
           (node_index st).
Definition with_current (v : option proc_ptr) (st : rr_state) :=
  mk_state (ready_queue_head st) (ready_queue_tail st) (blocked_processes st) v
           (time_quantum st) (remaining_quantum st) (process_count st) (context_switches st)
           (total_wait_time st) (current_tick st) (initialized st) (node_pool st)
           (node_index st).
Definition with_remaining (v : Z) (st : rr_state) :=
  mk_state (ready_queue_head st) (ready_queue_tail st) (blocked_processes st)
           (current_process st) (time_quantum st) v (process_count st) (context_switches st)
           (total_wait_time st) (current_tick st) (initialized st) (node_pool st)
           (node_index st).
Definition with_process_count (v : Z) (st : rr_state) :=
  mk_state (ready_queue_head st) (ready_queue_tail st) (blocked_processes st)
           (current_process st) (time_quantum st) (remaining_quantum st) v
           (context_switches st) (total_wait_time st) (current_tick st) (initialized st)
           (node_pool st) (node_index st).
Definition with_context_switches (v : Z) (st : rr_state) :=
  mk_state (ready_queue_head st) (ready_queue_tail st) (blocked_processes st)
           (current_process st) (time_quantum st) (remaining_quantum st) (process_count st) v
           (total_wait_time st) (current_tick st) (initialized st) (node_pool st)
           (node_index st).
Definition with_total_wait_time (v : Z) (st : rr_state) :=
  mk_state (ready_queue_head st) (ready_queue_tail st) (blocked_processes st)
           (current_process st) (time_quantum st) (remaining_quantum st) (process_count st)
           (context_switches st) v (current_tick st) (initialized st) (node_pool st)
           (node_index st).
Definition with_current_tick (v : Z) (st : rr_state) :=
  mk_state (ready_queue_head st) (ready_queue_tail st) (blocked_processes st)
           (current_process st) (time_quantum st) (remaining_quantum st) (process_count st)
           (context_switches st) (total_wait_time st) v (initialized st) (node_pool st)
           (node_index st).
Definition with_pool (v : list rr_process_node) (idx : Z) (st : rr_state) :=
  mk_state (ready_queue_head st) (ready_queue_tail st) (blocked_processes st)
           (current_process st) (time_quantum st) (remaining_quantum st) (process_count st)
           (context_switches st) (total_wait_time st) (current_tick st) (initialized st)
           v idx.

Definition node_at (st : rr_state) (n : node_ptr) : rr_process_node :=
  default node0 (node_pool st !! n).

(** A write through a node pointer. *)
Definition upd_node (n : node_ptr) (f : rr_process_node -> rr_process_node) (st : rr_state)
  : rr_state :=
  with_pool (<[n := f (node_at st n)]> (node_pool st)) (node_index st) st.

Definition set_next (v : option node_ptr) (nd : rr_process_node) :=
  mk_node (process nd) v (prev nd) (wait_time nd).
Definition set_prev (v : option node_ptr) (nd : rr_process_node) :=
  mk_node (process nd) (next nd) v (wait_time nd).
Definition set_wait_time (v : Z) (nd : rr_process_node) :=
  mk_node (process nd) (next nd) (prev nd) v.

Definition create_process_node (proc : option proc_ptr) (st : rr_state)
  : option node_ptr * rr_state :=
  if NODE_POOL_SIZE <=? node_index st then (None, st)
  else
    let n := Z.to_nat (node_index st) in
    let st1 := with_pool (node_pool st) (wrap32 (node_index st + 1)) st in
    (Some n, upd_node n (fun _ => mk_node proc None None 0) st1).

Definition add_to_ready_queue (node : option node_ptr) (st : rr_state) : rr_state :=
  match node with
  | None => st
  | Some n =>
      let st1 := upd_node n (set_next None) st in
      let st2 := upd_node n (set_prev (ready_queue_tail st1)) st1 in
      let st3 :=
        match ready_queue_tail st2 with
        | Some t => upd_node t (set_next (Some n)) st2
        | None => with_head (Some n) st2
        end in
      with_tail (Some n) st3
  end.

Definition remove_from_ready_queue (st : rr_state) : option node_ptr * rr_state :=
  match ready_queue_head st with
  | None => (None, st)
  | Some n =>
      let st1 := with_head (next (node_at st n)) st in
      let st2 :=
        match ready_queue_head st1 with
        | Some h => upd_node h (set_prev None) st1
        | None => with_tail None st1
        end in
      let st3 := upd_node n (set_next None) st2 in
      (Some n, upd_node n (set_prev None) st3)
  end.

Definition remove_node_from_queue (node : option node_ptr) (st : rr_state) : rr_state :=
  match node with
  | None => st
  | Some n =>
      let st1 :=
        match prev (node_at st n) with
        | Some p => upd_node p (set_next (next (node_at st n))) st
        | None => with_head (next (node_at st n)) st
        end in
      let st2 :=
        match next (node_at st1 n) with
        | Some x => upd_node x (set_prev (prev (node_at st1 n))) st1
        | None => with_tail (prev (node_at st1 n)) st1
        end in
      let st3 := upd_node n (set_next None) st2 in
      upd_node n (set_prev None) st3
  end.

Definition opt_eqb (a b : option nat) : bool :=
  match a, b with
  | None, None => true
  | Some x, Some y => Nat.eqb x y
  | _, _ => false
  end.

(** [while (current) { if (current->process == proc) return current;
    current = current->next; }] -- [fuel] bounds the walk; a chain without a
    cycle has at most [NODE_POOL_SIZE] nodes. *)
Fixpoint find_in_chain (st : rr_state) (proc : option proc_ptr) (current : option node_ptr)
         (fuel : nat) : option node_ptr :=
  match fuel, current with
  | S fuel', Some c =>
      if opt_eqb (process (node_at st c)) proc then Some c
      else find_in_chain st proc (next (node_at st c)) fuel'
  | _, _ => None
  end.

Definition chain_fuel : nat := Z.to_nat NODE_POOL_SIZE.

Definition find_process_node (proc : option proc_ptr) (st : rr_state) : option node_ptr :=
  match find_in_chain st proc (ready_queue_head st) chain_fuel with
  | Some n => Some n
  | None => find_in_chain st proc (blocked_processes st) chain_fuel
  end.

Definition rr_init (st : rr_state) : Z * rr_state :=
  if initialized st then (0, st)
  else (0, mk_state None None None None DEFAULT_TIME_QUANTUM 0 0 0 0 0 true
                    (node_pool st) (node_index st)).

Definition rr_add_process (proc : option proc_ptr) (st : rr_state) : rr_state :=
  match proc with
  | None => st
  | Some _ =>
      let (node, st1) := create_process_node proc st in
      match node with
      | None => st1
      | Some _ =>
          let st2 := add_to_ready_queue node st1 in
          with_process_count (wrap32 (process_count st2 + 1)) st2
      end
  end.

Definition rr_remove_process (proc : option proc_ptr) (st : rr_state) : rr_state :=
  match proc with
  | None => st
  | Some _ =>
      match find_process_node proc st with
      | None => st
      | Some n =>
          let st1 :=
            if opt_eqb (process (node_at st n)) (current_process st)
            then with_remaining 0 (with_current None st)
            else remove_node_from_queue (Some n) st in
          with_process_count (wrap32 (process_count st1 - 1)) st1
      end
  end.

Definition rr_get_next (st : rr_state) : option proc_ptr * rr_state :=
  let (node, st1) := remove_from_ready_queue st in
  match node with
  | Some n => (process (node_at st1 n), st1)
  | None => (None, st1)
  end.

Definition is_some {A} (o : option A) : bool :=
  match o with Some _ => true | None => false end.

Definition rr_schedule (st : rr_state) : rr_state :=
  if negb (is_some (current_process st)) || (remaining_quantum st =? 0) then
    let st1 :=
      if is_some (current_process st) && (remaining_quantum st =? 0) then
        let (node, sa) := create_process_node (current_process st) st in
        match node with
        | Some _ => add_to_ready_queue node sa
        | None => sa
        end
      else st in
    let (next_process, st2) := rr_get_next st1 in
    if negb (opt_eqb next_process (current_process st2)) then
      let st3 := with_current next_process st2 in
      let st4 := with_remaining (time_quantum st3) st3 in
      with_context_switches (wrap32 (context_switches st4 + 1)) st4
    else st2
  else st.

Definition rr_yield (st : rr_state) : rr_state :=
  let st1 :=
    match current_process st with
    | Some _ =>
        let (node, sa) := create_process_node (current_process st) st in
        let sb := match node with
                  | Some _ => add_to_ready_queue node sa
                  | None => sa
                  end in
        with_remaining 0 (with_current None sb)
    | None => st
    end in
  rr_schedule st1.

Definition rr_block (proc : option proc_ptr) (st : rr_state) : rr_state :=
  match proc with
  | None => st
  | Some _ =>
      if opt_eqb proc (current_process st) then
        rr_schedule (with_remaining 0 (with_current None st))
      else
        match find_process_node proc st with
        | Some n =>
            let st1 := remove_node_from_queue (Some n) st in
            let st2 := upd_node n (set_next (blocked_processes st1)) st1 in
            let st3 :=
              match blocked_processes st2 with
              | Some b => upd_node b (set_prev (Some n)) st2
              | None => st2
              end in
            with_blocked (Some n) st3
        | None => st
        end
  end.

Definition rr_unblock (proc : option proc_ptr) (st : rr_state) : rr_state :=
  match proc with
  | None => st
  | Some _ =>
      match find_in_chain st proc (blocked_processes st) chain_fuel with
      | None => st
      | Some n =>
          let st1 :=
            match prev (node_at st n) with
            | Some p => upd_node p (set_next (next (node_at st n))) st
            | None => with_blocked (next (node_at st n)) st
            end in
          let st2 :=
            match next (node_at st1 n) with
            | Some x => upd_node x (set_prev (prev (node_at st1 n))) st1
            | None => st1
            end in
          let st3 := upd_node n (set_next None) st2 in
          let st4 := upd_node n (set_prev None) st3 in
          let st5 := upd_node n (set_wait_time 0) st4 in
          add_to_ready_queue (Some n) st5
      end
  end.

(** [while (current) { current->wait_time++; total_wait_time++;
    current = current->next; }] *)
Fixpoint bump_wait_times (current : option node_ptr) (fuel : nat) (st : rr_state) : rr_state :=
  match fuel, current with
  | S fuel', Some c =>
      let st1 := upd_node c (fun nd => set_wait_time (wrap32 (wait_time nd + 1)) nd) st in
      let st2 := with_total_wait_time (wrap32 (total_wait_time st1 + 1)) st1 in
      bump_wait_times (next (node_at st2 c)) fuel' st2
  | _, _ => st
  end.

Definition rr_timer_tick (st : rr_state) : rr_state :=
  let st1 := with_current_tick (wrap32 (current_tick st + 1)) st in
  let st2 := if is_some (current_process st1) && (0 <? remaining_quantum st1)
             then with_remaining (wrap32 (remaining_quantum st1 - 1)) st1 else st1 in
  let st3 := bump_wait_times (ready_queue_head st2) chain_fuel st2 in
  if remaining_quantum st3 =? 0 then rr_schedule st3 else st3.

(** The operations of the scheduler capability, as a command language. *)
Inductive op :=
| Init
| AddProcess (p : proc_ptr)
| RemoveProcess (p : proc_ptr)
| Schedule
| Yield
| Block (p : proc_ptr)
| Unblock (p : proc_ptr)
| TimerTick.

Definition step (o : op) (st : rr_state) : rr_state :=
  match o with
  | Init => snd (rr_init st)
  | AddProcess p => rr_add_process (Some p) st
  | RemoveProcess p => rr_remove_process (Some p) st
  | Schedule => rr_schedule st
  | Yield => rr_yield st
  | Block p => rr_block (Some p) st
  | Unblock p => rr_unblock (Some p) st
  | TimerTick => rr_timer_tick st
  end.

Definition run (ops : list op) (st : rr_state) : rr_state :=
  fold_left (fun s o => step o s) ops st.

(** The processes of the nodes of a chain, in order. *)
Fixpoint chain_procs (st : rr_state) (current : option node_ptr) (fuel : nat)
  : list (option proc_ptr) :=
  match fuel, current with
  | S fuel', Some c => process (node_at st c) :: chain_procs st (next (node_at st c)) fuel'
  | _, _ => []
  end.

Definition ready_procs (st : rr_state) : list (option proc_ptr) :=
  chain_procs st (ready_queue_head st) chain_fuel.
Definition blocked_procs (st : rr_state) : list (option proc_ptr) :=
  chain_procs st (blocked_processes st) chain_fuel.

(** [p] is somewhere the scheduler can find it again. *)
Definition tracked (p : proc_ptr) (st : rr_state) : bool :=
  opt_eqb (current_process st) (Some p)
  || existsb (opt_eqb (Some p)) (ready_procs st)
  || existsb (opt_eqb (Some p)) (blocked_procs st).

(** One process (descriptor 1) enrolled and dispatched. *)
Definition one_running : rr_state := run [Init; AddProcess 1%nat; Schedule] rr_state0.

(** *** The rest of the interface *)

Definition with_time_quantum (v : Z) (st : rr_state) :=
  mk_state (ready_queue_head st) (ready_queue_tail st) (blocked_processes st)
           (current_process st) v (remaining_quantum st) (process_count st)
           (context_switches st) (total_wait_time st) (current_tick st) (initialized st)
           (node_pool st) (node_index st).

Definition rr_shutdown (st : rr_state) : rr_state :=
  mk_state None None None None (time_quantum st) (remaining_quantum st) 0
           (context_switches st) (total_wait_time st) (current_tick st) false
           (node_pool st) (node_index st).

Definition rr_get_time_slice (proc : option proc_ptr) (st : rr_state) : Z := time_quantum st.

Definition rr_set_priority (proc : option proc_ptr) (priority : Z) (st : rr_state)
  : rr_state := st.

Definition rr_get_priority (proc : option proc_ptr) (st : rr_state) : Z := 0.

Definition rr_get_context_switches (st : rr_state) : Z := context_switches st.

Definition rr_get_avg_wait_time (st : rr_state) : Z :=
  if current_tick st =? 0 then 0 else total_wait_time st / current_tick st.

Definition rr_set_time_quantum (quantum : Z) (st : rr_state) : rr_state :=
  if (MIN_TIME_QUANTUM <=? quantum) && (quantum <=? MAX_TIME_QUANTUM) then
    let st1 := with_time_quantum quantum st in
    if is_some (current_process st1) && (0 <? remaining_quantum st1)
    then with_remaining quantum st1 else st1
  else st.

Definition rr_get_time_quantum (st : rr_state) : Z := time_quantum st.

(** Every state-changing entry point of the file. *)
Inductive call :=
| Op (o : op)
| Shutdown
| SetPriority (p : proc_ptr) (priority : Z)
| SetTimeQuantum (quantum : Z).

Definition call_step (c : call) (st : rr_state) : rr_state :=
  match c with
  | Op o => step o st
  | Shutdown => rr_shutdown st
  | SetPriority p priority => rr_set_priority (Some p) priority st
  | SetTimeQuantum quantum => rr_set_time_quantum quantum st
  end.

Definition calls (cs : list call) (st : rr_state) : rr_state :=
  fold_left (fun s c => call_step c s) cs st.

(** The scalar part of the state that every call keeps in range. *)
Definition tidy (st : rr_state) : Prop :=
  (initialized st = true -> MIN_TIME_QUANTUM <= time_quantum st <= MAX_TIME_QUANTUM)
  /\ (time_quantum st = 0 \/ MIN_TIME_QUANTUM <= time_quantum st <= MAX_TIME_QUANTUM)
  /\ 0 <= remaining_quantum st <= MAX_TIME_QUANTUM
  /\ 0 <= node_index st <= NODE_POOL_SIZE.

(** One process enrolled and dispatched, then 63 calls of [yield]. *)
Definition pool_spent : list call :=
  map Op ([Init; AddProcess 1%nat; Schedule] ++ repeat Yield 63).

(** *** The ready queue as a list *)

(** The [next] links lead from [from] through exactly the nodes [l]. *)
Fixpoint linked (st : rr_state) (from : option node_ptr) (l : list node_ptr) : Prop :=
  match l with
  | [] => from = None
  | n :: rest => from = Some n /\ linked st (next (node_at st n)) rest
  end.

(** The ready queue is the chain of the distinct nodes [l], all of them
    handed out by [create_process_node] already, and [ready_queue_tail] is
    its last node. *)
Definition ready_ok (st : rr_state) (l : list node_ptr) : Prop :=
  linked st (ready_queue_head st) l
  /\ ready_queue_tail st = last l
  /\ NoDup l
  /\ (forall n, n ∈ l -> Z.of_nat n < node_index st)
  /\ 0 <= node_index st <= NODE_POOL_SIZE
  /\ length (node_pool st) = Z.to_nat NODE_POOL_SIZE.

(** Three processes enrolled, the first one dispatched. *)
Definition three_enrolled : rr_state :=
  run [Init; AddProcess 1%nat; AddProcess 2%nat; AddProcess 3%nat; Schedule] rr_state0.


End RR.

(** ** The buddy page allocator ([buddy_allocator.c]) *)

Module Buddy.

Definition MAX_ORDER : Z := 20.
Definition MIN_ORDER : Z := 0.
Definition PAGE_SIZE : Z := 4096.

(** [sizeof(buddy_block_t)] on the 32-bit target of [include/types.h]
    ([uintptr_t] is [uint32_t]): two pointers, a [bool] and a [uint8_t],
    padded to the pointer alignment. *)
Definition sizeof_buddy_block : Z := 12.

(** A non-null [buddy_block_t *]: [&block_metadata[i]] is the page index [i]
    ([get_block] and [block_to_page_index] are the two directions). *)
Definition block_ptr := nat.

Record buddy_block := mk_block {
  next : option block_ptr;
  prev : option block_ptr;
  is_free : bool;
  order : Z
}.

Definition block0 : buddy_block := mk_block None None false 0.

Record buddy_state := mk_state {
  memory_start : Z;
  total_size : Z;
  total_pages : Z;
  free_lists : list (option block_ptr);
  block_metadata : list buddy_block;
  allocated_pages : Z;
  allocation_count : Z
}.

Definition buddy_state0 : buddy_state :=
  mk_state 0 0 0 (replicate (Z.to_nat (MAX_ORDER + 1)) None) [] 0 0.

Definition with_free_lists (v : list (option block_ptr)) (st : buddy_state) :=
  mk_state (memory_start st) (total_size st) (total_pages st) v (block_metadata st)
           (allocated_pages st) (allocation_count st).
Definition with_metadata (v : list buddy_block) (st : buddy_state) :=
  mk_state (memory_start st) (total_size st) (total_pages st) (free_lists st) v
           (allocated_pages st) (allocation_count st).
Definition with_allocated (pages cnt : Z) (st : buddy_state) :=
  mk_state (memory_start st) (total_size st) (total_pages st) (free_lists st)
           (block_metadata st) pages cnt.

Definition PAGES_TO_SIZE (pages : Z) : Z := wrap32 (pages * PAGE_SIZE).
Definition SIZE_TO_PAGES (size : Z) : Z := wrap32 (size + PAGE_SIZE - 1) / PAGE_SIZE.
Definition BLOCK_SIZE (order : Z) : Z := wrap32 (Z.shiftl 1 order).
Definition GET_BUDDY_INDEX (index order : Z) : Z := Z.lxor index (wrap32 (Z.shiftl 1 order)).

Definition block_at (st : buddy_state) (b : block_ptr) : buddy_block :=
  default block0 (block_metadata st !! b).

Definition upd_block (b : block_ptr) (f : buddy_block -> buddy_block) (st : buddy_state)
  : buddy_state :=
  with_metadata (<[b := f (block_at st b)]> (block_metadata st)) st.

Definition set_next (v : option block_ptr) (b : buddy_block) :=
  mk_block v (prev b) (is_free b) (order b).
Definition set_prev (v : option block_ptr) (b : buddy_block) :=
  mk_block (next b) v (is_free b) (order b).
Definition set_is_free (v : bool) (b : buddy_block) :=
  mk_block (next b) (prev b) v (order b).
Definition set_order (v : Z) (b : buddy_block) :=
  mk_block (next b) (prev b) (is_free b) v.

(** [buddy_state.free_lists[order]]. *)
Definition free_list_head (st : buddy_state) (order : Z) : option block_ptr :=
  default None (free_lists st !! Z.to_nat order).

Definition set_free_list_head (order : Z) (v : option block_ptr) (st : buddy_state) :=
  with_free_lists (<[Z.to_nat order := v]> (free_lists st)) st.

Definition add_to_free_list (block : block_ptr) (order : Z) (st : buddy_state) : buddy_state :=
  let st1 := upd_block block (set_order order) st in
  let st2 := upd_block block (set_is_free true) st1 in
  let st3 := upd_block block (set_next (free_list_head st2 order)) st2 in
  let st4 := upd_block block (set_prev None) st3 in
  let st5 :=
    match free_list_head st4 order with
    | Some h => upd_block h (set_prev (Some block)) st4
    | None => st4
    end in
  set_free_list_head order (Some block) st5.

Definition remove_from_free_list (block : block_ptr) (order : Z) (st : buddy_state)
  : buddy_state :=
  let st1 :=
    match prev (block_at st block) with
    | Some p => upd_block p (set_next (next (block_at st block))) st
    | None => set_free_list_head order (next (block_at st block)) st
    end in
  let st2 :=
    match next (block_at st1 block) with
    | Some n => upd_block n (set_prev (prev (block_at st1 block))) st1
    | None => st1
    end in
  let st3 := upd_block block (set_is_free false) st2 in
  let st4 := upd_block block (set_next None) st3 in
  upd_block block (set_prev None) st4.

Definition get_buddy (block : block_ptr) (order : Z) (st : buddy_state) : option block_ptr :=
  let page_index := Z.of_nat block in
  let buddy_index := GET_BUDDY_INDEX page_index order in
  if total_pages st <=? buddy_index then None else Some (Z.to_nat buddy_index).

(** [while (current_order > target_order) { current_order--; ... }] *)
Fixpoint split_loop (block : block_ptr) (current_order : Z) (n : nat) (st : buddy_state)
  : buddy_state :=
  match n with
  | O => st
  | S n' =>
      let current_order := wrap8 (current_order - 1) in
      let st1 :=
        match get_buddy block current_order st with
        | Some buddy => add_to_free_list buddy current_order st
        | None => st
        end in
      split_loop block current_order n' (upd_block block (set_order current_order) st1)
  end.

Definition split_block (block : block_ptr) (target_order : Z) (st : buddy_state)
  : block_ptr * buddy_state :=
  let current_order := order (block_at st block) in
  (block, split_loop block current_order (Z.to_nat (current_order - target_order)) st).

(** [while (order < MAX_ORDER) { ... }]: at most [MAX_ORDER] rounds. *)
Fixpoint merge_loop (block : block_ptr) (order0 : Z) (n : nat) (st : buddy_state)
  : block_ptr * buddy_state :=
  match n with
  | O => (block, st)
  | S n' =>
      if order0 <? MAX_ORDER then
        match get_buddy block order0 st with
        | None => (block, st)
        | Some buddy =>
            if negb (is_free (block_at st buddy)) || negb (order (block_at st buddy) =? order0)
            then (block, st)
            else
              let st1 := remove_from_free_list buddy order0 st in
              let block1 := if (buddy <? block)%nat then buddy else block in
              let order1 := wrap8 (order0 + 1) in
              merge_loop block1 order1 n' (upd_block block1 (set_order order1) st1)
        end
      else (block, st)
  end.

Definition merge_block (block : block_ptr) (st : buddy_state) : block_ptr * buddy_state :=
  merge_loop block (order (block_at st block)) (Z.to_nat MAX_ORDER) st.

(** [while (block_pages < pages && order <= MAX_ORDER) { order++; block_pages <<= 1; }] *)
Fixpoint order_loop (pages order0 block_pages : Z) (n : nat) : Z :=
  match n with
  | O => order0
  | S n' =>
      if (block_pages <? pages) && (order0 <=? MAX_ORDER)
      then order_loop pages (wrap8 (order0 + 1)) (wrap32 (Z.shiftl block_pages 1)) n'
      else order0
  end.

Definition get_order_for_pages (pages : Z) : Z :=
  let order := order_loop pages 0 1 (Z.to_nat (MAX_ORDER + 2)) in
  if order <=? MAX_ORDER then order else 255.

(** [while ((1U << (max_order + 1)) <= remaining_pages && max_order < MAX_ORDER) max_order++;] *)
Fixpoint max_order_loop (remaining_pages max_order : Z) (n : nat) : Z :=
  match n with
  | O => max_order
  | S n' =>
      if (wrap32 (Z.shiftl 1 (max_order + 1)) <=? remaining_pages) && (max_order <? MAX_ORDER)
      then max_order_loop remaining_pages (wrap8 (max_order + 1)) n'
      else max_order
  end.

(** [while (current_page < total_pages) { ... current_page += BLOCK_SIZE(max_order); }] *)
Fixpoint init_blocks (current_page : Z) (n : nat) (st : buddy_state) : buddy_state :=
  match n with
  | O => st
  | S n' =>
      if current_page <? total_pages st then
        let remaining_pages := wrap32 (total_pages st - current_page) in
        let max_order := max_order_loop remaining_pages 0 (Z.to_nat (MAX_ORDER + 1)) in
        let st1 := add_to_free_list (Z.to_nat current_page) max_order st in
        init_blocks (wrap32 (current_page + BLOCK_SIZE max_order)) n' st1
      else st
  end.

(** [metadata_pages] and the discarded local [usable_pages] of [buddy_init]. *)
Definition metadata_pages_of (total : Z) : Z :=
  SIZE_TO_PAGES (wrap32 (total * sizeof_buddy_block)).
Definition usable_pages_of (total : Z) : Z := wrap32 (total - metadata_pages_of total).

Definition buddy_init (start_addr end_addr : Z) (st : buddy_state) : Z * buddy_state :=
  let size := wrap32 (end_addr - start_addr) in
  let total := size / PAGE_SIZE in
  let st1 := mk_state start_addr size total
                      (replicate (Z.to_nat (MAX_ORDER + 1)) None)
                      (replicate (Z.to_nat total) block0) 0 0 in
  let metadata_pages := metadata_pages_of total in
  (0, init_blocks metadata_pages (Z.to_nat total) st1).

(** [for (search_order = order; search_order <= MAX_ORDER; search_order++)] *)
Fixpoint find_block (search_order : Z) (n : nat) (st : buddy_state)
  : option block_ptr * buddy_state :=
  match n with
  | O => (None, st)
  | S n' =>
      match free_list_head st search_order with
      | Some block => (Some block, remove_from_free_list block search_order st)
      | None => find_block (search_order + 1) n' st
      end
  end.

Definition buddy_alloc_pages (count : Z) (st : buddy_state) : Z * buddy_state :=
  if count =? 0 then (0, st)
  else
    let order := get_order_for_pages count in
    if order =? 255 then (0, st)
    else
      match find_block order (Z.to_nat (MAX_ORDER - order + 1)) st with
      | (None, st1) => (0, st1)
      | (Some block, st1) =>
          let (block1, st2) :=
            if order <? Buddy.order (block_at st1 block)
            then split_block block order st1 else (block, st1) in
          let st3 := upd_block block1 (set_is_free false) st2 in
          let st4 := with_allocated (wrap32 (allocated_pages st3 + BLOCK_SIZE order))
                                    (wrap32 (allocation_count st3 + 1)) st3 in
          (wrap32 (memory_start st4 + wrap32 (Z.of_nat block1 * PAGE_SIZE)), st4)
      end.

Definition buddy_alloc_page (st : buddy_state) : Z * buddy_state := buddy_alloc_pages 1 st.

Definition buddy_free_pages (paddr count : Z) (st : buddy_state) : buddy_state :=
  if paddr <? memory_start st then st
  else
    let page_index := wrap32 (paddr - memory_start st) / PAGE_SIZE in
    if total_pages st <=? page_index then st
    else
      let block := Z.to_nat page_index in
      if is_free (block_at st block) then st
      else
        let st1 := with_allocated
                     (wrap32 (allocated_pages st - BLOCK_SIZE (order (block_at st block))))
                     (wrap32 (allocation_count st - 1)) st in
        let (block1, st2) := merge_block block st1 in
        add_to_free_list block1 (order (block_at st2 block1)) st2.

Definition buddy_free_page (paddr : Z) (st : buddy_state) : buddy_state :=
  buddy_free_pages paddr 1 st.

Definition buddy_get_free_pages (st : buddy_state) : Z :=
  wrap32 (total_pages st - allocated_pages st).

Definition buddy_get_total_pages (st : buddy_state) : Z := total_pages st.


(** The blocks linked from a free-list head, in order; [fuel] bounds the walk
    (a chain without a cycle has at most [total_pages] blocks). *)
Fixpoint chain (st : buddy_state) (b : option block_ptr) (fuel : nat) : list block_ptr :=
  match fuel, b with
  | S fuel', Some x => x :: chain st (next (block_at st x)) fuel'
  | _, _ => []
  end.

Definition free_list_blocks (st : buddy_state) (k : Z) : list block_ptr :=
  chain st (free_list_head st k) (Z.to_nat (total_pages st)).

(** Sum over the free lists [0 .. n-1] of [block_count(k) * 2^k]. *)
Fixpoint free_list_pages_upto (st : buddy_state) (n : nat) : Z :=
  match n with
  | O => 0
  | S n' =>
      free_list_pages_upto st n'
      + Z.of_nat (length (free_list_blocks st (Z.of_nat n'))) * 2 ^ Z.of_nat n'
  end.

Definition free_list_pages (st : buddy_state) : Z :=
  free_list_pages_upto st (Z.to_nat (MAX_ORDER + 1)).

(** Every block on free list [k] starts at a multiple of [2^k]. *)
Definition list_aligned (st : buddy_state) (k : Z) : bool :=
  forallb (fun b => Z.of_nat b mod 2 ^ k =? 0) (free_list_blocks st k).

Definition all_lists_aligned (st : buddy_state) : bool :=
  forallb (fun k => list_aligned st (Z.of_nat k)) (seq 0 (Z.to_nat (MAX_ORDER + 1))).

(** The allocator right after [init] on the 64 pages from 0x100000. *)
Definition region64 : buddy_state :=
  snd (buddy_init 1048576 (1048576 + 64 * PAGE_SIZE) buddy_state0).

(** The addresses returned by [n] successive calls of [alloc_page]. *)
Fixpoint alloc_page_run (n : nat) (st : buddy_state) : list Z :=
  match n with
  | O => []
  | S n' => let (a, st') := buddy_alloc_page st in a :: alloc_page_run n' st'
  end.

(** *** Well-kept states *)

(** The block records cover the region, the region lies in the 32-bit
    address space, the two statistics are in range, and the block at the
    head of free list [k] lies in the region and carries order [k]. *)
Definition orderly (st : buddy_state) : Prop :=
  length (block_metadata st) = Z.to_nat (total_pages st)
  /\ 0 <= memory_start st
  /\ memory_start st + total_pages st * PAGE_SIZE <= 4294967296
  /\ 0 <= allocated_pages st < 4294967296
  /\ 0 <= allocation_count st < 4294967296
  /\ forall (k : Z) (b : block_ptr),
       0 <= k <= MAX_ORDER -> free_list_head st k = Some b ->
       order (block_at st b) = k /\ Z.of_nat b < total_pages st.

(** [st'] differs from [st] in block records and list heads only. *)
Definition same_books (st st' : buddy_state) : Prop :=
  memory_start st' = memory_start st
  /\ total_pages st' = total_pages st
  /\ allocated_pages st' = allocated_pages st
  /\ allocation_count st' = allocation_count st
  /\ length (block_metadata st') = length (block_metadata st).

End Buddy.

(** ** IPC messages ([kernel_interfaces.h]) *)

Definition IPC_MAX_MESSAGE_SIZE : Z := 4096.

(** [ipc_message_t]; [data] holds the bytes of the array. *)
Record ipc_message := mk_message {
  sender_id : Z;
  receiver_id : Z;
  message_id : Z;
  msg_type : Z;
  size : Z;
  data : list Z;
  timestamp : Z;
  flags : Z
}.

Definition ipc_message0 : ipc_message :=
  mk_message 0 0 0 0 0 (replicate (Z.to_nat IPC_MAX_MESSAGE_SIZE) 0) 0 0.

(** [(int)x] for a [uint32_t] [x]. *)
Definition uint32_to_int (z : Z) : Z := if z <? 2147483648 then z else z - 4294967296.

(** [for (i = 0; i < n; i++) dst[i] = src[i];] *)
Definition copy_bytes (n : Z) (src dst : list Z) : list Z :=
  take (Z.to_nat n) src ++ drop (Z.to_nat n) dst.

(** ** The shared-memory transport ([shared_memory_ipc.c]) *)

Module Shm.

Definition MAX_SHARED_REGIONS : Z := 64.
Definition MAX_PROCESSES_PER_REGION : Z := 8.
Definition SHARED_REGION_SIZE : Z := 4096.
Definition MAX_MESSAGE_SIZE : Z := 1024.

(** [shared_region_t].  [memory] is the offset of the region's storage in
    the static pool of [allocate_shared_memory]. *)
Record shared_region := mk_region {
  region_id : Z;
  creator_id : Z;
  participants : list Z;
  participant_count : Z;
  memory : option Z;
  rsize : Z;
  permissions : Z;
  in_use : bool;
  lock : bool;
  read_index : Z;
  write_index : Z;
  has_data : bool
}.

Definition region0 : shared_region :=
  mk_region 0 0 (replicate (Z.to_nat MAX_PROCESSES_PER_REGION) 0) 0 None 0 0
            false false 0 0 false.

(** [shared_message_t], the envelope at the start of a region's storage. *)
Record shared_message := mk_shared {
  sm_sender_id : Z;
  sm_receiver_id : Z;
  sm_message_id : Z;
  sm_size : Z;
  sm_data : list Z;
  valid : bool
}.

Definition shared_message0 : shared_message :=
  mk_shared 0 0 0 0 (replicate (Z.to_nat MAX_MESSAGE_SIZE) 0) false.

(** [shm_state] with the statics of [allocate_shared_memory].  Every
    allocation has size [SHARED_REGION_SIZE], so the pool is a sequence of
    4096-byte chunks; each is only ever accessed as the envelope at its
    start, and [shared_pool] keeps one envelope per chunk. *)
Record shm_state := mk_state {
  regions : list shared_region;
  next_region_id : Z;
  active_regions : Z;
  total_messages_sent : Z;
  total_messages_received : Z;
  initialized : bool;
  shared_pool : list shared_message;
  pool_offset : Z
}.

Definition shm_state0 : shm_state :=
  mk_state (replicate (Z.to_nat MAX_SHARED_REGIONS) region0) 0 0 0 0 false
           (replicate (Z.to_nat MAX_SHARED_REGIONS) shared_message0) 0.

Definition with_regions (v : list shared_region) (st : shm_state) :=
  mk_state v (next_region_id st) (active_regions st) (total_messages_sent st)
           (total_messages_received st) (initialized st) (shared_pool st) (pool_offset st).
Definition with_next_region_id (v : Z) (st : shm_state) :=
  mk_state (regions st) v (active_regions st) (total_messages_sent st)
           (total_messages_received st) (initialized st) (shared_pool st) (pool_offset st).
Definition with_active_regions (v : Z) (st : shm_state) :=
  mk_state (regions st) (next_region_id st) v (total_messages_sent st)
           (total_messages_received st) (initialized st) (shared_pool st) (pool_offset st).
Definition with_sent (v : Z) (st : shm_state) :=
  mk_state (regions st) (next_region_id st) (active_regions st) v
           (total_messages_received st) (initialized st) (shared_pool st) (pool_offset st).
Definition with_received (v : Z) (st : shm_state) :=
  mk_state (regions st) (next_region_id st) (active_regions st) (total_messages_sent st)
           v (initialized st) (shared_pool st) (pool_offset st).
Definition with_initialized (v : bool) (st : shm_state) :=
  mk_state (regions st) (next_region_id st) (active_regions st) (total_messages_sent st)
           (total_messages_received st) v (shared_pool st) (pool_offset st).
Definition with_pool (v : list shared_message) (st : shm_state) :=
  mk_state (regions st) (next_region_id st) (active_regions st) (total_messages_sent st)
           (total_messages_received st) (initialized st) v (pool_offset st).
Definition with_pool_offset (v : Z) (st : shm_state) :=
  mk_state (regions st) (next_region_id st) (active_regions st) (total_messages_sent st)
           (total_messages_received st) (initialized st) (shared_pool st) v.

Definition set_memory (v : option Z) (r : shared_region) :=
  mk_region (region_id r) (creator_id r) (participants r) (participant_count r) v (rsize r)
            (permissions r) (in_use r) (lock r) (read_index r) (write_index r) (has_data r).
Definition set_in_use (v : bool) (r : shared_region) :=
  mk_region (region_id r) (creator_id r) (participants r) (participant_count r) (memory r)
            (rsize r) (permissions r) v (lock r) (read_index r) (write_index r) (has_data r).
Definition set_lock (v : bool) (r : shared_region) :=
  mk_region (region_id r) (creator_id r) (participants r) (participant_count r) (memory r)
            (rsize r) (permissions r) (in_use r) v (read_index r) (write_index r) (has_data r).
Definition set_has_data (v : bool) (r : shared_region) :=
  mk_region (region_id r) (creator_id r) (participants r) (participant_count r) (memory r)
            (rsize r) (permissions r) (in_use r) (lock r) (read_index r) (write_index r) v.
Definition set_participants (l : list Z) (n : Z) (perm : Z) (r : shared_region) :=
  mk_region (region_id r) (creator_id r) l n (memory r) (rsize r) perm (in_use r) (lock r)
            (read_index r) (write_index r) (has_data r).

(** [shm_state.regions[i]]. *)
Definition region_at (st : shm_state) (i : nat) : shared_region :=
  default region0 (regions st !! i).

Definition upd_region (i : nat) (f : shared_region -> shared_region) (st : shm_state)
  : shm_state :=
  with_regions (<[i := f (region_at st i)]> (regions st)) st.

(** The envelope a region's [memory] points to. *)
Definition chunk_of (off : Z) : nat := Z.to_nat (off / SHARED_REGION_SIZE).
Definition envelope_at (st : shm_state) (off : Z) : shared_message :=
  default shared_message0 (shared_pool st !! chunk_of off).
Definition set_envelope (off : Z) (m : shared_message) (st : shm_state) : shm_state :=
  with_pool (<[chunk_of off := m]> (shared_pool st)) st.

(** Busy-wait while the flag is set, then set it.  On the single CPU nothing can
    clear the flag during the busy-wait, so a held lock means the call
    never returns ([None]). *)
Definition acquire_lock (i : nat) (st : shm_state) : option shm_state :=
  if lock (region_at st i) then None else Some (upd_region i (set_lock true) st).

Definition release_lock (i : nat) (st : shm_state) : shm_state :=
  upd_region i (set_lock false) st.

(** First index [i >= from] of [rs] whose region satisfies [f]. *)
Fixpoint find_index (f : shared_region -> bool) (rs : list shared_region) (from : nat)
  : option nat :=
  match rs with
  | [] => None
  | r :: rest => if f r then Some from else find_index f rest (S from)
  end.

Definition find_free_region (st : shm_state) : option nat :=
  find_index (fun r => negb (in_use r)) (regions st) 0.

Definition is_participant (r : shared_region) (id : Z) : bool :=
  existsb (Z.eqb id) (take (Z.to_nat (participant_count r)) (participants r)).

Definition find_region_by_participants (sender receiver : Z) (st : shm_state) : option nat :=
  find_index (fun r => in_use r && is_participant r sender && is_participant r receiver)
             (regions st) 0.

(** The lookup loop shared by send, receive and the observers. *)
Definition find_region_by_id (channel_id : Z) (st : shm_state) : option nat :=
  find_index (fun r => in_use r && (region_id r =? int_to_uint32 channel_id)) (regions st) 0.

Definition check_region_permission (region : option nat) (process_id required : Z)
           (st : shm_state) : bool :=
  match region with
  | None => false
  | Some i =>
      let r := region_at st i in
      if negb (in_use r) then false
      else if is_participant r process_id
           then negb (Z.land (permissions r) required =? 0)
           else false
  end.

Definition allocate_shared_memory (sz : Z) (st : shm_state) : option Z * shm_state :=
  if MAX_SHARED_REGIONS * SHARED_REGION_SIZE <? wrap32 (pool_offset st + sz) then (None, st)
  else (Some (pool_offset st), with_pool_offset (wrap32 (pool_offset st + sz)) st).

Definition shm_init (st : shm_state) : Z * shm_state :=
  if initialized st then (0, st)
  else (0, mk_state (replicate (Z.to_nat MAX_SHARED_REGIONS) region0) 1 0 0 0 true
                    (shared_pool st) (pool_offset st)).

Definition shm_shutdown (st : shm_state) : shm_state :=
  let st1 := with_regions (map (fun r => set_memory None (set_in_use false r)) (regions st)) st in
  with_initialized false (with_active_regions 0 st1).

Definition shm_create_channel (sender receiver : Z) (st : shm_state) : Z * shm_state :=
  match find_region_by_participants sender receiver st with
  | Some i => (uint32_to_int (region_id (region_at st i)), st)
  | None =>
      match find_free_region st with
      | None => (-1, st)
      | Some i =>
          let (mem, st1) := allocate_shared_memory SHARED_REGION_SIZE st in
          let st2 := upd_region i (set_memory mem) st1 in
          match mem with
          | None => (-1, st2)
          | Some off =>
              let old := region_at st2 i in
              let r := mk_region (next_region_id st2) sender
                                 (<[1%nat := receiver]> (<[0%nat := sender]> (participants old)))
                                 2 (Some off) SHARED_REGION_SIZE 3 true false 0 0 false in
              let st3 := with_next_region_id (wrap32 (next_region_id st2 + 1)) st2 in
              let st4 := upd_region i (fun _ => r) st3 in
              let st5 := set_envelope off shared_message0 st4 in
              let st6 := with_active_regions (wrap32 (active_regions st5 + 1)) st5 in
              (uint32_to_int (region_id r), st6)
          end
      end
  end.

Definition shm_destroy_channel (channel_id : Z) (st : shm_state) : shm_state :=
  match find_region_by_id channel_id st with
  | Some i =>
      let st1 := upd_region i (fun r => set_memory None (set_in_use false r)) st in
      with_active_regions (wrap32 (active_regions st1 - 1)) st1
  | None => st
  end.

(** A region's storage; a live region always has one. *)
Definition memory_of (st : shm_state) (i : nat) : Z := default 0 (memory (region_at st i)).

Definition shm_send_message (channel_id : Z) (msg : option ipc_message) (st : shm_state)
  : option (Z * shm_state) :=
  match msg with
  | None => Some (-1, st)
  | Some m =>
      match find_region_by_id channel_id st with
      | None => Some (-1, st)
      | Some i =>
          if negb (check_region_permission (Some i) (sender_id m) 2 st) then Some (-1, st)
          else
            match acquire_lock i st with
            | None => None
            | Some st1 =>
                if has_data (region_at st1 i) then Some (-1, release_lock i st1)
                else
                  let off := memory_of st1 i in
                  let old := envelope_at st1 off in
                  let n := if size m <? MAX_MESSAGE_SIZE then size m else MAX_MESSAGE_SIZE in
                  let env := mk_shared (sender_id m) (receiver_id m) (message_id m) n
                                       (copy_bytes n (data m) (sm_data old)) true in
                  let st2 := set_envelope off env st1 in
                  let st3 := upd_region i (set_has_data true) st2 in
                  let st4 := release_lock i st3 in
                  Some (0, with_sent (wrap32 (total_messages_sent st4 + 1)) st4)
            end
      end
  end.

(** [msg] is the caller's buffer; the result carries its new contents. *)
Definition shm_receive_message (channel_id : Z) (msg : option ipc_message) (st : shm_state)
  : option (Z * option ipc_message * shm_state) :=
  match msg with
  | None => Some (-1, None, st)
  | Some buf =>
      match find_region_by_id channel_id st with
      | None => Some (-1, msg, st)
      | Some i =>
          match acquire_lock i st with
          | None => None
          | Some st1 =>
              if negb (has_data (region_at st1 i)) then Some (-1, msg, release_lock i st1)
              else
                let off := memory_of st1 i in
                let env := envelope_at st1 off in
                if negb (valid env) then Some (-1, msg, release_lock i st1)
                else
                  let out := mk_message (sm_sender_id env) (sm_receiver_id env)
                                        (sm_message_id env) (msg_type buf) (sm_size env)
                                        (copy_bytes (sm_size env) (sm_data env) (data buf))
                                        (timestamp buf) (flags buf) in
                  let env' := mk_shared (sm_sender_id env) (sm_receiver_id env)
                                        (sm_message_id env) (sm_size env) (sm_data env) false in
                  let st2 := set_envelope off env' st1 in
                  let st3 := upd_region i (set_has_data false) st2 in
                  let st4 := release_lock i st3 in
                  Some (0, Some out,
                        with_received (wrap32 (total_messages_received st4 + 1)) st4)
          end
      end
  end.

Definition shm_try_receive := shm_receive_message.

Definition shm_can_send (channel_id : Z) (st : shm_state) : bool :=
  match find_region_by_id channel_id st with
  | Some i => negb (has_data (region_at st i))
  | None => false
  end.

Definition shm_has_messages (channel_id : Z) (st : shm_state) : bool :=
  match find_region_by_id channel_id st with
  | Some i => has_data (region_at st i)
  | None => false
  end.

Definition shm_get_queue_size (channel_id : Z) (st : shm_state) : Z :=
  if shm_has_messages channel_id st then 1 else 0.

(** The body of the loop of [shm_grant_capability] for one region. *)
Definition grant_one (grantor grantee rights : Z) (r : shared_region) : shared_region :=
  if in_use r && (creator_id r =? grantor)
     && (participant_count r <? MAX_PROCESSES_PER_REGION) then
    if is_participant r grantee then r
    else set_participants (<[Z.to_nat (participant_count r) := grantee]> (participants r))
                          (wrap32 (participant_count r + 1))
                          (Z.lor (permissions r) rights) r
  else r.

Definition shm_grant_capability (grantor grantee rights : Z) (st : shm_state) : shm_state :=
  with_regions (map (grant_one grantor grantee rights) (regions st)) st.

(** The operations of the transport capability. *)
Inductive op :=
| Init
| Shutdown
| CreateChannel (sender receiver : Z)
| DestroyChannel (channel_id : Z)
| SendMessage (channel_id : Z) (msg : option ipc_message)
| ReceiveMessage (channel_id : Z) (buf : option ipc_message)
| TryReceive (channel_id : Z) (buf : option ipc_message)
| GrantCapability (grantor grantee rights : Z).

(** One call; [None] when the call never returns. *)
Definition step (o : op) (st : shm_state) : option shm_state :=
  match o with
  | Init => Some (snd (shm_init st))
  | Shutdown => Some (shm_shutdown st)
  | CreateChannel s r => Some (snd (shm_create_channel s r st))
  | DestroyChannel c => Some (shm_destroy_channel c st)
  | SendMessage c m => option_map snd (shm_send_message c m st)
  | ReceiveMessage c b => option_map snd (shm_receive_message c b st)
  | TryReceive c b => option_map snd (shm_try_receive c b st)
  | GrantCapability g e r => Some (shm_grant_capability g e r st)
  end.

Fixpoint run (ops : list op) (st : shm_state) : option shm_state :=
  match ops with
  | [] => Some st
  | o :: rest =>
      match step o st with
      | Some st1 => run rest st1
      | None => None
      end
  end.




(** The state invariant of the transport: no spin flag is left set, a slot
    that is not in use holds no data, and the two global counters differ by
    the number of occupied regions. *)
Definition region_ok (r : shared_region) : Prop :=
  lock r = false /\ (in_use r = false -> has_data r = false).


(** Two channels, a message in each. *)
Definition two_pending : list op :=
  [Init; CreateChannel 1 2; CreateChannel 3 4;
   SendMessage 1 (Some (mk_message 1 2 7 0 3 [10; 20; 30] 0 0));
   SendMessage 2 (Some (mk_message 3 4 8 0 2 [40; 50] 0 0))].

(** *** Storage of the regions *)

(** [sizeof(shared_pool)]. *)
Definition POOL_BYTES : Z := MAX_SHARED_REGIONS * SHARED_REGION_SIZE.

(** What every call leaves behind: no spin flag is set, the participant
    arrays keep their size, the pool keeps its chunks, a region in use owns a
    whole chunk handed out before [pool_offset] (and an occupied one a valid
    envelope in it), and two regions in use never share a chunk. *)
Record sound (st : shm_state) : Prop := mk_sound {
  sound_pool : length (shared_pool st) = Z.to_nat MAX_SHARED_REGIONS;
  sound_offset : 0 <= pool_offset st <= POOL_BYTES
                 /\ pool_offset st mod SHARED_REGION_SIZE = 0;
  sound_region : forall (i : nat) (r : shared_region),
      regions st !! i = Some r ->
      lock r = false
      /\ length (participants r) = Z.to_nat MAX_PROCESSES_PER_REGION
      /\ (in_use r = true ->
          exists off,
            memory r = Some off
            /\ 0 <= off /\ off + SHARED_REGION_SIZE <= pool_offset st
            /\ off mod SHARED_REGION_SIZE = 0
            /\ (has_data r = true -> valid (envelope_at st off) = true));
  sound_apart : forall (i j : nat) (ri rj : shared_region),
      i <> j -> regions st !! i = Some ri -> regions st !! j = Some rj ->
      in_use ri = true -> in_use rj = true -> memory ri <> memory rj
}.

(** The state after a successful send, field by field. *)
Definition sent_state (st : shm_state) (i : nat) (r : shared_region) (off : Z)
           (m : ipc_message) : shm_state :=
  let n := if size m <? MAX_MESSAGE_SIZE then size m else MAX_MESSAGE_SIZE in
  mk_state (<[i := set_has_data true r]> (regions st)) (next_region_id st)
           (active_regions st) (wrap32 (total_messages_sent st + 1))
           (total_messages_received st) (initialized st)
           (<[chunk_of off :=
                mk_shared (sender_id m) (receiver_id m) (message_id m) n
                          (copy_bytes n (data m) (sm_data (envelope_at st off))) true]>
              (shared_pool st))
           (pool_offset st).

(** The buffer and the state after a successful receive. *)
Definition received_message (env : shared_message) (buf : ipc_message) : ipc_message :=
  mk_message (sm_sender_id env) (sm_receiver_id env) (sm_message_id env) (msg_type buf)
             (sm_size env) (copy_bytes (sm_size env) (sm_data env) (data buf))
             (timestamp buf) (flags buf).

Definition received_state (st : shm_state) (i : nat) (r : shared_region) (off : Z)
  : shm_state :=
  let env := envelope_at st off in
  mk_state (<[i := set_has_data false r]> (regions st)) (next_region_id st)
           (active_regions st) (total_messages_sent st)
           (wrap32 (total_messages_received st + 1)) (initialized st)
           (<[chunk_of off :=
                mk_shared (sm_sender_id env) (sm_receiver_id env) (sm_message_id env)
                          (sm_size env) (sm_data env) false]> (shared_pool st))
           (pool_offset st).

(** The state [two_pending] leads to. *)
Definition two_pending_state : shm_state := default shm_state0 (run two_pending shm_state0).

(** ... and after the second channel has been read. *)
Definition two_pending_state_drained : shm_state :=
  default shm_state0 (run (two_pending ++ [ReceiveMessage 2 (Some ipc_message0)]) shm_state0).

(** [n] channels between pairwise different pairs of processes. *)
Definition create_many (n : nat) : list op :=
  map (fun k => CreateChannel (Z.of_nat k) (Z.of_nat k + 1000)) (seq 0 n).

(** A message whose payload is the byte [b] throughout. *)
Definition filled (sender receiver id ty sz b ts fl : Z) : ipc_message :=
  mk_message sender receiver id ty sz (replicate (Z.to_nat IPC_MAX_MESSAGE_SIZE) b) ts fl.


(** All 64 chunks of the pool handed out, and the transport restarted
    after that. *)
Definition pool_used_up : shm_state :=
  default shm_state0 (run (Init :: create_many 64) shm_state0).
Definition pool_restarted : shm_state :=
  default shm_state0 (run [DestroyChannel 1; Shutdown; Init] pool_used_up).

End Shm.

(** ** The message-queue transport ([message_queue_ipc.c]) *)

Module MQ.

Definition MAX_CHANNELS : Z := 32.
Definition MAX_QUEUE_DEPTH : Z := 16.
Definition POOL_SIZE : Z := MAX_CHANNELS * MAX_QUEUE_DEPTH.

(** A non-null [message_entry_t *]: an index into [entry_pool]. *)
Definition entry_ptr := nat.

Record message_entry := mk_entry {
  message : ipc_message;
  next : option entry_ptr;
  etimestamp : Z
}.

Definition entry0 : message_entry := mk_entry ipc_message0 None 0.

Record message_channel := mk_channel {
  channel_id : Z;
  ch_sender_id : Z;
  ch_receiver_id : Z;
  queue_head : option entry_ptr;
  queue_tail : option entry_ptr;
  queue_size : Z;
  max_queue_size : Z;
  is_blocking : bool;
  in_use : bool;
  messages_sent : Z;
  messages_received : Z;
  messages_dropped : Z
}.

Definition channel0 : message_channel :=
  mk_channel 0 0 0 None None 0 0 false false 0 0 0.

Record mq_state := mk_state {
  channels : list message_channel;
  next_channel_id : Z;
  active_channels : Z;
  current_tick : Z;
  initialized : bool;
  entry_pool : list message_entry;
  entry_used : list bool;
  next_entry_index : Z
}.

Definition mq_state0 : mq_state :=
  mk_state (replicate (Z.to_nat MAX_CHANNELS) channel0) 0 0 0 false
           (replicate (Z.to_nat POOL_SIZE) entry0)
           (replicate (Z.to_nat POOL_SIZE) false) 0.

Definition with_channels (v : list message_channel) (st : mq_state) :=
  mk_state v (next_channel_id st) (active_channels st) (current_tick st) (initialized st)
           (entry_pool st) (entry_used st) (next_entry_index st).
Definition with_next_channel_id (v : Z) (st : mq_state) :=
  mk_state (channels st) v (active_channels st) (current_tick st) (initialized st)
           (entry_pool st) (entry_used st) (next_entry_index st).
Definition with_active_channels (v : Z) (st : mq_state) :=
  mk_state (channels st) (next_channel_id st) v (current_tick st) (initialized st)
           (entry_pool st) (entry_used st) (next_entry_index st).
Definition with_current_tick (v : Z) (st : mq_state) :=
  mk_state (channels st) (next_channel_id st) (active_channels st) v (initialized st)
           (entry_pool st) (entry_used st) (next_entry_index st).
Definition with_initialized (v : bool) (st : mq_state) :=
  mk_state (channels st) (next_channel_id st) (active_channels st) (current_tick st) v
           (entry_pool st) (entry_used st) (next_entry_index st).
Definition with_entry_pool (v : list message_entry) (st : mq_state) :=
  mk_state (channels st) (next_channel_id st) (active_channels st) (current_tick st)
           (initialized st) v (entry_used st) (next_entry_index st).
Definition with_entry_used (v : list bool) (st : mq_state) :=
  mk_state (channels st) (next_channel_id st) (active_channels st) (current_tick st)
           (initialized st) (entry_pool st) v (next_entry_index st).
Definition with_next_entry_index (v : Z) (st : mq_state) :=
  mk_state (channels st) (next_channel_id st) (active_channels st) (current_tick st)
           (initialized st) (entry_pool st) (entry_used st) v.

Definition set_queue_head (v : option entry_ptr) (c : message_channel) :=
  mk_channel (channel_id c) (ch_sender_id c) (ch_receiver_id c) v (queue_tail c)
             (queue_size c) (max_queue_size c) (is_blocking c) (in_use c) (messages_sent c)
             (messages_received c) (messages_dropped c).
Definition set_queue_tail (v : option entry_ptr) (c : message_channel) :=
  mk_channel (channel_id c) (ch_sender_id c) (ch_receiver_id c) (queue_head c) v
             (queue_size c) (max_queue_size c) (is_blocking c) (in_use c) (messages_sent c)
             (messages_received c) (messages_dropped c).
Definition set_queue_size (v : Z) (c : message_channel) :=
  mk_channel (channel_id c) (ch_sender_id c) (ch_receiver_id c) (queue_head c) (queue_tail c)
             v (max_queue_size c) (is_blocking c) (in_use c) (messages_sent c)
             (messages_received c) (messages_dropped c).
Definition set_max_queue_size (v : Z) (c : message_channel) :=
  mk_channel (channel_id c) (ch_sender_id c) (ch_receiver_id c) (queue_head c) (queue_tail c)
             (queue_size c) v (is_blocking c) (in_use c) (messages_sent c)
             (messages_received c) (messages_dropped c).
Definition set_is_blocking (v : bool) (c : message_channel) :=
  mk_channel (channel_id c) (ch_sender_id c) (ch_receiver_id c) (queue_head c) (queue_tail c)
             (queue_size c) (max_queue_size c) v (in_use c) (messages_sent c)
             (messages_received c) (messages_dropped c).
Definition set_in_use (v : bool) (c : message_channel) :=
  mk_channel (channel_id c) (ch_sender_id c) (ch_receiver_id c) (queue_head c) (queue_tail c)
             (queue_size c) (max_queue_size c) (is_blocking c) v (messages_sent c)
             (messages_received c) (messages_dropped c).
Definition set_messages_sent (v : Z) (c : message_channel) :=
  mk_channel (channel_id c) (ch_sender_id c) (ch_receiver_id c) (queue_head c) (queue_tail c)
             (queue_size c) (max_queue_size c) (is_blocking c) (in_use c) v
             (messages_received c) (messages_dropped c).
Definition set_messages_received (v : Z) (c : message_channel) :=
  mk_channel (channel_id c) (ch_sender_id c) (ch_receiver_id c) (queue_head c) (queue_tail c)
             (queue_size c) (max_queue_size c) (is_blocking c) (in_use c) (messages_sent c)
             v (messages_dropped c).
Definition set_messages_dropped (v : Z) (c : message_channel) :=
  mk_channel (channel_id c) (ch_sender_id c) (ch_receiver_id c) (queue_head c) (queue_tail c)
             (queue_size c) (max_queue_size c) (is_blocking c) (in_use c) (messages_sent c)
             (messages_received c) v.

Definition set_next (v : option entry_ptr) (e : message_entry) :=
  mk_entry (message e) v (etimestamp e).
Definition set_etimestamp (v : Z) (e : message_entry) :=
  mk_entry (message e) (next e) v.
Definition set_message (v : ipc_message) (e : message_entry) :=
  mk_entry v (next e) (etimestamp e).

(** [mq_state.channels[i]] and [mq_state.entry_pool[e]]. *)
Definition channel_at (st : mq_state) (i : nat) : message_channel :=
  default channel0 (channels st !! i).
Definition entry_at (st : mq_state) (e : entry_ptr) : message_entry :=
  default entry0 (entry_pool st !! e).

Definition upd_channel (i : nat) (f : message_channel -> message_channel) (st : mq_state)
  : mq_state :=
  with_channels (<[i := f (channel_at st i)]> (channels st)) st.
Definition upd_entry (e : entry_ptr) (f : message_entry -> message_entry) (st : mq_state)
  : mq_state :=
  with_entry_pool (<[e := f (entry_at st e)]> (entry_pool st)) st.

(** [for (i = i0; i < i0 + n; i++) { index = (next_entry_index + i) % POOL_SIZE; ... }] *)
Fixpoint alloc_scan (i : Z) (n : nat) (st : mq_state) : option entry_ptr * mq_state :=
  match n with
  | O => (None, st)
  | S n' =>
      let index := wrap32 (next_entry_index st + i) mod POOL_SIZE in
      if negb (default false (entry_used st !! Z.to_nat index)) then
        let st1 := with_entry_used (<[Z.to_nat index := true]> (entry_used st)) st in
        (Some (Z.to_nat index),
         with_next_entry_index (wrap32 (index + 1) mod POOL_SIZE) st1)
      else alloc_scan (i + 1) n' st
  end.

Definition alloc_message_entry (st : mq_state) : option entry_ptr * mq_state :=
  alloc_scan 0 (Z.to_nat POOL_SIZE) st.

Definition free_message_entry (entry : option entry_ptr) (st : mq_state) : mq_state :=
  match entry with
  | None => st
  | Some e =>
      if Z.of_nat e <? POOL_SIZE
      then with_entry_used (<[e := false]> (entry_used st)) st
      else st
  end.

(** First index [i >= from] of [cs] whose channel satisfies [f]. *)
Fixpoint find_index (f : message_channel -> bool) (cs : list message_channel) (from : nat)
  : option nat :=
  match cs with
  | [] => None
  | c :: rest => if f c then Some from else find_index f rest (S from)
  end.

Definition find_channel_by_id (id : Z) (st : mq_state) : option nat :=
  find_index (fun c => in_use c && (channel_id c =? int_to_uint32 id)) (channels st) 0.

Definition find_channel_by_participants (sender receiver : Z) (st : mq_state) : option nat :=
  find_index (fun c => in_use c && (ch_sender_id c =? sender) && (ch_receiver_id c =? receiver))
             (channels st) 0.

Definition find_free_channel (st : mq_state) : option nat :=
  find_index (fun c => negb (in_use c)) (channels st) 0.

Definition enqueue_message (ch : nat) (entry : entry_ptr) (st : mq_state) : mq_state :=
  let st1 := upd_entry entry (set_next None) st in
  let st2 := upd_entry entry (set_etimestamp (current_tick st1)) st1 in
  let st3 :=
    match queue_tail (channel_at st2 ch) with
    | Some t => upd_entry t (set_next (Some entry)) st2
    | None => upd_channel ch (set_queue_head (Some entry)) st2
    end in
  let st4 := upd_channel ch (set_queue_tail (Some entry)) st3 in
  upd_channel ch (fun c => set_queue_size (wrap32 (queue_size c + 1)) c) st4.

Definition dequeue_message (ch : nat) (st : mq_state) : option entry_ptr * mq_state :=
  match queue_head (channel_at st ch) with
  | None => (None, st)
  | Some e =>
      let st1 := upd_channel ch (set_queue_head (next (entry_at st e))) st in
      let st2 :=
        match queue_head (channel_at st1 ch) with
        | None => upd_channel ch (set_queue_tail None) st1
        | Some _ => st1
        end in
      let st3 := upd_channel ch (fun c => set_queue_size (wrap32 (queue_size c - 1)) c) st2 in
      (Some e, upd_entry e (set_next None) st3)
  end.

(** [while (ch->queue_head) { entry = dequeue_message(ch); free_message_entry(entry); }]
    -- [fuel] bounds the walk; a chain without a cycle has at most
    [POOL_SIZE] entries. *)
Fixpoint drain (ch : nat) (fuel : nat) (st : mq_state) : mq_state :=
  match fuel with
  | O => st
  | S fuel' =>
      match queue_head (channel_at st ch) with
      | None => st
      | Some _ =>
          let (entry, st1) := dequeue_message ch st in
          drain ch fuel' (free_message_entry entry st1)
      end
  end.

Definition drain_fuel : nat := Z.to_nat POOL_SIZE.

Definition mq_init (st : mq_state) : Z * mq_state :=
  if initialized st then (0, st)
  else
    let ch := mk_channel 0 0 0 None None 0 MAX_QUEUE_DEPTH true false 0 0 0 in
    (0, mk_state (replicate (Z.to_nat MAX_CHANNELS) ch) 1 0 0 true
                 (entry_pool st) (replicate (Z.to_nat POOL_SIZE) false) 0).

(** [for (i = i0; i < i0 + n; i++) { drain channel i; ch->in_use = false; }] *)
Fixpoint shutdown_from (i : nat) (n : nat) (st : mq_state) : mq_state :=
  match n with
  | O => st
  | S n' =>
      let st1 := drain i drain_fuel st in
      shutdown_from (S i) n' (upd_channel i (set_in_use false) st1)
  end.

Definition mq_shutdown (st : mq_state) : mq_state :=
  let st1 := shutdown_from 0 (Z.to_nat MAX_CHANNELS) st in
  with_initialized false (with_active_channels 0 st1).

Definition mq_create_channel (sender receiver : Z) (st : mq_state) : Z * mq_state :=
  match find_channel_by_participants sender receiver st with
  | Some i => (uint32_to_int (channel_id (channel_at st i)), st)
  | None =>
      match find_free_channel st with
      | None => (-1, st)
      | Some i =>
          let ch := mk_channel (next_channel_id st) sender receiver None None 0
                               MAX_QUEUE_DEPTH true true 0 0 0 in
          let st1 := with_next_channel_id (wrap32 (next_channel_id st + 1)) st in
          let st2 := upd_channel i (fun _ => ch) st1 in
          let st3 := with_active_channels (wrap32 (active_channels st2 + 1)) st2 in
          (uint32_to_int (channel_id ch), st3)
      end
  end.

Definition mq_destroy_channel (id : Z) (st : mq_state) : mq_state :=
  match find_channel_by_id id st with
  | None => st
  | Some i =>
      let st1 := drain i drain_fuel st in
      let st2 := upd_channel i (set_in_use false) st1 in
      with_active_channels (wrap32 (active_channels st2 - 1)) st2
  end.

Definition mq_send_message (id : Z) (msg : option ipc_message) (st : mq_state)
  : Z * mq_state :=
  match msg with
  | None => (-1, st)
  | Some m =>
      match find_channel_by_id id st with
      | None => (-1, st)
      | Some i =>
          let drop_one :=
            upd_channel i (fun c => set_messages_dropped (wrap32 (messages_dropped c + 1)) c) in
          if max_queue_size (channel_at st i) <=? queue_size (channel_at st i)
          then (-1, drop_one st)
          else
            match alloc_message_entry st with
            | (None, st1) => (-1, drop_one st1)
            | (Some e, st1) =>
                let st2 := upd_entry e (set_message m) st1 in
                let st3 := upd_entry e (set_next None) st2 in
                let st4 := upd_entry e (set_etimestamp (current_tick st3)) st3 in
                let st5 := enqueue_message i e st4 in
                (0, upd_channel i (fun c => set_messages_sent (wrap32 (messages_sent c + 1)) c)
                                st5)
            end
      end
  end.

(** [msg] is the caller's buffer; the result carries its new contents. *)
Definition mq_receive_message (id : Z) (msg : option ipc_message) (st : mq_state)
  : Z * option ipc_message * mq_state :=
  match msg with
  | None => (-1, None, st)
  | Some _ =>
      match find_channel_by_id id st with
      | None => (-1, msg, st)
      | Some i =>
          match dequeue_message i st with
          | (None, st1) => (-1, msg, st1)
          | (Some e, st1) =>
              let out := message (entry_at st1 e) in
              let st2 :=
                upd_channel i (fun c => set_messages_received
                                          (wrap32 (messages_received c + 1)) c) st1 in
              (0, Some out, free_message_entry (Some e) st2)
          end
      end
  end.

Definition mq_try_receive := mq_receive_message.

Definition mq_can_send (id : Z) (st : mq_state) : bool :=
  match find_channel_by_id id st with
  | None => false
  | Some i => queue_size (channel_at st i) <? max_queue_size (channel_at st i)
  end.

Definition mq_has_messages (id : Z) (st : mq_state) : bool :=
  match find_channel_by_id id st with
  | None => false
  | Some i => 0 <? queue_size (channel_at st i)
  end.

Definition mq_get_queue_size (id : Z) (st : mq_state) : Z :=
  match find_channel_by_id id st with
  | None => 0
  | Some i => queue_size (channel_at st i)
  end.

Definition mq_grant_capability (grantor grantee rights : Z) (st : mq_state) : mq_state := st.

Definition mq_set_blocking_mode (id : Z) (blocking : bool) (st : mq_state) : mq_state :=
  match find_channel_by_id id st with
  | Some i => upd_channel i (set_is_blocking blocking) st
  | None => st
  end.

Definition mq_set_queue_size (id : Z) (max_size : Z) (st : mq_state) : mq_state :=
  match find_channel_by_id id st with
  | Some i =>
      if max_size <=? MAX_QUEUE_DEPTH then upd_channel i (set_max_queue_size max_size) st
      else st
  | None => st
  end.

Definition mq_tick (st : mq_state) : mq_state :=
  with_current_tick (wrap32 (current_tick st + 1)) st.

(** The operations of the transport, as a command language. *)
Inductive op :=
| Init
| Shutdown
| CreateChannel (sender receiver : Z)
| DestroyChannel (id : Z)
| SendMessage (id : Z) (msg : option ipc_message)
| ReceiveMessage (id : Z) (buf : option ipc_message)
| TryReceive (id : Z) (buf : option ipc_message)
| GrantCapability (grantor grantee rights : Z)
| SetBlockingMode (id : Z) (blocking : bool)
| SetQueueSize (id : Z) (max_size : Z)
| Tick.

(** What a call hands back to its caller. *)
Inductive outcome :=
| Done
| Code (ret : Z)
| Sent (ret : Z)
| Received (ret : Z) (buf : option ipc_message).

Definition step (o : op) (st : mq_state) : outcome * mq_state :=
  match o with
  | Init => let (r, st1) := mq_init st in (Code r, st1)
  | Shutdown => (Done, mq_shutdown st)
  | CreateChannel s r => let (c, st1) := mq_create_channel s r st in (Code c, st1)
  | DestroyChannel id => (Done, mq_destroy_channel id st)
  | SendMessage id m => let (r, st1) := mq_send_message id m st in (Sent r, st1)
  | ReceiveMessage id b =>
      let '(r, out, st1) := mq_receive_message id b st in (Received r out, st1)
  | TryReceive id b =>
      let '(r, out, st1) := mq_try_receive id b st in (Received r out, st1)
  | GrantCapability g e r => (Done, mq_grant_capability g e r st)
  | SetBlockingMode id b => (Done, mq_set_blocking_mode id b st)
  | SetQueueSize id n => (Done, mq_set_queue_size id n st)
  | Tick => (Done, mq_tick st)
  end.

Definition run (ops : list op) (st : mq_state) : mq_state :=
  fold_left (fun s o => snd (step o s)) ops st.

(** [same_channel id c]: the two [int] arguments name the same channel. *)
Definition same_channel (id c : Z) : bool := int_to_uint32 id =? int_to_uint32 c.

(** The messages channel [c] accepted while [ops] ran from [st], in order. *)
Fixpoint accepted (c : Z) (ops : list op) (st : mq_state) : list ipc_message :=
  match ops with
  | [] => []
  | o :: rest =>
      let (out, st1) := step o st in
      match o, out with
      | SendMessage id (Some m), Sent 0 =>
          if same_channel id c then m :: accepted c rest st1 else accepted c rest st1
      | _, _ => accepted c rest st1
      end
  end.

(** The messages the successful receives on channel [c] returned, in order. *)
Fixpoint delivered (c : Z) (ops : list op) (st : mq_state) : list ipc_message :=
  match ops with
  | [] => []
  | o :: rest =>
      let (out, st1) := step o st in
      match o, out with
      | ReceiveMessage id _, Received 0 (Some m)
      | TryReceive id _, Received 0 (Some m) =>
          if same_channel id c then m :: delivered c rest st1 else delivered c rest st1
      | _, _ => delivered c rest st1
      end
  end.

(** The messages along a chain of entries. *)
Fixpoint chain_messages (st : mq_state) (e : option entry_ptr) (fuel : nat)
  : list ipc_message :=
  match fuel, e with
  | S fuel', Some x => message (entry_at st x) :: chain_messages st (next (entry_at st x)) fuel'
  | _, _ => []
  end.

(** The messages waiting in channel [c], oldest first. *)
Definition queued (c : Z) (st : mq_state) : list ipc_message :=
  match find_channel_by_id c st with
  | Some i => chain_messages st (queue_head (channel_at st i)) drain_fuel
  | None => []
  end.

(** Operations that leave channel [c] alive. *)
Definition keeps_channel (c : Z) (o : op) : bool :=
  match o with
  | Shutdown => false
  | DestroyChannel id => negb (same_channel id c)
  | _ => true
  end.

(** *** The shape of the queues *)

(** The chain from [h] runs through the entries [q], in order, and ends. *)
Fixpoint lseg (st : mq_state) (h : option entry_ptr) (q : list entry_ptr) : Prop :=
  match q with
  | [] => h = None
  | e :: q' => h = Some e /\ lseg st (next (entry_at st e)) q'
  end.

Definition chan_ok (st : mq_state) (c : message_channel) (q : list entry_ptr) : Prop :=
  lseg st (queue_head c) q /\ queue_tail c = last q.

(** [qs i] lists the entries queued in channel slot [i]: each slot's chain
    is its list, no entry is queued twice or in two slots, and every queued
    entry is marked used in the pool. *)
Record shape (st : mq_state) (qs : nat -> list entry_ptr) : Prop := mk_shape {
  shape_pool : length (entry_pool st) = Z.to_nat POOL_SIZE;
  shape_used_len : length (entry_used st) = Z.to_nat POOL_SIZE;
  shape_chan : forall i c, channels st !! i = Some c -> chan_ok st c (qs i);
  shape_nodup : forall i, NoDup (qs i);
  shape_owner : forall i i' e, e ∈ qs i -> e ∈ qs i' -> i = i';
  shape_used : forall i e, e ∈ qs i -> entry_used st !! e = Some true
}.

(** Channel identifiers in use are below the next one to be handed out. *)
Definition ids_fresh (st : mq_state) : Prop :=
  0 <= next_channel_id st
  /\ forall i c, channels st !! i = Some c -> in_use c = true ->
                 0 <= channel_id c < next_channel_id st.

(** The messages of the entries [q]. *)
Definition messages_of (st : mq_state) (q : list entry_ptr) : list ipc_message :=
  map (fun e => message (entry_at st e)) q.

(** What one call adds to, and takes from, channel [c]. *)
Definition accepted1 (c : Z) (o : op) (out : outcome) : list ipc_message :=
  match o, out with
  | SendMessage id (Some m), Sent 0 => if same_channel id c then [m] else []
  | _, _ => []
  end.

Definition delivered1 (c : Z) (o : op) (out : outcome) : list ipc_message :=
  match o, out with
  | ReceiveMessage id _, Received 0 (Some m)
  | TryReceive id _, Received 0 (Some m) => if same_channel id c then [m] else []
  | _, _ => []
  end.

(** [qs] with the list of slot [i] replaced. *)
Definition with_queue (i : nat) (q : list entry_ptr) (qs : nat -> list entry_ptr)
  : nat -> list entry_ptr :=
  fun k => if decide (k = i) then q else qs k.

(** What [find_channel_by_id] looks at. *)
Definition ident (c : message_channel) : bool * Z := (in_use c, channel_id c).
Definition idents (st : mq_state) : list (bool * Z) := map ident (channels st).

(** [st'] has the channel identities, the identifier counter and the
    initialisation flag of [st]. *)
Definition same_meta (st st' : mq_state) : Prop :=
  idents st' = idents st
  /\ next_channel_id st' = next_channel_id st
  /\ initialized st' = initialized st.

(** The FIFO bookkeeping of one call [o] for the channel [c] in slot [j]:
    the channel stays in its slot, and what was queued plus what the call
    accepted is what the call delivered plus what is queued now. *)
Definition fifo_step (c : Z) (j : nat) (o : op) (st : mq_state) (qs : nat -> list entry_ptr)
           (out : outcome) (st' : mq_state) (qs' : nat -> list entry_ptr) : Prop :=
  find_channel_by_id c st' = Some j
  /\ initialized st' = true
  /\ messages_of st (qs j) ++ accepted1 c o out
     = delivered1 c o out ++ messages_of st' (qs' j).

(** *** Bookkeeping beyond the shape *)

(** The loop of [mq_print_stats] that adds up [queue_size] over the channels
    in use ([total_queued]). *)
Definition stats_total_queued (st : mq_state) : Z :=
  fold_left (fun acc c => if in_use c then wrap32 (acc + queue_size c) else acc)
            (channels st) 0.

(** The pool entries marked used. *)
Definition used_entries (st : mq_state) : list entry_ptr :=
  List.filter (fun e => default false (entry_used st !! e)) (seq 0 (Z.to_nat POOL_SIZE)).

(** [c'] is [c] with [queue_size] moved by [d]; the queue pointers and the
    counters of dropped messages are not compared. *)
Definition resized (d : Z) (c c' : message_channel) : Prop :=
  queue_size c' = wrap32 (queue_size c + d)
  /\ max_queue_size c' = max_queue_size c
  /\ in_use c' = in_use c
  /\ channel_id c' = channel_id c
  /\ messages_sent c' = messages_sent c
  /\ messages_received c' = messages_received c.

(** Beyond [shape]: every slot's [queue_size] is the length of its queue
    and at most [MAX_QUEUE_DEPTH], slots not in use hold nothing, every
    entry marked used is queued somewhere, and the counters of a channel in
    use balance. *)
Record full (st : mq_state) (qs : nat -> list entry_ptr) : Prop := mk_full {
  full_shape : shape st qs;
  full_len : length (channels st) = Z.to_nat MAX_CHANNELS;
  full_sized : forall i c, channels st !! i = Some c ->
                           queue_size c = Z.of_nat (length (qs i));
  full_max : forall i c, channels st !! i = Some c -> max_queue_size c <= MAX_QUEUE_DEPTH;
  full_depth : forall i, (length (qs i) <= Z.to_nat MAX_QUEUE_DEPTH)%nat;
  full_slots : forall i, channels st !! i = None -> qs i = [];
  full_idle : forall i c, channels st !! i = Some c -> in_use c = false -> qs i = [];
  full_used : forall e, entry_used st !! e = Some true -> exists i, e ∈ qs i;
  full_counts : forall i c, channels st !! i = Some c -> in_use c = true ->
                            messages_sent c = wrap32 (messages_received c + queue_size c)
}.

(** The entries queued in the slots below [n], slot by slot. *)
Fixpoint queued_entries (qs : nat -> list entry_ptr) (n : nat) : list entry_ptr :=
  match n with
  | O => []
  | S n' => queued_entries qs n' ++ qs n'
  end.

(** No two channels in use share an identifier. *)
Definition ids_unique (st : mq_state) : Prop :=
  forall i j ci cj,
    channels st !! i = Some ci -> channels st !! j = Some cj ->
    in_use ci = true -> in_use cj = true ->
    channel_id ci = channel_id cj -> i = j.

(** The channels in use in [st'] were in use in [st], in the same slots and
    under the same identifiers. *)
Definition channels_kept (st st' : mq_state) : Prop :=
  forall k c', channels st' !! k = Some c' -> in_use c' = true ->
    exists c, channels st !! k = Some c /\ in_use c = true /\ channel_id c = channel_id c'.

(** A session: a channel is created, three messages are sent, two received,
    one more sent. *)
Definition msg (k : Z) : ipc_message := mk_message 1 2 k 0 1 [k] 0 0.
Definition session_setup : list op := [Init; CreateChannel 1 2].
Definition session_traffic : list op :=
  [SendMessage 1 (Some (msg 10)); SendMessage 1 (Some (msg 11)); Tick;
   ReceiveMessage 1 (Some ipc_message0); SendMessage 1 (Some (msg 12));
   CreateChannel 5 6; SendMessage 2 (Some (msg 20)); TryReceive 1 (Some ipc_message0);
   SendMessage 1 (Some (msg 13))].

End MQ.

(** * Machine-integer facts *)

Lemma wrap32_small (z : Z) : 0 <= z < 4294967296 -> wrap32 z = z.
Proof. intros H. unfold wrap32. now apply Z.mod_small. Qed.

Lemma wrap32_range (z : Z) : 0 <= wrap32 z < 4294967296.
Proof. unfold wrap32. apply Z.mod_pos_bound. lia. Qed.

Lemma wrap8_small (z : Z) : 0 <= z < 256 -> wrap8 z = z.
Proof. intros H. unfold wrap8. now apply Z.mod_small. Qed.

(** * Properties of the registry *)

Section RegistryProofs.
Import Registry.
Local Open Scope string_scope.
Local Arguments Ascii.eqb : simpl never.

Lemma ascii_dec_eqb (A : Type) (a b : ascii) (x y : A) :
  (if ascii_dec a b then x else y) = (if Ascii.eqb b a then x else y).
Proof.
  destruct (ascii_dec a b) as [->|Hne].
  - now rewrite Ascii.eqb_refl.
  - destruct (Ascii.eqb b a) eqn:E; [|reflexivity].
    apply Ascii.eqb_eq in E. congruence.
Qed.

Lemma prefix1_char_at (c : ascii) (s : string) :
  c <> Ascii.zero ->
  String.prefix (String c EmptyString) s = chr_eq (char_at s 0) c.
Proof.
  intros Hc. unfold chr_eq, char_at. destruct s as [|a s']; simpl.
  - destruct (Ascii.eqb Ascii.zero c) eqn:E; [|reflexivity].
    apply Ascii.eqb_eq in E. congruence.
  - rewrite ascii_dec_eqb. destruct s'; destruct (Ascii.eqb a c); reflexivity.
Qed.

Lemma prefix2_char_at (c d : ascii) (s : string) :
  c <> Ascii.zero -> d <> Ascii.zero ->
  String.prefix (String c (String d EmptyString)) s
  = chr_eq (char_at s 0) c && chr_eq (char_at s 1) d.
Proof.
  intros Hc Hd. unfold chr_eq, char_at. destruct s as [|a s']; simpl.
  - destruct (Ascii.eqb Ascii.zero c) eqn:E; [|reflexivity].
    apply Ascii.eqb_eq in E. congruence.
  - rewrite ascii_dec_eqb. destruct (Ascii.eqb a c); [|reflexivity]. simpl.
    destruct s' as [|b s'']; simpl.
    + destruct (Ascii.eqb Ascii.zero d) eqn:E; [|reflexivity].
      apply Ascii.eqb_eq in E. congruence.
    + rewrite ascii_dec_eqb. destruct s''; destruct (Ascii.eqb b d); reflexivity.
Qed.

Lemma selects_component_tests (ty nm : string) :
  selects_component ty nm =
  (chr_eq (char_at ty 0) "p" && chr_eq (char_at ty 1) "h"
   && (chr_eq (char_at nm 0) "b" && chr_eq (char_at nm 1) "i"
       || chr_eq (char_at nm 0) "b" && chr_eq (char_at nm 1) "u"))
  || (chr_eq (char_at ty 0) "s" && (chr_eq (char_at nm 0) "r" || chr_eq (char_at nm 0) "p"))
  || (chr_eq (char_at ty 0) "i" && (chr_eq (char_at nm 0) "m" || chr_eq (char_at nm 0) "s")).
Proof.
  unfold selects_component.
  rewrite !prefix2_char_at, !prefix1_char_at by discriminate.
  reflexivity.
Qed.

(** C8 (as the code has it): [switch_component] fails exactly when an
    argument is [NULL] or the leading characters of the role and of the name
    select no branch (role "ph.." with name "bi.."/"bu..", role "s.." with
    name "r.."/"p..", role "i.." with name "m.."/"s.."); whenever it fails
    the registry is left as it was. *)
Theorem switch_component_failure :
  forall (ty nm : option string) (r : kernel_registry),
    (fst (switch_component ty nm r) = -1 <->
     match ty, nm with
     | Some t, Some n => selects_component t n = false
     | _, _ => True
     end)
    /\ (fst (switch_component ty nm r) = -1 -> snd (switch_component ty nm r) = r).
Proof.
  intros [t|] [n|] r; simpl; try (split; [tauto | reflexivity]).
  rewrite selects_component_tests.
  repeat match goal with
         | |- context [chr_eq ?a ?b] => destruct (chr_eq a b) eqn:?
         end; simpl;
    (split; [split; intros; try reflexivity; try discriminate
            | try reflexivity; try (intros; discriminate)]);
    exfalso; unfold chr_eq in *;
    repeat match goal with
           | H : Ascii.eqb _ _ = true |- _ => apply Ascii.eqb_eq in H
           end; congruence.
Qed.

(** C8 (as stated) fails: the role "storage" and the name "raid" are not
    registry identifiers, yet the call succeeds and rebinds the scheduler. *)
Lemma switch_component_accepts_unknown :
  known_component "storage" "raid" = false
  /\ switch_component (Some "storage") (Some "raid") g_kernel_registry0
     = (0, mk_registry None None None (Some round_robin_scheduler_ops) None None 0).
Proof. split; reflexivity. Qed.

End RegistryProofs.

(** * More on the registry *)

Section RegistryMore.
Import Registry.
Local Open Scope string_scope.
Local Arguments Ascii.eqb : simpl never.

Ltac chr_facts :=
  unfold chr_eq in *;
  repeat match goal with
         | H : Ascii.eqb _ _ = true |- _ => apply Ascii.eqb_eq in H
         end.

Ltac rebound :=
  cbn; repeat split;
  try first [ reflexivity | congruence | left; reflexivity | right; left; reflexivity ].

(** X30: a switch rebinds one slot, to a built-in.  Whatever its arguments,
    [switch_component] never touches the virtual-memory, heap, loader and
    driver entries of the registry.  When it returns 0 it has rebound
    exactly one of the three other slots, the other two being as before,
    and the table now bound is one of the two built-ins of that role, one
    whose name starts with the first character of the requested name.
    Calling it again with the same arguments changes nothing more. *)
Theorem switch_component_rebinds_one_slot
        (ty nm : option string) (r : kernel_registry) :
  virtual_memory (snd (switch_component ty nm r)) = virtual_memory r
  /\ heap_allocator (snd (switch_component ty nm r)) = heap_allocator r
  /\ process_loader (snd (switch_component ty nm r)) = process_loader r
  /\ num_drivers (snd (switch_component ty nm r)) = num_drivers r
  /\ (fst (switch_component ty nm r) = 0 ->
      exists (n : string) (o : ops_table),
        nm = Some n /\ char_at (name o) 0 = char_at n 0
        /\ ((In o [bitmap_allocator_ops; buddy_allocator_ops]
             /\ physical_allocator (snd (switch_component ty nm r)) = Some o
             /\ scheduler (snd (switch_component ty nm r)) = scheduler r
             /\ ipc_transport (snd (switch_component ty nm r)) = ipc_transport r)
            \/ (In o [round_robin_scheduler_ops; priority_scheduler_ops]
                /\ scheduler (snd (switch_component ty nm r)) = Some o
                /\ physical_allocator (snd (switch_component ty nm r)) = physical_allocator r
                /\ ipc_transport (snd (switch_component ty nm r)) = ipc_transport r)
            \/ (In o [message_queue_ipc_ops; shared_memory_ipc_ops]
                /\ ipc_transport (snd (switch_component ty nm r)) = Some o
                /\ physical_allocator (snd (switch_component ty nm r)) = physical_allocator r
                /\ scheduler (snd (switch_component ty nm r)) = scheduler r)))
  /\ switch_component ty nm (snd (switch_component ty nm r)) = switch_component ty nm r.
Proof.
  destruct ty as [t|], nm as [n|]; cbn [switch_component];
    try (cbn [fst snd]; split; [reflexivity|]; split; [reflexivity|];
         split; [reflexivity|]; split; [reflexivity|];
         split; [intros; discriminate | reflexivity]).
  repeat match goal with
         | |- context [chr_eq ?a ?b] => destruct (chr_eq a b) eqn:?
         end; cbn [andb fst snd register_physical_allocator register_scheduler
                   register_ipc_transport virtual_memory heap_allocator process_loader
                   num_drivers physical_allocator scheduler ipc_transport];
    (split; [reflexivity|]); (split; [reflexivity|]); (split; [reflexivity|]);
    (split; [reflexivity|]); (split; [|reflexivity]);
    try (intros; discriminate); intros _; chr_facts; exists n.
  all: first
         [ solve [exists bitmap_allocator_ops; rebound; left; rebound]
         | solve [exists buddy_allocator_ops; rebound; left; rebound]
         | solve [exists round_robin_scheduler_ops; rebound; right; left; rebound]
         | solve [exists priority_scheduler_ops; rebound; right; left; rebound]
         | solve [exists message_queue_ipc_ops; rebound; right; right; rebound]
         | solve [exists shared_memory_ipc_ops; rebound; right; right; rebound] ].
Qed.

End RegistryMore.

(** * Properties of the bitmap allocator *)

Section BitmapProofs.
Import Bitmap.

Lemma page_addr_small (start p : Z) :
  0 <= start -> 0 <= p -> start + p * PAGE_SIZE < 4294967296 ->
  page_addr start p = start + p * PAGE_SIZE.
Proof.
  intros Hs Hp Hlt. unfold page_addr, PAGE_SIZE in *.
  rewrite (wrap32_small (p * 4096)) by lia. apply wrap32_small. lia.
Qed.

(** Freeing the address of a page of the region goes through the range
    checks and reaches the bitmap test for that page. *)
Lemma bitmap_free_page_addr (st : bitmap_state) (p : Z) :
  0 <= start_addr st -> 0 <= p -> start_addr st + p * PAGE_SIZE < 4294967296 ->
  bitmap_free_page (page_addr (start_addr st) p) st =
  if total_pages st <=? p then st
  else if is_page_free p st then st
       else with_free_pages (wrap32 (free_pages (set_page_free p st) + 1))
                            (set_page_free p st).
Proof.
  intros Hs Hp Hlt. rewrite page_addr_small by assumption.
  unfold bitmap_free_page.
  destruct (Z.ltb_spec (start_addr st + p * PAGE_SIZE) (start_addr st)) as [Hlt'|_].
  { unfold PAGE_SIZE in *. lia. }
  replace (start_addr st + p * PAGE_SIZE - start_addr st) with (p * PAGE_SIZE) by lia.
  rewrite wrap32_small by (unfold PAGE_SIZE in *; lia).
  unfold PAGE_SIZE. rewrite Z.div_mul by lia. reflexivity.
Qed.

(** C9 (as the code has it): on a 16-page region the four allocations return
    pages 1 to 4 (page 0 holds the bitmap); after page 2 is freed,
    [alloc_pages(2)] does not fail: it returns page 5, the first run of two
    free pages, and the following [alloc_pages(1)] returns the freed page. *)
Theorem bitmap_scenario_S2 :
  forall (start : Z) (st : bitmap_state),
    0 <= start -> start + 16 * PAGE_SIZE < 4294967296 ->
    fst (scenario_S2 start st) =
    [start + 1 * PAGE_SIZE; start + 2 * PAGE_SIZE; start + 3 * PAGE_SIZE;
     start + 4 * PAGE_SIZE; start + 5 * PAGE_SIZE; start + 2 * PAGE_SIZE].
Proof.
  intros start st Hs Hend.
  assert (Hp : forall p, 0 <= p <= 16 -> page_addr start p = start + p * PAGE_SIZE).
  { intros p Hp. apply page_addr_small; unfold PAGE_SIZE in *; lia. }
  rewrite <- !Hp by lia.
  unfold scenario_S2.
  assert (E0 : snd (bitmap_init start (start + 16 * PAGE_SIZE) st)
               = mk_state [1] 16 15 start PAGE_SIZE 0).
  { unfold bitmap_init.
    replace (start + 16 * PAGE_SIZE - start) with 65536 by (unfold PAGE_SIZE; lia).
    reflexivity. }
  rewrite E0.
  change (bitmap_alloc_page (mk_state [1] 16 15 start PAGE_SIZE 0))
    with (page_addr start 1, mk_state [3] 16 14 start PAGE_SIZE 1).
  cbv beta iota zeta.
  change (bitmap_alloc_page (mk_state [3] 16 14 start PAGE_SIZE 1))
    with (page_addr start 2, mk_state [7] 16 13 start PAGE_SIZE 2).
  cbv beta iota zeta.
  change (bitmap_alloc_page (mk_state [7] 16 13 start PAGE_SIZE 2))
    with (page_addr start 3, mk_state [15] 16 12 start PAGE_SIZE 3).
  cbv beta iota zeta.
  change (bitmap_alloc_page (mk_state [15] 16 12 start PAGE_SIZE 3))
    with (page_addr start 4, mk_state [31] 16 11 start PAGE_SIZE 4).
  cbv beta iota zeta.
  assert (E5 : bitmap_free_page (page_addr start 2) (mk_state [31] 16 11 start PAGE_SIZE 4)
               = mk_state [27] 16 12 start PAGE_SIZE 4).
  { change start with (start_addr (mk_state [31] 16 11 start PAGE_SIZE 4)) at 1.
    rewrite bitmap_free_page_addr by (cbn [start_addr]; unfold PAGE_SIZE in *; lia).
    reflexivity. }
  rewrite E5.
  change (bitmap_alloc_pages 2 (mk_state [27] 16 12 start PAGE_SIZE 4))
    with (page_addr start 5, mk_state [123] 16 10 start PAGE_SIZE 4).
  cbv beta iota zeta.
  change (bitmap_alloc_pages 1 (mk_state [123] 16 10 start PAGE_SIZE 4))
    with (page_addr start 2, mk_state [127] 16 9 start PAGE_SIZE 4).
  cbv beta iota zeta.
  reflexivity.
Qed.

Lemma bitmap_scenario_S2_witness :
  fst (scenario_S2 1048576 bitmap_state0) =
  [1048576 + 1 * PAGE_SIZE; 1048576 + 2 * PAGE_SIZE; 1048576 + 3 * PAGE_SIZE;
   1048576 + 4 * PAGE_SIZE; 1048576 + 5 * PAGE_SIZE; 1048576 + 2 * PAGE_SIZE].
Proof. apply (bitmap_scenario_S2 1048576 bitmap_state0); unfold PAGE_SIZE; lia. Defined.

(** C9 (as stated) fails: in the scenario, on the region starting at
    0x100000, [alloc_pages(2)] returns the non-zero address 0x105000. *)
Lemma bitmap_scenario_S2_alloc2_succeeds :
  nth 4 (fst (scenario_S2 1048576 bitmap_state0)) 0 = 1069056
  /\ nth 4 (fst (scenario_S2 1048576 bitmap_state0)) 0 <> 0.
Proof. split; [vm_compute; reflexivity | vm_compute; discriminate]. Qed.

End BitmapProofs.

(** * More on the bitmap allocator *)

Section BitmapMore.
Import Bitmap.

(** ** Bits *)

Lemma land_bit_zero (w b : Z) :
  0 <= b -> (Z.land w (Z.shiftl 1 b) =? 0) = negb (Z.testbit w b).
Proof.
  intros Hb. rewrite Z.shiftl_1_l. destruct (Z.testbit w b) eqn:E; cbn [negb].
  - apply Z.eqb_neq. intros H. apply (f_equal (fun z => Z.testbit z b)) in H.
    rewrite Z.land_spec, Z.pow2_bits_true, E, Z.bits_0 in H; [discriminate|lia].
  - apply Z.eqb_eq. apply Z.bits_inj'. intros n Hn.
    rewrite Z.land_spec, Z.bits_0, Z.pow2_bits_eqb by lia.
    destruct (Z.eqb_spec b n) as [->|_]; [now rewrite E|apply andb_false_r].
Qed.

Lemma is_page_free_testbit st (p : Z) :
  0 <= p ->
  is_page_free p st
  = negb (Z.testbit (word_at (bitmap st) (p / PAGES_PER_WORD)) (p mod PAGES_PER_WORD)).
Proof.
  intros Hp. unfold is_page_free. cbv zeta. apply land_bit_zero.
  apply Z.mod_pos_bound. reflexivity.
Qed.

Lemma word_at_insert (bm : list Z) (i j w : Z) :
  0 <= i -> 0 <= j -> (Z.to_nat i < length bm)%nat ->
  word_at (<[Z.to_nat i := w]> bm) j = if i =? j then w else word_at bm j.
Proof.
  intros Hi Hj Hlt. unfold word_at. destruct (Z.eqb_spec i j) as [->|Hne].
  - now rewrite list_lookup_insert_eq.
  - rewrite list_lookup_insert_ne; [reflexivity|]. lia.
Qed.

Lemma page_split (p q : Z) :
  p / PAGES_PER_WORD = q / PAGES_PER_WORD ->
  p mod PAGES_PER_WORD = q mod PAGES_PER_WORD -> p = q.
Proof.
  change PAGES_PER_WORD with 32. intros Hd Hm.
  rewrite (Z.div_mod p 32), (Z.div_mod q 32) by lia. now rewrite Hd, Hm.
Qed.

Lemma bit_idx_range (p : Z) : 0 <= p mod PAGES_PER_WORD < 32.
Proof. apply Z.mod_pos_bound. reflexivity. Qed.

Lemma word_idx_range st (p : Z) :
  wf st -> 0 <= p < total_pages st ->
  0 <= p / PAGES_PER_WORD /\ (Z.to_nat (p / PAGES_PER_WORD) < length (bitmap st))%nat.
Proof.
  intros (_ & Hlen & _ & _) Hp. revert Hlen. change PAGES_PER_WORD with 32. intros Hlen.
  assert (0 <= p / 32) by (apply Z.div_pos; lia).
  assert (p / 32 < Z.of_nat (length (bitmap st))) by (apply Z.div_lt_upper_bound; lia).
  split; lia.
Qed.

(** ** One bit set or cleared *)

Lemma is_page_free_set_used st (p q : Z) :
  0 <= p -> 0 <= q -> (Z.to_nat (p / PAGES_PER_WORD) < length (bitmap st))%nat ->
  is_page_free q (set_page_used p st) = if q =? p then false else is_page_free q st.
Proof.
  intros Hp Hq Hlt. rewrite !is_page_free_testbit by assumption.
  unfold set_page_used. cbv zeta. cbn [bitmap with_bitmap].
  assert (Hpd : 0 <= p / PAGES_PER_WORD) by (apply Z.div_pos; [lia|reflexivity]).
  assert (Hqd : 0 <= q / PAGES_PER_WORD) by (apply Z.div_pos; [lia|reflexivity]).
  pose proof (bit_idx_range p) as Hpb. pose proof (bit_idx_range q) as Hqb.
  rewrite word_at_insert by assumption.
  destruct (Z.eqb_spec (p / PAGES_PER_WORD) (q / PAGES_PER_WORD)) as [Hd|Hd].
  - rewrite Z.lor_spec, Z.shiftl_1_l, Z.pow2_bits_eqb by lia. rewrite <- Hd.
    destruct (Z.eqb_spec (p mod PAGES_PER_WORD) (q mod PAGES_PER_WORD)) as [Hm|Hm].
    + rewrite (page_split p q Hd Hm), Z.eqb_refl. now rewrite orb_true_r.
    + rewrite orb_false_r. destruct (Z.eqb_spec q p) as [->|_]; [congruence|reflexivity].
  - destruct (Z.eqb_spec q p) as [->|_]; [congruence|reflexivity].
Qed.

Lemma testbit_uint32_max (n : Z) : 0 <= n < 32 -> Z.testbit UINT32_MAX n = true.
Proof.
  intros Hn. change UINT32_MAX with (Z.ones 32). apply Z.ones_spec_low. lia.
Qed.

Lemma is_page_free_set_free st (p q : Z) :
  0 <= p -> 0 <= q -> (Z.to_nat (p / PAGES_PER_WORD) < length (bitmap st))%nat ->
  is_page_free q (set_page_free p st) = if q =? p then true else is_page_free q st.
Proof.
  intros Hp Hq Hlt. rewrite !is_page_free_testbit by assumption.
  unfold set_page_free. cbv zeta. cbn [bitmap with_bitmap].
  assert (Hpd : 0 <= p / PAGES_PER_WORD) by (apply Z.div_pos; [lia|reflexivity]).
  assert (Hqd : 0 <= q / PAGES_PER_WORD) by (apply Z.div_pos; [lia|reflexivity]).
  pose proof (bit_idx_range p) as Hpb. pose proof (bit_idx_range q) as Hqb.
  rewrite word_at_insert by assumption.
  destruct (Z.eqb_spec (p / PAGES_PER_WORD) (q / PAGES_PER_WORD)) as [Hd|Hd].
  - rewrite Z.land_spec, Z.lxor_spec, Z.shiftl_1_l, Z.pow2_bits_eqb by lia.
    rewrite testbit_uint32_max by lia. rewrite <- Hd.
    destruct (Z.eqb_spec (p mod PAGES_PER_WORD) (q mod PAGES_PER_WORD)) as [Hm|Hm].
    + rewrite (page_split p q Hd Hm), Z.eqb_refl. cbn [xorb]. now rewrite andb_false_r.
    + cbn [xorb]. rewrite andb_true_r.
      destruct (Z.eqb_spec q p) as [->|_]; [congruence|reflexivity].
  - destruct (Z.eqb_spec q p) as [->|_]; [congruence|reflexivity].
Qed.

(** ** Well-formedness is kept *)

Lemma wf_set_page_used st (p : Z) : wf st -> wf (set_page_used p st).
Proof.
  intros (Ht & Hlen & Hw & Hla). unfold set_page_used. cbv zeta.
  split; [exact Ht|]. cbn [bitmap with_bitmap total_pages last_allocated].
  split; [now rewrite length_insert|]. split; [|exact Hla].
  destruct (decide (Z.to_nat (p / PAGES_PER_WORD) < length (bitmap st))%nat) as [Hlt|Hge].
  - apply Forall_insert; [exact Hw|].
    assert (Hb : 0 <= word_at (bitmap st) (p / PAGES_PER_WORD) < 2 ^ 32).
    { unfold word_at. destruct (lookup_lt_is_Some_2 _ _ Hlt) as [w Hl]. rewrite Hl.
      cbn [default from_option]. now apply (Forall_lookup_1 _ _ _ _ Hw Hl). }
    pose proof (bit_idx_range p) as Hpb.
    assert (Hs : 0 <= Z.shiftl 1 (p mod PAGES_PER_WORD) < 2 ^ 32).
    { rewrite Z.shiftl_1_l. split; [apply Z.pow_nonneg; lia|].
      apply Z.pow_lt_mono_r; lia. }
    split.
    + apply Z.lor_nonneg. lia.
    + destruct (Z.eq_dec (Z.lor (word_at (bitmap st) (p / PAGES_PER_WORD))
                                (Z.shiftl 1 (p mod PAGES_PER_WORD))) 0) as [->|Hnz];
        [reflexivity|].
      change 4294967296 with (2 ^ 32). apply Z.log2_lt_pow2.
      * assert (0 <= Z.lor (word_at (bitmap st) (p / PAGES_PER_WORD))
                           (Z.shiftl 1 (p mod PAGES_PER_WORD))) by (apply Z.lor_nonneg; lia).
        lia.
      * rewrite Z.log2_lor by lia.
        apply Z.max_lub_lt.
        -- destruct (Z.eq_dec (word_at (bitmap st) (p / PAGES_PER_WORD)) 0) as [->|Hw0];
             [reflexivity|]. apply Z.log2_lt_pow2; lia.
        -- rewrite Z.shiftl_1_l, Z.log2_pow2 by lia. lia.
  - rewrite list_insert_ge by lia. exact Hw.
Qed.

Lemma wf_set_page_free st (p : Z) : wf st -> wf (set_page_free p st).
Proof.
  intros (Ht & Hlen & Hw & Hla). unfold set_page_free. cbv zeta.
  split; [exact Ht|]. cbn [bitmap with_bitmap total_pages last_allocated].
  split; [now rewrite length_insert|]. split; [|exact Hla].
  destruct (decide (Z.to_nat (p / PAGES_PER_WORD) < length (bitmap st))%nat) as [Hlt|Hge].
  - apply Forall_insert; [exact Hw|].
    assert (Hb : 0 <= word_at (bitmap st) (p / PAGES_PER_WORD) < 4294967296).
    { unfold word_at. destruct (lookup_lt_is_Some_2 _ _ Hlt) as [w Hl]. rewrite Hl.
      cbn [default from_option]. now apply (Forall_lookup_1 _ _ _ _ Hw Hl). }
    split.
    + apply Z.land_nonneg. left. lia.
    + pose proof (bit_idx_range p) as Hpb.
      assert (Hm : 0 <= Z.lxor UINT32_MAX (Z.shiftl 1 (p mod PAGES_PER_WORD))).
      { apply Z.lxor_nonneg. split; intros _; [|unfold UINT32_MAX; lia].
        rewrite Z.shiftl_1_l. apply Z.pow_nonneg. lia. }
      set (m := Z.lxor UINT32_MAX (Z.shiftl 1 (p mod PAGES_PER_WORD))) in *.
      set (w := word_at (bitmap st) (p / PAGES_PER_WORD)) in *.
      assert (H0 : 0 <= Z.land w m) by (apply Z.land_nonneg; left; lia).
      destruct (Z.eq_dec (Z.land w m) 0) as [->|Hnz]; [reflexivity|].
      destruct (Z.eq_dec w 0) as [Hw0|Hw0]; [rewrite Hw0, Z.land_0_l in Hnz; congruence|].
      change 4294967296 with (2 ^ 32). apply Z.log2_lt_pow2; [lia|].
      pose proof (Z.log2_land w m) as Hl.
      assert (Z.log2 w < 32) by (apply Z.log2_lt_pow2; lia). lia.
  - rewrite list_insert_ge by lia. exact Hw.
Qed.

(** ** Counting free pages *)

Lemma count_free_upto_ext st st' (n : nat) :
  bitmap st' = bitmap st -> count_free_upto st' n = count_free_upto st n.
Proof.
  intros H. induction n as [|n IH]; [reflexivity|].
  cbn [count_free_upto]. rewrite IH. unfold is_page_free. now rewrite H.
Qed.

Lemma count_free_upto_range st (n : nat) : 0 <= count_free_upto st n <= Z.of_nat n.
Proof.
  induction n as [|n IH]; cbn [count_free_upto]; [lia|].
  destruct (is_page_free (Z.of_nat n) st); lia.
Qed.

Lemma count_free_upto_pos st (n : nat) (p : Z) :
  0 <= p < Z.of_nat n -> is_page_free p st = true -> 0 < count_free_upto st n.
Proof.
  induction n as [|n IH]; intros Hp Hf; [lia|]. cbn [count_free_upto].
  pose proof (count_free_upto_range st n).
  destruct (Z.eq_dec p (Z.of_nat n)) as [->|Hne].
  - rewrite Hf. lia.
  - assert (0 < count_free_upto st n) by (apply IH; [lia|exact Hf]).
    destruct (is_page_free (Z.of_nat n) st); lia.
Qed.

Lemma count_free_upto_none st (n : nat) :
  (forall q, 0 <= q < Z.of_nat n -> is_page_free q st = false) ->
  count_free_upto st n = 0.
Proof.
  induction n as [|n IH]; intros H; [reflexivity|]. cbn [count_free_upto].
  rewrite (H (Z.of_nat n)) by lia. rewrite IH; [reflexivity|].
  intros q Hq. apply H. lia.
Qed.

(** Flipping the bit of one page moves the count by one. *)
Lemma count_free_upto_flip st st' (p : Z) (b : bool) (n : nat) :
  0 <= p ->
  (forall q, 0 <= q -> is_page_free q st' = if q =? p then b else is_page_free q st) ->
  count_free_upto st' n
  = count_free_upto st n
    + (if p <? Z.of_nat n then (if b then 1 else 0) - (if is_page_free p st then 1 else 0)
       else 0).
Proof.
  intros Hp H. induction n as [|n IH].
  - cbn [count_free_upto]. destruct (Z.ltb_spec p (Z.of_nat 0)); lia.
  - cbn [count_free_upto]. rewrite IH, (H (Z.of_nat n)) by lia.
    destruct (Z.eqb_spec (Z.of_nat n) p) as [<-|Hne].
    + destruct (Z.ltb_spec (Z.of_nat n) (Z.of_nat n)); [lia|].
      destruct (Z.ltb_spec (Z.of_nat n) (Z.of_nat (S n))); [|lia].
      destruct b, (is_page_free (Z.of_nat n) st); lia.
    + destruct (Z.ltb_spec p (Z.of_nat n)), (Z.ltb_spec p (Z.of_nat (S n))); lia.
Qed.

(** ** The scans *)

Lemma scan_free_Some st (n : nat) :
  forall (from p : Z),
    scan_free st from n = Some p ->
    from <= p < from + Z.of_nat n
    /\ is_page_free p st = true
    /\ forall q, from <= q < p -> is_page_free q st = false.
Proof.
  induction n as [|n IH]; intros from p H; cbn [scan_free] in H; [discriminate|].
  destruct (is_page_free from st) eqn:E.
  - injection H as <-. split; [lia|]. split; [exact E|]. intros q Hq. lia.
  - destruct (IH _ _ H) as (Hr & Hf & Hb). split; [lia|]. split; [exact Hf|].
    intros q Hq. destruct (Z.eq_dec q from) as [->|Hne]; [exact E|]. apply Hb. lia.
Qed.

Lemma scan_free_None st (n : nat) :
  forall (from : Z),
    scan_free st from n = None ->
    forall q, from <= q < from + Z.of_nat n -> is_page_free q st = false.
Proof.
  induction n as [|n IH]; intros from H q Hq; [lia|]. cbn [scan_free] in H.
  destruct (is_page_free from st) eqn:E; [discriminate|].
  destruct (Z.eq_dec q from) as [->|Hne]; [exact E|]. apply (IH _ H). lia.
Qed.

(** [find_free_page] is a next-fit search: the first free page from the
    starting position on, else the first free page below it, else
    [0xFFFFFFFF]. *)
Lemma find_free_page_spec st (s : Z) :
  0 <= s <= total_pages st -> total_pages st <= 1048576 ->
  (find_free_page s st = 4294967295
   /\ forall q, 0 <= q < total_pages st -> is_page_free q st = false)
  \/ (0 <= find_free_page s st < total_pages st
      /\ is_page_free (find_free_page s st) st = true
      /\ (s <= find_free_page s st ->
          forall q, s <= q < find_free_page s st -> is_page_free q st = false)
      /\ (find_free_page s st < s ->
          forall q, s <= q < total_pages st \/ 0 <= q < find_free_page s st ->
                    is_page_free q st = false)).
Proof.
  intros Hs Ht. unfold find_free_page.
  destruct (scan_free st s (Z.to_nat (total_pages st - s))) as [p|] eqn:E1.
  - right. destruct (scan_free_Some _ _ _ _ E1) as (Hr & Hf & Hb).
    split; [lia|]. split; [exact Hf|]. split; [intros _; exact Hb|]. lia.
  - pose proof (scan_free_None _ _ _ E1) as Hn1.
    destruct (scan_free st 0 (Z.to_nat s)) as [p|] eqn:E2.
    + right. destruct (scan_free_Some _ _ _ _ E2) as (Hr & Hf & Hb).
      split; [lia|]. split; [exact Hf|]. split; [lia|].
      intros _ q [Hq|Hq]; [apply Hn1; lia|apply Hb; lia].
    + left. pose proof (scan_free_None _ _ _ E2) as Hn2. split; [reflexivity|].
      intros q Hq. destruct (Z.lt_ge_cases q s); [apply Hn2; lia|apply Hn1; lia].
Qed.

(** ** Page addresses *)

Lemma page_addr_exact st (p : Z) :
  wf st -> region_ok st -> 0 <= p < total_pages st ->
  page_addr (start_addr st) p = start_addr st + p * PAGE_SIZE
  /\ start_addr st <= page_addr (start_addr st) p < 4294967296
  /\ wrap32 (page_addr (start_addr st) p - start_addr st) / PAGE_SIZE = p.
Proof.
  intros (Ht & _) (Hs & He) Hp. unfold page_addr. revert He.
  change PAGE_SIZE with 4096. intros He.
  rewrite (wrap32_small (p * 4096)) by lia.
  rewrite (wrap32_small (start_addr st + p * 4096)) by lia.
  split; [reflexivity|]. split; [lia|].
  replace (start_addr st + p * 4096 - start_addr st) with (p * 4096) by lia.
  rewrite wrap32_small by lia. apply Z.div_mul. lia.
Qed.

(** ** [bitmap_alloc_page] *)

Lemma count_free_set_used st (p : Z) :
  wf st -> 0 <= p < total_pages st -> is_page_free p st = true ->
  count_free (set_page_used p st) = count_free st - 1.
Proof.
  intros Hwf Hp Hf. unfold count_free.
  change (total_pages (set_page_used p st)) with (total_pages st).
  destruct (word_idx_range st p Hwf Hp) as [_ Hlt].
  rewrite (count_free_upto_flip st _ p false); [|lia|].
  - rewrite Hf. destruct (Z.ltb_spec p (Z.of_nat (Z.to_nat (total_pages st)))); lia.
  - intros q Hq. apply is_page_free_set_used; [lia|exact Hq|exact Hlt].
Qed.

Lemma count_free_set_free st (p : Z) :
  wf st -> 0 <= p < total_pages st -> is_page_free p st = false ->
  count_free (set_page_free p st) = count_free st + 1.
Proof.
  intros Hwf Hp Hf. unfold count_free.
  change (total_pages (set_page_free p st)) with (total_pages st).
  destruct (word_idx_range st p Hwf Hp) as [_ Hlt].
  rewrite (count_free_upto_flip st _ p true); [|lia|].
  - rewrite Hf. destruct (Z.ltb_spec p (Z.of_nat (Z.to_nat (total_pages st)))); lia.
  - intros q Hq. apply is_page_free_set_free; [lia|exact Hq|exact Hlt].
Qed.

Lemma count_free_range st : wf st -> 0 <= count_free st <= total_pages st.
Proof.
  intros (Ht & _). unfold count_free.
  pose proof (count_free_upto_range st (Z.to_nat (total_pages st))). lia.
Qed.

Lemma count_free_with_free_pages (v : Z) st :
  count_free (with_free_pages v st) = count_free st.
Proof. unfold count_free. now apply count_free_upto_ext. Qed.

Lemma count_free_with_last_allocated (v : Z) st :
  count_free (with_last_allocated v st) = count_free st.
Proof. unfold count_free. now apply count_free_upto_ext. Qed.

Lemma wf_with_free_pages (v : Z) st : wf st -> wf (with_free_pages v st).
Proof. intros H. exact H. Qed.

(** What a successful call does, and that in a consistent state the call
    fails only when the counter is zero. *)
Lemma bitmap_alloc_page_cases st :
  consistent st ->
  (free_pages st = 0 /\ bitmap_alloc_page st = (0, st))
  \/ (free_pages st <> 0
      /\ 0 <= find_free_page (last_allocated st) st < total_pages st
      /\ is_page_free (find_free_page (last_allocated st) st) st = true
      /\ bitmap_alloc_page st
         = (page_addr (start_addr st) (find_free_page (last_allocated st) st),
            with_last_allocated (find_free_page (last_allocated st) st)
              (with_free_pages (free_pages st - 1)
                 (set_page_used (find_free_page (last_allocated st) st) st)))).
Proof.
  intros [Hwf Hc]. unfold bitmap_alloc_page.
  destruct (Z.eqb_spec (free_pages st) 0) as [H0|H0]; [left; auto|].
  right. pose proof Hwf as (Ht & _ & _ & Hla).
  destruct (find_free_page_spec st (last_allocated st) Hla) as [[_ Hnone]|(Hr & Hf & _)];
    [lia| |].
  - exfalso. apply H0. rewrite Hc. unfold count_free.
    apply count_free_upto_none. intros q Hq. apply Hnone. lia.
  - set (p := find_free_page (last_allocated st) st) in *.
    destruct (Z.eqb_spec p 4294967295) as [Hp|_]; [lia|].
    split; [exact H0|]. split; [exact Hr|]. split; [exact Hf|].
    cbv zeta. unfold page_addr. f_equal.
    change (free_pages (set_page_used p st)) with (free_pages st).
    rewrite wrap32_small; [reflexivity|].
    pose proof (count_free_range st Hwf). lia.
Qed.

Lemma consistent_alloc_step st (p : Z) :
  consistent st -> 0 <= p < total_pages st -> is_page_free p st = true ->
  consistent (with_last_allocated p (with_free_pages (free_pages st - 1)
                                                     (set_page_used p st))).
Proof.
  intros [Hwf Hc] Hp Hf. split.
  - destruct (wf_set_page_used st p Hwf) as (A & B & C & D).
    split; [exact A|]. split; [exact B|]. split; [exact C|].
    cbn [last_allocated with_last_allocated total_pages]. 
    change (total_pages (with_free_pages (free_pages st - 1) (set_page_used p st)))
      with (total_pages st). lia.
  - rewrite count_free_with_last_allocated, count_free_with_free_pages.
    rewrite (count_free_set_used st p Hwf Hp Hf). cbn [free_pages with_last_allocated
      with_free_pages]. lia.
Qed.

(** ** [bitmap_free_page] *)

Lemma bitmap_free_page_cases st (a : Z) :
  (bitmap_free_page a st = st
   /\ (a < start_addr st
       \/ total_pages st <= wrap32 (a - start_addr st) / PAGE_SIZE
       \/ is_page_free (wrap32 (a - start_addr st) / PAGE_SIZE) st = true))
  \/ (start_addr st <= a
      /\ 0 <= wrap32 (a - start_addr st) / PAGE_SIZE < total_pages st
      /\ is_page_free (wrap32 (a - start_addr st) / PAGE_SIZE) st = false
      /\ bitmap_free_page a st
         = with_free_pages (wrap32 (free_pages st + 1))
             (set_page_free (wrap32 (a - start_addr st) / PAGE_SIZE) st)).
Proof.
  unfold bitmap_free_page.
  destruct (Z.ltb_spec a (start_addr st)); [left; auto|]. cbv zeta.
  destruct (Z.leb_spec (total_pages st) (wrap32 (a - start_addr st) / PAGE_SIZE));
    [left; auto|].
  destruct (is_page_free (wrap32 (a - start_addr st) / PAGE_SIZE) st) eqn:E;
    [left; auto|].
  right. split; [assumption|]. split; [|auto].
  split; [|assumption]. apply Z.div_pos; [|reflexivity].
  pose proof (wrap32_range (a - start_addr st)). lia.
Qed.

Lemma consistent_free_page st (a : Z) :
  consistent st -> consistent (bitmap_free_page a st).
Proof.
  intros [Hwf Hc].
  destruct (bitmap_free_page_cases st a) as [[-> _]|(Ha & Hp & Hf & ->)];
    [split; assumption|].
  set (p := wrap32 (a - start_addr st) / PAGE_SIZE) in *.
  split.
  - apply wf_with_free_pages, wf_set_page_free, Hwf.
  - rewrite count_free_with_free_pages, (count_free_set_free st p Hwf Hp Hf).
    cbn [free_pages with_free_pages].
    pose proof (count_free_range (set_page_free p st) (wf_set_page_free st p Hwf)) as Hr.
    rewrite (count_free_set_free st p Hwf Hp Hf) in Hr.
    change (total_pages (set_page_free p st)) with (total_pages st) in Hr.
    destruct Hwf as (Ht & _). rewrite wrap32_small; lia.
Qed.

Lemma land_lor_restore (w b : Z) :
  0 <= w < 4294967296 -> 0 <= b < 32 -> Z.testbit w b = false ->
  Z.land (Z.lor w (Z.shiftl 1 b)) (Z.lxor UINT32_MAX (Z.shiftl 1 b)) = w.
Proof.
  intros Hw Hb Hbit. apply Z.bits_inj'. intros n Hn.
  rewrite Z.land_spec, Z.lor_spec, Z.lxor_spec, Z.shiftl_1_l, Z.pow2_bits_eqb by lia.
  destruct (Z.eqb_spec b n) as [->|Hne].
  - rewrite Hbit, testbit_uint32_max by lia. reflexivity.
  - rewrite orb_false_r. cbn [xorb].
    destruct (Z.lt_ge_cases n 32) as [Hlt|Hge].
    + rewrite testbit_uint32_max by lia. cbn [xorb]. apply andb_true_r.
    + assert (Hhi : Z.testbit w n = false).
      { destruct (Z.eq_dec w 0) as [->|Hw0]; [apply Z.bits_0|].
        apply Z.bits_above_log2; [lia|].
        assert (Z.log2 w < 32) by (apply Z.log2_lt_pow2; lia). lia. }
      now rewrite Hhi.
Qed.

(** ** Runs of pages *)

Lemma run_is_free_true st (n : nat) :
  forall (from : Z),
    run_is_free st from n = true <->
    (forall q, from <= q < from + Z.of_nat n -> is_page_free q st = true).
Proof.
  induction n as [|n IH]; intros from; cbn [run_is_free].
  - split; [intros _ q Hq; lia|reflexivity].
  - destruct (is_page_free from st) eqn:E.
    + rewrite IH. split; intros H q Hq.
      * destruct (Z.eq_dec q from) as [->|Hne]; [exact E|]. apply H. lia.
      * apply H. lia.
    + split; [discriminate|]. intros H. rewrite <- E. apply H. lia.
Qed.

(** Marking a run of free pages: the pages of the run become used, no other
    page changes, and the counter goes down by the length of the run. *)
Lemma mark_used_run (n : nat) :
  forall (from : Z) st,
    consistent st -> 0 <= from -> from + Z.of_nat n <= total_pages st ->
    run_is_free st from n = true ->
    consistent (mark_used from n st)
    /\ free_pages (mark_used from n st) = free_pages st - Z.of_nat n
    /\ total_pages (mark_used from n st) = total_pages st
    /\ start_addr (mark_used from n st) = start_addr st
    /\ last_allocated (mark_used from n st) = last_allocated st
    /\ forall q, 0 <= q ->
         is_page_free q (mark_used from n st)
         = if (from <=? q) && (q <? from + Z.of_nat n) then false else is_page_free q st.
Proof.
  induction n as [|n IH]; intros from st Hc Hfrom Hend Hrun.
  - cbn [mark_used]. split; [exact Hc|]. split; [cbn; lia|]. repeat split.
    intros q Hq. destruct (Z.leb_spec from q), (Z.ltb_spec q (from + Z.of_nat 0));
      cbn [andb]; try reflexivity; lia.
  - cbn [mark_used]. cbv zeta.
    destruct Hc as [Hwf Hcnt].
    assert (Hf : is_page_free from st = true).
    { apply (proj1 (run_is_free_true st (S n) from) Hrun). lia. }
    assert (Hp : 0 <= from < total_pages st) by lia.
    destruct (word_idx_range st from Hwf Hp) as [_ Hlt].
    pose proof (count_free_set_used st from Hwf Hp Hf) as Hcu.
    pose proof (count_free_range _ (wf_set_page_used st from Hwf)) as Hr.
    change (total_pages (set_page_used from st)) with (total_pages st) in Hr.
    change (free_pages (set_page_used from st)) with (free_pages st).
    set (st1 := with_free_pages (wrap32 (free_pages st - 1)) (set_page_used from st)).
    assert (Hw1 : wrap32 (free_pages st - 1) = free_pages st - 1).
    { destruct Hwf as (Ht & _). apply wrap32_small. lia. }
    assert (Hc1 : consistent st1).
    { split; [apply wf_with_free_pages, wf_set_page_used, Hwf|].
      unfold st1. rewrite count_free_with_free_pages. cbn [free_pages with_free_pages]. lia. }
    assert (Hfree1 : forall q, 0 <= q ->
              is_page_free q st1 = if q =? from then false else is_page_free q st).
    { intros q Hq. change (is_page_free q st1) with (is_page_free q (set_page_used from st)).
      apply is_page_free_set_used; [lia|exact Hq|exact Hlt]. }
    destruct (IH (from + 1) st1 Hc1) as (Hc' & Hfp & Htp & Hsa & Hla & Hbits).
    { lia. }
    { change (total_pages st1) with (total_pages st). lia. }
    { apply run_is_free_true. intros q Hq. rewrite Hfree1 by lia.
      destruct (Z.eqb_spec q from); [lia|].
      apply (proj1 (run_is_free_true st (S n) from) Hrun). lia. }
    split; [exact Hc'|]. split.
    { rewrite Hfp. unfold st1. cbn [free_pages with_free_pages]. lia. }
    split; [exact Htp|]. split; [exact Hsa|]. split; [exact Hla|].
    intros q Hq. rewrite Hbits, Hfree1 by assumption.
    destruct (Z.leb_spec (from + 1) q), (Z.ltb_spec q (from + 1 + Z.of_nat n)),
      (Z.leb_spec from q), (Z.ltb_spec q (from + Z.of_nat (S n))), (Z.eqb_spec q from);
      cbn [andb]; try reflexivity; lia.
Qed.

(** ** [bitmap_init] *)

Lemma count_free_upto_all st (n : nat) :
  (forall q, 0 <= q < Z.of_nat n -> is_page_free q st = true) ->
  count_free_upto st n = Z.of_nat n.
Proof.
  induction n as [|n IH]; intros H; [reflexivity|]. cbn [count_free_upto].
  rewrite (H (Z.of_nat n)) by lia. rewrite IH; [lia|]. intros q Hq. apply H. lia.
Qed.

Lemma is_page_free_zeros (k : nat) (t f s ps la q : Z) :
  is_page_free q (mk_state (replicate k 0) t f s ps la) = true.
Proof.
  unfold is_page_free. cbv zeta. cbn [bitmap]. unfold word_at.
  destruct (replicate k 0 !! Z.to_nat (q / PAGES_PER_WORD)) as [w|] eqn:E.
  - apply lookup_replicate in E as [-> _]. reflexivity.
  - reflexivity.
Qed.

Lemma bitmap_init_consistent (s e : Z) st : consistent (snd (bitmap_init s e st)).
Proof.
  unfold bitmap_init. cbv zeta. cbn [snd].
  pose proof (wrap32_range (e - s)) as Hw.
  set (total := wrap32 (e - s) / PAGE_SIZE).
  assert (Ht : 0 <= total < 1048576).
  { unfold total. change PAGE_SIZE with 4096. split.
    - apply Z.div_pos; lia.
    - apply Z.div_lt_upper_bound; lia. }
  assert (Hbs : wrap32 (total + PAGES_PER_WORD - 1) / PAGES_PER_WORD = (total + 31) / 32).
  { change PAGES_PER_WORD with 32. rewrite wrap32_small by lia. f_equal. lia. }
  rewrite Hbs. set (bs := (total + 31) / 32).
  assert (Hbs1 : 0 <= bs /\ total <= bs * 32 /\ bs <= 32768 /\ (1 <= total -> bs <= total)).
  { unfold bs. Z.div_mod_to_equations. lia. }
  assert (Hbp : wrap32 (wrap32 (bs * 4) + PAGE_SIZE - 1) / PAGE_SIZE = (bs * 4 + 4095) / 4096).
  { change PAGE_SIZE with 4096. rewrite (wrap32_small (bs * 4)) by lia.
    rewrite wrap32_small by lia. f_equal. lia. }
  rewrite Hbp. set (bp := (bs * 4 + 4095) / 4096).
  assert (Hbp1 : 0 <= bp <= total).
  { unfold bp. destruct (Z.eq_dec total 0) as [H0|H0].
    - assert (bs = 0) by (unfold bs; rewrite H0; reflexivity).
      Z.div_mod_to_equations. lia.
    - Z.div_mod_to_equations. lia. }
  set (st1 := mk_state (replicate (Z.to_nat bs) 0) total total s PAGE_SIZE 0).
  assert (Hc1 : consistent st1).
  { split.
    - split; [cbn [total_pages st1]; lia|]. split.
      + cbn [total_pages bitmap st1]. rewrite length_replicate.
        change PAGES_PER_WORD with 32. lia.
      + split; [|cbn [last_allocated total_pages st1]; lia].
        cbn [bitmap st1]. apply Forall_replicate. lia.
    - unfold count_free. cbn [free_pages total_pages st1].
      rewrite count_free_upto_all; [lia|]. intros q _. apply is_page_free_zeros. }
  apply (mark_used_run (Z.to_nat bp) 0 st1 Hc1); [lia|cbn [total_pages st1]; lia|].
  apply run_is_free_true. intros q _. apply is_page_free_zeros.
Qed.

(** ** [bitmap_alloc_pages] *)

Lemma search_run_spec (count : Z) (n : nat) :
  forall (start : Z) st,
    consistent st -> 0 < count -> 0 <= start ->
    start + Z.of_nat n = total_pages st - count + 1 ->
    (search_run count start n st = (0, st)
     /\ forall s, start <= s <= total_pages st - count ->
                  run_is_free st s (Z.to_nat count) = false)
    \/ (exists s,
          start <= s /\ s + count <= total_pages st
          /\ run_is_free st s (Z.to_nat count) = true
          /\ (forall s', start <= s' < s -> run_is_free st s' (Z.to_nat count) = false)
          /\ search_run count start n st
             = (page_addr (start_addr st) s, mark_used s (Z.to_nat count) st)).
Proof.
  induction n as [|n IH]; intros start st Hc Hcount Hstart Hn.
  - left. cbn [search_run]. split; [reflexivity|]. intros s Hs. lia.
  - cbn [search_run]. destruct (run_is_free st start (Z.to_nat count)) eqn:E.
    + right. exists start. split; [lia|]. split; [lia|]. split; [exact E|].
      split; [intros s' Hs'; lia|]. cbv zeta. unfold page_addr. f_equal. f_equal.
      destruct (mark_used_run (Z.to_nat count) start st Hc) as (_ & _ & _ & Hsa & _);
        [lia|lia|exact E|]. now rewrite Hsa.
    + destruct (IH (start + 1) st Hc Hcount) as [[Hr Hnone]|(s & Hs1 & Hs2 & Hs3 & Hs4 & Hr)];
        [lia|lia| |].
      * left. split; [exact Hr|]. intros s Hs.
        destruct (Z.eq_dec s start) as [->|Hne]; [exact E|]. apply Hnone. lia.
      * right. exists s. split; [lia|]. split; [exact Hs2|]. split; [exact Hs3|].
        split; [|exact Hr]. intros s' Hs'.
        destruct (Z.eq_dec s' start) as [->|Hne]; [exact E|]. apply Hs4. lia.
Qed.

Lemma bitmap_alloc_pages_consistent (count : Z) st :
  consistent st -> consistent (snd (bitmap_alloc_pages count st)).
Proof.
  intros Hc. unfold bitmap_alloc_pages.
  destruct ((count =? 0) || (free_pages st <? count)) eqn:E; [exact Hc|].
  apply orb_false_iff in E as [E0 E1]. apply Z.eqb_neq in E0. apply Z.ltb_ge in E1.
  destruct (Z.lt_ge_cases 0 count) as [Hpos|Hneg].
  - pose proof Hc as [Hwf Hcnt]. pose proof (count_free_range st Hwf) as Hr.
    pose proof Hwf as (Ht & _).
    rewrite wrap32_small by lia.
    destruct (search_run_spec count (Z.to_nat (total_pages st - count + 1)) 0 st Hc Hpos)
      as [[-> _]|(s & Hs1 & Hs2 & Hs3 & _ & ->)]; [lia|lia|exact Hc|].
    cbn [snd]. apply (mark_used_run (Z.to_nat count) s st Hc); [lia|lia|exact Hs3].
  - assert (Hz : Z.to_nat count = 0%nat) by lia.
    pose proof (wrap32_range (total_pages st - count)) as Hw.
    destruct (Z.to_nat (wrap32 (total_pages st - count) + 1)) as [|n] eqn:En; [lia|].
    cbn [search_run]. rewrite Hz. cbn [run_is_free mark_used snd]. exact Hc.
Qed.

(** ** [bitmap_free_pages] *)

Lemma free_pages_loop_consistent (n : nat) :
  forall (a i : Z) st, consistent st -> consistent (free_pages_loop a i n st).
Proof.
  induction n as [|n IH]; intros a i st Hc; cbn [free_pages_loop]; [exact Hc|].
  apply IH. now apply consistent_free_page.
Qed.

(** ** Every reachable state is consistent *)

Lemma consistent_state0 : consistent bitmap_state0.
Proof.
  split; [|reflexivity]. split; [cbn; lia|]. split; [cbn; lia|].
  split; [constructor|cbn; lia].
Qed.

Lemma consistent_step (o : op) st : consistent st -> consistent (step o st).
Proof.
  intros Hc. destruct o as [s e| |n|a|a n]; cbn [step].
  - apply bitmap_init_consistent.
  - destruct (bitmap_alloc_page_cases st Hc) as [[_ ->]|(_ & Hp & Hf & ->)]; [exact Hc|].
    cbn [snd]. now apply consistent_alloc_step.
  - now apply bitmap_alloc_pages_consistent.
  - now apply consistent_free_page.
  - now apply free_pages_loop_consistent.
Qed.

Lemma consistent_run (ops : list op) :
  forall st, consistent st -> consistent (run ops st).
Proof.
  induction ops as [|o ops IH]; intros st Hc; [exact Hc|].
  change (run (o :: ops) st) with (run ops (step o st)). apply IH.
  now apply consistent_step.
Qed.

Lemma region_ok_region16 : region_ok region16.
Proof. split; vm_compute; discriminate. Qed.

Lemma consistent_region16 : consistent region16.
Proof. apply bitmap_init_consistent. Qed.

(** ** Freeing by address *)

Lemma bitmap_free_page_fields st (a : Z) :
  total_pages (bitmap_free_page a st) = total_pages st
  /\ start_addr (bitmap_free_page a st) = start_addr st.
Proof.
  destruct (bitmap_free_page_cases st a) as [[-> _]|(_ & _ & _ & ->)]; auto.
Qed.

Lemma bitmap_free_page_at_page st (p : Z) :
  wf st -> region_ok st -> 0 <= p < total_pages st ->
  forall q, 0 <= q ->
    is_page_free q (bitmap_free_page (page_addr (start_addr st) p) st)
    = if q =? p then true else is_page_free q st.
Proof.
  intros Hwf Hreg Hp q Hq.
  destruct (page_addr_exact st p Hwf Hreg Hp) as (_ & Hr & Hpage).
  destruct (bitmap_free_page_cases st (page_addr (start_addr st) p))
    as [[-> [H|[H|H]]]|(_ & _ & _ & ->)]; rewrite ?Hpage in *; try lia.
  - destruct (Z.eqb_spec q p) as [->|_]; [exact H|reflexivity].
  - destruct (word_idx_range st p Hwf Hp) as [_ Hlt].
    change (is_page_free q (with_free_pages ?v ?s)) with (is_page_free q s).
    apply is_page_free_set_free; [lia|exact Hq|exact Hlt].
Qed.

Lemma region_ok_free_page st (a : Z) : region_ok st -> region_ok (bitmap_free_page a st).
Proof.
  intros H. unfold region_ok. destruct (bitmap_free_page_fields st a) as [-> ->]. exact H.
Qed.

(** [free_pages] on the address of page [s]: round [i] frees page [s + i]. *)
Lemma free_pages_loop_run (n : nat) :
  forall (s i : Z) st st0,
    consistent st -> region_ok st ->
    start_addr st = start_addr st0 -> total_pages st = total_pages st0 ->
    0 <= s -> 0 <= i -> s + i + Z.of_nat n <= total_pages st ->
    consistent (free_pages_loop (page_addr (start_addr st0) s) i n st)
    /\ total_pages (free_pages_loop (page_addr (start_addr st0) s) i n st) = total_pages st
    /\ forall q, 0 <= q ->
         is_page_free q (free_pages_loop (page_addr (start_addr st0) s) i n st)
         = if (s + i <=? q) && (q <? s + i + Z.of_nat n) then true else is_page_free q st.
Proof.
  induction n as [|n IH]; intros s i st st0 Hc Hreg Hsa Htp Hs Hi Hend.
  - cbn [free_pages_loop]. split; [exact Hc|]. split; [reflexivity|].
    intros q Hq. destruct (Z.leb_spec (s + i) q), (Z.ltb_spec q (s + i + Z.of_nat 0));
      cbn [andb]; try reflexivity; lia.
  - cbn [free_pages_loop].
    pose proof Hc as [Hwf _]. pose proof Hwf as (Ht & _). pose proof Hreg as [Hs0 He].
    assert (Haddr : wrap32 (page_addr (start_addr st0) s + wrap32 (i * PAGE_SIZE))
                    = page_addr (start_addr st) (s + i)).
    { rewrite <- Hsa.
      destruct (page_addr_exact st s Hwf Hreg) as (-> & _ & _); [lia|].
      destruct (page_addr_exact st (s + i) Hwf Hreg) as (-> & Hr & _); [lia|].
      revert He Hr. change PAGE_SIZE with 4096. intros He Hr.
      rewrite (wrap32_small (i * 4096)) by lia.
      rewrite wrap32_small by lia. lia. }
    rewrite Haddr.
    set (st1 := bitmap_free_page (page_addr (start_addr st) (s + i)) st).
    destruct (bitmap_free_page_fields st (page_addr (start_addr st) (s + i))) as [Ht1 Hs1].
    fold st1 in Ht1, Hs1.
    destruct (IH s (i + 1) st1 st0 (consistent_free_page st _ Hc)
                 (region_ok_free_page st _ Hreg)) as (Hc' & Htp' & Hbits); try lia.
    split; [exact Hc'|]. split; [congruence|].
    intros q Hq. rewrite (Hbits q Hq). unfold st1.
    rewrite (bitmap_free_page_at_page st (s + i) Hwf Hreg) by lia.
    destruct (Z.leb_spec (s + (i + 1)) q), (Z.ltb_spec q (s + (i + 1) + Z.of_nat n)),
      (Z.leb_spec (s + i) q), (Z.ltb_spec q (s + i + Z.of_nat (S n))), (Z.eqb_spec q (s + i));
      cbn [andb]; try reflexivity; lia.
Qed.

Lemma count_free_upto_pointwise st st' (n : nat) :
  (forall q, 0 <= q -> is_page_free q st' = is_page_free q st) ->
  count_free_upto st' n = count_free_upto st n.
Proof.
  intros H. induction n as [|n IH]; [reflexivity|].
  cbn [count_free_upto]. rewrite IH, H by lia. reflexivity.
Qed.

(** ** The aligned search *)

Lemma aligned_search_spec (needed align : Z) (fuel : nat) :
  forall (start : Z) st,
    consistent st -> 0 < align <= 1048576 -> 0 <= needed <= total_pages st ->
    0 <= start -> start mod align = 0 ->
    1 <= Z.of_nat fuel -> total_pages st - needed - start + 2 <= Z.of_nat fuel ->
    (aligned_search fuel needed align start st = Some (0, st)
     /\ forall s, start <= s <= total_pages st - needed -> s mod align = 0 ->
                  run_is_free st s (Z.to_nat needed) = false)
    \/ (exists s,
          start <= s /\ s + needed <= total_pages st /\ s mod align = 0
          /\ run_is_free st s (Z.to_nat needed) = true
          /\ (forall s', start <= s' < s -> s' mod align = 0 ->
                         run_is_free st s' (Z.to_nat needed) = false)
          /\ aligned_search fuel needed align start st
             = Some (page_addr (start_addr st) s, mark_used s (Z.to_nat needed) st)).
Proof.
  induction fuel as [|fuel IH]; intros start st Hc Ha Hn Hs Hmod Hf1 Hf; [lia|].
  cbn [aligned_search]. pose proof Hc as [Hwf _]. pose proof Hwf as (Ht & _).
  rewrite wrap32_small by lia.
  destruct (Z.leb_spec start (total_pages st - needed)) as [Hin|Hout].
  - destruct (run_is_free st start (Z.to_nat needed)) eqn:E.
    + right. exists start. split; [lia|]. split; [lia|]. split; [exact Hmod|].
      split; [exact E|]. split; [intros s' Hs'; lia|]. cbv zeta. unfold page_addr.
      destruct (mark_used_run (Z.to_nat needed) start st Hc) as (_ & _ & _ & Hsa & _);
        [lia|lia|exact E|]. now rewrite Hsa.
    + rewrite (wrap32_small (start + align)) by lia.
      assert (Hmod' : (start + align) mod align = 0).
      { rewrite Z.add_mod, Hmod, Z.mod_same, Z.add_0_l, Z.mod_0_l by lia. reflexivity. }
      assert (Hgap : forall s, start < s < start + align -> s mod align <> 0).
      { intros s Hs' Hz. apply Z.mod_divide in Hmod; [|lia]. apply Z.mod_divide in Hz; [|lia].
        destruct Hmod as [k Hk]. destruct Hz as [k' Hk']. subst s start.
        assert (k < k') by (apply (Z.mul_lt_mono_pos_r align); lia).
        assert (k' < k + 1) by (apply (Z.mul_lt_mono_pos_r align); lia). lia. }
      destruct (IH (start + align) st Hc Ha Hn)
        as [[Hr Hnone]|(s & Hs1 & Hs2 & Hs3 & Hs4 & Hs5 & Hr)]; try lia.
      * left. split; [exact Hr|]. intros s Hs' Hz.
        destruct (Z.eq_dec s start) as [->|Hne]; [exact E|].
        destruct (Z.lt_ge_cases s (start + align)) as [Hlt|Hge].
        -- exfalso. apply (Hgap s); [lia|exact Hz].
        -- apply Hnone; [lia|exact Hz].
      * right. exists s. split; [lia|]. split; [exact Hs2|]. split; [exact Hs3|].
        split; [exact Hs4|]. split; [|exact Hr]. intros s' Hs' Hz.
        destruct (Z.eq_dec s' start) as [->|Hne]; [exact E|].
        destruct (Z.lt_ge_cases s' (start + align)) as [Hlt|Hge].
        -- exfalso. apply (Hgap s'); [lia|exact Hz].
        -- apply Hs5; [lia|exact Hz].
  - left. split; [reflexivity|]. intros s Hs'. lia.
Qed.

(** With [align_pages = 0] the search does not move. *)
Lemma aligned_search_stuck (needed : Z) (fuel : nat) :
  forall st,
    0 <= total_pages st - needed < 4294967296 ->
    run_is_free st 0 (Z.to_nat needed) = false ->
    aligned_search fuel needed 0 0 st = None.
Proof.
  induction fuel as [|fuel IH]; intros st Hr E; [reflexivity|].
  cbn [aligned_search]. rewrite wrap32_small by lia.
  destruct (Z.leb_spec 0 (total_pages st - needed)); [|lia].
  rewrite E. change (wrap32 (0 + 0)) with 0. now apply IH.
Qed.

(** ** Properties of the allocator interface *)

(** [wf] of a closed state, by evaluating the state. *)
Ltac wf_by_evaluation :=
  unfold wf;
  split; [split; vm_compute; discriminate|];
  split; [vm_compute; discriminate|];
  split; [|split; vm_compute; discriminate];
  match goal with
  | |- Forall _ ?l => let x := eval vm_compute in l in change l with x
  end;
  repeat constructor; lia.

(** X1: the free-page counter is exact.  After any sequence of [init],
    [alloc_page], [alloc_pages], [free_page] and [free_pages] calls, with any
    arguments, [get_free_pages] is the number of pages of the region whose
    bit is clear in the bitmap, and it never exceeds [get_total_pages]. *)
Theorem bitmap_free_counter_exact (ops : list op) :
  bitmap_get_free_pages (run ops bitmap_state0) = count_free (run ops bitmap_state0)
  /\ 0 <= bitmap_get_free_pages (run ops bitmap_state0)
       <= bitmap_get_total_pages (run ops bitmap_state0).
Proof.
  destruct (consistent_run ops bitmap_state0 consistent_state0) as [Hwf Hc].
  unfold bitmap_get_free_pages, bitmap_get_total_pages.
  split; [exact Hc|]. rewrite Hc. now apply count_free_range.
Qed.

(** X2: [alloc_page] in a consistent state.  It fails (returns 0, state
    unchanged) exactly when the free counter is zero; otherwise it returns
    the address of a page of the region that was free, marks that page and
    no other as used, and lowers the counter by one.  The [0xFFFFFFFF]
    failure branch after the search is never taken. *)
Theorem bitmap_alloc_page_spec st :
  consistent st ->
  (bitmap_get_free_pages st = 0 -> bitmap_alloc_page st = (0, st))
  /\ (bitmap_get_free_pages st <> 0 ->
      exists p,
        0 <= p < total_pages st
        /\ is_page_free p st = true
        /\ fst (bitmap_alloc_page st) = page_addr (start_addr st) p
        /\ (forall q, 0 <= q ->
              is_page_free q (snd (bitmap_alloc_page st))
              = if q =? p then false else is_page_free q st)
        /\ bitmap_get_free_pages (snd (bitmap_alloc_page st))
           = bitmap_get_free_pages st - 1
        /\ consistent (snd (bitmap_alloc_page st))).
Proof.
  intros Hc. unfold bitmap_get_free_pages.
  destruct (bitmap_alloc_page_cases st Hc) as [[H0 Hr]|(Hn0 & Hp & Hf & Hr)].
  - split; [intros _; exact Hr|]. intros H. contradiction.
  - split; [intros H; contradiction|]. intros _.
    exists (find_free_page (last_allocated st) st). rewrite Hr. cbn [fst snd].
    split; [exact Hp|]. split; [exact Hf|]. split; [reflexivity|].
    destruct Hc as [Hwf Hcnt].
    destruct (word_idx_range st _ Hwf Hp) as [_ Hlt].
    split; [|split; [reflexivity|apply consistent_alloc_step; [split|..]; assumption]].
    intros q Hq.
    change (is_page_free q (with_last_allocated ?a (with_free_pages ?b ?s)))
      with (is_page_free q s).
    apply is_page_free_set_used; [lia|exact Hq|exact Hlt].
Qed.

Lemma bitmap_alloc_page_spec_witness :
  (bitmap_get_free_pages region16 = 0 -> bitmap_alloc_page region16 = (0, region16))
  /\ (bitmap_get_free_pages region16 <> 0 ->
      exists p,
        0 <= p < total_pages region16
        /\ is_page_free p region16 = true
        /\ fst (bitmap_alloc_page region16) = page_addr (start_addr region16) p
        /\ (forall q, 0 <= q ->
              is_page_free q (snd (bitmap_alloc_page region16))
              = if q =? p then false else is_page_free q region16)
        /\ bitmap_get_free_pages (snd (bitmap_alloc_page region16))
           = bitmap_get_free_pages region16 - 1
        /\ consistent (snd (bitmap_alloc_page region16))).
Proof.
  apply (bitmap_alloc_page_spec region16).
  split; [|vm_compute; reflexivity].
  wf_by_evaluation.
Defined.

(** X3: a double free is harmless.  For every address, freeing it a second
    time leaves the state exactly as the first call left it: the counter is
    raised at most once. *)
Theorem bitmap_free_page_twice st (a : Z) :
  wf st ->
  bitmap_free_page a (bitmap_free_page a st) = bitmap_free_page a st.
Proof.
  intros Hwf.
  destruct (bitmap_free_page_cases st a) as [[Hr _]|(Ha & Hp & Hf & Hr)]; rewrite Hr.
  - exact Hr.
  - set (p := wrap32 (a - start_addr st) / PAGE_SIZE) in *.
    set (st1 := with_free_pages (wrap32 (free_pages st + 1)) (set_page_free p st)).
    destruct (word_idx_range st p Hwf Hp) as [_ Hlt].
    assert (Hfree : is_page_free p st1 = true).
    { change (is_page_free p st1) with (is_page_free p (set_page_free p st)).
      rewrite is_page_free_set_free by (try lia; exact Hlt). now rewrite Z.eqb_refl. }
    unfold bitmap_free_page.
    change (start_addr st1) with (start_addr st).
    change (total_pages st1) with (total_pages st).
    destruct (Z.ltb_spec a (start_addr st)); [reflexivity|]. cbv zeta. fold p.
    destruct (Z.leb_spec (total_pages st) p); [reflexivity|]. now rewrite Hfree.
Qed.

Lemma bitmap_free_page_twice_witness :
  bitmap_free_page 1052672 (bitmap_free_page 1052672 (snd (bitmap_alloc_page region16)))
  = bitmap_free_page 1052672 (snd (bitmap_alloc_page region16)).
Proof.
  apply (bitmap_free_page_twice (snd (bitmap_alloc_page region16)) 1052672).
  wf_by_evaluation.
Defined.

(** X4: allocate, then free.  In a consistent state whose region lies in
    the 32-bit address space, freeing the address that a successful
    [alloc_page] returned gives back the state before the allocation, up to
    the next-fit position [last_allocated]. *)
Theorem bitmap_alloc_free_round_trip st :
  consistent st -> region_ok st -> bitmap_get_free_pages st <> 0 ->
  exists p,
    bitmap_free_page (fst (bitmap_alloc_page st)) (snd (bitmap_alloc_page st))
    = with_last_allocated p st.
Proof.
  intros Hc Hreg Hn0. unfold bitmap_get_free_pages in Hn0.
  destruct (bitmap_alloc_page_cases st Hc) as [[H0 _]|(_ & Hp & Hf & Hr)]; [contradiction|].
  set (p := find_free_page (last_allocated st) st) in *.
  exists p. rewrite Hr. cbn [fst snd].
  destruct Hc as [Hwf Hcnt].
  destruct (page_addr_exact st p Hwf Hreg Hp) as (_ & Hrange & Hpage).
  destruct (word_idx_range st p Hwf Hp) as [Hi0 Hlt].
  pose proof (bit_idx_range p) as Hb.
  set (st1 := with_last_allocated p (with_free_pages (free_pages st - 1)
                                                     (set_page_used p st))).
  assert (Hused : is_page_free p st1 = false).
  { change (is_page_free p st1) with (is_page_free p (set_page_used p st)).
    rewrite is_page_free_set_used by (try lia; exact Hlt). now rewrite Z.eqb_refl. }
  unfold bitmap_free_page.
  change (start_addr st1) with (start_addr st).
  change (total_pages st1) with (total_pages st).
  destruct (Z.ltb_spec (page_addr (start_addr st) p) (start_addr st)); [lia|].
  cbv zeta. rewrite Hpage.
  destruct (Z.leb_spec (total_pages st) p); [lia|]. rewrite Hused.
  pose proof (count_free_range st Hwf) as Hr0. pose proof Hwf as (Ht & _ & Hw & _).
  unfold st1, set_page_free, set_page_used, with_free_pages, with_last_allocated,
    with_bitmap. cbv zeta.
  cbn [bitmap total_pages free_pages start_addr page_size last_allocated].
  rewrite wrap32_small by lia.
  replace (free_pages st - 1 + 1) with (free_pages st) by lia.
  rewrite word_at_insert by (try lia; exact Hlt). rewrite Z.eqb_refl.
  rewrite list_insert_insert_eq.
  destruct (lookup_lt_is_Some_2 _ _ Hlt) as [w Hl].
  assert (Hwa : word_at (bitmap st) (p / PAGES_PER_WORD) = w)
    by (unfold word_at; now rewrite Hl).
  rewrite land_lor_restore.
  - rewrite Hwa, list_insert_id by exact Hl. reflexivity.
  - rewrite Hwa. exact (Forall_lookup_1 _ _ _ _ Hw Hl).
  - exact Hb.
  - rewrite is_page_free_testbit in Hf by lia. now apply negb_true_iff in Hf.
Qed.

Lemma bitmap_alloc_free_round_trip_witness :
  exists p,
    bitmap_free_page (fst (bitmap_alloc_page region16)) (snd (bitmap_alloc_page region16))
    = with_last_allocated p region16.
Proof.
  apply (bitmap_alloc_free_round_trip region16).
  - split; [|vm_compute; reflexivity].
    wf_by_evaluation.
  - split; vm_compute; discriminate.
  - vm_compute. discriminate.
Defined.

(** X5: [alloc_pages] is first fit over contiguous runs.  In a consistent
    state, for [0 < count <= free_pages], the call either finds no position
    at which [count] consecutive pages are free and fails (returns 0 and
    changes nothing, although enough pages are free in total), or it takes
    the lowest such position: it returns that page's address, marks exactly
    the pages of the run as used and lowers the counter by [count]. *)
Theorem bitmap_alloc_pages_first_fit (count : Z) st :
  consistent st -> 0 < count <= bitmap_get_free_pages st ->
  (bitmap_alloc_pages count st = (0, st)
   /\ forall s, 0 <= s <= total_pages st - count ->
                run_is_free st s (Z.to_nat count) = false)
  \/ (exists s,
        0 <= s /\ s + count <= total_pages st
        /\ run_is_free st s (Z.to_nat count) = true
        /\ (forall s', 0 <= s' < s -> run_is_free st s' (Z.to_nat count) = false)
        /\ fst (bitmap_alloc_pages count st) = page_addr (start_addr st) s
        /\ (forall q, 0 <= q ->
              is_page_free q (snd (bitmap_alloc_pages count st))
              = if (s <=? q) && (q <? s + count) then false else is_page_free q st)
        /\ bitmap_get_free_pages (snd (bitmap_alloc_pages count st))
           = bitmap_get_free_pages st - count).
Proof.
  unfold bitmap_get_free_pages. intros Hc Hcount. unfold bitmap_alloc_pages.
  destruct (Z.eqb_spec count 0) as [H0|_]; [lia|].
  destruct (Z.ltb_spec (free_pages st) count) as [Hlt|_]; [lia|]. cbn [orb].
  pose proof Hc as [Hwf Hcnt]. pose proof (count_free_range st Hwf) as Hr.
  pose proof Hwf as (Ht & _).
  rewrite wrap32_small by lia.
  destruct (search_run_spec count (Z.to_nat (total_pages st - count + 1)) 0 st Hc)
    as [[Hres Hnone]|(s & Hs1 & Hs2 & Hs3 & Hs4 & Hres)]; try lia.
  - left. split; [exact Hres|]. intros s Hs. apply Hnone. lia.
  - right. exists s. rewrite Hres. cbn [fst snd].
    destruct (mark_used_run (Z.to_nat count) s st Hc) as (_ & Hfp & _ & _ & _ & Hbits);
      [lia|lia|exact Hs3|].
    split; [exact Hs1|]. split; [exact Hs2|]. split; [exact Hs3|].
    split; [exact Hs4|]. split; [reflexivity|]. split.
    + intros q Hq. rewrite (Hbits q Hq). now rewrite Z2Nat.id by lia.
    + rewrite Hfp. lia.
Qed.

Lemma bitmap_alloc_pages_first_fit_witness :
  (bitmap_alloc_pages 3 region16 = (0, region16)
   /\ forall s, 0 <= s <= total_pages region16 - 3 ->
                run_is_free region16 s (Z.to_nat 3) = false)
  \/ (exists s,
        0 <= s /\ s + 3 <= total_pages region16
        /\ run_is_free region16 s (Z.to_nat 3) = true
        /\ (forall s', 0 <= s' < s -> run_is_free region16 s' (Z.to_nat 3) = false)
        /\ fst (bitmap_alloc_pages 3 region16) = page_addr (start_addr region16) s
        /\ (forall q, 0 <= q ->
              is_page_free q (snd (bitmap_alloc_pages 3 region16))
              = if (s <=? q) && (q <? s + 3) then false else is_page_free q region16)
        /\ bitmap_get_free_pages (snd (bitmap_alloc_pages 3 region16))
           = bitmap_get_free_pages region16 - 3).
Proof.
  apply (bitmap_alloc_pages_first_fit 3 region16).
  - split; [|vm_compute; reflexivity].
    wf_by_evaluation.
  - split; [reflexivity|vm_compute; discriminate].
Defined.

(** X6: [is_available] decodes addresses the way [alloc_page] encodes them.
    With the region inside the 32-bit address space, an address anywhere
    inside page [p] of the region is available exactly when the bit of [p]
    is clear, and an address below the region or at or beyond its end is
    never available. *)
Theorem bitmap_is_available_spec st (a : Z) :
  wf st -> region_ok st -> 0 <= a < 4294967296 ->
  (forall p off,
      0 <= p < total_pages st -> 0 <= off < PAGE_SIZE ->
      a = page_addr (start_addr st) p + off ->
      bitmap_is_available a st = is_page_free p st)
  /\ (a < start_addr st \/ start_addr st + total_pages st * PAGE_SIZE <= a ->
      bitmap_is_available a st = false).
Proof.
  intros Hwf Hreg Ha. split.
  - intros p off Hp Hoff ->.
    destruct (page_addr_exact st p Hwf Hreg Hp) as (He & Hr & _).
    destruct Hreg as [Hs Hend]. destruct Hwf as (Ht & _).
    unfold bitmap_is_available.
    destruct (Z.ltb_spec (page_addr (start_addr st) p + off) (start_addr st)); [lia|].
    cbv zeta. rewrite He in *. unfold PAGE_SIZE in *.
    replace (start_addr st + p * 4096 + off - start_addr st)
      with (off + p * 4096) by lia.
    rewrite wrap32_small by lia.
    rewrite Z.div_add by lia.
    rewrite Z.div_small by lia. rewrite Z.add_0_l.
    destruct (Z.leb_spec (total_pages st) p); [lia|reflexivity].
  - intros Hout. unfold bitmap_is_available.
    destruct (Z.ltb_spec a (start_addr st)); [reflexivity|]. cbv zeta.
    destruct Hreg as [Hs He]. destruct Hout as [Hlo|Hhi]; [lia|].
    rewrite wrap32_small by lia.
    destruct (Z.leb_spec (total_pages st) ((a - start_addr st) / PAGE_SIZE)) as [_|Hlt];
      [reflexivity|].
    exfalso. revert Hhi Hlt. change PAGE_SIZE with 4096. intros Hhi Hlt.
    assert (total_pages st <= (a - start_addr st) / 4096)
      by (apply Z.div_le_lower_bound; lia). lia.
Qed.

Lemma bitmap_is_available_spec_witness :
  (forall p off,
      0 <= p < total_pages region16 -> 0 <= off < PAGE_SIZE ->
      1060000 = page_addr (start_addr region16) p + off ->
      bitmap_is_available 1060000 region16 = is_page_free p region16)
  /\ (1060000 < start_addr region16
      \/ start_addr region16 + total_pages region16 * PAGE_SIZE <= 1060000 ->
      bitmap_is_available 1060000 region16 = false).
Proof.
  apply (bitmap_is_available_spec region16 1060000).
  - wf_by_evaluation.
  - split; vm_compute; discriminate.
  - lia.
Defined.

(** X7: [alloc_pages] then [free_pages].  In a consistent state whose
    region lies in the 32-bit address space, if a run of [count] free pages
    exists, then freeing [count] pages at the address [alloc_pages] returned
    restores every page bit and the free counter. *)
Theorem bitmap_alloc_pages_free_pages_round_trip (count : Z) st :
  consistent st -> region_ok st -> 0 < count <= bitmap_get_free_pages st ->
  (exists s, 0 <= s <= total_pages st - count
             /\ run_is_free st s (Z.to_nat count) = true) ->
  (forall q, 0 <= q ->
     is_page_free q (bitmap_free_pages (fst (bitmap_alloc_pages count st)) count
                                       (snd (bitmap_alloc_pages count st)))
     = is_page_free q st)
  /\ bitmap_get_free_pages (bitmap_free_pages (fst (bitmap_alloc_pages count st)) count
                                              (snd (bitmap_alloc_pages count st)))
     = bitmap_get_free_pages st.
Proof.
  unfold bitmap_get_free_pages. intros Hc Hreg Hcount (s0 & Hs0 & Hrun0).
  pose proof Hc as [Hwf Hcnt]. pose proof (count_free_range st Hwf) as Hr.
  pose proof Hwf as (Ht & _).
  unfold bitmap_alloc_pages.
  destruct (Z.eqb_spec count 0) as [H0|_]; [lia|].
  destruct (Z.ltb_spec (free_pages st) count) as [Hlt|_]; [lia|]. cbn [orb].
  rewrite wrap32_small by lia.
  destruct (search_run_spec count (Z.to_nat (total_pages st - count + 1)) 0 st Hc)
    as [[_ Hnone]|(s & Hs1 & Hs2 & Hs3 & Hs4 & Hres)]; try lia.
  { rewrite Hnone in Hrun0 by lia. discriminate. }
  rewrite Hres. cbn [fst snd]. unfold bitmap_free_pages.
  destruct (mark_used_run (Z.to_nat count) s st Hc) as (Hc1 & Hfp & Htp & Hsa & _ & Hbits);
    [lia|lia|exact Hs3|].
  set (st1 := mark_used s (Z.to_nat count) st) in *.
  assert (Hreg1 : region_ok st1) by (unfold region_ok; rewrite Htp, Hsa; exact Hreg).
  destruct (free_pages_loop_run (Z.to_nat count) s 0 st1 st Hc1 Hreg1)
    as (Hc2 & Htp2 & Hbits2); try lia.
  assert (Hpt : forall q, 0 <= q ->
            is_page_free q (free_pages_loop (page_addr (start_addr st) s) 0
                                            (Z.to_nat count) st1)
            = is_page_free q st).
  { intros q Hq. rewrite (Hbits2 q Hq), (Hbits q Hq).
    destruct (Z.leb_spec (s + 0) q), (Z.ltb_spec q (s + 0 + Z.of_nat (Z.to_nat count))),
      (Z.leb_spec s q), (Z.ltb_spec q (s + Z.of_nat (Z.to_nat count)));
      cbn [andb]; try reflexivity; try lia.
    symmetry. apply (proj1 (run_is_free_true st (Z.to_nat count) s) Hs3). lia. }
  split; [exact Hpt|].
  destruct Hc2 as [_ Hcnt2]. rewrite Hcnt2, Hcnt. unfold count_free.
  rewrite Htp2, Htp. now apply count_free_upto_pointwise.
Qed.

Lemma bitmap_alloc_pages_free_pages_round_trip_witness :
  (forall q, 0 <= q ->
     is_page_free q (bitmap_free_pages (fst (bitmap_alloc_pages 3 region16)) 3
                                       (snd (bitmap_alloc_pages 3 region16)))
     = is_page_free q region16)
  /\ bitmap_get_free_pages (bitmap_free_pages (fst (bitmap_alloc_pages 3 region16)) 3
                                              (snd (bitmap_alloc_pages 3 region16)))
     = bitmap_get_free_pages region16.
Proof.
  apply (bitmap_alloc_pages_free_pages_round_trip 3 region16).
  - split; [|vm_compute; reflexivity]. wf_by_evaluation.
  - split; vm_compute; discriminate.
  - split; [reflexivity|vm_compute; discriminate].
  - exists 1. split; [split; vm_compute; discriminate|vm_compute; reflexivity].
Defined.

(** X8: [alloc_aligned] aligns page indices, not addresses.  In a
    consistent state, for a request of at most [total_pages] pages and an
    alignment of at least one page, the search ends within
    [total_pages + 2] rounds; it fails (returns 0, state unchanged) when no
    free run starts at a page index that is a multiple of the alignment in
    pages, and otherwise takes the lowest such index [s]: it returns
    [start_addr + s * PAGE_SIZE] and marks the run as used.  The index is
    counted from the start of the region. *)
Theorem bitmap_alloc_aligned_spec (size alignment : Z) st :
  consistent st ->
  0 < wrap32 (alignment + PAGE_SIZE - 1) / PAGE_SIZE ->
  wrap32 (size + PAGE_SIZE - 1) / PAGE_SIZE <= total_pages st ->
  (bitmap_alloc_aligned (Z.to_nat (total_pages st + 2)) size alignment st = Some (0, st)
   /\ forall s, 0 <= s <= total_pages st - wrap32 (size + PAGE_SIZE - 1) / PAGE_SIZE ->
        s mod (wrap32 (alignment + PAGE_SIZE - 1) / PAGE_SIZE) = 0 ->
        run_is_free st s (Z.to_nat (wrap32 (size + PAGE_SIZE - 1) / PAGE_SIZE)) = false)
  \/ (exists s,
        0 <= s /\ s + wrap32 (size + PAGE_SIZE - 1) / PAGE_SIZE <= total_pages st
        /\ s mod (wrap32 (alignment + PAGE_SIZE - 1) / PAGE_SIZE) = 0
        /\ run_is_free st s (Z.to_nat (wrap32 (size + PAGE_SIZE - 1) / PAGE_SIZE)) = true
        /\ (forall s', 0 <= s' < s ->
              s' mod (wrap32 (alignment + PAGE_SIZE - 1) / PAGE_SIZE) = 0 ->
              run_is_free st s' (Z.to_nat (wrap32 (size + PAGE_SIZE - 1) / PAGE_SIZE)) = false)
        /\ bitmap_alloc_aligned (Z.to_nat (total_pages st + 2)) size alignment st
           = Some (page_addr (start_addr st) s,
                   mark_used s (Z.to_nat (wrap32 (size + PAGE_SIZE - 1) / PAGE_SIZE)) st)).
Proof.
  intros Hc Ha Hn. unfold bitmap_alloc_aligned. cbv zeta.
  set (needed := wrap32 (size + PAGE_SIZE - 1) / PAGE_SIZE) in *.
  set (align := wrap32 (alignment + PAGE_SIZE - 1) / PAGE_SIZE) in *.
  pose proof Hc as [Hwf _]. pose proof Hwf as (Ht & _).
  assert (Hn0 : 0 <= needed).
  { unfold needed. apply Z.div_pos; [|reflexivity].
    pose proof (wrap32_range (size + PAGE_SIZE - 1)). lia. }
  assert (Ha1 : align <= 1048576).
  { unfold align. change PAGE_SIZE with 4096.
    pose proof (wrap32_range (alignment + 4096 - 1)).
    assert (wrap32 (alignment + 4096 - 1) / 4096 < 1048576)
      by (apply Z.div_lt_upper_bound; lia). lia. }
  destruct (aligned_search_spec needed align (Z.to_nat (total_pages st + 2)) 0 st Hc)
    as [[Hr Hnone]|(s & Hs1 & Hs2 & Hs3 & Hs4 & Hlow & Hr)]; try lia.
  - apply Z.mod_0_l. lia.
  - left. split; [exact Hr|]. exact Hnone.
  - right. exists s. repeat split; try assumption; lia.
Qed.

Lemma bitmap_alloc_aligned_spec_witness :
  (bitmap_alloc_aligned (Z.to_nat (total_pages region16 + 2)) 8192 16384 region16
   = Some (0, region16)
   /\ forall s, 0 <= s <= total_pages region16 - wrap32 (8192 + PAGE_SIZE - 1) / PAGE_SIZE ->
        s mod (wrap32 (16384 + PAGE_SIZE - 1) / PAGE_SIZE) = 0 ->
        run_is_free region16 s (Z.to_nat (wrap32 (8192 + PAGE_SIZE - 1) / PAGE_SIZE)) = false)
  \/ (exists s,
        0 <= s /\ s + wrap32 (8192 + PAGE_SIZE - 1) / PAGE_SIZE <= total_pages region16
        /\ s mod (wrap32 (16384 + PAGE_SIZE - 1) / PAGE_SIZE) = 0
        /\ run_is_free region16 s (Z.to_nat (wrap32 (8192 + PAGE_SIZE - 1) / PAGE_SIZE)) = true
        /\ (forall s', 0 <= s' < s ->
              s' mod (wrap32 (16384 + PAGE_SIZE - 1) / PAGE_SIZE) = 0 ->
              run_is_free region16 s'
                (Z.to_nat (wrap32 (8192 + PAGE_SIZE - 1) / PAGE_SIZE)) = false)
        /\ bitmap_alloc_aligned (Z.to_nat (total_pages region16 + 2)) 8192 16384 region16
           = Some (page_addr (start_addr region16) s,
                   mark_used s (Z.to_nat (wrap32 (8192 + PAGE_SIZE - 1) / PAGE_SIZE))
                             region16)).
Proof.
  apply (bitmap_alloc_aligned_spec 8192 16384 region16).
  - split; [|vm_compute; reflexivity]. wf_by_evaluation.
  - vm_compute. reflexivity.
  - vm_compute. discriminate.
Defined.

(** X9: [alloc_aligned] with alignment 0 does not return.  When the
    alignment rounds to zero pages the loop never advances [start_page]:
    if the request fits in the region and the run at page 0 is not free
    (page 0 holds the bitmap after [init]), no number of rounds ends the
    loop. *)
Theorem bitmap_alloc_aligned_zero_alignment_hangs (size : Z) st (fuel : nat) :
  0 <= total_pages st < 4294967296 ->
  wrap32 (size + PAGE_SIZE - 1) / PAGE_SIZE <= total_pages st ->
  run_is_free st 0 (Z.to_nat (wrap32 (size + PAGE_SIZE - 1) / PAGE_SIZE)) = false ->
  bitmap_alloc_aligned fuel size 0 st = None.
Proof.
  intros Ht Hn E. unfold bitmap_alloc_aligned. cbv zeta.
  change (wrap32 (0 + PAGE_SIZE - 1) / PAGE_SIZE) with 0.
  apply aligned_search_stuck; [|exact E].
  assert (0 <= wrap32 (size + PAGE_SIZE - 1) / PAGE_SIZE).
  { apply Z.div_pos; [|reflexivity]. pose proof (wrap32_range (size + PAGE_SIZE - 1)). lia. }
  lia.
Qed.

Lemma bitmap_alloc_aligned_zero_alignment_hangs_witness :
  bitmap_alloc_aligned 1000 4096 0 region16 = None.
Proof.
  apply (bitmap_alloc_aligned_zero_alignment_hangs 4096 region16 1000).
  - split; [vm_compute; discriminate|vm_compute; reflexivity].
  - vm_compute. discriminate.
  - vm_compute. reflexivity.
Defined.

End BitmapMore.

(** * Properties of the priority scheduler *)

Section PrioProofs.
Import Prio.

Lemma upd_proc_same (proc : proc_ptr) f st :
  procs (upd_proc proc f st) proc = f (procs st proc).
Proof. unfold upd_proc. cbn. now rewrite Nat.eqb_refl. Qed.

Lemma upd_proc_other (proc q : proc_ptr) f st :
  q <> proc -> procs (upd_proc proc f st) q = procs st q.
Proof.
  intros Hne. unfold upd_proc. cbn.
  destruct (Nat.eqb_spec q proc); [contradiction | reflexivity].
Qed.

Lemma queue_at_set_queue_same (i : Z) q st :
  (Z.to_nat i < length (ready_queues st))%nat ->
  queue_at (set_queue i q st) i = q.
Proof.
  intros Hlt. unfold queue_at, set_queue. cbn.
  now rewrite list_lookup_insert_eq.
Qed.




(** ** Aging *)

(** *** Counting links *)


Lemma count_occ_unlink_self (p : proc_ptr) (l : list proc_ptr) :
  count_occ Nat.eq_dec (unlink p l) p = Nat.pred (count_occ Nat.eq_dec l p).
Proof.
  induction l as [|x l IH]; [reflexivity|].
  cbn [unlink]. destruct (Nat.eqb_spec x p) as [->|Hx].
  - cbn. destruct (Nat.eq_dec p p); [reflexivity | contradiction].
  - cbn. destruct (Nat.eq_dec x p); [contradiction | apply IH].
Qed.


Lemma count_occ_snoc_self (p : proc_ptr) (l : list proc_ptr) :
  count_occ Nat.eq_dec (l ++ [p]) p = S (count_occ Nat.eq_dec l p).
Proof.
  rewrite count_occ_app. cbn [count_occ].
  destruct (Nat.eq_dec p p); [apply Nat.add_1_r | contradiction].
Qed.


(** [links] after a queue has been replaced. *)
Lemma links_set_queue (p : proc_ptr) (k : Z) (q : priority_queue) st (j : nat) :
  links p (set_queue k q st) j =
  if decide (j = Z.to_nat k /\ (j < length (ready_queues st))%nat)
  then count_occ Nat.eq_dec (items q) p else links p st j.
Proof.
  unfold links, set_queue. cbn [ready_queues with_ready_queues].
  destruct (decide (j = Z.to_nat k /\ (j < length (ready_queues st))%nat)) as [[-> Hlt]|Hn].
  - now rewrite list_lookup_insert_eq.
  - destruct (decide (j = Z.to_nat k)) as [->|Hne].
    + rewrite list_insert_ge by lia. reflexivity.
    + now rewrite list_lookup_insert_ne by congruence.
Qed.


Lemma links_queue_at (p : proc_ptr) st (k : Z) :
  count_occ Nat.eq_dec (items (queue_at st k)) p = links p st (Z.to_nat k).
Proof. reflexivity. Qed.



Lemma links_remove_self (p : proc_ptr) (k : Z) st j :
  links p (remove_process_from_queue k p st) j =
  if decide (j = Z.to_nat k /\ (j < length (ready_queues st))%nat)
  then Nat.pred (links p st j) else links p st j.
Proof.
  unfold remove_process_from_queue. rewrite links_set_queue.
  destruct (decide _) as [[-> _]|_]; [|reflexivity].
  cbn [items]. rewrite count_occ_unlink_self. now rewrite links_queue_at.
Qed.

Lemma links_enqueue_self (p : proc_ptr) (k : Z) st j :
  links p (enqueue_process k p st) j =
  if decide (j = Z.to_nat k /\ (j < length (ready_queues st))%nat)
  then S (links p st j) else links p st j.
Proof.
  unfold enqueue_process. rewrite links_set_queue.
  destruct (decide _) as [[-> _]|_]; [|reflexivity].
  cbn [items]. rewrite count_occ_snoc_self. now rewrite links_queue_at.
Qed.

Lemma length_set_queue (k : Z) q st :
  length (ready_queues (set_queue k q st)) = length (ready_queues st).
Proof. unfold set_queue. cbn. apply length_insert. Qed.

(** *** One step of the aging loop *)



Lemma length_enqueue (k : Z) (q : proc_ptr) st :
  length (ready_queues (enqueue_process k q st)) = length (ready_queues st).
Proof. unfold enqueue_process. apply length_set_queue. Qed.

Lemma length_remove (k : Z) (q : proc_ptr) st :
  length (ready_queues (remove_process_from_queue k q st)) = length (ready_queues st).
Proof. unfold remove_process_from_queue. apply length_set_queue. Qed.





(** *** The loop over one queue *)



(** *** The loop over the queues *)



(** *** What a whole sweep does to (level, age) *)






(** *** One timer tick *)









(** *** The bound, by induction on the number of ticks *)







End PrioProofs.

(** * More on the priority scheduler *)

Section PrioMore.
Import Prio.

Lemma find_highest_from_spec st (n : nat) :
  (forall k, 0 <= k < Z.of_nat n ->
             count (queue_at st k) = Z.of_nat (length (items (queue_at st k)))) ->
  (find_highest_from st n = -1
   /\ forall k, 0 <= k < Z.of_nat n -> items (queue_at st k) = [])
  \/ (exists k, 0 <= k < Z.of_nat n
                /\ find_highest_from st n = k
                /\ items (queue_at st k) <> []
                /\ forall j, k < j < Z.of_nat n -> items (queue_at st j) = []).
Proof.
  induction n as [|n IH]; intros Hc.
  - left. split; [reflexivity|]. intros k Hk. lia.
  - cbn [find_highest_from].
    assert (Hn : count (queue_at st (Z.of_nat n))
                 = Z.of_nat (length (items (queue_at st (Z.of_nat n))))) by (apply Hc; lia).
    destruct (Z.ltb_spec 0 (count (queue_at st (Z.of_nat n)))) as [Hpos|Hzero].
    + right. exists (Z.of_nat n). split; [lia|]. split; [reflexivity|]. split.
      * intros E. rewrite E in Hn. cbn in Hn. lia.
      * intros j Hj. lia.
    + assert (He : items (queue_at st (Z.of_nat n)) = []).
      { destruct (items (queue_at st (Z.of_nat n))); [reflexivity|]. cbn in Hn. lia. }
      destruct IH as [[Hr Hall]|(k & Hk & Hr & Hne & Habove)].
      * intros k Hk. apply Hc. lia.
      * left. split; [exact Hr|]. intros k Hk.
        destruct (Z.eq_dec k (Z.of_nat n)) as [->|Hkn]; [exact He | apply Hall; lia].
      * right. exists k. split; [lia|]. split; [exact Hr|]. split; [exact Hne|].
        intros j Hj. destruct (Z.eq_dec j (Z.of_nat n)) as [->|Hjn];
          [exact He | apply Habove; lia].
Qed.

Lemma queue_at_set_queue_other (i j : Z) q st :
  Z.to_nat i <> Z.to_nat j -> queue_at (set_queue i q st) j = queue_at st j.
Proof.
  intros Hne. unfold queue_at, set_queue. cbn [ready_queues with_ready_queues].
  now rewrite list_lookup_insert_ne by exact Hne.
Qed.

(** X27: the highest level first, first come first served within a level.
    In a state whose queue counters agree with the queues,
    [priority_get_next] returns NULL and changes nothing exactly when every
    ready queue is empty; otherwise it takes the process at the front of
    the non-empty queue of the highest level, leaves the rest of that queue
    in order, lowers its counter by one and touches no other queue. *)
Theorem priority_get_next_highest_first st :
  counted st ->
  ((forall k, 0 <= k <= MAX_PRIORITY -> items (queue_at st k) = []) ->
   priority_get_next st = (None, st))
  /\ (forall (k : Z) (p : proc_ptr) (rest : list proc_ptr),
        0 <= k <= MAX_PRIORITY ->
        items (queue_at st k) = p :: rest ->
        (forall j, k < j <= MAX_PRIORITY -> items (queue_at st j) = []) ->
        fst (priority_get_next st) = Some p
        /\ items (queue_at (snd (priority_get_next st)) k) = rest
        /\ count (queue_at (snd (priority_get_next st)) k) = count (queue_at st k) - 1
        /\ (forall j, 0 <= j <= MAX_PRIORITY -> j <> k ->
              queue_at (snd (priority_get_next st)) j = queue_at st j)
        /\ procs (snd (priority_get_next st)) = procs st).
Proof.
  intros [Hlen Hcount].
  assert (Hc : forall k, 0 <= k < Z.of_nat (Z.to_nat (MAX_PRIORITY + 1)) ->
                         count (queue_at st k) = Z.of_nat (length (items (queue_at st k)))).
  { intros k Hk. apply Hcount. unfold MAX_PRIORITY in *. lia. }
  pose proof (find_highest_from_spec st (Z.to_nat (MAX_PRIORITY + 1)) Hc) as Hspec.
  fold (find_highest_priority st) in Hspec.
  split.
  - intros Hempty. unfold priority_get_next.
    destruct Hspec as [[-> _]|(k & Hk & _ & Hne & _)]; [reflexivity|].
    exfalso. apply Hne. apply Hempty. unfold MAX_PRIORITY in *. lia.
  - intros k p rest Hk Hitems Habove. unfold priority_get_next.
    assert (Hfind : find_highest_priority st = k).
    { destruct Hspec as [[_ Hall]|(k' & Hk' & Hr & Hne & Habove')].
      - rewrite Hall in Hitems by (unfold MAX_PRIORITY in *; lia). discriminate.
      - rewrite Hr. destruct (Z.lt_trichotomy k' k) as [Hlt|[->|Hgt]]; [|reflexivity|].
        + rewrite Habove' in Hitems by (unfold MAX_PRIORITY in *; lia). discriminate.
        + exfalso. apply Hne. apply Habove. unfold MAX_PRIORITY in *. lia. }
    rewrite Hfind. destruct (Z.ltb_spec k 0); [lia|].
    unfold dequeue_process. rewrite Hitems. cbn [fst snd].
    assert (Hin : (Z.to_nat k < length (ready_queues st))%nat).
    { rewrite Hlen. unfold MAX_PRIORITY in *. lia. }
    rewrite (queue_at_set_queue_same k _ st Hin). cbn [items count].
    split; [reflexivity|]. split; [reflexivity|]. split.
    + destruct (Hcount k Hk) as [Hck Hlt]. rewrite Hitems in Hck. cbn [length] in Hck.
      apply wrap32_small. lia.
    + split; [|reflexivity]. intros j Hj Hjk. apply queue_at_set_queue_other. lia.
Qed.

Lemma counted_three_ready : counted three_ready.
Proof.
  split; [reflexivity|]. intros k Hk.
  assert (Hn : exists n : nat, k = Z.of_nat n /\ (n < 32)%nat).
  { exists (Z.to_nat k). unfold MAX_PRIORITY in Hk. lia. }
  destruct Hn as (n & -> & Hn).
  do 32 (destruct n as [|n]; [vm_compute; split; reflexivity|]). lia.
Qed.

Lemma priority_get_next_highest_first_witness :
  ((forall k, 0 <= k <= MAX_PRIORITY -> items (queue_at three_ready k) = []) ->
   priority_get_next three_ready = (None, three_ready))
  /\ (forall (k : Z) (p : proc_ptr) (rest : list proc_ptr),
        0 <= k <= MAX_PRIORITY ->
        items (queue_at three_ready k) = p :: rest ->
        (forall j, k < j <= MAX_PRIORITY -> items (queue_at three_ready j) = []) ->
        fst (priority_get_next three_ready) = Some p
        /\ items (queue_at (snd (priority_get_next three_ready)) k) = rest
        /\ count (queue_at (snd (priority_get_next three_ready)) k)
           = count (queue_at three_ready k) - 1
        /\ (forall j, 0 <= j <= MAX_PRIORITY -> j <> k ->
              queue_at (snd (priority_get_next three_ready)) j = queue_at three_ready j)
        /\ procs (snd (priority_get_next three_ready)) = procs three_ready).
Proof.
  apply (priority_get_next_highest_first three_ready). exact counted_three_ready.
Defined.

(** *** Blocking and unblocking *)

Lemma view_links (p : proc_ptr) st (i : nat) (a : Z) :
  view p st i a -> forall j, links p st j = if (j =? i)%nat then 1%nat else 0%nat.
Proof. intros (_ & _ & _ & _ & H). exact H. Qed.

(** X28: unblocking undoes the aging.  Take a ready process (linked once,
    into the queue of its current level) that is not the running one and
    whose [original_priority] is a valid level.  After [priority_block]
    followed by [priority_unblock] it is ready again at its original
    priority with age 0, linked once, at the tail of that level's queue and
    in no other queue; the blocked list, the running process and all other
    descriptors are as before. *)
Theorem priority_block_unblock_resets_aging (p : proc_ptr) st (i : nat) (a : Z) :
  view p st i a ->
  current_process st <> Some p ->
  0 <= original_priority (procs st p) <= MAX_PRIORITY ->
  let st' := priority_unblock (Some p) (priority_block (Some p) st) in
  view p st' (Z.to_nat (original_priority (procs st p))) 0
  /\ (exists l, items (queue_at st' (original_priority (procs st p))) = l ++ [p])
  /\ is_blocked (procs st' p) = false
  /\ original_priority (procs st' p) = original_priority (procs st p)
  /\ blocked_processes st' = blocked_processes st
  /\ current_process st' = current_process st
  /\ (forall q, q <> p -> procs st' q = procs st q).
Proof.
  intros Hview Hcur Horig. pose proof Hview as (Hprio & Hage & Hlen & Hi & Hlinks).
  set (o := original_priority (procs st p)) in *.
  (* the state after [priority_block] *)
  unfold priority_block. cbv zeta.
  set (st1 := upd_proc p (set_is_blocked true) st).
  assert (Hne : ptr_eqb (Some p) (current_process st1) = false).
  { change (current_process st1) with (current_process st).
    destruct (current_process st) as [c|]; [|reflexivity]. cbn [ptr_eqb].
    apply Nat.eqb_neq. congruence. }
  rewrite Hne.
  assert (Hp1 : procs st1 p = set_is_blocked true (procs st p))
    by (apply upd_proc_same).
  assert (Hprio1 : priority (procs st1 p) = Z.of_nat i) by (rewrite Hp1; exact Hprio).
  rewrite Hprio1.
  set (st2 := remove_process_from_queue (Z.of_nat i) p st1).
  set (sb := with_blocked_processes (p :: blocked_processes st2) st2).
  (* the state after [priority_unblock] *)
  unfold priority_unblock.
  assert (Hpb : procs sb p = set_is_blocked true (procs st p)) by exact Hp1.
  rewrite Hpb. cbn [is_blocked set_is_blocked negb]. cbv zeta.
  assert (Hun : unlink p (blocked_processes sb) = blocked_processes st).
  { change (blocked_processes sb) with (p :: blocked_processes st).
    cbn [unlink]. now rewrite Nat.eqb_refl. }
  rewrite Hun.
  set (u1 := with_blocked_processes (blocked_processes st) sb).
  set (u2 := upd_proc p (set_is_blocked false) u1).
  set (u3 := upd_proc p (fun d => set_priority (original_priority d) d) u2).
  set (u4 := upd_proc p (set_age 0) u3).
  assert (Hp4 : procs u4 p
                = set_age 0 (set_priority o (set_is_blocked false
                                               (set_is_blocked true (procs st p))))).
  { unfold u4. rewrite upd_proc_same. unfold u3. rewrite upd_proc_same.
    unfold u2. rewrite upd_proc_same. change (procs u1 p) with (procs sb p).
    rewrite Hpb. reflexivity. }
  assert (Hprio4 : priority (procs u4 p) = o) by (rewrite Hp4; reflexivity).
  rewrite Hprio4.
  set (st' := enqueue_process o p u4).
  assert (Hlen2 : length (ready_queues st2) = length (ready_queues st))
    by (unfold st2; now rewrite length_remove).
  assert (Hlinks2 : forall j, links p st2 j = 0%nat).
  { intros j. unfold st2. rewrite links_remove_self.
    change (links p st1 j) with (links p st j). rewrite Hlinks.
    change (length (ready_queues st1)) with (length (ready_queues st)).
    destruct (decide _) as [[-> _]|Hn].
    - rewrite Nat2Z.id, Nat.eqb_refl. reflexivity.
    - destruct (Nat.eqb_spec j i) as [->|]; [|reflexivity].
      exfalso. apply Hn. split; [now rewrite Nat2Z.id|].
      rewrite Hlen. unfold MAX_PRIORITY in *. lia. }
  assert (Hin : (Z.to_nat o < length (ready_queues u4))%nat).
  { change (length (ready_queues u4)) with (length (ready_queues st2)).
    rewrite Hlen2, Hlen. unfold MAX_PRIORITY in *. lia. }
  split.
  { (* the process is ready at its original level *)
    split; [rewrite Z2Nat.id by lia; exact Hprio4 |].
    split; [change (procs st' p) with (procs u4 p); rewrite Hp4; reflexivity|].
    split.
    { unfold st'. rewrite length_enqueue. change (length (ready_queues u4))
        with (length (ready_queues st2)). now rewrite Hlen2. }
    split; [unfold MAX_PRIORITY in *; lia|].
    intros j. unfold st'. rewrite links_enqueue_self.
    change (links p u4 j) with (links p st2 j). rewrite Hlinks2.
    destruct (decide _) as [[-> _]|Hn].
    - now rewrite Nat.eqb_refl.
    - destruct (Nat.eqb_spec j (Z.to_nat o)) as [->|]; [|reflexivity].
      exfalso. apply Hn. split; [reflexivity|exact Hin]. }
  split.
  { exists (items (queue_at u4 o)). unfold st', enqueue_process.
    rewrite (queue_at_set_queue_same o _ u4 Hin). reflexivity. }
  split; [change (procs st' p) with (procs u4 p); rewrite Hp4; reflexivity|].
  split; [change (procs st' p) with (procs u4 p); rewrite Hp4; reflexivity|].
  split; [reflexivity|]. split; [reflexivity|].
  intros q Hq. change (procs st' q) with (procs u4 q).
  unfold u4, u3, u2. rewrite !upd_proc_other by exact Hq.
  change (procs u1 q) with (procs st1 q). unfold st1. now rewrite upd_proc_other.
Qed.

Lemma view_one_aged : view 1%nat one_aged 6 0.
Proof.
  split; [reflexivity|]. split; [reflexivity|]. split; [reflexivity|].
  split; [vm_compute; lia|].
  intros j. destruct (decide (j < 32)%nat) as [Hj|Hj].
  - do 32 (destruct j as [|j]; [vm_compute; reflexivity|]). lia.
  - unfold links. rewrite (proj2 (lookup_ge_None (ready_queues one_aged) j)).
    + destruct (Nat.eqb_spec j 6); [lia | reflexivity].
    + change (length (ready_queues one_aged)) with 32%nat. lia.
Qed.

Lemma priority_block_unblock_resets_aging_witness :
  let st' := priority_unblock (Some 1%nat) (priority_block (Some 1%nat) one_aged) in
  view 1%nat st' (Z.to_nat (original_priority (procs one_aged 1%nat))) 0
  /\ (exists l, items (queue_at st' (original_priority (procs one_aged 1%nat))) = l ++ [1%nat])
  /\ is_blocked (procs st' 1%nat) = false
  /\ original_priority (procs st' 1%nat) = original_priority (procs one_aged 1%nat)
  /\ blocked_processes st' = blocked_processes one_aged
  /\ current_process st' = current_process one_aged
  /\ (forall q, q <> 1%nat -> procs st' q = procs one_aged q).
Proof.
  apply (priority_block_unblock_resets_aging 1%nat one_aged 6 0).
  - exact view_one_aged.
  - discriminate.
  - vm_compute. split; discriminate.
Defined.

End PrioMore.

(** * Properties of the round-robin scheduler *)

Section RRProofs.
Import RR.

(** C2 fails on the code: [rr_block] of the running process clears
    [current_process] and reschedules, but never links the process into the
    blocked list (only the other branch of [rr_block] does).  After
    init, add_process(1), schedule, block(1) the process is neither current,
    nor in the ready queue, nor in the blocked list, and [rr_unblock] cannot
    bring it back. *)
Theorem rr_block_current_loses_process :
  current_process one_running = Some 1%nat
  /\ tracked 1%nat one_running = true
  /\ let st := rr_block (Some 1%nat) one_running in
     current_process st = None
     /\ ready_procs st = []
     /\ blocked_procs st = []
     /\ tracked 1%nat st = false
     /\ rr_unblock (Some 1%nat) st = st.
Proof. vm_compute. repeat split; reflexivity. Qed.

(** The node pool of [create_process_node] is never replenished: every
    requeueing of the running process consumes a node, and once the 64 nodes
    are used up the process that should be requeued is dropped.  With one
    process and the default quantum this happens on the 83rd timer tick,
    or on the 64th [yield]. *)
Lemma rr_pool_exhaustion_loses_process :
  tracked 1%nat (run (repeat TimerTick 82) one_running) = true
  /\ tracked 1%nat (run (repeat TimerTick 83) one_running) = false
  /\ tracked 1%nat (run (repeat Yield 63) one_running) = true
  /\ tracked 1%nat (run (repeat Yield 64) one_running) = false.
Proof. vm_compute. repeat split; reflexivity. Qed.

End RRProofs.

(** * More on the round-robin scheduler *)

Section RRMore.
Import RR.

(** *** The scalar fields *)

Ltac proj :=
  cbn [time_quantum remaining_quantum initialized node_index current_process
       upd_node with_pool with_head with_tail with_blocked with_current with_remaining
       with_process_count with_context_switches with_total_wait_time with_current_tick
       with_time_quantum] in *.

Lemma upd_node_scalars (n : node_ptr) f st :
  time_quantum (upd_node n f st) = time_quantum st
  /\ remaining_quantum (upd_node n f st) = remaining_quantum st
  /\ initialized (upd_node n f st) = initialized st
  /\ node_index (upd_node n f st) = node_index st
  /\ current_process (upd_node n f st) = current_process st.
Proof. repeat split. Qed.

Lemma add_to_ready_queue_scalars (node : option node_ptr) st :
  time_quantum (add_to_ready_queue node st) = time_quantum st
  /\ remaining_quantum (add_to_ready_queue node st) = remaining_quantum st
  /\ initialized (add_to_ready_queue node st) = initialized st
  /\ node_index (add_to_ready_queue node st) = node_index st
  /\ current_process (add_to_ready_queue node st) = current_process st.
Proof.
  unfold add_to_ready_queue. destruct node; [|auto 10]. cbv zeta.
  destruct (ready_queue_tail _); repeat split.
Qed.

Lemma remove_from_ready_queue_scalars st :
  time_quantum (snd (remove_from_ready_queue st)) = time_quantum st
  /\ remaining_quantum (snd (remove_from_ready_queue st)) = remaining_quantum st
  /\ initialized (snd (remove_from_ready_queue st)) = initialized st
  /\ node_index (snd (remove_from_ready_queue st)) = node_index st
  /\ current_process (snd (remove_from_ready_queue st)) = current_process st.
Proof.
  unfold remove_from_ready_queue. destruct (ready_queue_head st); [|auto 10]. cbv zeta.
  destruct (ready_queue_head _); repeat split.
Qed.

Lemma remove_node_from_queue_scalars (node : option node_ptr) st :
  time_quantum (remove_node_from_queue node st) = time_quantum st
  /\ remaining_quantum (remove_node_from_queue node st) = remaining_quantum st
  /\ initialized (remove_node_from_queue node st) = initialized st
  /\ node_index (remove_node_from_queue node st) = node_index st
  /\ current_process (remove_node_from_queue node st) = current_process st.
Proof.
  unfold remove_node_from_queue. destruct node as [n|]; [|auto 10]. cbv zeta.
  destruct (prev (node_at st n)); destruct (next (node_at _ n)); repeat split.
Qed.

Lemma rr_get_next_scalars st :
  time_quantum (snd (rr_get_next st)) = time_quantum st
  /\ remaining_quantum (snd (rr_get_next st)) = remaining_quantum st
  /\ initialized (snd (rr_get_next st)) = initialized st
  /\ node_index (snd (rr_get_next st)) = node_index st
  /\ current_process (snd (rr_get_next st)) = current_process st.
Proof.
  unfold rr_get_next. pose proof (remove_from_ready_queue_scalars st) as H.
  destruct (remove_from_ready_queue st) as [[n|] st1]; exact H.
Qed.

Lemma bump_wait_times_scalars (fuel : nat) :
  forall (current : option node_ptr) st,
    time_quantum (bump_wait_times current fuel st) = time_quantum st
    /\ remaining_quantum (bump_wait_times current fuel st) = remaining_quantum st
    /\ initialized (bump_wait_times current fuel st) = initialized st
    /\ node_index (bump_wait_times current fuel st) = node_index st
    /\ current_process (bump_wait_times current fuel st) = current_process st.
Proof.
  induction fuel as [|fuel IH]; intros current st; [repeat split|].
  destruct current as [c|]; [|repeat split]. cbn [bump_wait_times]. cbv zeta.
  match goal with |- context [bump_wait_times ?a fuel ?s] =>
    destruct (IH a s) as (-> & -> & -> & -> & ->) end.
  repeat split.
Qed.

(** [create_process_node] takes the next node of the pool, or none. *)
Lemma create_process_node_scalars (proc : option proc_ptr) st :
  0 <= node_index st <= NODE_POOL_SIZE ->
  time_quantum (snd (create_process_node proc st)) = time_quantum st
  /\ remaining_quantum (snd (create_process_node proc st)) = remaining_quantum st
  /\ initialized (snd (create_process_node proc st)) = initialized st
  /\ current_process (snd (create_process_node proc st)) = current_process st
  /\ node_index st <= node_index (snd (create_process_node proc st)) <= NODE_POOL_SIZE.
Proof.
  intros Hn. unfold create_process_node, NODE_POOL_SIZE in *.
  destruct (Z.leb_spec 64 (node_index st)); cbn [snd].
  - repeat split; lia.
  - repeat split; cbn; rewrite wrap32_small; lia.
Qed.

Lemma tidy_schedule st : tidy st -> tidy (rr_schedule st) /\ node_index st <= node_index (rr_schedule st).
Proof.
  intros (Hi & Hq & Hr & Hn). unfold rr_schedule.
  destruct (negb (is_some (current_process st)) || (remaining_quantum st =? 0));
    [|split; [repeat split; tauto || lia | lia]].
  set (st1 := if is_some (current_process st) && (remaining_quantum st =? 0)
              then _ else st).
  assert (H1 : time_quantum st1 = time_quantum st
               /\ remaining_quantum st1 = remaining_quantum st
               /\ initialized st1 = initialized st
               /\ node_index st <= node_index st1 <= NODE_POOL_SIZE).
  { unfold st1. destruct (is_some (current_process st) && (remaining_quantum st =? 0));
      [|repeat split; lia].
    pose proof (create_process_node_scalars (current_process st) st Hn) as Hc.
    destruct (create_process_node (current_process st) st) as [[n|] sa]; cbn [snd] in Hc.
    - destruct (add_to_ready_queue_scalars (Some n) sa) as (-> & -> & -> & -> & _).
      tauto.
    - tauto. }
  destruct H1 as (E1 & E2 & E3 & E4).
  pose proof (rr_get_next_scalars st1) as Hg.
  destruct (rr_get_next st1) as [next_process st2]. cbn [snd] in Hg.
  destruct Hg as (G1 & G2 & G3 & G4 & _).
  destruct (negb (opt_eqb next_process (current_process st2))); unfold tidy; cbn;
    rewrite ?G1, ?G2, ?G3, ?G4, ?E1, ?E2, ?E3; unfold MIN_TIME_QUANTUM, MAX_TIME_QUANTUM in *;
    repeat split; try tauto; try lia.
Qed.

Lemma tidy_with_remaining_0 st :
  tidy st -> tidy (with_remaining 0 (with_current None st)).
Proof.
  intros (Hi & Hq & Hr & Hn). unfold tidy, MAX_TIME_QUANTUM in *. cbn.
  repeat split; try tauto; lia.
Qed.

Lemma tidy_scalars st st' :
  tidy st ->
  time_quantum st' = time_quantum st -> remaining_quantum st' = remaining_quantum st ->
  initialized st' = initialized st -> node_index st <= node_index st' <= NODE_POOL_SIZE ->
  tidy st' /\ node_index st <= node_index st'.
Proof.
  intros (Hi & Hq & Hr & Hn) E1 E2 E3 E4. unfold tidy. rewrite E1, E2, E3.
  repeat split; try tauto; lia.
Qed.

Lemma tidy_step (o : op) st : tidy st -> tidy (step o st) /\ node_index st <= node_index (step o st).
Proof.
  intros Ht. pose proof Ht as (Hi & Hq & Hr & Hn). destruct o; cbn [step].
  - (* init *)
    unfold rr_init. destruct (initialized st); cbn [snd]; [split; [exact Ht|lia]|].
    unfold tidy, MIN_TIME_QUANTUM, MAX_TIME_QUANTUM, DEFAULT_TIME_QUANTUM in *. cbn.
    repeat split; lia.
  - (* add_process *)
    unfold rr_add_process.
    pose proof (create_process_node_scalars (Some p) st Hn) as Hc.
    destruct (create_process_node (Some p) st) as [[n|] st1]; cbn [snd] in Hc;
      destruct Hc as (C1 & C2 & C3 & _ & C5).
    + destruct (add_to_ready_queue_scalars (Some n) st1) as (A1 & A2 & A3 & A4 & _).
      apply (tidy_scalars st _ Ht); proj; try congruence; try (rewrite ?A4; lia).
    + now apply (tidy_scalars st _ Ht).
  - (* remove_process *)
    unfold rr_remove_process. destruct (find_process_node (Some p) st) as [n|];
      [|split; [exact Ht|lia]].
    destruct (opt_eqb (process (node_at st n)) (current_process st)).
    + split; [|cbn; lia]. unfold tidy, MAX_TIME_QUANTUM in *. cbn.
      repeat split; try tauto; lia.
    + destruct (remove_node_from_queue_scalars (Some n) st) as (A1 & A2 & A3 & A4 & _).
      apply (tidy_scalars st _ Ht); proj; try congruence; try (rewrite ?A4; lia).
  - now apply tidy_schedule.
  - (* yield *)
    unfold rr_yield. destruct (current_process st) as [cur|] eqn:Hcur;
      [|now apply tidy_schedule].
    pose proof (create_process_node_scalars (Some cur) st Hn) as Hc.
    destruct (create_process_node (Some cur) st) as [node sa]. cbn [snd] in Hc.
    destruct Hc as (C1 & C2 & C3 & _ & C5).
    set (sb := match node with Some _ => add_to_ready_queue node sa | None => sa end).
    assert (Hb : tidy sb /\ node_index st <= node_index sb).
    { unfold sb. destruct node as [n|].
      - destruct (add_to_ready_queue_scalars (Some n) sa) as (A1 & A2 & A3 & A4 & _).
        apply (tidy_scalars st _ Ht); try congruence; try (rewrite ?A4; lia).
      - now apply (tidy_scalars st _ Ht). }
    destruct Hb as [Hb1 Hb2].
    destruct (tidy_schedule _ (tidy_with_remaining_0 sb Hb1)) as [H1 H2].
    split; [exact H1|]. proj. lia.
  - (* block *)
    unfold rr_block. destruct (opt_eqb (Some p) (current_process st)).
    + destruct (tidy_schedule _ (tidy_with_remaining_0 st Ht)) as [H1 H2].
      split; [exact H1|]. proj. lia.
    + destruct (find_process_node (Some p) st) as [n|]; [|split; [exact Ht|lia]].
      destruct (remove_node_from_queue_scalars (Some n) st) as (A1 & A2 & A3 & A4 & _).
      cbv zeta. destruct (blocked_processes _);
        apply (tidy_scalars st _ Ht); proj; try congruence; try (rewrite ?A4; lia).
  - (* unblock *)
    unfold rr_unblock.
    destruct (find_in_chain st (Some p) (blocked_processes st) chain_fuel) as [n|];
      [|split; [exact Ht|lia]].
    cbv zeta.
    match goal with |- context [add_to_ready_queue ?a ?s] =>
      destruct (add_to_ready_queue_scalars a s) as (A1 & A2 & A3 & A4 & _)
    end.
    apply (tidy_scalars st _ Ht); rewrite ?A1, ?A2, ?A3, ?A4;
      destruct (prev (node_at st n)); destruct (next (node_at _ n)); proj;
      try reflexivity; lia.
  - (* timer_tick *)
    unfold rr_timer_tick. cbv zeta.
    set (st1 := with_current_tick (wrap32 (current_tick st + 1)) st).
    set (st2 := if is_some (current_process st1) && (0 <? remaining_quantum st1)
                then with_remaining (wrap32 (remaining_quantum st1 - 1)) st1 else st1).
    assert (H2 : tidy st2 /\ node_index st2 = node_index st).
    { unfold st2. destruct (is_some (current_process st1)); cbn [andb];
        [|split; [exact Ht|reflexivity]].
      destruct (Z.ltb_spec 0 (remaining_quantum st1)); [|split; [exact Ht|reflexivity]].
      split; [|reflexivity]. unfold tidy, MAX_TIME_QUANTUM in *. unfold st1 in *. proj.
      rewrite wrap32_small by lia. repeat split; try tauto; lia. }
    destruct H2 as [H2 H2n].
    destruct (bump_wait_times_scalars chain_fuel (ready_queue_head st2) st2)
      as (B1 & B2 & B3 & B4 & _).
    set (st3 := bump_wait_times (ready_queue_head st2) chain_fuel st2) in *.
    assert (H3 : tidy st3 /\ node_index st2 <= node_index st3).
    { apply (tidy_scalars st2 _ H2); try assumption. destruct H2 as (_ & _ & _ & ?). lia. }
    destruct H3 as [H3 H3n].
    destruct (remaining_quantum st3 =? 0).
    + destruct (tidy_schedule st3 H3) as [H4 H4n]. split; [exact H4|lia].
    + split; [exact H3|lia].
Qed.

Lemma tidy_call (c : call) st :
  tidy st -> tidy (call_step c st) /\ node_index st <= node_index (call_step c st).
Proof.
  intros Ht. pose proof Ht as (Hi & Hq & Hr & Hn). destruct c; cbn [call_step].
  - now apply tidy_step.
  - split; [|cbn; lia]. unfold tidy. cbn. repeat split; try tauto; try lia; discriminate.
  - split; [exact Ht|unfold rr_set_priority; lia].
  - unfold rr_set_time_quantum, MIN_TIME_QUANTUM, MAX_TIME_QUANTUM in *.
    destruct (Z.leb_spec 1 quantum); destruct (Z.leb_spec quantum 1000); cbn [andb];
      try (split; [exact Ht|lia]).
    cbv zeta. destruct (_ && _); (split; [|cbn; lia]);
      unfold tidy, MIN_TIME_QUANTUM, MAX_TIME_QUANTUM; cbn; repeat split; lia.
Qed.

Lemma tidy_calls (cs : list call) :
  forall st, tidy st -> tidy (calls cs st) /\ node_index st <= node_index (calls cs st).
Proof.
  induction cs as [|c cs IH]; intros st Ht; [split; [exact Ht|cbn; lia]|].
  change (calls (c :: cs) st) with (calls cs (call_step c st)).
  destruct (tidy_call c st Ht) as [H1 H1n]. destruct (IH _ H1) as [H2 H2n].
  split; [exact H2|lia].
Qed.

Lemma tidy_state0 : tidy rr_state0.
Proof.
  unfold tidy, MIN_TIME_QUANTUM, MAX_TIME_QUANTUM, NODE_POOL_SIZE. cbn.
  repeat split; try lia; discriminate.
Qed.

(** X22: the time slice stays in range.  After any sequence of calls from
    power-up ([rr_set_time_quantum] with any argument included), a
    scheduler that is initialised has a time quantum between
    [MIN_TIME_QUANTUM] (1) and [MAX_TIME_QUANTUM] (1000); that is the slice
    [rr_get_time_slice] reports for every process, and the remaining
    quantum of the running process never exceeds [MAX_TIME_QUANTUM]. *)
Theorem rr_time_quantum_in_range (cs : list call) (p : option proc_ptr) :
  (initialized (calls cs rr_state0) = true ->
   MIN_TIME_QUANTUM <= rr_get_time_quantum (calls cs rr_state0) <= MAX_TIME_QUANTUM)
  /\ rr_get_time_slice p (calls cs rr_state0) = rr_get_time_quantum (calls cs rr_state0)
  /\ 0 <= remaining_quantum (calls cs rr_state0) <= MAX_TIME_QUANTUM.
Proof.
  destruct (tidy_calls cs rr_state0 tidy_state0) as [(Hi & _ & Hr & _) _].
  split; [exact Hi|]. split; [reflexivity|exact Hr].
Qed.

(** X23: the node pool is used up for good.  [create_process_node] hands
    out each of its 64 nodes once and nothing gives a node back; when
    [node_index] has reached 64, in every later state (after any calls,
    [rr_shutdown] and [rr_init] included) [rr_add_process] does nothing:
    the process is not enrolled and [process_count] stays as it is. *)
Theorem rr_node_pool_never_reclaimed (cs cs' : list call) (p : proc_ptr) :
  node_index (calls cs rr_state0) = NODE_POOL_SIZE ->
  node_index (calls cs' (calls cs rr_state0)) = NODE_POOL_SIZE
  /\ rr_add_process (Some p) (calls cs' (calls cs rr_state0))
     = calls cs' (calls cs rr_state0).
Proof.
  intros Hfull.
  destruct (tidy_calls cs rr_state0 tidy_state0) as [Ht _].
  destruct (tidy_calls cs' _ Ht) as [(_ & _ & _ & Hn) Hmono].
  assert (Hidx : node_index (calls cs' (calls cs rr_state0)) = NODE_POOL_SIZE) by lia.
  split; [exact Hidx|].
  unfold rr_add_process, create_process_node. rewrite Hidx.
  rewrite Z.leb_refl. reflexivity.
Qed.

Lemma rr_node_pool_never_reclaimed_witness :
  node_index (calls [Shutdown; Op Init] (calls pool_spent rr_state0)) = NODE_POOL_SIZE
  /\ rr_add_process (Some 2%nat) (calls [Shutdown; Op Init] (calls pool_spent rr_state0))
     = calls [Shutdown; Op Init] (calls pool_spent rr_state0).
Proof.
  apply (rr_node_pool_never_reclaimed pool_spent [Shutdown; Op Init] 2%nat).
  vm_compute. reflexivity.
Defined.

(** *** The ready queue as a list *)

Lemma node_at_upd_eq (n : node_ptr) f st :
  (n < length (node_pool st))%nat -> node_at (upd_node n f st) n = f (node_at st n).
Proof.
  intros H. unfold node_at at 1. unfold upd_node. cbn [node_pool with_pool].
  now rewrite list_lookup_insert_eq by exact H.
Qed.

Lemma node_at_upd_ne (n m : node_ptr) f st :
  n <> m -> node_at (upd_node n f st) m = node_at st m.
Proof.
  intros H. unfold node_at, upd_node. cbn [node_pool with_pool].
  now rewrite list_lookup_insert_ne by exact H.
Qed.

Lemma length_pool_upd (n : node_ptr) f st :
  length (node_pool (upd_node n f st)) = length (node_pool st).
Proof. unfold upd_node. cbn [node_pool with_pool]. apply length_insert. Qed.

(** A write that leaves the [process] and [next] fields alone. *)
Lemma node_at_upd_keep (n m : node_ptr) f st :
  (forall nd, next (f nd) = next nd /\ process (f nd) = process nd) ->
  next (node_at (upd_node n f st) m) = next (node_at st m)
  /\ process (node_at (upd_node n f st) m) = process (node_at st m).
Proof.
  intros Hf. destruct (decide (n = m)) as [->|Hne].
  - destruct (decide (m < length (node_pool st))%nat) as [Hlt|Hge].
    + rewrite node_at_upd_eq by exact Hlt. apply Hf.
    + unfold node_at, upd_node. cbn [node_pool with_pool].
      rewrite list_insert_ge by lia. auto.
  - rewrite node_at_upd_ne by exact Hne. auto.
Qed.

Lemma process_upd_keep (n m : node_ptr) f st :
  (forall nd, process (f nd) = process nd) ->
  process (node_at (upd_node n f st) m) = process (node_at st m).
Proof.
  intros Hf. destruct (decide (n = m)) as [->|Hne].
  - destruct (decide (m < length (node_pool st))%nat) as [Hlt|Hge].
    + rewrite node_at_upd_eq by exact Hlt. apply Hf.
    + unfold node_at, upd_node. cbn [node_pool with_pool].
      rewrite list_insert_ge by lia. auto.
  - rewrite node_at_upd_ne by exact Hne. auto.
Qed.

Lemma linked_frame st st' (l : list node_ptr) :
  (forall n, n ∈ l -> next (node_at st' n) = next (node_at st n)) ->
  forall from, linked st from l -> linked st' from l.
Proof.
  induction l as [|n l IH]; intros Hsame from H; [exact H|].
  destruct H as [-> H]. split; [reflexivity|].
  rewrite (Hsame n) by apply list_elem_of_here.
  apply IH; [|exact H]. intros k Hk. apply Hsame. now apply list_elem_of_further.
Qed.

Lemma linked_snoc st st' (l : list node_ptr) (t n : node_ptr) :
  (forall k, k ∈ l -> next (node_at st' k) = next (node_at st k)) ->
  next (node_at st' t) = Some n -> next (node_at st' n) = None ->
  forall from, linked st from (l ++ [t]) -> linked st' from (l ++ [t; n]).
Proof.
  intros Hsame Ht Hn. induction l as [|x l IH]; intros from H.
  - destruct H as [-> _]. cbn. rewrite Ht, Hn. auto.
  - destruct H as [-> H]. split; [reflexivity|].
    rewrite (Hsame x) by apply list_elem_of_here.
    apply IH; [|exact H]. intros k Hk. apply Hsame. now apply list_elem_of_further.
Qed.

Lemma chain_procs_linked st (l : list node_ptr) :
  forall (from : option node_ptr) (fuel : nat),
    linked st from l -> (length l <= fuel)%nat ->
    chain_procs st from fuel = map (fun n => process (node_at st n)) l.
Proof.
  induction l as [|n l IH]; intros from fuel H Hlen.
  - cbn in H. subst from. destruct fuel; reflexivity.
  - destruct H as [-> H]. destruct fuel as [|fuel]; [cbn in Hlen; lia|].
    cbn [chain_procs map]. f_equal. apply IH; [exact H|]. cbn in Hlen. lia.
Qed.

Lemma ready_ok_length st (l : list node_ptr) :
  ready_ok st l -> (length l <= chain_fuel)%nat.
Proof.
  intros (_ & _ & Hnd & Hlt & Hn & _).
  assert (H : (length l <= length (seq 0 (Z.to_nat NODE_POOL_SIZE)))%nat).
  { apply NoDup_incl_length; [now apply NoDup_ListNoDup|].
    intros x Hx. apply in_seq. apply list_elem_of_In in Hx. specialize (Hlt x Hx).
    unfold NODE_POOL_SIZE in *. lia. }
  now rewrite length_seq in H.
Qed.

Lemma ready_procs_ok st (l : list node_ptr) :
  ready_ok st l -> ready_procs st = map (fun n => process (node_at st n)) l.
Proof.
  intros Hok. unfold ready_procs.
  apply chain_procs_linked; [exact (proj1 Hok) | now apply (ready_ok_length st)].
Qed.

(** [ready_ok] only looks at the queue ends, the pool and [node_index]. *)
Lemma ready_ok_ext st st' (l : list node_ptr) :
  ready_queue_head st' = ready_queue_head st -> ready_queue_tail st' = ready_queue_tail st ->
  node_pool st' = node_pool st -> node_index st' = node_index st ->
  ready_ok st l -> ready_ok st' l.
Proof.
  intros Hh Ht Hp Hi (H1 & H2 & H3 & H4 & H5 & H6).
  unfold ready_ok. rewrite Hh, Ht, Hp, Hi.
  split; [|split; [exact H2|split; [exact H3|split; [exact H4|split; [exact H5|exact H6]]]]].
  apply (linked_frame st); [|exact H1]. intros n _. unfold node_at. now rewrite Hp.
Qed.

Lemma ready_procs_ext st st' :
  ready_queue_head st' = ready_queue_head st -> node_pool st' = node_pool st ->
  ready_procs st' = ready_procs st.
Proof.
  intros Hh Hp. unfold ready_procs. rewrite Hh.
  generalize (ready_queue_head st). generalize chain_fuel.
  induction n as [|n IH]; intros from; [reflexivity|].
  destruct from as [c|]; [|reflexivity]. cbn [chain_procs].
  assert (E : node_at st' c = node_at st c) by (unfold node_at; now rewrite Hp).
  rewrite E. f_equal. apply IH.
Qed.

(** Taking a node for [proc] and linking it at the tail. *)
Lemma enroll_ok st (l : list node_ptr) (proc : option proc_ptr) :
  ready_ok st l -> node_index st < NODE_POOL_SIZE ->
  exists n st1,
    create_process_node proc st = (Some n, st1)
    /\ n = Z.to_nat (node_index st)
    /\ ready_ok (add_to_ready_queue (Some n) st1) (l ++ [n])
    /\ ready_procs (add_to_ready_queue (Some n) st1) = ready_procs st ++ [proc].
Proof.
  intros Hok Hroom. pose proof Hok as (Hlink & Htail & Hnd & Hlt & Hn & Hlen).
  unfold create_process_node.
  destruct (Z.leb_spec NODE_POOL_SIZE (node_index st)) as [|_]; [lia|].
  set (n := Z.to_nat (node_index st)).
  set (st1 := upd_node n (fun _ => mk_node proc None None 0)
                       (with_pool (node_pool st) (wrap32 (node_index st + 1)) st)).
  exists n, st1. split; [reflexivity|]. split; [reflexivity|].
  assert (Hnl : (n < length (node_pool st))%nat).
  { rewrite Hlen. unfold n, NODE_POOL_SIZE in *. lia. }
  assert (Hfresh : n ∉ l).
  { intros Hin. specialize (Hlt n Hin). unfold n in Hlt. lia. }
  assert (Hidx : node_index st1 = node_index st + 1).
  { unfold st1. cbn. unfold NODE_POOL_SIZE in *. rewrite wrap32_small; lia. }
  (* the state after linking *)
  unfold add_to_ready_queue. cbv zeta.
  set (s1 := upd_node n (set_next None) st1).
  set (s2 := upd_node n (set_prev (ready_queue_tail s1)) s1).
  assert (Hl1 : length (node_pool st1) = length (node_pool st))
    by (unfold st1; now rewrite length_pool_upd).
  assert (Hn2 : node_at s2 n = mk_node proc None (ready_queue_tail st) 0).
  { unfold s2. rewrite node_at_upd_eq by (unfold s1; rewrite length_pool_upd; lia).
    unfold s1. rewrite node_at_upd_eq by lia.
    unfold st1. rewrite node_at_upd_eq by exact Hnl. reflexivity. }
  assert (Hold : forall k, k <> n -> node_at s2 k = node_at st k).
  { intros k Hk. unfold s2, s1, st1. rewrite !node_at_upd_ne by congruence. reflexivity. }
  assert (Hmap : map (fun k => process (node_at st k)) l ++ [proc] = ready_procs st ++ [proc])
    by (now rewrite (ready_procs_ok st l Hok)).
  change (ready_queue_tail s2) with (ready_queue_tail st).
  destruct (ready_queue_tail st) as [t|] eqn:Et.
  - (* a queue with a last node [t] *)
    assert (Hl' : exists l', l = l' ++ [t]).
    { destruct (last l) as [x|] eqn:El; [|congruence].
      apply last_Some in El. destruct El as [l' ->]. exists l'. congruence. }
    destruct Hl' as [l' ->].
    assert (Htn : t <> n).
    { intros ->. apply Hfresh. apply elem_of_app. right. apply list_elem_of_here. }
    set (s3 := upd_node t (set_next (Some n)) s2).
    assert (Ht3 : next (node_at s3 t) = Some n).
    { unfold s3. rewrite node_at_upd_eq; [reflexivity|].
      unfold s2, s1. rewrite !length_pool_upd, Hl1.
      assert (Z.of_nat t < node_index st)
        by (apply Hlt; apply elem_of_app; right; apply list_elem_of_here).
      rewrite Hlen. unfold NODE_POOL_SIZE in *. lia. }
    assert (Hn3 : node_at s3 n = mk_node proc None (Some t) 0).
    { unfold s3. rewrite node_at_upd_ne by exact Htn. exact Hn2. }
    assert (Hold3 : forall k, k <> n -> k <> t -> node_at s3 k = node_at st k).
    { intros k Hk1 Hk2. unfold s3. rewrite node_at_upd_ne by congruence. now apply Hold. }
    assert (Hnd' : NoDup (l' ++ [t])) by exact Hnd.
    apply NoDup_app in Hnd'. destruct Hnd' as (Hnd1 & Hdis & _).
    assert (Hk : forall k, k ∈ l' -> k <> n /\ k <> t).
    { intros k Hk. split.
      - intros ->. apply Hfresh. apply elem_of_app. now left.
      - intros ->. apply (Hdis t Hk). apply list_elem_of_here. }
    assert (Hlink3 : linked (with_tail (Some n) s3) (ready_queue_head st) (l' ++ [t; n])).
    { apply (linked_snoc st _ l' t n); try assumption.
      - intros k Hin. destruct (Hk k Hin) as [K1 K2].
        change (next (node_at s3 k) = next (node_at st k)). now rewrite Hold3.
      - change (next (node_at s3 n) = None). now rewrite Hn3. }
    assert (Hassoc : l' ++ [t; n] = (l' ++ [t]) ++ [n])
      by (rewrite <- app_assoc; reflexivity).
    assert (Hok' : ready_ok (with_tail (Some n) s3) ((l' ++ [t]) ++ [n])).
    { rewrite <- Hassoc. split; [exact Hlink3|]. split.
      { cbn [ready_queue_tail with_tail]. rewrite Hassoc. symmetry. apply last_snoc. }
      split.
      { rewrite Hassoc. apply NoDup_app. split; [exact Hnd|]. split.
        - intros k Hin Hin'. apply list_elem_of_singleton in Hin'. subst k. now apply Hfresh.
        - apply NoDup_singleton. }
      split.
      { intros k Hin. change (Z.of_nat k < node_index st1). rewrite Hidx.
        rewrite Hassoc in Hin. apply elem_of_app in Hin. destruct Hin as [Hin|Hin].
        - specialize (Hlt k Hin). lia.
        - apply list_elem_of_singleton in Hin. subst k. unfold n. lia. }
      split.
      { change (0 <= node_index st1 <= NODE_POOL_SIZE). lia. }
      change (length (node_pool s3) = Z.to_nat NODE_POOL_SIZE).
      unfold s3, s2, s1. rewrite !length_pool_upd, Hl1. exact Hlen. }
    change (ready_ok (with_tail (Some n) s3) ((l' ++ [t]) ++ [n])
            /\ ready_procs (with_tail (Some n) s3) = ready_procs st ++ [proc]).
    split; [exact Hok'|].
    rewrite (ready_procs_ok _ _ Hok'). rewrite <- Hmap, !map_app. cbn [map].
    change (node_at (with_tail (Some n) s3)) with (node_at s3).
    rewrite Hn3. cbn [process]. f_equal. f_equal.
    + apply map_ext_in. intros k Hin. apply list_elem_of_In in Hin.
      destruct (Hk k Hin) as [K1 K2]. now rewrite Hold3.
    + f_equal. unfold s3.
      rewrite (process_upd_keep t t (set_next (Some n)) s2) by reflexivity.
      rewrite Hold by exact Htn. reflexivity.
  - (* an empty queue *)
    assert (l = []).
    { destruct l as [|x l] using rev_ind; [reflexivity|]. rewrite last_snoc in Htail.
      discriminate. }
    subst l. cbn in Hlink.
    assert (Hok' : ready_ok (with_tail (Some n) (with_head (Some n) s2)) ([] ++ [n])).
    { split.
      { cbn. split; [reflexivity|]. change (next (node_at s2 n) = None). now rewrite Hn2. }
      split; [reflexivity|]. split; [apply NoDup_singleton|]. split.
      { intros k Hin. apply list_elem_of_singleton in Hin. subst k.
        change (Z.of_nat n < node_index st1). rewrite Hidx. unfold n. lia. }
      split.
      { change (0 <= node_index st1 <= NODE_POOL_SIZE). lia. }
      change (length (node_pool s2) = Z.to_nat NODE_POOL_SIZE).
      unfold s2, s1. rewrite !length_pool_upd, Hl1. exact Hlen. }
    change (ready_ok (with_tail (Some n) (with_head (Some n) s2)) ([] ++ [n])
            /\ ready_procs (with_tail (Some n) (with_head (Some n) s2))
               = ready_procs st ++ [proc]).
    split; [exact Hok'|].
    rewrite (ready_procs_ok _ _ Hok'). rewrite <- Hmap. cbn [map app].
    change (node_at (with_tail (Some n) (with_head (Some n) s2))) with (node_at s2).
    now rewrite Hn2.
Qed.

(** Taking the first node off the queue. *)
Lemma get_next_ok st (n : node_ptr) (rest : list node_ptr) :
  ready_ok st (n :: rest) ->
  exists st',
    rr_get_next st = (process (node_at st n), st')
    /\ ready_ok st' rest
    /\ (forall k, process (node_at st' k) = process (node_at st k))
    /\ current_process st' = current_process st
    /\ time_quantum st' = time_quantum st
    /\ remaining_quantum st' = remaining_quantum st.
Proof.
  intros Hok. pose proof Hok as (Hlink & Htail & Hnd & Hlt & Hn & Hlen).
  destruct Hlink as [Hhead Hlink].
  unfold rr_get_next, remove_from_ready_queue. rewrite Hhead. cbv zeta.
  set (st1 := with_head (next (node_at st n)) st).
  change (ready_queue_head st1) with (next (node_at st n)).
  apply NoDup_cons in Hnd. destruct Hnd as [Hnotin Hnd].
  assert (Hproc : forall s k f g,
             (forall nd, process (f nd) = process nd) ->
             (forall nd, process (g nd) = process nd) ->
             process (node_at (upd_node n g (upd_node n f s)) k) = process (node_at s k)).
  { intros s k f g Hf Hg. now rewrite !process_upd_keep. }
  destruct rest as [|h rest'].
  - cbn in Hlink. rewrite Hlink.
    set (st4 := upd_node n (set_prev None) (upd_node n (set_next None) (with_tail None st1))).
    exists st4. split.
    { f_equal. unfold st4. now rewrite Hproc. }
    split.
    { split; [exact Hlink|]. split; [reflexivity|]. split; [constructor|].
      split; [intros k Hk; inversion Hk|]. split; [exact Hn|].
      unfold st4. rewrite !length_pool_upd. exact Hlen. }
    split; [|repeat split].
    intros k. unfold st4. now rewrite Hproc.
  - destruct Hlink as [Hnext Hlink]. rewrite Hnext.
    set (st2 := upd_node h (set_prev None) st1).
    set (st4 := upd_node n (set_prev None) (upd_node n (set_next None) st2)).
    exists st4. split.
    { f_equal. unfold st4. rewrite Hproc by reflexivity.
      unfold st2. now rewrite process_upd_keep. }
    split.
    { split.
      { change (linked st4 (next (node_at st n)) (h :: rest')). rewrite Hnext.
        apply (linked_frame st); [|split; [reflexivity|exact Hlink]].
        intros k Hk. assert (k <> n) by (intros ->; contradiction).
        unfold st4. rewrite !node_at_upd_ne by congruence.
        unfold st2. now destruct (node_at_upd_keep h k (set_prev None) st1) as [-> _]. }
      split.
      { change (ready_queue_tail st4) with (ready_queue_tail st). rewrite Htail.
        apply last_cons_cons. }
      split; [exact Hnd|]. split.
      { intros k Hk. change (node_index st4) with (node_index st).
        apply Hlt. now apply list_elem_of_further. }
      split; [exact Hn|].
      unfold st4, st2. rewrite !length_pool_upd. exact Hlen. }
    split; [|repeat split].
    intros k. unfold st4. rewrite Hproc by reflexivity.
    unfold st2. now rewrite process_upd_keep.
Qed.

Lemma get_next_empty st : ready_ok st [] -> rr_get_next st = (None, st).
Proof.
  intros (Hlink & _). cbn in Hlink.
  unfold rr_get_next, remove_from_ready_queue. now rewrite Hlink.
Qed.

(** X24: the ready queue is first in, first out.  In a state whose ready
    queue is a well-formed chain, [rr_add_process] (while a node is left in
    the pool) puts the process at the end of the queue and counts it, and
    [rr_get_next] returns the process at the front and leaves the others in
    order, or returns NULL and changes nothing when the queue is empty.
    Both leave the queue well formed. *)
Theorem rr_ready_queue_fifo st (l : list node_ptr) (p : proc_ptr) :
  ready_ok st l ->
  (node_index st < NODE_POOL_SIZE ->
   ready_procs (rr_add_process (Some p) st) = ready_procs st ++ [Some p]
   /\ process_count (rr_add_process (Some p) st) = wrap32 (process_count st + 1)
   /\ ready_ok (rr_add_process (Some p) st) (l ++ [Z.to_nat (node_index st)]))
  /\ (ready_procs st = [] -> rr_get_next st = (None, st))
  /\ (forall q rest,
        ready_procs st = q :: rest ->
        fst (rr_get_next st) = q
        /\ ready_procs (snd (rr_get_next st)) = rest
        /\ ready_ok (snd (rr_get_next st)) (tail l)).
Proof.
  intros Hok. split; [|split].
  - intros Hroom. unfold rr_add_process.
    destruct (enroll_ok st l (Some p) Hok Hroom) as (n & st1 & Hc & Hn & Hok' & Hprocs).
    rewrite Hc. subst n.
    set (st2 := add_to_ready_queue _ st1) in *.
    split; [|split].
    + rewrite <- Hprocs. now apply ready_procs_ext.
    + cbn [process_count with_process_count]. f_equal. f_equal. unfold st2.
      assert (Ha : forall node s, process_count (add_to_ready_queue node s) = process_count s).
      { intros node s. unfold add_to_ready_queue. destruct node; [|reflexivity].
        cbv zeta. destruct (ready_queue_tail _); reflexivity. }
      assert (Hp : process_count st1 = process_count st).
      { pose proof (f_equal snd Hc) as E. cbn [snd] in E. rewrite <- E.
        unfold create_process_node.
        destruct (NODE_POOL_SIZE <=? node_index st); reflexivity. }
      now rewrite Ha, Hp.
    + now apply (ready_ok_ext st2).
  - intros Hnil. rewrite (ready_procs_ok st l Hok) in Hnil.
    destruct l; [|discriminate]. now apply get_next_empty.
  - intros q rest Hq. rewrite (ready_procs_ok st l Hok) in Hq.
    destruct l as [|n l']; [discriminate|]. cbn [map] in Hq. injection Hq as <- <-.
    destruct (get_next_ok st n l' Hok) as (st' & -> & Hok' & Hproc & _).
    cbn [fst snd tail]. split; [reflexivity|]. split; [|exact Hok'].
    rewrite (ready_procs_ok st' l' Hok'). apply map_ext. intros k. apply Hproc.
Qed.

Lemma ready_ok_three_enrolled : ready_ok three_enrolled [1%nat; 2%nat].
Proof.
  split; [vm_compute; auto|]. split; [reflexivity|]. split.
  { apply NoDup_cons. split; [|apply NoDup_singleton].
    intros H. apply list_elem_of_singleton in H. discriminate. }
  split.
  { intros n Hn. apply elem_of_cons in Hn. destruct Hn as [->|Hn]; [reflexivity|].
    apply list_elem_of_singleton in Hn. subst n. reflexivity. }
  split; [vm_compute; split; discriminate | reflexivity].
Qed.

Lemma rr_ready_queue_fifo_witness :
  (node_index three_enrolled < NODE_POOL_SIZE ->
   ready_procs (rr_add_process (Some 4%nat) three_enrolled)
   = ready_procs three_enrolled ++ [Some 4%nat]
   /\ process_count (rr_add_process (Some 4%nat) three_enrolled)
      = wrap32 (process_count three_enrolled + 1)
   /\ ready_ok (rr_add_process (Some 4%nat) three_enrolled)
               ([1%nat; 2%nat] ++ [Z.to_nat (node_index three_enrolled)]))
  /\ (ready_procs three_enrolled = [] -> rr_get_next three_enrolled = (None, three_enrolled))
  /\ (forall q rest,
        ready_procs three_enrolled = q :: rest ->
        fst (rr_get_next three_enrolled) = q
        /\ ready_procs (snd (rr_get_next three_enrolled)) = rest
        /\ ready_ok (snd (rr_get_next three_enrolled)) (tail [1%nat; 2%nat])).
Proof.
  apply (rr_ready_queue_fifo three_enrolled [1%nat; 2%nat] 4%nat).
  exact ready_ok_three_enrolled.
Defined.

(** X25: [rr_yield] rotates.  With a process running, a well-formed ready
    queue and a node left in the pool, [rr_yield] puts the running process
    at the end of the ready queue and dispatches the process that was at
    the front (the yielding process itself when the queue was empty) with a
    full time quantum; the processes in between keep their order. *)
Theorem rr_yield_rotates st (l : list node_ptr) (p : proc_ptr)
        (q : option proc_ptr) (rest : list (option proc_ptr)) :
  ready_ok st l -> current_process st = Some p -> node_index st < NODE_POOL_SIZE ->
  ready_procs st ++ [Some p] = q :: rest ->
  current_process (rr_yield st) = q
  /\ ready_procs (rr_yield st) = rest
  /\ (q <> None -> remaining_quantum (rr_yield st) = time_quantum st).
Proof.
  intros Hok Hcur Hroom Hq. unfold rr_yield. rewrite Hcur.
  destruct (enroll_ok st l (Some p) Hok Hroom) as (n & st1 & Hc & _ & Hok' & Hprocs).
  rewrite Hc.
  set (sb := add_to_ready_queue (Some n) st1) in *.
  set (s := with_remaining 0 (with_current None sb)).
  assert (Hoks : ready_ok s (l ++ [n])) by (now apply (ready_ok_ext sb)).
  assert (Hps : ready_procs s = q :: rest).
  { rewrite <- Hq, <- Hprocs. now apply ready_procs_ext. }
  assert (Htq : time_quantum s = time_quantum st).
  { change (time_quantum sb = time_quantum st). unfold sb.
    destruct (add_to_ready_queue_scalars (Some n) st1) as (-> & _).
    destruct Hok as (_ & _ & _ & _ & Hn & _).
    destruct (create_process_node_scalars (Some p) st Hn) as (E & _).
    rewrite Hc in E. exact E. }
  unfold rr_schedule. change (current_process s) with (@None proc_ptr).
  cbn [is_some negb orb andb].
  destruct (l ++ [n]) as [|m rest0] eqn:El; [now destruct l|].
  destruct (get_next_ok s m rest0 Hoks) as (st' & -> & Hok2 & Hproc & Hcur' & Htq' & _).
  rewrite (ready_procs_ok s _ Hoks) in Hps. cbn [map] in Hps. injection Hps as Hm Hrest.
  rewrite Hm, Hcur'. change (current_process s) with (@None proc_ptr).
  assert (Hr' : ready_procs st' = rest).
  { rewrite (ready_procs_ok st' rest0 Hok2), <- Hrest. apply map_ext. intros k. apply Hproc. }
  destruct q as [x|]; cbn [opt_eqb negb].
  - split; [reflexivity|]. split.
    + rewrite <- Hr'. now apply ready_procs_ext.
    + intros _. cbn. congruence.
  - split; [exact Hcur'|]. split; [exact Hr'|]. congruence.
Qed.

Lemma rr_yield_rotates_witness :
  current_process (rr_yield three_enrolled) = Some 2%nat
  /\ ready_procs (rr_yield three_enrolled) = [Some 3%nat; Some 1%nat]
  /\ (Some 2%nat <> None ->
      remaining_quantum (rr_yield three_enrolled) = time_quantum three_enrolled).
Proof.
  apply (rr_yield_rotates three_enrolled [1%nat; 2%nat] 1%nat).
  - exact ready_ok_three_enrolled.
  - reflexivity.
  - reflexivity.
  - reflexivity.
Defined.




End RRMore.

(** * Properties of the buddy allocator *)

Section BuddyProofs.
Import Buddy.

(** C3 fails on the code: [buddy_init] computes [usable_pages] and drops it,
    and [buddy_get_free_pages] is [total_pages - allocated_pages].  On a
    64-page region one page holds the block records, the free lists hold
    the other 63 pages, nothing is allocated, and [get_free_pages] reports
    64: free + allocated is [total], not [total - metadata]. *)
Theorem buddy_get_free_pages_counts_metadata :
  total_pages region64 = 64
  /\ metadata_pages_of 64 = 1
  /\ usable_pages_of 64 = 63
  /\ free_list_pages region64 = 63
  /\ allocated_pages region64 = 0
  /\ buddy_get_free_pages region64 = 64
  /\ buddy_get_free_pages region64 + allocated_pages region64
     <> total_pages region64 - metadata_pages_of (total_pages region64).
Proof. vm_compute. repeat split; try reflexivity. discriminate. Qed.

(** C4 fails on the code: the loop of [buddy_init] starts at the first page
    after the block records and gives every block the largest order that
    fits, whatever its index.  On a 64-page region the free lists hold the
    blocks 63, 61, 57, 49, 33 and 1 at orders 0 to 5: the order-5 block
    starts at page 1, which is not a multiple of 32. *)
Theorem buddy_init_misaligned_blocks :
  map (fun k => free_list_blocks region64 (Z.of_nat k)) (seq 0 6)
  = [[63%nat]; [61%nat]; [57%nat]; [49%nat]; [33%nat]; [1%nat]]
  /\ Z.of_nat 1 mod 2 ^ 5 <> 0
  /\ list_aligned region64 5 = false
  /\ all_lists_aligned region64 = false.
Proof. vm_compute. repeat split; try reflexivity. discriminate. Qed.

(** The misalignment spreads: splitting the order-1 block at page 61 frees
    its "buddy" 60, a page of the order-2 block that starts at page 57; and
    the 33rd [alloc_page] on the fresh region returns the address of page 0,
    the page that holds the block records. *)
Lemma buddy_split_publishes_foreign_pages :
  let st1 := snd (buddy_alloc_pages 1 region64) in
  let st2 := snd (buddy_alloc_pages 1 st1) in
  free_list_blocks st2 0 = [60%nat]
  /\ free_list_blocks st2 2 = [57%nat]
  /\ nth 32 (alloc_page_run 33 region64) 0 = memory_start region64.
Proof. vm_compute. repeat split; reflexivity. Qed.

(** ** [alloc_aligned] *)

Lemma shiftl_1_pow2 (k : Z) : 0 <= k -> Z.shiftl 1 k = 2 ^ k.
Proof. intros Hk. rewrite Z.shiftl_mul_pow2 by assumption. lia. Qed.

Lemma pow2_le_mono (a b : Z) : 0 <= a <= b -> 2 ^ a <= 2 ^ b.
Proof. intros H. apply Z.pow_le_mono_r; lia. Qed.

(** The loop of [get_order_for_pages] stops at the least order whose block
    holds [pages]. *)
Lemma order_loop_least (pages : Z) (n : nat) :
  forall order0 : Z,
    0 <= pages <= 2 ^ MAX_ORDER ->
    0 <= order0 ->
    order0 + Z.of_nat n = MAX_ORDER + 2 ->
    (forall j, 0 <= j < order0 -> 2 ^ j < pages) ->
    let k := order_loop pages order0 (2 ^ order0) n in
    order0 <= k <= MAX_ORDER
    /\ pages <= 2 ^ k
    /\ forall j, 0 <= j < k -> 2 ^ j < pages.
Proof.
  unfold MAX_ORDER. induction n as [|n IH]; intros order0 Hp H0 Hsum Hinv.
  - exfalso. specialize (Hinv 20). lia.
  - cbn [order_loop]. unfold MAX_ORDER.
    destruct (Z.ltb_spec (2 ^ order0) pages) as [Hlt|Hge];
      destruct (Z.leb_spec order0 20) as [Hle|Hgt]; cbn [andb].
    + assert (Hw8 : wrap8 (order0 + 1) = order0 + 1) by (apply wrap8_small; lia).
      assert (Hw32 : wrap32 (Z.shiftl (2 ^ order0) 1) = 2 ^ (order0 + 1)).
      { rewrite Z.shiftl_mul_pow2 by lia. rewrite Z.pow_add_r by lia.
        apply wrap32_small.
        pose proof (pow2_le_mono order0 20 ltac:(lia)).
        pose proof (Z.pow_pos_nonneg 2 order0 ltac:(lia) ltac:(lia)).
        change (2 ^ 20) with 1048576 in *. change (2 ^ 1) with 2. lia. }
      rewrite Hw8, Hw32.
      destruct (IH (order0 + 1)) as (Hk & Hpk & Hjk); try lia.
      { intros j Hj. destruct (Z.eq_dec j order0) as [->|]; [exact Hlt | apply Hinv; lia]. }
      split; [lia|]. split; assumption.
    + exfalso. specialize (Hinv 20). lia.
    + split; [lia|]. split; [lia | exact Hinv].
    + exfalso. specialize (Hinv 20). lia.
Qed.

Lemma get_order_for_pages_least (pages : Z) :
  0 <= pages <= 2 ^ MAX_ORDER ->
  let k := get_order_for_pages pages in
  0 <= k <= MAX_ORDER /\ pages <= 2 ^ k /\ forall j, 0 <= j < k -> 2 ^ j < pages.
Proof.
  intros Hp. unfold get_order_for_pages.
  destruct (order_loop_least pages (Z.to_nat (MAX_ORDER + 2)) 0 Hp) as (Hk & Hpk & Hjk).
  - lia.
  - reflexivity.
  - intros j Hj. lia.
  - change (2 ^ 0) with 1 in *. cbn zeta in *.
    destruct (Z.leb_spec (order_loop pages 0 1 (Z.to_nat (MAX_ORDER + 2))) MAX_ORDER); [|lia].
    cbn zeta. split; [lia|]. split; assumption.
Qed.




End BuddyProofs.

(** * More on the buddy allocator *)

Section BuddyMore.
Import Buddy.

Lemma same_books_refl st : same_books st st.
Proof. repeat split. Qed.

Lemma same_books_trans st1 st2 st3 :
  same_books st1 st2 -> same_books st2 st3 -> same_books st1 st3.
Proof.
  intros (A1 & A2 & A3 & A4 & A5) (B1 & B2 & B3 & B4 & B5).
  repeat split; congruence.
Qed.

Lemma same_books_upd_block (b : block_ptr) f st : same_books st (upd_block b f st).
Proof.
  repeat split. unfold upd_block. cbn [block_metadata with_metadata]. apply length_insert.
Qed.

Lemma same_books_set_head (k : Z) v st : same_books st (set_free_list_head k v st).
Proof. repeat split. Qed.

Lemma same_books_add (b : block_ptr) (k : Z) st : same_books st (add_to_free_list b k st).
Proof.
  unfold add_to_free_list. cbv zeta.
  repeat (first [ apply same_books_refl
                | eapply same_books_trans; [|apply same_books_set_head]
                | eapply same_books_trans; [|apply same_books_upd_block]
                | match goal with
                  | |- same_books _ (match ?x with _ => _ end) => destruct x
                  end ]).
Qed.

Lemma same_books_remove (b : block_ptr) (k : Z) st :
  same_books st (remove_from_free_list b k st).
Proof.
  unfold remove_from_free_list. cbv zeta.
  repeat (first [ apply same_books_refl
                | eapply same_books_trans; [|apply same_books_set_head]
                | eapply same_books_trans; [|apply same_books_upd_block]
                | match goal with
                  | |- same_books _ (match ?x with _ => _ end) => destruct x
                  end ]).
Qed.

Lemma same_books_split_loop (b : block_ptr) (n : nat) :
  forall (cur : Z) st, same_books st (split_loop b cur n st).
Proof.
  induction n as [|n IH]; intros cur st; [apply same_books_refl|].
  cbn [split_loop]. cbv zeta.
  eapply same_books_trans; [|apply IH].
  eapply same_books_trans; [|apply same_books_upd_block].
  destruct (get_buddy b _ st); [apply same_books_add | apply same_books_refl].
Qed.

Lemma same_books_merge_loop (n : nat) :
  forall (b : block_ptr) (k : Z) st, same_books st (snd (merge_loop b k n st)).
Proof.
  induction n as [|n IH]; intros b k st; [apply same_books_refl|].
  cbn [merge_loop].
  destruct (k <? MAX_ORDER); [|apply same_books_refl].
  destruct (get_buddy b k st) as [buddy|]; [|apply same_books_refl].
  destruct (negb _ || negb _); [apply same_books_refl|].
  cbv zeta. eapply same_books_trans; [|apply IH].
  eapply same_books_trans; [|apply same_books_upd_block].
  apply same_books_remove.
Qed.

(** *** The order written in a block record *)

Lemma block_at_upd_eq (b : block_ptr) f st :
  (b < length (block_metadata st))%nat -> block_at (upd_block b f st) b = f (block_at st b).
Proof.
  intros H. unfold block_at at 1. unfold upd_block. cbn [block_metadata with_metadata].
  now rewrite list_lookup_insert_eq by exact H.
Qed.

Lemma block_at_upd_ne (b x : block_ptr) f st :
  b <> x -> block_at (upd_block b f st) x = block_at st x.
Proof.
  intros H. unfold block_at, upd_block. cbn [block_metadata with_metadata].
  now rewrite list_lookup_insert_ne by exact H.
Qed.

Lemma order_upd_keep (b x : block_ptr) f st :
  (forall blk, order (f blk) = order blk) ->
  order (block_at (upd_block b f st) x) = order (block_at st x).
Proof.
  intros Hf. destruct (decide (b = x)) as [->|Hne].
  - destruct (decide (x < length (block_metadata st))%nat) as [Hlt|Hge].
    + rewrite block_at_upd_eq by exact Hlt. apply Hf.
    + unfold block_at, upd_block. cbn [block_metadata with_metadata].
      rewrite list_insert_ge by lia. reflexivity.
  - now rewrite block_at_upd_ne.
Qed.

Lemma block_at_set_head (k : Z) v st (x : block_ptr) :
  block_at (set_free_list_head k v st) x = block_at st x.
Proof. reflexivity. Qed.

Lemma order_remove (b : block_ptr) (k : Z) st (x : block_ptr) :
  order (block_at (remove_from_free_list b k st) x) = order (block_at st x).
Proof.
  unfold remove_from_free_list. cbv zeta.
  rewrite !order_upd_keep by reflexivity.
  destruct (next (block_at _ b)); [rewrite order_upd_keep by reflexivity|];
    (destruct (prev (block_at st b)); [rewrite order_upd_keep by reflexivity|]);
    reflexivity.
Qed.

Lemma order_add_keep (buddy : block_ptr) (k : Z) st (x : block_ptr) :
  buddy <> x -> order (block_at (add_to_free_list buddy k st) x) = order (block_at st x).
Proof.
  intros Hne. unfold add_to_free_list. cbv zeta. rewrite block_at_set_head.
  destruct (free_list_head _ k); [rewrite order_upd_keep by reflexivity|];
    rewrite !block_at_upd_ne by exact Hne; reflexivity.
Qed.

Lemma get_buddy_other (b buddy : block_ptr) (k : Z) st :
  0 <= k <= MAX_ORDER -> get_buddy b k st = Some buddy -> buddy <> b.
Proof.
  intros Hk. unfold get_buddy, GET_BUDDY_INDEX. cbv zeta.
  destruct (_ <=? _); [discriminate|]. intros H. injection H as <-.
  assert (Hpow : wrap32 (Z.shiftl 1 k) = 2 ^ k).
  { rewrite shiftl_1_pow2 by lia. apply wrap32_small. unfold MAX_ORDER in Hk.
    pose proof (pow2_le_mono k 20 ltac:(lia)).
    pose proof (Z.pow_pos_nonneg 2 k ltac:(lia) ltac:(lia)).
    change (2 ^ 20) with 1048576 in *. lia. }
  rewrite Hpow. intros Heq.
  assert (Hnn : 0 <= Z.lxor (Z.of_nat b) (2 ^ k)).
  { apply Z.lxor_nonneg. split; intros _; [apply Z.pow_nonneg|]; lia. }
  assert (Hx : Z.lxor (Z.of_nat b) (2 ^ k) = Z.of_nat b) by lia.
  assert (Hz : 2 ^ k = 0).
  { pose proof (f_equal (Z.lxor (Z.of_nat b)) Hx) as E.
    rewrite <- Z.lxor_assoc, Z.lxor_nilpotent, Z.lxor_0_l in E. exact E. }
  pose proof (Z.pow_pos_nonneg 2 k ltac:(lia) ltac:(lia)). lia.
Qed.

(** [split_block] leaves the block with the order asked for. *)
Lemma split_loop_order (b : block_ptr) (n : nat) :
  forall (cur : Z) st,
    (0 < n)%nat -> Z.of_nat n <= cur <= MAX_ORDER ->
    (b < length (block_metadata st))%nat ->
    order (block_at (split_loop b cur n st) b) = cur - Z.of_nat n.
Proof.
  induction n as [|n IH]; intros cur st Hn Hcur Hb; [lia|].
  cbn [split_loop]. cbv zeta.
  assert (Hw : wrap8 (cur - 1) = cur - 1)
    by (apply wrap8_small; unfold MAX_ORDER in *; lia).
  rewrite Hw.
  set (st1 := match get_buddy b (cur - 1) st with
              | Some buddy => add_to_free_list buddy (cur - 1) st
              | None => st
              end).
  assert (Hb1 : (b < length (block_metadata st1))%nat).
  { unfold st1. destruct (get_buddy b (cur - 1) st); [|exact Hb].
    destruct (same_books_add b0 (cur - 1) st) as (_ & _ & _ & _ & ->). exact Hb. }
  destruct n as [|n].
  - cbn [split_loop]. rewrite block_at_upd_eq by exact Hb1. cbn [order set_order]. lia.
  - rewrite IH.
    + lia.
    + lia.
    + unfold MAX_ORDER in *. lia.
    + destruct (same_books_upd_block b (set_order (cur - 1)) st1) as (_ & _ & _ & _ & ->).
      exact Hb1.
Qed.

Lemma find_block_Some (n : nat) :
  forall (k : Z) st (b : block_ptr) st1,
    find_block k n st = (Some b, st1) ->
    exists j, k <= j < k + Z.of_nat n
              /\ free_list_head st j = Some b
              /\ st1 = remove_from_free_list b j st.
Proof.
  induction n as [|n IH]; intros k st b st1 H; [discriminate|].
  cbn [find_block] in H. destruct (free_list_head st k) as [h|] eqn:Eh.
  - injection H as <- <-. exists k. split; [lia|]. auto.
  - destruct (IH _ _ _ _ H) as (j & Hj & Hh & ->). exists j. split; [lia|]. auto.
Qed.

Lemma find_block_None (n : nat) :
  forall (k : Z) st st1, find_block k n st = (None, st1) -> st1 = st.
Proof.
  induction n as [|n IH]; intros k st st1 H; [now injection H|].
  cbn [find_block] in H. destruct (free_list_head st k); [discriminate|].
  exact (IH _ _ _ H).
Qed.

(** What a successful [alloc_pages] leaves behind. *)
Lemma alloc_pages_success (count : Z) st :
  orderly st -> 0 < count <= 2 ^ MAX_ORDER ->
  fst (buddy_alloc_pages count st) <> 0 ->
  exists (b : block_ptr) st3,
    buddy_alloc_pages count st
    = (memory_start st + Z.of_nat b * PAGE_SIZE,
       with_allocated (wrap32 (allocated_pages st + 2 ^ get_order_for_pages count))
                      (wrap32 (allocation_count st + 1)) st3)
    /\ same_books st st3
    /\ Z.of_nat b < total_pages st
    /\ is_free (block_at st3 b) = false
    /\ order (block_at st3 b) = get_order_for_pages count.
Proof.
  intros (Hlen & Hms & Hfit & Hap & Hac & Hheads) Hcount Hres.
  destruct (get_order_for_pages_least count ltac:(lia)) as (Hk & Hpk & _).
  set (k := get_order_for_pages count) in *.
  unfold buddy_alloc_pages in *. fold k in Hres |- *.
  destruct (Z.eqb_spec count 0); [lia|].
  destruct (Z.eqb_spec k 255); [unfold MAX_ORDER in Hk; lia|].
  destruct (find_block k (Z.to_nat (MAX_ORDER - k + 1)) st) as [[b|] st1] eqn:Efind;
    [|cbn in Hres; congruence].
  destruct (find_block_Some _ _ _ _ _ Efind) as (j & Hj & Hhead & ->).
  assert (Hj' : 0 <= j <= MAX_ORDER) by lia.
  destruct (Hheads j b Hj' Hhead) as [Hord Hb].
  set (st1 := remove_from_free_list b j st) in *.
  assert (Hord1 : order (block_at st1 b) = j) by (unfold st1; now rewrite order_remove).
  pose proof (same_books_remove b j st) as Hbooks1. fold st1 in Hbooks1.
  assert (Hlt : (b < length (block_metadata st))%nat) by lia.
  assert (Hlt1 : (b < length (block_metadata st1))%nat).
  { destruct Hbooks1 as (_ & _ & _ & _ & ->). exact Hlt. }
  assert (Hbs : BLOCK_SIZE k = 2 ^ k).
  { unfold BLOCK_SIZE. rewrite shiftl_1_pow2 by lia. apply wrap32_small.
    unfold MAX_ORDER in Hk.
    pose proof (pow2_le_mono k 20 ltac:(lia)).
    pose proof (Z.pow_pos_nonneg 2 k ltac:(lia) ltac:(lia)).
    change (2 ^ 20) with 1048576 in *. lia. }
  assert (Haddr : forall s, memory_start s = memory_start st ->
             wrap32 (memory_start s + wrap32 (Z.of_nat b * PAGE_SIZE))
             = memory_start st + Z.of_nat b * PAGE_SIZE).
  { intros s ->. unfold PAGE_SIZE in *. rewrite (wrap32_small (Z.of_nat b * 4096)) by lia.
    apply wrap32_small. lia. }
  rewrite Hord1.
  set (split := if k <? j then split_block b k st1 else (b, st1)).
  assert (Hsplit : exists st2, split = (b, st2) /\ same_books st1 st2
                               /\ order (block_at st2 b) = k).
  { unfold split. destruct (Z.ltb_spec k j) as [Hkj|Hkj].
    - unfold split_block. rewrite Hord1. eexists. split; [reflexivity|].
      split; [apply same_books_split_loop|].
      rewrite split_loop_order; [lia|lia|lia|exact Hlt1].
    - exists st1. split; [reflexivity|]. split; [apply same_books_refl|]. lia. }
  destruct Hsplit as (st2 & -> & Hbooks2 & Hord2).
  set (st3 := upd_block b (set_is_free false) st2).
  assert (Hbooks3 : same_books st st3).
  { eapply same_books_trans; [exact Hbooks1|].
    eapply same_books_trans; [exact Hbooks2|]. apply same_books_upd_block. }
  exists b, st3. split.
  { destruct Hbooks3 as (B1 & B2 & B3 & B4 & B5).
    cbn [memory_start with_allocated]. rewrite (Haddr st3 B1), Hbs, B3, B4. reflexivity. }
  split; [exact Hbooks3|]. split; [exact Hb|].
  assert (Hlt2 : (b < length (block_metadata st2))%nat).
  { destruct Hbooks2 as (_ & _ & _ & _ & ->). exact Hlt1. }
  unfold st3. rewrite block_at_upd_eq by exact Hlt2. split; [reflexivity|exact Hord2].
Qed.

(** X29: freeing undoes the bookkeeping of the allocation.  In a well-kept
    state, a successful [alloc_pages(count)] charges [allocated_pages] with
    the whole block, [2^k] pages for the least order [k] with
    [count <= 2^k], and counts one allocation; [free_pages] of the address
    it returned (its [count] argument is not looked at) gives both back, so
    that [allocated_pages], [allocation_count] and [get_free_pages] read as
    before the allocation. *)
Theorem buddy_alloc_free_restores_statistics (count count' : Z) st :
  orderly st -> 0 < count <= 2 ^ MAX_ORDER ->
  fst (buddy_alloc_pages count st) <> 0 ->
  allocated_pages (snd (buddy_alloc_pages count st))
  = wrap32 (allocated_pages st + 2 ^ get_order_for_pages count)
  /\ allocation_count (snd (buddy_alloc_pages count st)) = wrap32 (allocation_count st + 1)
  /\ allocated_pages (buddy_free_pages (fst (buddy_alloc_pages count st)) count'
                                       (snd (buddy_alloc_pages count st)))
     = allocated_pages st
  /\ allocation_count (buddy_free_pages (fst (buddy_alloc_pages count st)) count'
                                        (snd (buddy_alloc_pages count st)))
     = allocation_count st
  /\ buddy_get_free_pages (buddy_free_pages (fst (buddy_alloc_pages count st)) count'
                                            (snd (buddy_alloc_pages count st)))
     = buddy_get_free_pages st.
Proof.
  intros Hok Hcount Hres.
  destruct (alloc_pages_success count st Hok Hcount Hres)
    as (b & st3 & -> & Hbooks & Hb & Hfree & Hord).
  destruct Hok as (Hlen & Hms & Hfit & Hap & Hac & _).
  destruct Hbooks as (B1 & B2 & B3 & B4 & B5).
  destruct (get_order_for_pages_least count ltac:(lia)) as (Hk & _).
  set (k := get_order_for_pages count) in *.
  cbn [fst snd]. split; [reflexivity|]. split; [reflexivity|].
  set (st4 := with_allocated _ _ st3).
  assert (Hbs : BLOCK_SIZE k = 2 ^ k).
  { unfold BLOCK_SIZE. rewrite shiftl_1_pow2 by lia. apply wrap32_small.
    unfold MAX_ORDER in Hk.
    pose proof (pow2_le_mono k 20 ltac:(lia)).
    pose proof (Z.pow_pos_nonneg 2 k ltac:(lia) ltac:(lia)).
    change (2 ^ 20) with 1048576 in *. lia. }
  (* the three guards of [free_pages] pass *)
  unfold buddy_free_pages.
  change (memory_start st4) with (memory_start st3). rewrite B1.
  change (total_pages st4) with (total_pages st3). rewrite B2.
  destruct (Z.ltb_spec (memory_start st + Z.of_nat b * PAGE_SIZE) (memory_start st));
    [unfold PAGE_SIZE in *; lia|].
  assert (Hidx : wrap32 (memory_start st + Z.of_nat b * PAGE_SIZE - memory_start st)
                 / PAGE_SIZE = Z.of_nat b).
  { replace (memory_start st + Z.of_nat b * PAGE_SIZE - memory_start st)
      with (Z.of_nat b * PAGE_SIZE) by lia.
    unfold PAGE_SIZE in *. rewrite wrap32_small by lia. apply Z.div_mul. lia. }
  rewrite Hidx. destruct (Z.leb_spec (total_pages st) (Z.of_nat b)); [lia|].
  rewrite Nat2Z.id. change (block_at st4 b) with (block_at st3 b).
  rewrite Hfree, Hord, Hbs.
  (* merging and relinking do not touch the books *)
  set (st5 := with_allocated _ _ st4).
  pose proof (same_books_merge_loop (Z.to_nat MAX_ORDER) b (order (block_at st5 b)) st5) as Hm.
  unfold merge_block.
  destruct (merge_loop b (order (block_at st5 b)) (Z.to_nat MAX_ORDER) st5) as [b1 st6].
  cbn [snd] in Hm.
  pose proof (same_books_add b1 (order (block_at st6 b1)) st6) as Ha.
  destruct (same_books_trans _ _ _ Hm Ha) as (_ & T2 & T3 & T4 & _).
  unfold buddy_get_free_pages. rewrite T2, T3, T4.
  assert (Hpos : 0 < 2 ^ k) by (apply Z.pow_pos_nonneg; lia).
  assert (E1 : allocated_pages st5 = allocated_pages st).
  { unfold st5, st4. cbn [allocated_pages with_allocated].
    unfold wrap32. rewrite Zminus_mod_idemp_l.
    replace (allocated_pages st + 2 ^ k - 2 ^ k) with (allocated_pages st) by lia.
    apply Z.mod_small. lia. }
  assert (E2 : allocation_count st5 = allocation_count st).
  { unfold st5, st4. cbn [allocation_count with_allocated].
    unfold wrap32. rewrite Zminus_mod_idemp_l.
    replace (allocation_count st + 1 - 1) with (allocation_count st) by lia.
    apply Z.mod_small. lia. }
  rewrite E1, E2. change (total_pages st5) with (total_pages st3). rewrite B2.
  repeat split.
Qed.

Lemma orderly_region64 : orderly region64.
Proof.
  split; [reflexivity|]. split; [vm_compute; discriminate|].
  split; [vm_compute; discriminate|].
  split; [vm_compute; split; [discriminate|reflexivity]|].
  split; [vm_compute; split; [discriminate|reflexivity]|].
  intros k b Hk Hhead.
  assert (Hn : exists n : nat, k = Z.of_nat n /\ (n < 21)%nat).
  { exists (Z.to_nat k). unfold MAX_ORDER in Hk. lia. }
  destruct Hn as (n & -> & Hn).
  do 21 (destruct n as [|n];
         [vm_compute in Hhead; try discriminate; injection Hhead as <-;
          vm_compute; split; reflexivity|]).
  lia.
Qed.

Lemma buddy_alloc_free_restores_statistics_witness :
  allocated_pages (snd (buddy_alloc_pages 3 region64))
  = wrap32 (allocated_pages region64 + 2 ^ get_order_for_pages 3)
  /\ allocation_count (snd (buddy_alloc_pages 3 region64))
     = wrap32 (allocation_count region64 + 1)
  /\ allocated_pages (buddy_free_pages (fst (buddy_alloc_pages 3 region64)) 3
                                       (snd (buddy_alloc_pages 3 region64)))
     = allocated_pages region64
  /\ allocation_count (buddy_free_pages (fst (buddy_alloc_pages 3 region64)) 3
                                        (snd (buddy_alloc_pages 3 region64)))
     = allocation_count region64
  /\ buddy_get_free_pages (buddy_free_pages (fst (buddy_alloc_pages 3 region64)) 3
                                            (snd (buddy_alloc_pages 3 region64)))
     = buddy_get_free_pages region64.
Proof.
  apply (buddy_alloc_free_restores_statistics 3 3 region64).
  - exact orderly_region64.
  - vm_compute. split; [reflexivity|discriminate].
  - vm_compute. discriminate.
Defined.

End BuddyMore.

(** * Properties of the shared-memory transport *)

Section ShmProofs.
Import Shm.

Lemma shm_find_index_Some (f : shared_region -> bool) (rs : list shared_region) :
  forall (from i : nat),
    find_index f rs from = Some i ->
    exists r, (from <= i)%nat /\ rs !! (i - from)%nat = Some r /\ f r = true.
Proof.
  induction rs as [|r rs IH]; intros from i H; cbn [find_index] in H; [discriminate|].
  destruct (f r) eqn:E.
  - injection H as <-. exists r. rewrite Nat.sub_diag. auto.
  - destruct (IH _ _ H) as (r' & Hle & Hl & Hf).
    exists r'. split; [lia|]. split; [|exact Hf].
    replace (i - from)%nat with (S (i - S from)) by lia. exact Hl.
Qed.

Lemma shm_find_index_0 (f : shared_region -> bool) (rs : list shared_region) (i : nat) :
  find_index f rs 0 = Some i -> exists r, rs !! i = Some r /\ f r = true.
Proof.
  intros H. destruct (shm_find_index_Some f rs 0 i H) as (r & _ & Hl & Hf).
  rewrite Nat.sub_0_r in Hl. eauto.
Qed.

Lemma region_at_lookup st (i : nat) (r : shared_region) :
  regions st !! i = Some r -> region_at st i = r.
Proof. intros H. unfold region_at. now rewrite H. Qed.


Lemma regions_upd_region st (i : nat) f (r : shared_region) :
  regions st !! i = Some r ->
  regions (upd_region i f st) = <[i := f r]> (regions st).
Proof. intros H. unfold upd_region. cbn. now rewrite (region_at_lookup st i r H). Qed.

Lemma lookup_upd_region st (i : nat) f (r : shared_region) :
  regions st !! i = Some r ->
  regions (upd_region i f st) !! i = Some (f r).
Proof.
  intros H. rewrite (regions_upd_region st i f r H).
  apply list_lookup_insert_eq. now apply lookup_lt_Some in H.
Qed.

(** Taking and releasing the flag of a region whose flag is clear leaves
    the state as it was. *)
Lemma release_acquire st (i : nat) (r : shared_region) st1 :
  regions st !! i = Some r -> lock r = false ->
  acquire_lock i st = Some st1 -> release_lock i st1 = st.
Proof.
  intros Hl Hlock Ha. unfold acquire_lock in Ha.
  rewrite (region_at_lookup st i r Hl), Hlock in Ha. injection Ha as <-.
  unfold release_lock.
  unfold upd_region at 1.
  rewrite (region_at_lookup _ i _ (lookup_upd_region st i _ r Hl)).
  rewrite (regions_upd_region st i _ r Hl).
  rewrite list_insert_insert_eq.
  replace (set_lock false (set_lock true r)) with r
    by (destruct r; cbn in *; subst; reflexivity).
  rewrite list_insert_id by exact Hl.
  destruct st; reflexivity.
Qed.

Lemma acquire_unlocked st (i : nat) (r : shared_region) :
  regions st !! i = Some r -> lock r = false ->
  acquire_lock i st = Some (upd_region i (set_lock true) st).
Proof.
  intros Hl Hlock. unfold acquire_lock.
  now rewrite (region_at_lookup st i r Hl), Hlock.
Qed.


(** *** The invariant is preserved *)




Lemma regions_upd_upd st (i : nat) f g (r : shared_region) :
  regions st !! i = Some r ->
  regions (upd_region i g (upd_region i f st)) = <[i := g (f r)]> (regions st).
Proof.
  intros Hl.
  rewrite (regions_upd_region _ i g (f r) (lookup_upd_region st i f r Hl)).
  rewrite (regions_upd_region st i f r Hl).
  apply list_insert_insert_eq.
Qed.

Lemma regions_upd_upd_upd st (i : nat) f g h (r : shared_region) :
  regions st !! i = Some r ->
  regions (upd_region i h (upd_region i g (upd_region i f st)))
  = <[i := h (g (f r))]> (regions st).
Proof.
  intros Hl.
  rewrite (regions_upd_region _ i h (g (f r))).
  - rewrite (regions_upd_upd st i f g r Hl). apply list_insert_insert_eq.
  - rewrite (regions_upd_upd st i f g r Hl).
    apply list_lookup_insert_eq. now apply lookup_lt_Some in Hl.
Qed.












End ShmProofs.

(** * More on the shared-memory transport *)

Section ShmMore.
Import Shm.

Lemma shm_state_eq (a b : shm_state) :
  regions a = regions b -> next_region_id a = next_region_id b ->
  active_regions a = active_regions b ->
  total_messages_sent a = total_messages_sent b ->
  total_messages_received a = total_messages_received b ->
  initialized a = initialized b -> shared_pool a = shared_pool b ->
  pool_offset a = pool_offset b -> a = b.
Proof. destruct a, b; cbn; intros; subst; reflexivity. Qed.

Lemma chunk_of_inj (a b : Z) :
  0 <= a -> 0 <= b -> a mod SHARED_REGION_SIZE = 0 -> b mod SHARED_REGION_SIZE = 0 ->
  chunk_of a = chunk_of b -> a = b.
Proof.
  unfold chunk_of, SHARED_REGION_SIZE. intros Ha Hb Hma Hmb H.
  apply Z2Nat.inj in H; try (apply Z.div_pos; lia).
  rewrite (Z.div_mod a 4096), (Z.div_mod b 4096) by lia.
  rewrite Hma, Hmb, H. reflexivity.
Qed.

Lemma chunk_of_lt st (off : Z) :
  sound st -> 0 <= off -> off + SHARED_REGION_SIZE <= pool_offset st ->
  (chunk_of off < length (shared_pool st))%nat.
Proof.
  intros Hs H0 H1. rewrite (sound_pool st Hs).
  destruct (sound_offset st Hs) as [[_ Hle] _].
  unfold chunk_of, POOL_BYTES, MAX_SHARED_REGIONS, SHARED_REGION_SIZE in *.
  apply Z2Nat.inj_lt; [apply Z.div_pos; lia | lia |].
  apply Z.div_lt_upper_bound; lia.
Qed.

Lemma envelope_at_set_eq st (off : Z) (m : shared_message) :
  (chunk_of off < length (shared_pool st))%nat ->
  envelope_at (set_envelope off m st) off = m.
Proof.
  intros H. unfold envelope_at, set_envelope. cbn [shared_pool with_pool].
  now rewrite list_lookup_insert_eq by exact H.
Qed.

Lemma envelope_at_set_ne st (off off' : Z) (m : shared_message) :
  chunk_of off <> chunk_of off' ->
  envelope_at (set_envelope off m st) off' = envelope_at st off'.
Proof.
  intros H. unfold envelope_at, set_envelope. cbn [shared_pool with_pool].
  now rewrite list_lookup_insert_ne by exact H.
Qed.

Lemma envelope_at_pool st st' (off : Z) :
  shared_pool st' = shared_pool st -> envelope_at st' off = envelope_at st off.
Proof. intros H. unfold envelope_at. now rewrite H. Qed.

Lemma send_success st (c : Z) (m : ipc_message) (i : nat) (r : shared_region) (off : Z) :
  find_region_by_id c st = Some i -> regions st !! i = Some r ->
  lock r = false -> memory r = Some off ->
  check_region_permission (Some i) (sender_id m) 2 st = true ->
  has_data r = false ->
  shm_send_message c (Some m) st = Some (0, sent_state st i r off m).
Proof.
  intros Hfind Hl Hlock Hmem Hperm Hdata. unfold shm_send_message.
  rewrite Hfind, Hperm. cbn [negb].
  rewrite (acquire_unlocked st i r Hl Hlock).
  rewrite (region_at_lookup _ i _ (lookup_upd_region st i (set_lock true) r Hl)).
  cbn [has_data set_lock]. rewrite Hdata.
  assert (Hoff : memory_of (upd_region i (set_lock true) st) i = off).
  { unfold memory_of.
    rewrite (region_at_lookup _ i _ (lookup_upd_region st i (set_lock true) r Hl)).
    cbn [memory set_lock]. now rewrite Hmem. }
  rewrite Hoff. f_equal. f_equal. apply shm_state_eq; try reflexivity.
  change (regions (upd_region i (set_lock false)
                     (upd_region i (set_has_data true) (upd_region i (set_lock true) st)))
          = <[i := set_has_data true r]> (regions st)).
  rewrite (regions_upd_upd_upd st i _ _ _ r Hl). f_equal.
  destruct r; cbn in *; subst; reflexivity.
Qed.

Lemma receive_success st (c : Z) (buf : ipc_message) (i : nat) (r : shared_region)
      (off : Z) :
  find_region_by_id c st = Some i -> regions st !! i = Some r ->
  lock r = false -> memory r = Some off ->
  has_data r = true -> valid (envelope_at st off) = true ->
  shm_receive_message c (Some buf) st
  = Some (0, Some (received_message (envelope_at st off) buf), received_state st i r off).
Proof.
  intros Hfind Hl Hlock Hmem Hdata Hvalid. unfold shm_receive_message.
  rewrite Hfind.
  rewrite (acquire_unlocked st i r Hl Hlock).
  rewrite (region_at_lookup _ i _ (lookup_upd_region st i (set_lock true) r Hl)).
  cbn [has_data set_lock]. rewrite Hdata. cbn [negb].
  assert (Hoff : memory_of (upd_region i (set_lock true) st) i = off).
  { unfold memory_of.
    rewrite (region_at_lookup _ i _ (lookup_upd_region st i (set_lock true) r Hl)).
    cbn [memory set_lock]. now rewrite Hmem. }
  rewrite Hoff.
  change (envelope_at (upd_region i (set_lock true) st) off) with (envelope_at st off).
  rewrite Hvalid. cbn [negb]. f_equal. f_equal.
  apply shm_state_eq; try reflexivity.
  change (regions (upd_region i (set_lock false)
                     (upd_region i (set_has_data false) (upd_region i (set_lock true) st)))
          = <[i := set_has_data false r]> (regions st)).
  rewrite (regions_upd_upd_upd st i _ _ _ r Hl). f_equal.
  destruct r; cbn in *; subst; reflexivity.
Qed.

Lemma receive_empty st (c : Z) (buf : ipc_message) (i : nat) (r : shared_region) :
  find_region_by_id c st = Some i -> regions st !! i = Some r ->
  lock r = false -> has_data r = false ->
  shm_receive_message c (Some buf) st = Some (-1, Some buf, st).
Proof.
  intros Hfind Hl Hlock Hdata. unfold shm_receive_message. rewrite Hfind.
  rewrite (acquire_unlocked st i r Hl Hlock).
  rewrite (region_at_lookup _ i _ (lookup_upd_region st i (set_lock true) r Hl)).
  cbn [has_data set_lock]. rewrite Hdata. cbn [negb].
  now rewrite (release_acquire st i r _ Hl Hlock (acquire_unlocked st i r Hl Hlock)).
Qed.

Lemma send_refused st (c : Z) (m : ipc_message) (i : nat) (r : shared_region) :
  find_region_by_id c st = Some i -> regions st !! i = Some r ->
  lock r = false ->
  check_region_permission (Some i) (sender_id m) 2 st = false \/ has_data r = true ->
  shm_send_message c (Some m) st = Some (-1, st).
Proof.
  intros Hfind Hl Hlock Hwhy. unfold shm_send_message. rewrite Hfind.
  destruct (check_region_permission (Some i) (sender_id m) 2 st) eqn:Hperm;
    cbn [negb]; [|reflexivity].
  destruct Hwhy as [Hwhy|Hdata]; [discriminate|].
  rewrite (acquire_unlocked st i r Hl Hlock).
  rewrite (region_at_lookup _ i _ (lookup_upd_region st i (set_lock true) r Hl)).
  cbn [has_data set_lock]. rewrite Hdata.
  now rewrite (release_acquire st i r _ Hl Hlock (acquire_unlocked st i r Hl Hlock)).
Qed.

(** *** Every call keeps the state sound *)

Lemma sound_update st st' (i : nat) (r r' : shared_region) :
  sound st -> regions st !! i = Some r ->
  regions st' = <[i := r']> (regions st) ->
  length (shared_pool st') = length (shared_pool st) ->
  pool_offset st <= pool_offset st' <= POOL_BYTES ->
  pool_offset st' mod SHARED_REGION_SIZE = 0 ->
  lock r' = false ->
  length (participants r') = Z.to_nat MAX_PROCESSES_PER_REGION ->
  (in_use r' = true ->
   exists off,
     memory r' = Some off /\ 0 <= off /\ off + SHARED_REGION_SIZE <= pool_offset st'
     /\ off mod SHARED_REGION_SIZE = 0
     /\ (has_data r' = true -> valid (envelope_at st' off) = true)
     /\ (in_use r = true -> memory r = Some off)
     /\ (in_use r = false -> pool_offset st <= off)) ->
  (forall off', 0 <= off' -> off' mod SHARED_REGION_SIZE = 0 ->
                off' + SHARED_REGION_SIZE <= pool_offset st ->
                (in_use r' = true -> memory r' <> Some off') ->
                envelope_at st' off' = envelope_at st off') ->
  sound st'.
Proof.
  intros Hs Hl Hreg Hpool Hoff Hmod Hlock Hparts Hnew Henv.
  assert (Hi : (i < length (regions st))%nat) by (now apply lookup_lt_Some in Hl).
  (* a region in use elsewhere does not own the chunk of the new region *)
  assert (Hother : forall k rk offk,
             k <> i -> regions st !! k = Some rk -> in_use rk = true ->
             memory rk = Some offk -> in_use r' = true -> memory r' <> Some offk).
  { intros k rk offk Hk Hlk Huk Hmk Hu' Hm'.
    destruct (Hnew Hu') as (off & Hm & H0 & H1 & H2 & _ & Hsame & Hfresh).
    assert (off = offk) by congruence. subst offk.
    destruct (in_use r) eqn:Hu.
    - apply (sound_apart st Hs i k r rk); auto. rewrite Hmk. now apply Hsame.
    - destruct (sound_region st Hs k rk Hlk) as (_ & _ & Hb).
      destruct (Hb Huk) as (o & Hmo & _ & Hle & _).
      assert (o = off) by congruence. subst o.
      specialize (Hfresh eq_refl). unfold SHARED_REGION_SIZE in *. lia. }
  constructor.
  - rewrite Hpool. exact (sound_pool st Hs).
  - destruct (sound_offset st Hs) as [[H0 _] _]. split; [lia|exact Hmod].
  - intros k rk Hlk. rewrite Hreg in Hlk.
    destruct (decide (k = i)) as [->|Hk].
    + rewrite list_lookup_insert_eq in Hlk by exact Hi. injection Hlk as <-.
      split; [exact Hlock|]. split; [exact Hparts|].
      intros Hu. destruct (Hnew Hu) as (off & Hm & H0 & H1 & H2 & Hv & _).
      exists off. auto.
    + rewrite list_lookup_insert_ne in Hlk by congruence.
      destruct (sound_region st Hs k rk Hlk) as (Hlk1 & Hlk2 & Hb).
      split; [exact Hlk1|]. split; [exact Hlk2|].
      intros Hu. destruct (Hb Hu) as (off & Hm & H0 & H1 & H2 & Hv).
      exists off. split; [exact Hm|]. split; [exact H0|]. split; [lia|].
      split; [exact H2|]. intros Hd.
      rewrite (Henv off H0 H2 H1); [now apply Hv|].
      intros Hu'. now apply (Hother k rk off).
  - intros k l rk rl Hkl Hlk Hll Huk Hul. rewrite Hreg in Hlk, Hll.
    destruct (decide (k = i)) as [->|Hk]; destruct (decide (l = i)) as [->|Hl'].
    + congruence.
    + rewrite list_lookup_insert_eq in Hlk by exact Hi. injection Hlk as <-.
      rewrite list_lookup_insert_ne in Hll by congruence.
      destruct (sound_region st Hs l rl Hll) as (_ & _ & Hb).
      destruct (Hb Hul) as (off & Hm & _). rewrite Hm.
      now apply (Hother l rl off).
    + rewrite list_lookup_insert_eq in Hll by exact Hi. injection Hll as <-.
      rewrite list_lookup_insert_ne in Hlk by congruence.
      destruct (sound_region st Hs k rk Hlk) as (_ & _ & Hb).
      destruct (Hb Huk) as (off & Hm & _). rewrite Hm. intros Heq. symmetry in Heq.
      revert Heq. now apply (Hother k rk off).
    + rewrite list_lookup_insert_ne in Hlk, Hll by congruence.
      now apply (sound_apart st Hs k l rk rl).
Qed.

Lemma sound_state0 : sound shm_state0.
Proof.
  constructor.
  - reflexivity.
  - split; [unfold POOL_BYTES, MAX_SHARED_REGIONS, SHARED_REGION_SIZE; cbn; lia | reflexivity].
  - intros i r Hl. apply lookup_replicate in Hl. destruct Hl as [-> _].
    split; [reflexivity|]. split; [reflexivity|]. discriminate.
  - intros i j ri rj _ Hl _ Hu. apply lookup_replicate in Hl. destruct Hl as [-> _].
    discriminate.
Qed.

Lemma sound_init st : sound st -> sound (snd (shm_init st)).
Proof.
  intros Hs. unfold shm_init. destruct (initialized st); [exact Hs|].
  cbn [snd]. constructor.
  - exact (sound_pool st Hs).
  - exact (sound_offset st Hs).
  - intros i r Hl. cbn [regions] in Hl. apply lookup_replicate in Hl. destruct Hl as [-> _].
    split; [reflexivity|]. split; [reflexivity|]. discriminate.
  - intros i j ri rj _ Hl _ Hu. cbn [regions] in Hl.
    apply lookup_replicate in Hl. destruct Hl as [-> _]. discriminate.
Qed.

Lemma sound_shutdown st : sound st -> sound (shm_shutdown st).
Proof.
  intros Hs. unfold shm_shutdown. constructor.
  - exact (sound_pool st Hs).
  - exact (sound_offset st Hs).
  - intros i r Hl. cbn [regions with_initialized with_active_regions with_regions] in Hl.
    rewrite list_lookup_fmap in Hl.
    destruct (regions st !! i) as [r0|] eqn:E; [|discriminate].
    injection Hl as <-. destruct (sound_region st Hs i r0 E) as (H1 & H2 & _).
    split; [exact H1|]. split; [exact H2|]. discriminate.
  - intros i j ri rj _ Hl _ Hu.
    cbn [regions with_initialized with_active_regions with_regions] in Hl.
    rewrite list_lookup_fmap in Hl.
    destruct (regions st !! i) as [r0|]; [|discriminate].
    injection Hl as <-. discriminate.
Qed.

Lemma sound_destroy st (c : Z) : sound st -> sound (shm_destroy_channel c st).
Proof.
  intros Hs. unfold shm_destroy_channel.
  destruct (find_region_by_id c st) as [i|] eqn:Hfind; [|exact Hs].
  destruct (shm_find_index_0 _ _ _ Hfind) as (r & Hl & _).
  destruct (sound_region st Hs i r Hl) as (H1 & H2 & _).
  apply (sound_update st _ i r (set_memory None (set_in_use false r)) Hs Hl).
  - exact (regions_upd_region st i (fun r => set_memory None (set_in_use false r)) r Hl).
  - reflexivity.
  - destruct (sound_offset st Hs) as [[? ?] _]. cbn. lia.
  - exact (proj2 (sound_offset st Hs)).
  - exact H1.
  - exact H2.
  - discriminate.
  - reflexivity.
Qed.

Lemma grant_one_fields (g e rights : Z) (r : shared_region) :
  lock (grant_one g e rights r) = lock r
  /\ in_use (grant_one g e rights r) = in_use r
  /\ has_data (grant_one g e rights r) = has_data r
  /\ memory (grant_one g e rights r) = memory r
  /\ length (participants (grant_one g e rights r)) = length (participants r).
Proof.
  unfold grant_one. destruct (_ && _); [|auto 10].
  destruct (is_participant r e); [auto 10|].
  cbn. rewrite length_insert. auto 10.
Qed.

Lemma sound_grant st (g e rights : Z) : sound st -> sound (shm_grant_capability g e rights st).
Proof.
  intros Hs. unfold shm_grant_capability. constructor.
  - exact (sound_pool st Hs).
  - exact (sound_offset st Hs).
  - intros i r Hl. cbn [regions with_regions] in Hl. rewrite list_lookup_fmap in Hl.
    destruct (regions st !! i) as [r0|] eqn:E; [|discriminate].
    injection Hl as <-. destruct (sound_region st Hs i r0 E) as (H1 & H2 & Hb).
    destruct (grant_one_fields g e rights r0) as (G1 & G2 & G3 & G4 & G5).
    rewrite G1, G2, G3, G4, G5. split; [exact H1|]. split; [exact H2|]. exact Hb.
  - intros i j ri rj Hij Hli Hlj Hui Huj. cbn [regions with_regions] in Hli, Hlj.
    rewrite list_lookup_fmap in Hli, Hlj.
    destruct (regions st !! i) as [r0|] eqn:Ei; [|discriminate].
    destruct (regions st !! j) as [r1|] eqn:Ej; [|discriminate].
    injection Hli as <-. injection Hlj as <-.
    destruct (grant_one_fields g e rights r0) as (_ & G2 & _ & G4 & _).
    destruct (grant_one_fields g e rights r1) as (_ & K2 & _ & K4 & _).
    rewrite G4, K4. rewrite G2 in Hui. rewrite K2 in Huj.
    now apply (sound_apart st Hs i j r0 r1).
Qed.

Lemma pool_room st :
  sound st ->
  (MAX_SHARED_REGIONS * SHARED_REGION_SIZE <? wrap32 (pool_offset st + SHARED_REGION_SIZE))
  = (POOL_BYTES <? pool_offset st + SHARED_REGION_SIZE).
Proof.
  intros Hs. destruct (sound_offset st Hs) as [[H0 H1] _].
  unfold POOL_BYTES, MAX_SHARED_REGIONS, SHARED_REGION_SIZE in *.
  rewrite wrap32_small by lia. reflexivity.
Qed.

Lemma sound_create st (s r : Z) :
  sound st ->
  sound (snd (shm_create_channel s r st))
  /\ pool_offset st <= pool_offset (snd (shm_create_channel s r st)).
Proof.
  intros Hs. unfold shm_create_channel.
  destruct (find_region_by_participants s r st); [split; [exact Hs|cbn; lia]|].
  destruct (find_free_region st) as [i|] eqn:Efree; [|split; [exact Hs|cbn; lia]].
  destruct (shm_find_index_0 _ _ _ Efree) as (old & Hl & Hfree).
  apply negb_true_iff in Hfree.
  destruct (sound_region st Hs i old Hl) as (Hlock & Hparts & _).
  destruct (sound_offset st Hs) as [[Hp0 Hp1] Hpm].
  unfold allocate_shared_memory. rewrite (pool_room st Hs).
  destruct (Z.ltb_spec POOL_BYTES (pool_offset st + SHARED_REGION_SIZE)) as [Hfull|Hroom].
  - cbn [snd]. split; [|cbn; lia].
    apply (sound_update st _ i old (set_memory None old) Hs Hl).
    + exact (regions_upd_region st i (set_memory None) old Hl).
    + reflexivity.
    + cbn. lia.
    + exact Hpm.
    + exact Hlock.
    + exact Hparts.
    + cbn [in_use set_memory]. rewrite Hfree. discriminate.
    + reflexivity.
  - rewrite wrap32_small
      by (unfold POOL_BYTES, MAX_SHARED_REGIONS, SHARED_REGION_SIZE in *; lia).
    cbn [snd].
    set (off := pool_offset st) in *.
    set (st1 := with_pool_offset (off + SHARED_REGION_SIZE) st).
    assert (Hl1 : regions st1 !! i = Some old) by exact Hl.
    set (st2 := upd_region i (set_memory (Some off)) st1).
    assert (Hl2 : regions st2 !! i = Some (set_memory (Some off) old))
      by (apply lookup_upd_region; exact Hl1).
    assert (Hr2 : regions st2 = <[i := set_memory (Some off) old]> (regions st))
      by (apply (regions_upd_region st1 i _ old Hl1)).
    rewrite (region_at_lookup st2 i _ Hl2).
    match goal with
    | |- sound (with_active_regions _ (set_envelope _ _ (upd_region i (fun _ => ?new) ?st3))) /\ _ =>
        set (rnew := new); set (s3 := st3)
    end.
    assert (Hchunk : (chunk_of off < length (shared_pool st))%nat).
    { rewrite (sound_pool st Hs).
      unfold chunk_of, POOL_BYTES, MAX_SHARED_REGIONS, SHARED_REGION_SIZE in *.
      apply Z2Nat.inj_lt; [apply Z.div_pos; lia | lia |].
      apply Z.div_lt_upper_bound; lia. }
    split; [|cbn; unfold SHARED_REGION_SIZE; lia].
    apply (sound_update st _ i old rnew Hs Hl).
    + cbn [regions with_active_regions set_envelope with_pool].
      rewrite (regions_upd_region s3 i (fun _ => rnew) _ Hl2).
      unfold s3. cbn [regions with_next_region_id]. rewrite Hr2.
      apply list_insert_insert_eq.
    + cbn [shared_pool with_active_regions set_envelope with_pool upd_region with_regions
           with_next_region_id]. apply length_insert.
    + cbn. unfold SHARED_REGION_SIZE in *. lia.
    + cbn [pool_offset with_active_regions set_envelope with_pool upd_region with_regions
           with_next_region_id s3 st2 st1 with_pool_offset].
      unfold SHARED_REGION_SIZE in *. fold off.
      rewrite Z.add_mod, Hpm by lia. reflexivity.
    + reflexivity.
    + unfold rnew. cbn [participants set_memory]. rewrite !length_insert. exact Hparts.
    + intros _. exists off. split; [reflexivity|]. split; [exact Hp0|].
      split; [cbn; lia|]. split; [exact Hpm|]. split; [discriminate|].
      split; [intros Hu; congruence | intros _; lia].
    + intros off' H0 Hm Hle Hne.
      change (envelope_at (set_envelope off shared_message0 s3) off' = envelope_at st off').
      rewrite envelope_at_set_ne; [reflexivity|].
      intros Heq. apply chunk_of_inj in Heq; try assumption.
      unfold SHARED_REGION_SIZE in *. lia.
Qed.

Lemma find_region_by_id_Some st (c : Z) (i : nat) :
  find_region_by_id c st = Some i ->
  exists r, regions st !! i = Some r /\ in_use r = true
            /\ region_id r = int_to_uint32 c.
Proof.
  intros H. destruct (shm_find_index_0 _ _ _ H) as (r & Hl & Hf).
  apply andb_true_iff in Hf. destruct Hf as [Hu Hid]. apply Z.eqb_eq in Hid. eauto.
Qed.

Lemma sound_sent st (i : nat) (r : shared_region) (off : Z) (m : ipc_message) :
  sound st -> regions st !! i = Some r -> in_use r = true -> memory r = Some off ->
  sound (sent_state st i r off m).
Proof.
  intros Hs Hl Hu Hm.
  destruct (sound_region st Hs i r Hl) as (Hlock & Hparts & Hb).
  destruct (Hb Hu) as (o & Hmo & H0 & H1 & H2 & _).
  assert (o = off) by congruence. subst o.
  pose proof (chunk_of_lt st off Hs H0 H1) as Hc.
  destruct (sound_offset st Hs) as [[Hp0 Hp1] Hpm].
  apply (sound_update st _ i r (set_has_data true r) Hs Hl).
  - reflexivity.
  - apply length_insert.
  - cbn. lia.
  - exact Hpm.
  - exact Hlock.
  - exact Hparts.
  - intros _. exists off. split; [exact Hm|]. split; [exact H0|]. split; [exact H1|].
    split; [exact H2|]. split.
    + intros _. unfold envelope_at, sent_state. cbn [shared_pool].
      rewrite list_lookup_insert_eq by exact Hc. reflexivity.
    + split; [intros _; exact Hm | congruence].
  - intros off' H0' Hm' Hle Hne. unfold envelope_at, sent_state. cbn [shared_pool].
    rewrite list_lookup_insert_ne; [reflexivity|].
    intros Heq. apply chunk_of_inj in Heq; try assumption. subst off'.
    now apply Hne.
Qed.

Lemma sound_received st (i : nat) (r : shared_region) (off : Z) :
  sound st -> regions st !! i = Some r -> in_use r = true -> memory r = Some off ->
  sound (received_state st i r off).
Proof.
  intros Hs Hl Hu Hm.
  destruct (sound_region st Hs i r Hl) as (Hlock & Hparts & Hb).
  destruct (Hb Hu) as (o & Hmo & H0 & H1 & H2 & _).
  assert (o = off) by congruence. subst o.
  destruct (sound_offset st Hs) as [[Hp0 Hp1] Hpm].
  apply (sound_update st _ i r (set_has_data false r) Hs Hl).
  - reflexivity.
  - apply length_insert.
  - cbn. lia.
  - exact Hpm.
  - exact Hlock.
  - exact Hparts.
  - intros _. exists off. split; [exact Hm|]. split; [exact H0|]. split; [exact H1|].
    split; [exact H2|]. split; [discriminate|].
    split; [intros _; exact Hm | congruence].
  - intros off' H0' Hm' Hle Hne. unfold envelope_at, received_state. cbn [shared_pool].
    rewrite list_lookup_insert_ne; [reflexivity|].
    intros Heq. apply chunk_of_inj in Heq; try assumption. subst off'.
    now apply Hne.
Qed.

(** What [send_message] does in a sound state. *)
Lemma send_cases st (c : Z) (m : ipc_message) :
  sound st ->
  (shm_send_message c (Some m) st = Some (-1, st)
   /\ (find_region_by_id c st = None
       \/ exists i r, find_region_by_id c st = Some i /\ regions st !! i = Some r
                      /\ (check_region_permission (Some i) (sender_id m) 2 st = false
                          \/ has_data r = true)))
  \/ (exists i r off,
        find_region_by_id c st = Some i /\ regions st !! i = Some r
        /\ in_use r = true /\ memory r = Some off /\ has_data r = false
        /\ check_region_permission (Some i) (sender_id m) 2 st = true
        /\ shm_send_message c (Some m) st = Some (0, sent_state st i r off m)).
Proof.
  intros Hs. destruct (find_region_by_id c st) as [i|] eqn:Hfind.
  - destruct (find_region_by_id_Some st c i Hfind) as (r & Hl & Hu & _).
    destruct (sound_region st Hs i r Hl) as (Hlock & _ & Hb).
    destruct (Hb Hu) as (off & Hm & _).
    destruct (check_region_permission (Some i) (sender_id m) 2 st) eqn:Hperm.
    + destruct (has_data r) eqn:Hd.
      * left. split; [|right; exists i, r; auto].
        apply (send_refused st c m i r Hfind Hl Hlock). now right.
      * right. exists i, r, off. repeat split; try assumption.
        now apply send_success.
    + left. split; [|right; exists i, r; auto].
      apply (send_refused st c m i r Hfind Hl Hlock). now left.
  - left. split; [|now left]. unfold shm_send_message. now rewrite Hfind.
Qed.

(** What [receive_message] does in a sound state. *)
Lemma receive_cases st (c : Z) (b : ipc_message) :
  sound st ->
  (shm_receive_message c (Some b) st = Some (-1, Some b, st)
   /\ shm_has_messages c st = false)
  \/ (exists i r off,
        find_region_by_id c st = Some i /\ regions st !! i = Some r
        /\ in_use r = true /\ memory r = Some off /\ has_data r = true
        /\ shm_receive_message c (Some b) st
           = Some (0, Some (received_message (envelope_at st off) b),
                   received_state st i r off)).
Proof.
  intros Hs. unfold shm_has_messages.
  destruct (find_region_by_id c st) as [i|] eqn:Hfind.
  - destruct (find_region_by_id_Some st c i Hfind) as (r & Hl & Hu & _).
    destruct (sound_region st Hs i r Hl) as (Hlock & _ & Hb).
    destruct (Hb Hu) as (off & Hm & _ & _ & _ & Hv).
    rewrite (region_at_lookup st i r Hl).
    destruct (has_data r) eqn:Hd.
    + right. exists i, r, off. repeat split; try assumption.
      apply receive_success; auto.
    + left. split; [|reflexivity]. now apply (receive_empty st c b i r).
  - left. split; [|reflexivity]. unfold shm_receive_message. now rewrite Hfind.
Qed.

Lemma sound_send st (c : Z) (msg : option ipc_message) :
  sound st ->
  exists code st', shm_send_message c msg st = Some (code, st') /\ sound st'
                   /\ pool_offset st' = pool_offset st.
Proof.
  intros Hs. destruct msg as [m|]; [|exists (-1), st; auto].
  destruct (send_cases st c m Hs) as [[-> _]|(i & r & off & _ & Hl & Hu & Hm & _ & _ & ->)].
  - exists (-1), st. auto.
  - exists 0, (sent_state st i r off m). split; [reflexivity|].
    split; [now apply sound_sent | reflexivity].
Qed.

Lemma sound_receive st (c : Z) (buf : option ipc_message) :
  sound st ->
  exists code out st', shm_receive_message c buf st = Some (code, out, st') /\ sound st'
                       /\ pool_offset st' = pool_offset st.
Proof.
  intros Hs. destruct buf as [b|]; [|exists (-1), None, st; auto].
  destruct (receive_cases st c b Hs) as [[-> _]|(i & r & off & _ & Hl & Hu & Hm & _ & ->)].
  - exists (-1), (Some b), st. auto.
  - eexists 0, _, (received_state st i r off). split; [reflexivity|].
    split; [now apply sound_received | reflexivity].
Qed.

Lemma sound_step (o : op) st :
  sound st ->
  exists st', step o st = Some st' /\ sound st' /\ pool_offset st <= pool_offset st'.
Proof.
  intros Hs. destruct o; cbn [step].
  - eexists. split; [reflexivity|]. split; [now apply sound_init|].
    unfold shm_init. destruct (initialized st); cbn; lia.
  - eexists. split; [reflexivity|]. split; [now apply sound_shutdown | cbn; lia].
  - eexists. split; [reflexivity|]. now apply sound_create.
  - eexists. split; [reflexivity|]. split; [now apply sound_destroy|].
    unfold shm_destroy_channel. destruct (find_region_by_id _ _); cbn; lia.
  - destruct (sound_send st channel_id msg Hs) as (code & st' & -> & Hs' & Hp).
    eexists. split; [reflexivity|]. split; [exact Hs' | cbn; lia].
  - destruct (sound_receive st channel_id buf Hs) as (code & out & st' & -> & Hs' & Hp).
    eexists. split; [reflexivity|]. split; [exact Hs' | cbn; lia].
  - unfold shm_try_receive.
    destruct (sound_receive st channel_id buf Hs) as (code & out & st' & -> & Hs' & Hp).
    eexists. split; [reflexivity|]. split; [exact Hs' | cbn; lia].
  - eexists. split; [reflexivity|]. split; [now apply sound_grant | cbn; lia].
Qed.

Lemma sound_run (ops : list op) :
  forall st, sound st ->
    exists st', run ops st = Some st' /\ sound st' /\ pool_offset st <= pool_offset st'.
Proof.
  induction ops as [|o ops IH]; intros st Hs; cbn [run].
  - exists st. split; [reflexivity|]. split; [exact Hs | lia].
  - destruct (sound_step o st Hs) as (st1 & -> & Hs1 & Hp1).
    destruct (IH st1 Hs1) as (st2 & Hr & Hs2 & Hp2).
    exists st2. split; [exact Hr|]. split; [exact Hs2 | lia].
Qed.

Lemma sound_reached (ops : list op) st :
  run ops shm_state0 = Some st -> sound st.
Proof.
  intros Hr. destruct (sound_run ops shm_state0 sound_state0) as (st' & Hr' & Hs & _).
  congruence.
Qed.

Lemma find_index_insert_same (f : shared_region -> bool) (rs : list shared_region)
      (i : nat) (r r' : shared_region) :
  rs !! i = Some r -> f r' = f r ->
  forall from, find_index f (<[i := r']> rs) from = find_index f rs from.
Proof.
  revert i. induction rs as [|x rs IH]; intros i Hl Hf from; [discriminate|].
  destruct i as [|i].
  - injection Hl as ->. change (<[0%nat := r']> (r :: rs)) with (r' :: rs).
    cbn [find_index]. now rewrite Hf.
  - change (<[S i := r']> (x :: rs)) with (x :: <[i := r']> rs).
    cbn [find_index]. now rewrite (IH i Hl Hf).
Qed.

Lemma find_index_insert_new (f : shared_region -> bool) (rs : list shared_region)
      (i : nat) (r r' : shared_region) :
  rs !! i = Some r -> f r' = true ->
  forall from, find_index f rs from = None ->
               find_index f (<[i := r']> rs) from = Some (from + i)%nat.
Proof.
  revert i. induction rs as [|x rs IH]; intros i Hl Hf from Hnone; [discriminate|].
  destruct i as [|i].
  - change (<[0%nat := r']> (x :: rs)) with (r' :: rs).
    cbn [find_index]. rewrite Hf. f_equal. lia.
  - change (<[S i := r']> (x :: rs)) with (x :: <[i := r']> rs).
    cbn [find_index] in Hnone |- *. destruct (f x); [discriminate|].
    rewrite (IH i Hl Hf (S from) Hnone). f_equal. lia.
Qed.

(** X17: no call of the transport ever spins on a region's flag.  Every
    sequence of calls from power-up, tear-down included and with any
    arguments, runs to completion, and in the state it reaches the [lock]
    flag of every region is clear: [acquire_lock] always finds the flag
    released by the call before. *)
Theorem shm_calls_always_return (ops : list op) :
  exists st,
    run ops shm_state0 = Some st
    /\ forall (i : nat) (r : shared_region), regions st !! i = Some r -> lock r = false.
Proof.
  destruct (sound_run ops shm_state0 sound_state0) as (st & Hr & Hs & _).
  exists st. split; [exact Hr|].
  intros i r Hl. exact (proj1 (sound_region st Hs i r Hl)).
Qed.

(** X18: [has_messages] predicts [receive_message] exactly.  In every state
    the transport reaches from power-up: if [has_messages] is false (or the
    channel is unknown) a receive returns -1 and changes neither the state
    nor the caller's buffer; if it is true the receive returns 0, counts one
    more received message and empties the slot, so that [can_send] holds
    again.  The "envelope not valid" failure is never taken. *)
Theorem shm_has_messages_exact (ops : list op) st (c : Z) (b : ipc_message) :
  run ops shm_state0 = Some st ->
  (shm_has_messages c st = false ->
   shm_receive_message c (Some b) st = Some (-1, Some b, st))
  /\ (shm_has_messages c st = true ->
      exists out st',
        shm_receive_message c (Some b) st = Some (0, Some out, st')
        /\ shm_has_messages c st' = false
        /\ shm_can_send c st' = true
        /\ total_messages_received st' = wrap32 (total_messages_received st + 1)).
Proof.
  intros Hrun. pose proof (sound_reached ops st Hrun) as Hs.
  destruct (receive_cases st c b Hs)
    as [[Hrecv Hno]|(i & r & off & Hfind & Hl & Hu & Hm & Hd & Hrecv)].
  - split; [intros _; exact Hrecv | congruence].
  - assert (Hhas : shm_has_messages c st = true).
    { unfold shm_has_messages. now rewrite Hfind, (region_at_lookup st i r Hl). }
    split; [congruence|]. intros _.
    exists (received_message (envelope_at st off) b), (received_state st i r off).
    split; [exact Hrecv|].
    assert (Hfind' : find_region_by_id c (received_state st i r off) = Some i).
    { unfold find_region_by_id, received_state. cbn [regions].
      rewrite (find_index_insert_same _ _ i r _ Hl); [exact Hfind | reflexivity]. }
    assert (Hl' : regions (received_state st i r off) !! i = Some (set_has_data false r)).
    { unfold received_state. cbn [regions]. apply list_lookup_insert_eq.
      now apply lookup_lt_Some in Hl. }
    unfold shm_has_messages, shm_can_send.
    rewrite Hfind', (region_at_lookup _ i _ Hl'). repeat split; reflexivity.
Qed.

Lemma shm_has_messages_exact_witness :
  (shm_has_messages 1 two_pending_state = false ->
   shm_receive_message 1 (Some ipc_message0) two_pending_state
   = Some (-1, Some ipc_message0, two_pending_state))
  /\ (shm_has_messages 1 two_pending_state = true ->
      exists out st',
        shm_receive_message 1 (Some ipc_message0) two_pending_state
        = Some (0, Some out, st')
        /\ shm_has_messages 1 st' = false
        /\ shm_can_send 1 st' = true
        /\ total_messages_received st'
           = wrap32 (total_messages_received two_pending_state + 1)).
Proof.
  apply (shm_has_messages_exact two_pending two_pending_state 1 ipc_message0).
  vm_compute. reflexivity.
Defined.

(** X19: send then receive.  In every state the transport reaches from
    power-up, if [can_send] holds for a channel and the sender may write to
    it, then [send_message] returns 0 and the following [receive_message]
    returns 0 and fills the buffer with: the sender, receiver and message
    identifiers of the message sent; as size the smaller of the size sent
    and [MAX_MESSAGE_SIZE] (1024); that many leading payload bytes of the
    message sent.  The rest of the buffer's payload and its [type],
    [timestamp] and [flags] fields are left as they were: these fields are
    not transmitted.  Afterwards the region table is as before the send. *)
Theorem shm_send_receive_round_trip (ops : list op) st (c : Z) (m b : ipc_message) :
  run ops shm_state0 = Some st ->
  shm_can_send c st = true ->
  check_region_permission (find_region_by_id c st) (sender_id m) 2 st = true ->
  0 <= size m ->
  length (data m) = Z.to_nat IPC_MAX_MESSAGE_SIZE ->
  exists st1 out st2,
    shm_send_message c (Some m) st = Some (0, st1)
    /\ shm_receive_message c (Some b) st1 = Some (0, Some out, st2)
    /\ sender_id out = sender_id m
    /\ receiver_id out = receiver_id m
    /\ message_id out = message_id m
    /\ size out = Z.min (size m) MAX_MESSAGE_SIZE
    /\ take (Z.to_nat (size out)) (data out) = take (Z.to_nat (size out)) (data m)
    /\ drop (Z.to_nat (size out)) (data out) = drop (Z.to_nat (size out)) (data b)
    /\ msg_type out = msg_type b
    /\ timestamp out = timestamp b
    /\ flags out = flags b
    /\ regions st2 = regions st.
Proof.
  intros Hrun Hcan Hperm Hsz Hlen. pose proof (sound_reached ops st Hrun) as Hs.
  unfold shm_can_send in Hcan.
  destruct (find_region_by_id c st) as [i|] eqn:Hfind; [|discriminate].
  destruct (find_region_by_id_Some st c i Hfind) as (r & Hl & Hu & _).
  rewrite (region_at_lookup st i r Hl) in Hcan. apply negb_true_iff in Hcan.
  destruct (sound_region st Hs i r Hl) as (Hlock & _ & Hb).
  destruct (Hb Hu) as (off & Hm & H0 & H1 & H2 & _).
  pose proof (chunk_of_lt st off Hs H0 H1) as Hc.
  set (st1 := sent_state st i r off m).
  assert (Hl1 : regions st1 !! i = Some (set_has_data true r)).
  { unfold st1, sent_state. cbn [regions]. apply list_lookup_insert_eq.
    now apply lookup_lt_Some in Hl. }
  assert (Hfind1 : find_region_by_id c st1 = Some i).
  { unfold find_region_by_id, st1, sent_state. cbn [regions].
    rewrite (find_index_insert_same _ _ i r _ Hl); [exact Hfind | reflexivity]. }
  set (n := if size m <? MAX_MESSAGE_SIZE then size m else MAX_MESSAGE_SIZE).
  assert (Hn : n = Z.min (size m) MAX_MESSAGE_SIZE).
  { unfold n. destruct (Z.ltb_spec (size m) MAX_MESSAGE_SIZE); lia. }
  assert (Henv : envelope_at st1 off
                 = mk_shared (sender_id m) (receiver_id m) (message_id m) n
                             (copy_bytes n (data m) (sm_data (envelope_at st off))) true).
  { unfold envelope_at at 1. unfold st1, sent_state. cbn [shared_pool].
    rewrite list_lookup_insert_eq by exact Hc. reflexivity. }
  exists st1, (received_message (envelope_at st1 off) b),
         (received_state st1 i (set_has_data true r) off).
  split; [now apply send_success|].
  split.
  { apply receive_success; auto. rewrite Henv. reflexivity. }
  rewrite Henv. unfold received_message.
  cbn [sender_id receiver_id message_id size data msg_type timestamp flags
       sm_sender_id sm_receiver_id sm_message_id sm_size sm_data].
  assert (Htake : length (take (Z.to_nat n) (data m)) = Z.to_nat n).
  { rewrite length_take, Hlen. unfold IPC_MAX_MESSAGE_SIZE, MAX_MESSAGE_SIZE in *. lia. }
  assert (Hdata : copy_bytes n (copy_bytes n (data m) (sm_data (envelope_at st off))) (data b)
                  = take (Z.to_nat n) (data m) ++ drop (Z.to_nat n) (data b)).
  { unfold copy_bytes. f_equal. apply take_app_length'. now rewrite Htake. }
  rewrite Hdata.
  repeat split; try reflexivity.
  - exact Hn.
  - apply take_app_length'. now rewrite Htake.
  - apply drop_app_length'. now rewrite Htake.
  - unfold received_state, st1, sent_state. cbn [regions].
    rewrite list_insert_insert_eq.
    replace (set_has_data false (set_has_data true r)) with r
      by (destruct r; cbn in *; subst; reflexivity).
    now apply list_insert_id.
Qed.

Lemma shm_send_receive_round_trip_witness :
  exists st1 out st2,
    shm_send_message 2 (Some (filled 3 4 9 5 2000 77 6 1)) two_pending_state_drained
    = Some (0, st1)
    /\ shm_receive_message 2 (Some ipc_message0) st1 = Some (0, Some out, st2)
    /\ sender_id out = sender_id (filled 3 4 9 5 2000 77 6 1)
    /\ receiver_id out = receiver_id (filled 3 4 9 5 2000 77 6 1)
    /\ message_id out = message_id (filled 3 4 9 5 2000 77 6 1)
    /\ size out = Z.min (size (filled 3 4 9 5 2000 77 6 1)) MAX_MESSAGE_SIZE
    /\ take (Z.to_nat (size out)) (data out)
       = take (Z.to_nat (size out)) (data (filled 3 4 9 5 2000 77 6 1))
    /\ drop (Z.to_nat (size out)) (data out)
       = drop (Z.to_nat (size out)) (data ipc_message0)
    /\ msg_type out = msg_type ipc_message0
    /\ timestamp out = timestamp ipc_message0
    /\ flags out = flags ipc_message0
    /\ regions st2 = regions two_pending_state_drained.
Proof.
  apply (shm_send_receive_round_trip
           (two_pending ++ [ReceiveMessage 2 (Some ipc_message0)])
           two_pending_state_drained 2 (filled 3 4 9 5 2000 77 6 1) ipc_message0).
  - vm_compute. reflexivity.
  - vm_compute. reflexivity.
  - vm_compute. reflexivity.
  - vm_compute. discriminate.
  - vm_compute. reflexivity.
Defined.

(** X20: the storage pool is never given back.  [pool_offset] only grows;
    once the 64 chunks of the pool have been handed out, in every later
    state (whatever is destroyed, shut down or initialised again)
    [create_channel] for a pair of processes that has no region yet returns
    -1 and puts no region into use. *)
Theorem shm_pool_never_reclaimed (ops ops' : list op) st st' (s r : Z) :
  run ops shm_state0 = Some st -> pool_offset st = POOL_BYTES ->
  run ops' st = Some st' ->
  find_region_by_participants s r st' = None ->
  pool_offset st' = POOL_BYTES
  /\ fst (shm_create_channel s r st') = -1
  /\ forall i, in_use (region_at (snd (shm_create_channel s r st')) i)
               = in_use (region_at st' i).
Proof.
  intros Hrun Hfull Hrun' Hnone. pose proof (sound_reached ops st Hrun) as Hs.
  destruct (sound_run ops' st Hs) as (st'' & Hr & Hs' & Hle).
  assert (st'' = st') by congruence. subst st''.
  destruct (sound_offset st' Hs') as [[_ Hmax] _].
  assert (Hoff : pool_offset st' = POOL_BYTES) by lia.
  split; [exact Hoff|].
  unfold shm_create_channel. rewrite Hnone.
  destruct (find_free_region st') as [i|] eqn:Efree; [|split; reflexivity].
  destruct (shm_find_index_0 _ _ _ Efree) as (old & Hl & Hfree).
  unfold allocate_shared_memory. rewrite (pool_room st' Hs'), Hoff.
  replace (POOL_BYTES <? POOL_BYTES + SHARED_REGION_SIZE) with true by reflexivity.
  cbn [fst snd]. split; [reflexivity|].
  intros k. unfold region_at at 1.
  rewrite (regions_upd_region st' i (set_memory None) old Hl).
  destruct (decide (k = i)) as [->|Hk].
  - rewrite list_lookup_insert_eq by (now apply lookup_lt_Some in Hl).
    now rewrite (region_at_lookup st' i old Hl).
  - rewrite list_lookup_insert_ne by congruence. reflexivity.
Qed.

Lemma shm_pool_never_reclaimed_witness :
  pool_offset pool_restarted = POOL_BYTES
  /\ fst (shm_create_channel 5000 6000 pool_restarted) = -1
  /\ forall i, in_use (region_at (snd (shm_create_channel 5000 6000 pool_restarted)) i)
               = in_use (region_at pool_restarted i).
Proof.
  apply (shm_pool_never_reclaimed (Init :: create_many 64) [DestroyChannel 1; Shutdown; Init]
                                  pool_used_up pool_restarted 5000 6000).
  - vm_compute. reflexivity.
  - vm_compute. reflexivity.
  - vm_compute. reflexivity.
  - vm_compute. reflexivity.
Defined.

(** X21: [create_channel] is idempotent per pair of participants.  In every
    state the transport reaches from power-up, calling it a second time
    with the same sender and receiver returns what the first call returned
    (the identifier of the same region, or -1 again) and changes nothing
    more. *)
Theorem shm_create_channel_idempotent (ops : list op) st (s r : Z) :
  run ops shm_state0 = Some st ->
  shm_create_channel s r (snd (shm_create_channel s r st)) = shm_create_channel s r st.
Proof.
  intros Hrun. pose proof (sound_reached ops st Hrun) as Hs.
  unfold shm_create_channel at 2 3.
  destruct (find_region_by_participants s r st) as [j|] eqn:Hpart.
  { cbn [snd]. unfold shm_create_channel. now rewrite Hpart. }
  destruct (find_free_region st) as [i|] eqn:Efree.
  2:{ cbn [snd]. unfold shm_create_channel. now rewrite Hpart, Efree. }
  destruct (shm_find_index_0 _ _ _ Efree) as (old & Hl & Hfree).
  destruct (sound_region st Hs i old Hl) as (Hlock & Hparts & _).
  destruct (sound_offset st Hs) as [[Hp0 Hp1] Hpm].
  unfold allocate_shared_memory. rewrite (pool_room st Hs).
  destruct (Z.ltb_spec POOL_BYTES (pool_offset st + SHARED_REGION_SIZE)) as [Hfull|Hroom].
  - (* no storage left: the free slot has its [memory] cleared, twice *)
    cbn [snd].
    set (st2 := upd_region i (set_memory None) st).
    assert (Hr2 : regions st2 = <[i := set_memory None old]> (regions st))
      by (apply (regions_upd_region st i _ old Hl)).
    assert (Hl2 : regions st2 !! i = Some (set_memory None old))
      by (apply lookup_upd_region; exact Hl).
    unfold shm_create_channel.
    assert (Hpart2 : find_region_by_participants s r st2 = None).
    { unfold find_region_by_participants. rewrite Hr2.
      rewrite (find_index_insert_same _ _ i old _ Hl); [exact Hpart | reflexivity]. }
    assert (Hfree2 : find_free_region st2 = Some i).
    { unfold find_free_region. rewrite Hr2.
      rewrite (find_index_insert_same _ _ i old _ Hl); [exact Efree | reflexivity]. }
    rewrite Hpart2, Hfree2. unfold allocate_shared_memory.
    change (pool_offset st2) with (pool_offset st). rewrite (pool_room st Hs).
    destruct (Z.ltb_spec POOL_BYTES (pool_offset st + SHARED_REGION_SIZE)); [|lia].
    f_equal. apply shm_state_eq; try reflexivity.
    rewrite (regions_upd_region st2 i _ _ Hl2), Hr2.
    rewrite list_insert_insert_eq. reflexivity.
  - (* a region was made: the second call finds it *)
    rewrite wrap32_small
      by (unfold POOL_BYTES, MAX_SHARED_REGIONS, SHARED_REGION_SIZE in *; lia).
    cbn [snd].
    set (off := pool_offset st) in *.
    set (st1 := with_pool_offset (off + SHARED_REGION_SIZE) st).
    assert (Hl1 : regions st1 !! i = Some old) by exact Hl.
    set (st2 := upd_region i (set_memory (Some off)) st1).
    assert (Hl2 : regions st2 !! i = Some (set_memory (Some off) old))
      by (apply lookup_upd_region; exact Hl1).
    assert (Hr2 : regions st2 = <[i := set_memory (Some off) old]> (regions st))
      by (apply (regions_upd_region st1 i _ old Hl1)).
    rewrite (region_at_lookup st2 i _ Hl2).
    match goal with
    | |- shm_create_channel s r
           (with_active_regions ?a (set_envelope ?o ?e (upd_region i (fun _ => ?new) ?st3)))
         = _ =>
        set (act := a); set (rnew := new); set (s3 := st3)
    end.
    set (st6 := with_active_regions act (set_envelope off shared_message0
                                           (upd_region i (fun _ => rnew) s3))).
    assert (Hr6 : regions st6 = <[i := rnew]> (regions st)).
    { unfold st6. cbn [regions with_active_regions set_envelope with_pool].
      rewrite (regions_upd_region s3 i (fun _ => rnew) _ Hl2).
      unfold s3. cbn [regions with_next_region_id]. rewrite Hr2.
      apply list_insert_insert_eq. }
    assert (Hin : is_participant rnew s = true /\ is_participant rnew r = true).
    { unfold is_participant, rnew. cbn [participant_count participants set_memory].
      destruct (participants old) as [|p0 [|p1 ps]]; try discriminate.
      change (<[1%nat := r]> (<[0%nat := s]> (p0 :: p1 :: ps))) with (s :: r :: ps).
      change (take (Z.to_nat 2) (s :: r :: ps)) with [s; r].
      cbn [existsb]. rewrite !Z.eqb_refl. split; [reflexivity | apply orb_true_r]. }
    assert (Hpart6 : find_region_by_participants s r st6 = Some i).
    { unfold find_region_by_participants. rewrite Hr6.
      rewrite (find_index_insert_new _ _ i old rnew Hl); [reflexivity| |exact Hpart].
      destruct Hin as [-> ->]. reflexivity. }
    unfold shm_create_channel. rewrite Hpart6.
    assert (Hat : region_at st6 i = rnew).
    { apply region_at_lookup. rewrite Hr6. apply list_lookup_insert_eq.
      now apply lookup_lt_Some in Hl. }
    rewrite Hat. reflexivity.
Qed.

Lemma shm_create_channel_idempotent_witness :
  shm_create_channel 9 8 (snd (shm_create_channel 9 8 two_pending_state))
  = shm_create_channel 9 8 two_pending_state.
Proof.
  apply (shm_create_channel_idempotent two_pending two_pending_state 9 8).
  vm_compute. reflexivity.
Defined.

End ShmMore.

(** * Properties of the message-queue transport *)

Section MQProofs.
Import MQ.

(** ** Reading a state after an update *)

Lemma entry_at_upd_entry_ne (e x : entry_ptr) f st :
  x <> e -> entry_at (upd_entry e f st) x = entry_at st x.
Proof.
  intros H. unfold entry_at, upd_entry. cbn [entry_pool with_entry_pool].
  rewrite list_lookup_insert_ne by congruence. reflexivity.
Qed.

Lemma entry_at_upd_entry_eq (e : entry_ptr) f st :
  (e < length (entry_pool st))%nat ->
  entry_at (upd_entry e f st) e = f (entry_at st e).
Proof.
  intros H. unfold entry_at at 1. unfold upd_entry. cbn [entry_pool with_entry_pool].
  rewrite list_lookup_insert_eq by assumption. reflexivity.
Qed.

(** An update that keeps a field keeps it at every entry, in range or not. *)
Lemma entry_at_upd_entry_keep {A} (g : message_entry -> A) (e x : entry_ptr) f st :
  (forall v, g (f v) = g v) ->
  g (entry_at (upd_entry e f st) x) = g (entry_at st x).
Proof.
  intros Hg. destruct (decide (x = e)) as [->|Hne].
  - destruct (decide (e < length (entry_pool st))%nat) as [Hlt|Hge].
    + rewrite entry_at_upd_entry_eq by assumption. apply Hg.
    + unfold entry_at at 1. unfold upd_entry. cbn [entry_pool with_entry_pool].
      rewrite list_insert_ge by lia. reflexivity.
  - rewrite entry_at_upd_entry_ne by assumption. reflexivity.
Qed.

Lemma length_pool_upd_entry (e : entry_ptr) f st :
  length (entry_pool (upd_entry e f st)) = length (entry_pool st).
Proof. unfold upd_entry. cbn [entry_pool with_entry_pool]. apply length_insert. Qed.

Lemma mq_channel_at_lookup st (i : nat) (c : message_channel) :
  channels st !! i = Some c -> channel_at st i = c.
Proof. intros H. unfold channel_at. now rewrite H. Qed.

Lemma lookup_upd_channel_ne (i k : nat) f st :
  k <> i -> channels (upd_channel i f st) !! k = channels st !! k.
Proof.
  intros H. unfold upd_channel. cbn [channels with_channels].
  apply list_lookup_insert_ne. congruence.
Qed.

Lemma lookup_upd_channel_eq (i : nat) f st (c : message_channel) :
  channels st !! i = Some c -> channels (upd_channel i f st) !! i = Some (f c).
Proof.
  intros H. unfold upd_channel. cbn [channels with_channels].
  rewrite (mq_channel_at_lookup st i c H).
  apply list_lookup_insert_eq. eapply lookup_lt_Some, H.
Qed.

(** Every lookup after [upd_channel] comes from a lookup before it. *)
Lemma lookup_upd_channel_inv (i k : nat) f st (c' : message_channel) :
  channels (upd_channel i f st) !! k = Some c' ->
  exists c, channels st !! k = Some c /\ c' = (if decide (k = i) then f c else c).
Proof.
  intros H. destruct (decide (k = i)) as [->|Hne].
  - assert (Hlt : (i < length (channels st))%nat).
    { apply lookup_lt_Some in H. unfold upd_channel in H.
      cbn [channels with_channels] in H. now rewrite length_insert in H. }
    destruct (lookup_lt_is_Some_2 _ _ Hlt) as [c Hc].
    exists c. split; [exact Hc|].
    rewrite (lookup_upd_channel_eq i f st c Hc) in H. congruence.
  - rewrite lookup_upd_channel_ne in H by assumption. eauto.
Qed.

(** ** Chains *)

Lemma lseg_frame st st' (h : option entry_ptr) (q : list entry_ptr) :
  (forall x, x ∈ q -> next (entry_at st' x) = next (entry_at st x)) ->
  lseg st h q -> lseg st' h q.
Proof.
  revert h. induction q as [|e q IH]; intros h Hf H; cbn [lseg] in *; [exact H|].
  destruct H as [-> H]. split; [reflexivity|].
  rewrite Hf by apply list_elem_of_here.
  apply IH; [|exact H]. intros x Hx. apply Hf. now apply list_elem_of_further.
Qed.

Lemma lseg_nil_iff st (h : option entry_ptr) (q : list entry_ptr) :
  lseg st h q -> (h = None <-> q = []).
Proof.
  destruct q; cbn [lseg]; [intros ->; tauto|].
  intros [-> _]. split; discriminate.
Qed.

(** Linking a fresh last entry behind the tail. *)
Lemma lseg_snoc st st' (h : option entry_ptr) (q : list entry_ptr) (t e : entry_ptr) :
  lseg st h q ->
  last q = Some t ->
  NoDup q ->
  e ∉ q ->
  (forall x, x ∈ q -> x <> t -> next (entry_at st' x) = next (entry_at st x)) ->
  next (entry_at st' t) = Some e ->
  next (entry_at st' e) = None ->
  lseg st' h (q ++ [e]).
Proof.
  revert h. induction q as [|a q IH]; intros h Hl Hlast Hnd He Hf Ht Hnone; [discriminate|].
  cbn [lseg app] in *. destruct Hl as [-> Hl]. split; [reflexivity|].
  apply NoDup_cons in Hnd as [Ha Hnd]. apply not_elem_of_cons in He as [Hea He].
  destruct q as [|b q].
  - cbn [last] in Hlast. injection Hlast as ->.
    rewrite Ht. cbn [app lseg]. split; [reflexivity|]. rewrite Hnone. reflexivity.
  - rewrite last_cons_cons in Hlast.
    assert (Hat : a <> t).
    { intros ->. apply Ha. apply last_Some in Hlast as [l' ->].
      apply elem_of_app. right. apply list_elem_of_here. }
    rewrite Hf; [|apply list_elem_of_here|exact Hat].
    apply IH; try assumption.
    intros x Hx Hxt. apply Hf; [now apply list_elem_of_further|exact Hxt].
Qed.

Lemma chain_messages_lseg st (q : list entry_ptr) :
  forall (h : option entry_ptr) (fuel : nat),
    lseg st h q -> (length q <= fuel)%nat ->
    chain_messages st h fuel = messages_of st q.
Proof.
  induction q as [|e q IH]; intros h fuel Hl Hlen; cbn [lseg] in Hl.
  - subst h. destruct fuel; reflexivity.
  - destruct Hl as [-> Hl]. destruct fuel as [|fuel]; [cbn [length] in Hlen; lia|].
    cbn [chain_messages messages_of map]. f_equal.
    apply IH; [exact Hl|]. cbn [length] in Hlen. lia.
Qed.

(** A list of distinct pool indices has at most [POOL_SIZE] elements. *)
Lemma NoDup_bounded_length (q : list nat) (n : nat) :
  NoDup q -> (forall x, x ∈ q -> (x < n)%nat) -> (length q <= n)%nat.
Proof.
  intros Hnd Hb.
  assert (H : (length q <= length (seq 0 n))%nat).
  { apply NoDup_incl_length; [now apply NoDup_ListNoDup|].
    intros x Hx. apply in_seq. apply list_elem_of_In in Hx. specialize (Hb x Hx). lia. }
  now rewrite length_seq in H.
Qed.

(** ** Frames *)

Lemma entry_at_upd_channel (i : nat) f st (x : entry_ptr) :
  entry_at (upd_channel i f st) x = entry_at st x.
Proof. reflexivity. Qed.

Lemma channel_at_upd_entry (e : entry_ptr) f st (i : nat) :
  channel_at (upd_entry e f st) i = channel_at st i.
Proof. reflexivity. Qed.

Lemma shape_frame st st' qs :
  shape st qs ->
  length (entry_pool st') = length (entry_pool st) ->
  length (entry_used st') = length (entry_used st) ->
  (forall i c', channels st' !! i = Some c' ->
     exists c, channels st !! i = Some c
               /\ queue_head c' = queue_head c /\ queue_tail c' = queue_tail c) ->
  (forall i e, e ∈ qs i -> next (entry_at st' e) = next (entry_at st e)) ->
  (forall i e, e ∈ qs i -> entry_used st' !! e = entry_used st !! e) ->
  shape st' qs.
Proof.
  intros [Hp Hu Hc Hnd Ho Hus] Hlp Hlu Hch Hnx Hused. constructor.
  - congruence.
  - congruence.
  - intros i c' Hc'. destruct (Hch i c' Hc') as (c & Hl & Hh & Ht).
    destruct (Hc i c Hl) as [Hseg Htail]. split.
    + rewrite Hh. eapply lseg_frame; [|exact Hseg]. intros x Hx. eapply Hnx, Hx.
    + congruence.
  - exact Hnd.
  - exact Ho.
  - intros i e He. rewrite (Hused i e He). eapply Hus, He.
Qed.

Lemma shape_upd_channel (i : nat) f st qs :
  (forall c, queue_head (f c) = queue_head c /\ queue_tail (f c) = queue_tail c) ->
  shape st qs -> shape (upd_channel i f st) qs.
Proof.
  intros Hf H. apply (shape_frame st); try assumption; try reflexivity.
  intros k c' Hc'. destruct (lookup_upd_channel_inv i k f st c' Hc') as (c & Hl & ->).
  exists c. split; [exact Hl|]. destruct (decide (k = i)); [apply Hf|auto].
Qed.

Lemma shape_upd_entry_fresh (e : entry_ptr) f st qs :
  (forall k, e ∉ qs k) ->
  shape st qs -> shape (upd_entry e f st) qs.
Proof.
  intros He H. apply (shape_frame st); try assumption; try reflexivity.
  - apply length_pool_upd_entry.
  - intros k c' Hc'. exists c'. auto.
  - intros k x Hx. rewrite entry_at_upd_entry_ne; [reflexivity|].
    intros ->. exact (He k Hx).
Qed.

Lemma shape_used_lt st qs (i : nat) (e : entry_ptr) :
  shape st qs -> e ∈ qs i -> (e < Z.to_nat POOL_SIZE)%nat.
Proof.
  intros H He. rewrite <- (shape_used_len st qs H).
  eapply lookup_lt_Some, (shape_used st qs H), He.
Qed.

Lemma shape_length st qs (i : nat) :
  shape st qs -> (length (qs i) <= drain_fuel)%nat.
Proof.
  intros H. apply NoDup_bounded_length; [apply (shape_nodup st qs H)|].
  intros x Hx. eapply shape_used_lt; eauto.
Qed.

Lemma with_queue_eq (i : nat) q qs : with_queue i q qs i = q.
Proof. unfold with_queue. now rewrite decide_True. Qed.

Lemma with_queue_ne (i k : nat) q qs : k <> i -> with_queue i q qs k = qs k.
Proof. intros H. unfold with_queue. now rewrite decide_False. Qed.

(** Dropping entries from one slot keeps the lists disjoint. *)
Lemma owner_with_queue_sub (i : nat) q qs :
  (forall e, e ∈ q -> e ∈ qs i) ->
  (forall k k' e, e ∈ qs k -> e ∈ qs k' -> k = k') ->
  forall k k' e, e ∈ with_queue i q qs k -> e ∈ with_queue i q qs k' -> k = k'.
Proof.
  intros Hsub Ho k k' e. unfold with_queue.
  destruct (decide (k = i)) as [->|Hk], (decide (k' = i)) as [->|Hk']; intros H1 H2.
  - reflexivity.
  - eapply Ho; [apply Hsub, H1|exact H2].
  - eapply Ho; [exact H1|apply Hsub, H2].
  - eapply Ho; eauto.
Qed.

(** Adding an entry no slot holds keeps the lists disjoint. *)
Lemma owner_with_queue_snoc (i : nat) (e : entry_ptr) qs :
  (forall k, e ∉ qs k) ->
  (forall k k' x, x ∈ qs k -> x ∈ qs k' -> k = k') ->
  forall k k' x, x ∈ with_queue i (qs i ++ [e]) qs k ->
                 x ∈ with_queue i (qs i ++ [e]) qs k' -> k = k'.
Proof.
  intros He Ho k k' x. unfold with_queue.
  destruct (decide (k = i)) as [->|Hk], (decide (k' = i)) as [->|Hk']; intros H1 H2.
  - reflexivity.
  - apply elem_of_app in H1 as [H1|H1]; [eapply Ho; eauto|].
    apply list_elem_of_singleton in H1 as ->. destruct (He k' H2).
  - apply elem_of_app in H2 as [H2|H2]; [eapply Ho; eauto|].
    apply list_elem_of_singleton in H2 as ->. destruct (He k H1).
  - eapply Ho; eauto.
Qed.

(** A slot whose chain is empty may be given the empty list. *)
Lemma shape_clear st qs (i : nat) :
  shape st qs ->
  (forall c, channels st !! i = Some c -> queue_head c = None /\ queue_tail c = None) ->
  shape st (with_queue i [] qs).
Proof.
  intros [Hp Hu Hc Hnd Ho Hus] Hi. constructor; try assumption.
  - intros k c Hk. destruct (decide (k = i)) as [->|Hne].
    + rewrite with_queue_eq. destruct (Hi c Hk) as [Hh Ht]. split; [exact Hh|exact Ht].
    + rewrite with_queue_ne by assumption. apply Hc, Hk.
  - intros k. unfold with_queue. destruct (decide (k = i)); [constructor|apply Hnd].
  - apply owner_with_queue_sub; [|exact Ho]. intros e He. inversion He.
  - intros k e. unfold with_queue. destruct (decide (k = i)); [inversion 1|apply Hus].
Qed.

(** ** The entry pool *)

(** [alloc_message_entry] hands out an entry that was free, marks it used and
    touches nothing else but the scan position. *)
Lemma alloc_scan_spec (n : nat) :
  forall (i : Z) st r st',
    length (entry_used st) = Z.to_nat POOL_SIZE ->
    alloc_scan i n st = (r, st') ->
    match r with
    | Some e =>
        entry_used st !! e = Some false
        /\ entry_used st' = <[e := true]> (entry_used st)
        /\ entry_pool st' = entry_pool st
        /\ channels st' = channels st
        /\ next_channel_id st' = next_channel_id st
        /\ initialized st' = initialized st
    | None => st' = st
    end.
Proof.
  induction n as [|n IH]; intros i st r st' Hlen H; cbn [alloc_scan] in H.
  - injection H as <- <-. reflexivity.
  - set (index := wrap32 (next_entry_index st + i) mod POOL_SIZE) in *.
    destruct (negb (default false (entry_used st !! Z.to_nat index))) eqn:E.
    + injection H as <- <-.
      assert (Hlt : (Z.to_nat index < length (entry_used st))%nat).
      { rewrite Hlen. unfold index. change POOL_SIZE with 512.
        pose proof (Z.mod_pos_bound (wrap32 (next_entry_index st + i)) 512). lia. }
      destruct (lookup_lt_is_Some_2 _ _ Hlt) as [b Hb].
      rewrite Hb in E. cbn [default from_option] in E.   
      destruct b; [discriminate E|].
      split; [exact Hb|]. repeat split; reflexivity.
    + eapply IH; eauto.
Qed.

Lemma shape_used_fresh st qs (e : entry_ptr) :
  shape st qs -> entry_used st !! e = Some false -> forall k, e ∉ qs k.
Proof.
  intros H He k Hk. rewrite (shape_used st qs H k e Hk) in He. discriminate.
Qed.

(** ** Appending to a queue *)

Lemma enqueue_message_shape st qs (i : nat) (c : message_channel) (e : entry_ptr) :
  shape st qs ->
  channels st !! i = Some c ->
  (e < Z.to_nat POOL_SIZE)%nat ->
  entry_used st !! e = Some true ->
  (forall k, e ∉ qs k) ->
  shape (enqueue_message i e st) (with_queue i (qs i ++ [e]) qs).
Proof.
  intros H Hi Hlt Hused Hfresh.
  pose proof H as [Hp Hu Hc Hnd Ho Hus].
  destruct (Hc i c Hi) as [Hseg Htail].
  unfold enqueue_message. cbv zeta.
  set (st1 := upd_entry e (set_next None) st).
  set (st2 := upd_entry e (set_etimestamp (current_tick st1)) st1).
  assert (Hp1 : length (entry_pool st1) = Z.to_nat POOL_SIZE).
  { unfold st1. now rewrite length_pool_upd_entry. }
  assert (Hp2 : length (entry_pool st2) = Z.to_nat POOL_SIZE).
  { unfold st2. now rewrite length_pool_upd_entry. }
  assert (Hne2 : next (entry_at st2 e) = None).
  { unfold st2. rewrite (entry_at_upd_entry_keep next) by reflexivity.
    unfold st1. rewrite entry_at_upd_entry_eq by (rewrite Hp; exact Hlt). reflexivity. }
  assert (Hx2 : forall x, x <> e -> entry_at st2 x = entry_at st x).
  { intros x Hx. unfold st2, st1. now rewrite !entry_at_upd_entry_ne by assumption. }
  change (channel_at st2 i) with (channel_at st i).
  rewrite (mq_channel_at_lookup st i c Hi).
  destruct (queue_tail c) as [t|] eqn:Et.
  - (* the queue has a tail *)
    assert (Htq : t ∈ qs i).
    { symmetry in Htail. apply last_Some in Htail as [l' ->].
      apply elem_of_app. right. apply list_elem_of_here. }
    assert (Hte : t <> e) by (intros ->; exact (Hfresh i Htq)).
    set (st3 := upd_entry t (set_next (Some e)) st2).
    assert (Ht3 : next (entry_at st3 t) = Some e).
    { unfold st3. rewrite entry_at_upd_entry_eq; [reflexivity|].
      rewrite Hp2. eapply shape_used_lt; eauto. }
    assert (He3 : next (entry_at st3 e) = None).
    { unfold st3. rewrite entry_at_upd_entry_ne by congruence. exact Hne2. }
    assert (Hx3 : forall x, x <> e -> x <> t -> entry_at st3 x = entry_at st x).
    { intros x Hxe Hxt. unfold st3. rewrite entry_at_upd_entry_ne by assumption.
      now apply Hx2. }
    constructor.
    + change (length (entry_pool st3) = Z.to_nat POOL_SIZE).
      unfold st3. rewrite length_pool_upd_entry. exact Hp2.
    + exact Hu.
    + intros k c' Hk.
      apply lookup_upd_channel_inv in Hk as (c1 & Hk & ->).
      apply lookup_upd_channel_inv in Hk as (c0 & Hk & ->).
      change (channels st3 !! k = Some c0) with (channels st !! k = Some c0) in Hk.
      destruct (decide (k = i)) as [->|Hki].
      * rewrite with_queue_eq. assert (c0 = c) by congruence. subst c0. split.
        -- cbn [queue_head set_queue_size set_queue_tail].
           apply (lseg_snoc st _ (queue_head c) (qs i) t e Hseg (eq_sym Htail)
                            (Hnd i) (Hfresh i)); [|exact Ht3|exact He3].
           intros x Hx Hxt. rewrite !entry_at_upd_channel.
           rewrite Hx3; [reflexivity| |exact Hxt].
           intros ->. exact (Hfresh i Hx).
        -- cbn [queue_tail set_queue_size set_queue_tail]. now rewrite last_snoc.
      * rewrite with_queue_ne by assumption. destruct (Hc k c0 Hk) as [Hs Hl]. split.
        -- eapply lseg_frame; [|exact Hs]. intros x Hx. rewrite !entry_at_upd_channel.
           rewrite Hx3; [reflexivity| |].
           ++ intros ->. exact (Hfresh k Hx).
           ++ intros ->. apply Hki. eapply Ho; eauto.
        -- exact Hl.
    + intros k. unfold with_queue. destruct (decide (k = i)); [|apply Hnd].
      apply NoDup_app. split; [apply Hnd|]. split; [|apply NoDup_singleton].
      intros x Hx Hx'. apply list_elem_of_singleton in Hx' as ->. exact (Hfresh i Hx).
    + apply owner_with_queue_snoc; assumption.
    + intros k x. unfold with_queue. destruct (decide (k = i)).
      * intros Hx. apply elem_of_app in Hx as [Hx|Hx]; [eapply Hus, Hx|].
        apply list_elem_of_singleton in Hx as ->. exact Hused.
      * apply Hus.
  - (* the queue is empty *)
    assert (Hq : qs i = []).
    { symmetry in Htail. destruct (qs i) as [|a l] eqn:Eq; [reflexivity|].
      exfalso. revert Htail. clear. revert a.
      induction l as [|b l IH]; intros a; [discriminate|].
      rewrite last_cons_cons. apply IH. }
    constructor.
    + exact Hp2.
    + exact Hu.
    + intros k c' Hk.
      apply lookup_upd_channel_inv in Hk as (c1 & Hk & ->).
      apply lookup_upd_channel_inv in Hk as (c2 & Hk & ->).
      apply lookup_upd_channel_inv in Hk as (c0 & Hk & ->).
      change (channels st2 !! k = Some c0) with (channels st !! k = Some c0) in Hk.
      destruct (decide (k = i)) as [->|Hki].
      * rewrite with_queue_eq, Hq. split.
        -- cbn [queue_head set_queue_size set_queue_tail set_queue_head app lseg].
           split; [reflexivity|]. rewrite !entry_at_upd_channel. exact Hne2.
        -- reflexivity.
      * rewrite with_queue_ne by assumption. destruct (Hc k c0 Hk) as [Hs Hl]. split.
        -- eapply lseg_frame; [|exact Hs]. intros x Hx. rewrite !entry_at_upd_channel.
           rewrite Hx2; [reflexivity|]. intros ->. exact (Hfresh k Hx).
        -- exact Hl.
    + intros k. unfold with_queue. destruct (decide (k = i)); [|apply Hnd].
      rewrite Hq. apply NoDup_singleton.
    + apply owner_with_queue_snoc; assumption.
    + intros k x. unfold with_queue. destruct (decide (k = i)).
      * intros Hx. apply elem_of_app in Hx as [Hx|Hx]; [eapply Hus, Hx|].
        apply list_elem_of_singleton in Hx as ->. exact Hused.
      * apply Hus.
Qed.

Lemma enqueue_message_message st (i : nat) (e x : entry_ptr) :
  message (entry_at (enqueue_message i e st) x) = message (entry_at st x).
Proof.
  unfold enqueue_message. cbv zeta. rewrite !entry_at_upd_channel.
  destruct (queue_tail _).
  - now rewrite !(entry_at_upd_entry_keep message) by reflexivity.
  - rewrite entry_at_upd_channel.
    now rewrite !(entry_at_upd_entry_keep message) by reflexivity.
Qed.

(** ** Channel identities *)

Lemma map_insert_same {A B} (g : A -> B) (l : list A) :
  forall (i : nat) (x : A),
    (forall y, l !! i = Some y -> g x = g y) ->
    map g (<[i := x]> l) = map g l.
Proof.
  induction l as [|a l IH]; intros i x H; [reflexivity|].
  destruct i as [|i].
  - change (<[0%nat := x]> (a :: l)) with (x :: l). cbn [map].
    now rewrite (H a eq_refl).
  - change (<[S i := x]> (a :: l)) with (a :: <[i := x]> l). cbn [map].
    f_equal. apply IH. intros y Hy. apply H. exact Hy.
Qed.

Lemma idents_upd_channel (i : nat) f st :
  (forall c, ident (f c) = ident c) ->
  idents (upd_channel i f st) = idents st.
Proof.
  intros Hf. unfold idents, upd_channel. cbn [channels with_channels].
  apply map_insert_same. intros y Hy.
  rewrite (mq_channel_at_lookup st i y Hy). apply Hf.
Qed.

Lemma find_index_map (f : message_channel -> bool) (g : bool * Z -> bool) :
  (forall c, f c = g (ident c)) ->
  forall (cs cs' : list message_channel) (from : nat),
    map ident cs = map ident cs' ->
    find_index f cs from = find_index f cs' from.
Proof.
  intros Hfg. induction cs as [|c cs IH]; intros [|c' cs'] from H;
    try discriminate; [reflexivity|].
  cbn [map] in H. assert (Hc : ident c = ident c') by congruence.
  assert (Hcs : map ident cs = map ident cs') by congruence. cbn [find_index].
  rewrite !Hfg, Hc. destruct (g (ident c')); [reflexivity|]. apply IH, Hcs.
Qed.

Lemma find_channel_by_id_idents (id : Z) st st' :
  idents st' = idents st ->
  find_channel_by_id id st' = find_channel_by_id id st.
Proof.
  intros H. unfold find_channel_by_id.
  apply (find_index_map _ (fun p => fst p && (snd p =? int_to_uint32 id))); [|exact H].
  intros c. reflexivity.
Qed.

Lemma lookup_idents st st' (k : nat) (c' : message_channel) :
  idents st' = idents st ->
  channels st' !! k = Some c' ->
  exists c, channels st !! k = Some c /\ ident c = ident c'.
Proof.
  unfold idents. revert k. generalize (channels st'), (channels st).
  induction l as [|a l IH]; intros [|b l0] k H Hk; try discriminate.
  cbn [map] in H. assert (Hab : ident a = ident b) by congruence.
  assert (Hl : map ident l = map ident l0) by congruence.
  destruct k as [|k].
  - injection Hk as <-. exists b. split; [reflexivity|congruence].
  - apply (IH l0 k Hl Hk).
Qed.

Lemma ids_fresh_idents st st' :
  idents st' = idents st ->
  next_channel_id st' = next_channel_id st ->
  ids_fresh st -> ids_fresh st'.
Proof.
  intros Hid Hn [H0 H]. split; [now rewrite Hn|].
  intros k c' Hk Hin. destruct (lookup_idents st st' k c' Hid Hk) as (c & Hc & Hi).
  unfold ident in Hi. injection Hi as Hu Hcid. rewrite Hn, <- Hcid.
  apply (H k c Hc). congruence.
Qed.

(** ** Taking from a queue *)

Lemma shape_ext st qs qs' :
  (forall k, qs k = qs' k) -> shape st qs -> shape st qs'.
Proof.
  intros He [Hp Hu Hc Hnd Ho Hus]. constructor; try assumption.
  - intros i c Hi. rewrite <- He. apply Hc, Hi.
  - intros i. rewrite <- He. apply Hnd.
  - intros i i' e. rewrite <- !He. apply Ho.
  - intros i e. rewrite <- He. apply Hus.
Qed.

Lemma last_cons_nonempty {A} (a : A) (l : list A) : l <> [] -> last (a :: l) = last l.
Proof. destruct l; [congruence|]. intros _. apply last_cons_cons. Qed.

Lemma dequeue_message_empty st qs (i : nat) :
  shape st qs -> qs i = [] -> dequeue_message i st = (None, st).
Proof.
  intros H Hq. unfold dequeue_message.
  destruct (channels st !! i) as [c|] eqn:Hi.
  - rewrite (mq_channel_at_lookup st i c Hi).
    destruct (shape_chan st qs H i c Hi) as [Hs _]. rewrite Hq in Hs. cbn [lseg] in Hs.
    now rewrite Hs.
  - unfold channel_at. rewrite Hi. reflexivity.
Qed.

Lemma dequeue_message_shape st qs (i : nat) (c : message_channel) (e : entry_ptr)
      (q' : list entry_ptr) :
  shape st qs ->
  channels st !! i = Some c ->
  qs i = e :: q' ->
  exists st',
    dequeue_message i st = (Some e, st')
    /\ shape st' (with_queue i q' qs)
    /\ (forall x, message (entry_at st' x) = message (entry_at st x))
    /\ entry_used st' = entry_used st
    /\ idents st' = idents st
    /\ next_channel_id st' = next_channel_id st
    /\ initialized st' = initialized st.
Proof.
  intros H Hi Hq. pose proof H as [Hp Hu Hc Hnd Ho Hus].
  destruct (Hc i c Hi) as [Hseg Htail]. rewrite Hq in Hseg, Htail.
  cbn [lseg] in Hseg. destruct Hseg as [Hhead Hseg].
  assert (Hnd' : NoDup (e :: q')) by (rewrite <- Hq; apply Hnd).
  apply NoDup_cons in Hnd' as [Heq' Hndq].
  assert (Hei : e ∈ qs i) by (rewrite Hq; apply list_elem_of_here).
  assert (Hsub : forall x, x ∈ q' -> x ∈ qs i).
  { intros x Hx. rewrite Hq. now apply list_elem_of_further. }
  unfold dequeue_message. rewrite (mq_channel_at_lookup st i c Hi), Hhead. cbv zeta.
  set (nx := next (entry_at st e)) in *.
  set (st1 := upd_channel i (set_queue_head nx) st).
  assert (Hi1 : channels st1 !! i = Some (set_queue_head nx c)).
  { unfold st1. now apply lookup_upd_channel_eq. }
  rewrite (mq_channel_at_lookup st1 i _ Hi1). cbn [queue_head set_queue_head].
  eexists. split; [reflexivity|].
  split; [|split; [|split; [|split; [|split]]]].
  - constructor.
    + rewrite length_pool_upd_entry. destruct nx; exact Hp.
    + destruct nx; exact Hu.
    + intros k c' Hk.
      assert (Hfr : forall x, x <> e ->
                next (entry_at (upd_entry e (set_next None)
                  (upd_channel i (fun c0 => set_queue_size (wrap32 (queue_size c0 - 1)) c0)
                     match nx with
                     | Some _ => st1
                     | None => upd_channel i (set_queue_tail None) st1
                     end)) x) = next (entry_at st x)).
      { intros x Hx. rewrite entry_at_upd_entry_ne by assumption.
        rewrite entry_at_upd_channel. destruct nx; reflexivity. }
      change (channels (upd_entry e (set_next None) ?s) !! k = Some c')
        with (channels s !! k = Some c') in Hk.
      apply lookup_upd_channel_inv in Hk as (c1 & Hk & ->).
      destruct (decide (k = i)) as [->|Hki].
      * rewrite with_queue_eq. split.
        -- assert (Hh1 : queue_head c1 = nx).
           { destruct nx.
             - assert (c1 = set_queue_head (Some e0) c) by congruence. now subst c1.
             - apply lookup_upd_channel_inv in Hk as (c2 & Hk & ->).
               rewrite decide_True by reflexivity.
               assert (c2 = set_queue_head None c) by congruence. now subst c2. }
           cbn [queue_head set_queue_size]. rewrite Hh1.
           eapply lseg_frame; [|exact Hseg]. intros x Hx. apply Hfr.
           intros ->. exact (Heq' Hx).
        -- cbn [queue_tail set_queue_size].
           pose proof (lseg_nil_iff st nx q' Hseg) as Hnil.
           destruct nx.
           ++ assert (c1 = set_queue_head (Some e0) c) by congruence. subst c1.
              cbn [queue_tail set_queue_head]. rewrite Htail.
              apply last_cons_nonempty. intros Hn. apply Hnil in Hn. discriminate.
           ++ apply lookup_upd_channel_inv in Hk as (c2 & Hk & ->).
              rewrite decide_True by reflexivity. cbn [queue_tail set_queue_tail].
              assert (Hn : q' = []) by now apply Hnil. now rewrite Hn.
      * rewrite with_queue_ne by assumption.
        assert (Hk0 : channels st !! k = Some c1).
        { destruct nx.
          - unfold st1 in Hk. now rewrite lookup_upd_channel_ne in Hk by assumption.
          - rewrite lookup_upd_channel_ne in Hk by assumption.
            unfold st1 in Hk. now rewrite lookup_upd_channel_ne in Hk by assumption. }
        destruct (Hc k c1 Hk0) as [Hs Hl]. split; [|exact Hl].
        eapply lseg_frame; [|exact Hs]. intros x Hx. apply Hfr.
        intros ->. apply Hki. eapply Ho; eauto.
    + intros k. unfold with_queue. destruct (decide (k = i)); [exact Hndq|apply Hnd].
    + apply owner_with_queue_sub; assumption.
    + intros k x. unfold with_queue.
      destruct (decide (k = i)) as [->|].
      * intros Hx. destruct nx; eapply Hus, Hsub, Hx.
      * intros Hx. destruct nx; eapply Hus, Hx.
  - intros x. rewrite (entry_at_upd_entry_keep message) by reflexivity.
    rewrite entry_at_upd_channel. destruct nx; reflexivity.
  - destruct nx; reflexivity.
  - change (idents (upd_entry e (set_next None) ?s)) with (idents s).
    rewrite idents_upd_channel by reflexivity.
    destruct nx.
    + unfold st1. now rewrite idents_upd_channel by reflexivity.
    + rewrite idents_upd_channel by reflexivity.
      unfold st1. now rewrite idents_upd_channel by reflexivity.
  - destruct nx; reflexivity.
  - destruct nx; reflexivity.
Qed.

Lemma free_message_entry_shape st qs (e : entry_ptr) :
  shape st qs -> (forall k, e ∉ qs k) ->
  shape (free_message_entry (Some e) st) qs.
Proof.
  intros H He. unfold free_message_entry.
  destruct (Z.of_nat e <? POOL_SIZE); [|exact H].
  apply (shape_frame st); try assumption; try reflexivity.
  - cbn [entry_used with_entry_used]. apply length_insert.
  - intros k c' Hk. exists c'. auto.
  - intros k x Hx. cbn [entry_used with_entry_used].
    apply list_lookup_insert_ne. intros ->. exact (He k Hx).
Qed.

Lemma free_message_entry_meta st (e : option entry_ptr) :
  (forall x, entry_at (free_message_entry e st) x = entry_at st x)
  /\ idents (free_message_entry e st) = idents st
  /\ next_channel_id (free_message_entry e st) = next_channel_id st
  /\ initialized (free_message_entry e st) = initialized st.
Proof.
  unfold free_message_entry. destruct e as [e|]; [|auto].
  destruct (Z.of_nat e <? POOL_SIZE); auto.
Qed.

Lemma same_meta_refl st : same_meta st st.
Proof. repeat split. Qed.

Lemma same_meta_trans st1 st2 st3 :
  same_meta st1 st2 -> same_meta st2 st3 -> same_meta st1 st3.
Proof. intros (A & B & C) (A' & B' & C'). repeat split; congruence. Qed.

Lemma same_meta_upd_channel (i : nat) f st :
  (forall c, ident (f c) = ident c) -> same_meta st (upd_channel i f st).
Proof. intros Hf. split; [now apply idents_upd_channel|]. split; reflexivity. Qed.

Lemma same_meta_upd_entry (e : entry_ptr) f st : same_meta st (upd_entry e f st).
Proof. repeat split. Qed.

Lemma head_of_empty st qs (i : nat) :
  shape st qs -> qs i = [] -> queue_head (channel_at st i) = None.
Proof.
  intros H Hq. destruct (channels st !! i) as [c|] eqn:Hi.
  - rewrite (mq_channel_at_lookup st i c Hi).
    destruct (shape_chan st qs H i c Hi) as [Hs _]. now rewrite Hq in Hs.
  - unfold channel_at. now rewrite Hi.
Qed.

Lemma shape_clear_head st qs (i : nat) :
  shape st qs -> queue_head (channel_at st i) = None -> shape st (with_queue i [] qs).
Proof.
  intros H Hh. apply shape_clear; [exact H|]. intros c Hi.
  rewrite (mq_channel_at_lookup st i c Hi) in Hh.
  destruct (shape_chan st qs H i c Hi) as [Hs Ht].
  apply (lseg_nil_iff st _ _ Hs) in Hh. rewrite Hh in Ht. split; [|exact Ht].
  rewrite Hh in Hs. exact Hs.
Qed.

(** The loop of [mq_destroy_channel] and [mq_shutdown] empties the slot;
    [POOL_SIZE] rounds are enough for it to end. *)
Lemma drain_shape (fuel : nat) :
  forall st qs (i : nat),
    shape st qs -> (length (qs i) <= fuel)%nat ->
    shape (drain i fuel st) (with_queue i [] qs)
    /\ (forall x, message (entry_at (drain i fuel st) x) = message (entry_at st x))
    /\ same_meta st (drain i fuel st).
Proof.
  induction fuel as [|fuel IH]; intros st qs i H Hlen.
  - cbn [drain]. split; [|split; [reflexivity|apply same_meta_refl]].
    apply shape_clear_head; [exact H|]. eapply head_of_empty; [exact H|].
    destruct (qs i); [reflexivity|cbn [length] in Hlen; lia].
  - cbn [drain]. destruct (queue_head (channel_at st i)) as [e0|] eqn:Hh.
    + destruct (channels st !! i) as [c|] eqn:Hi;
        [|unfold channel_at in Hh; rewrite Hi in Hh; discriminate Hh].
      rewrite (mq_channel_at_lookup st i c Hi) in Hh.
      destruct (shape_chan st qs H i c Hi) as [Hs _].
      destruct (qs i) as [|e q'] eqn:Hq; cbn [lseg] in Hs; [congruence|].
      destruct (dequeue_message_shape st qs i c e q' H Hi Hq)
        as (st1 & Hd & Hs1 & Hm1 & Hu1 & Hmeta1).
      rewrite Hd.
      assert (Hnd : NoDup (e :: q')) by (rewrite <- Hq; apply (shape_nodup st qs H)).
      apply NoDup_cons in Hnd as [Heq' _].
      assert (Hfree : forall k, e ∉ with_queue i q' qs k).
      { intros k. unfold with_queue. destruct (decide (k = i)) as [->|Hk]; [exact Heq'|].
        intros He. apply Hk. eapply (shape_owner st qs H); [exact He|].
        rewrite Hq. apply list_elem_of_here. }
      pose proof (free_message_entry_shape st1 _ e Hs1 Hfree) as Hs2.
      destruct (free_message_entry_meta st1 (Some e)) as (He2 & Hmeta2).
      destruct (IH (free_message_entry (Some e) st1) (with_queue i q' qs) i Hs2)
        as (Hs3 & Hm3 & Hmeta3).
      { rewrite with_queue_eq. cbn [length] in Hlen. lia. }
      split; [|split].
      * eapply shape_ext; [|exact Hs3]. intros k. unfold with_queue.
        destruct (decide (k = i)); reflexivity.
      * intros x. now rewrite Hm3, He2, Hm1.
      * eapply same_meta_trans; [|exact Hmeta3].
        eapply same_meta_trans; [exact Hmeta1|exact Hmeta2].
    + split; [|split; [reflexivity|apply same_meta_refl]].
      apply shape_clear_head; assumption.
Qed.

Lemma messages_of_ext st st' (q : list entry_ptr) :
  (forall x, x ∈ q -> message (entry_at st' x) = message (entry_at st x)) ->
  messages_of st' q = messages_of st q.
Proof.
  induction q as [|e q IH]; intros H; [reflexivity|].
  cbn [messages_of map]. rewrite (H e) by apply list_elem_of_here. f_equal.
  apply IH. intros x Hx. apply H. now apply list_elem_of_further.
Qed.

Lemma messages_of_app st (q q' : list entry_ptr) :
  messages_of st (q ++ q') = messages_of st q ++ messages_of st q'.
Proof. apply map_app. Qed.

(** ** Finding channels *)

Lemma mq_find_index_Some (f : message_channel -> bool) (cs : list message_channel) :
  forall (from i : nat),
    find_index f cs from = Some i ->
    exists c, (from <= i)%nat /\ cs !! (i - from)%nat = Some c /\ f c = true.
Proof.
  induction cs as [|c cs IH]; intros from i H; cbn [find_index] in H; [discriminate|].
  destruct (f c) eqn:E.
  - injection H as <-. exists c. rewrite Nat.sub_diag. auto.
  - destruct (IH _ _ H) as (c' & Hle & Hl & Hf).
    exists c'. split; [lia|]. split; [|exact Hf].
    replace (i - from)%nat with (S (i - S from)) by lia. exact Hl.
Qed.

Lemma find_channel_by_id_Some (id : Z) st (i : nat) :
  find_channel_by_id id st = Some i ->
  exists c, channels st !! i = Some c /\ in_use c = true
            /\ channel_id c = int_to_uint32 id.
Proof.
  intros H. apply mq_find_index_Some in H as (c & _ & Hl & Hf).
  rewrite Nat.sub_0_r in Hl. apply andb_true_iff in Hf as [Hu Hid].
  exists c. split; [exact Hl|]. split; [exact Hu|]. now apply Z.eqb_eq.
Qed.

Lemma find_same_channel (id c : Z) st (i j : nat) :
  find_channel_by_id id st = Some i ->
  find_channel_by_id c st = Some j ->
  same_channel id c = (if decide (i = j) then true else false).
Proof.
  intros Hi Hj. unfold same_channel.
  destruct (decide (i = j)) as [->|Hne].
  - apply find_channel_by_id_Some in Hi as (ci & Hli & _ & Hidi).
    apply find_channel_by_id_Some in Hj as (cj & Hlj & _ & Hidj).
    apply Z.eqb_eq. congruence.
  - apply Z.eqb_neq. intros Heq. apply Hne.
    unfold find_channel_by_id in Hi, Hj. rewrite Heq in Hi. congruence.
Qed.

(** Overwriting a slot that did not match with one that does not match
    leaves the search result as it was. *)
Lemma find_index_insert_false (f : message_channel -> bool) (cs : list message_channel) :
  forall (i from : nat) (old new : message_channel),
    cs !! i = Some old -> f old = false -> f new = false ->
    find_index f (<[i := new]> cs) from = find_index f cs from.
Proof.
  induction cs as [|c cs IH]; intros i from old new Hl Ho Hn; [discriminate|].
  destruct i as [|i].
  - injection Hl as ->. change (<[0%nat := new]> (old :: cs)) with (new :: cs).
    cbn [find_index]. now rewrite Ho, Hn.
  - change (<[S i := new]> (c :: cs)) with (c :: <[i := new]> cs).
    cbn [find_index]. destruct (f c); [reflexivity|]. eapply IH; eauto.
Qed.

(** ** The calls *)

Lemma enqueue_message_meta st (i : nat) (e : entry_ptr) :
  same_meta st (enqueue_message i e st).
Proof.
  unfold enqueue_message. cbv zeta.
  eapply same_meta_trans; [|apply same_meta_upd_channel; reflexivity].
  eapply same_meta_trans; [|apply same_meta_upd_channel; reflexivity].
  destruct (queue_tail _).
  - repeat split.
  - eapply same_meta_trans; [|apply same_meta_upd_channel; reflexivity].
    repeat split.
Qed.

Lemma mq_send_message_step (id : Z) (msg : option ipc_message) st qs :
  shape st qs ->
  exists qs',
    shape (snd (mq_send_message id msg st)) qs'
    /\ same_meta st (snd (mq_send_message id msg st))
    /\ forall (c : Z) (j : nat),
         find_channel_by_id c st = Some j ->
         messages_of st (qs j)
           ++ accepted1 c (SendMessage id msg) (Sent (fst (mq_send_message id msg st)))
         = messages_of (snd (mq_send_message id msg st)) (qs' j).
Proof.
  intros H. unfold mq_send_message.
  assert (Hdrop : forall i,
    shape (upd_channel i (fun c => set_messages_dropped (wrap32 (messages_dropped c + 1)) c)
                       st) qs
    /\ same_meta st (upd_channel i (fun c => set_messages_dropped
                                               (wrap32 (messages_dropped c + 1)) c) st)).
  { intros i. split; [apply shape_upd_channel; [intros; split; reflexivity|exact H]|].
    apply same_meta_upd_channel. reflexivity. }
  destruct msg as [m|];
    [|exists qs; cbn [fst snd]; split; [exact H|]; split; [apply same_meta_refl|];
      intros c j _; cbn [accepted1]; apply app_nil_r].
  destruct (find_channel_by_id id st) as [i|] eqn:Hfi;
    [|exists qs; cbn [fst snd]; split; [exact H|]; split; [apply same_meta_refl|];
      intros c j _; cbn [accepted1]; apply app_nil_r].
  destruct (max_queue_size (channel_at st i) <=? queue_size (channel_at st i)).
  { exists qs. cbn [fst snd]. destruct (Hdrop i) as [Hs Hm]. split; [exact Hs|].
    split; [exact Hm|]. intros c j _. cbn [accepted1]. apply app_nil_r. }
  destruct (alloc_message_entry st) as [[e|] st1] eqn:Ha;
    pose proof (alloc_scan_spec _ _ _ _ _ (shape_used_len st qs H) Ha) as Hspec;
    cbv beta iota in Hspec.
  2:{ subst st1. exists qs. cbn [fst snd]. destruct (Hdrop i) as [Hs Hm]. split; [exact Hs|].
      split; [exact Hm|]. intros c j _. cbn [accepted1]. apply app_nil_r. }
  destruct Hspec as (Hfree & Hused1 & Hpool1 & Hch1 & Hn1 & Hin1).
  pose proof (shape_used_fresh st qs e H Hfree) as Hfresh.
  assert (Hlt : (e < Z.to_nat POOL_SIZE)%nat).
  { rewrite <- (shape_used_len st qs H). eapply lookup_lt_Some, Hfree. }
  assert (Het1 : forall x, entry_at st1 x = entry_at st x).
  { intros x. unfold entry_at. now rewrite Hpool1. }
  assert (Hs1 : shape st1 qs).
  { apply (shape_frame st); try assumption.
    - now rewrite Hpool1.
    - rewrite Hused1. apply length_insert.
    - intros k c' Hk. rewrite Hch1 in Hk. exists c'. auto.
    - intros k x _. now rewrite Het1.
    - intros k x Hx. rewrite Hused1. apply list_lookup_insert_ne.
      intros ->. exact (Hfresh k Hx). }
  set (st2 := upd_entry e (set_message m) st1).
  set (st3 := upd_entry e (set_next None) st2).
  set (st4 := upd_entry e (set_etimestamp (current_tick st3)) st3).
  assert (Hs4 : shape st4 qs).
  { unfold st4, st3, st2. repeat apply shape_upd_entry_fresh; assumption. }
  destruct (find_channel_by_id_Some id st i Hfi) as (ci & Hci & _).
  assert (Hci4 : channels st4 !! i = Some ci).
  { change (channels st4) with (channels st1). now rewrite Hch1. }
  assert (Hu4 : entry_used st4 !! e = Some true).
  { change (entry_used st4) with (entry_used st1). rewrite Hused1.
    apply list_lookup_insert_eq. eapply lookup_lt_Some, Hfree. }
  pose proof (enqueue_message_shape st4 qs i ci e Hs4 Hci4 Hlt Hu4 Hfresh) as Hs5.
  exists (with_queue i (qs i ++ [e]) qs). cbn [fst snd].
  split; [apply shape_upd_channel; [intros; split; reflexivity|exact Hs5]|].
  split.
  { eapply same_meta_trans; [|apply same_meta_upd_channel; reflexivity].
    eapply same_meta_trans; [|apply enqueue_message_meta].
    split; [|split].
    - change (idents st4) with (idents st1). unfold idents. now rewrite Hch1.
    - exact Hn1.
    - exact Hin1. }
  assert (Hm_ne : forall x, x <> e ->
    message (entry_at (upd_channel i (fun c => set_messages_sent
                                                 (wrap32 (messages_sent c + 1)) c)
                                   (enqueue_message i e st4)) x)
    = message (entry_at st x)).
  { intros x Hx. rewrite entry_at_upd_channel, enqueue_message_message.
    unfold st4, st3, st2. rewrite !entry_at_upd_entry_ne by assumption. now rewrite Het1. }
  assert (Hm_e :
    message (entry_at (upd_channel i (fun c => set_messages_sent
                                                 (wrap32 (messages_sent c + 1)) c)
                                   (enqueue_message i e st4)) e) = m).
  { rewrite entry_at_upd_channel, enqueue_message_message.
    unfold st4, st3. rewrite !(entry_at_upd_entry_keep message) by reflexivity.
    unfold st2. rewrite entry_at_upd_entry_eq; [reflexivity|].
    rewrite Hpool1, (shape_pool st qs H). exact Hlt. }
  intros c j Hfj. cbn [accepted1].
  rewrite (find_same_channel id c st i j Hfi Hfj).
  destruct (decide (i = j)) as [<-|Hne].
  - rewrite with_queue_eq, messages_of_app. f_equal.
    + symmetry. apply messages_of_ext. intros x Hx. apply Hm_ne.
      intros ->. exact (Hfresh i Hx).
    + cbn [messages_of map]. now rewrite Hm_e.
  - rewrite with_queue_ne by congruence. rewrite app_nil_r.
    symmetry. apply messages_of_ext. intros x Hx. apply Hm_ne.
    intros ->. exact (Hfresh j Hx).
Qed.

Lemma mq_receive_message_step (id : Z) (buf : option ipc_message) st qs :
  shape st qs ->
  exists qs',
    shape (snd (mq_receive_message id buf st)) qs'
    /\ same_meta st (snd (mq_receive_message id buf st))
    /\ forall (c : Z) (j : nat),
         find_channel_by_id c st = Some j ->
         messages_of st (qs j)
         = delivered1 c (ReceiveMessage id buf)
                      (Received (fst (fst (mq_receive_message id buf st)))
                                (snd (fst (mq_receive_message id buf st))))
           ++ messages_of (snd (mq_receive_message id buf st)) (qs' j).
Proof.
  intros H. unfold mq_receive_message.
  destruct buf as [b|];
    [|exists qs; cbn [fst snd]; split; [exact H|]; split; [apply same_meta_refl|];
      intros c j _; reflexivity].
  destruct (find_channel_by_id id st) as [i|] eqn:Hfi;
    [|exists qs; cbn [fst snd]; split; [exact H|]; split; [apply same_meta_refl|];
      intros c j _; reflexivity].
  destruct (qs i) as [|e q'] eqn:Hq.
  { rewrite (dequeue_message_empty st qs i H Hq).
    exists qs. cbn [fst snd]. split; [exact H|]. split; [apply same_meta_refl|].
    intros c j _. reflexivity. }
  destruct (find_channel_by_id_Some id st i Hfi) as (ci & Hci & _).
  destruct (dequeue_message_shape st qs i ci e q' H Hci Hq)
    as (st1 & Hd & Hs1 & Hm1 & Hu1 & Hmeta1).
  rewrite Hd. cbn [fst snd].
  set (st2 := upd_channel i (fun c => set_messages_received
                                        (wrap32 (messages_received c + 1)) c) st1).
  assert (Hnd : NoDup (e :: q')) by (rewrite <- Hq; apply (shape_nodup st qs H)).
  apply NoDup_cons in Hnd as [Heq' _].
  assert (Hfree : forall k, e ∉ with_queue i q' qs k).
  { intros k. unfold with_queue. destruct (decide (k = i)) as [->|Hk]; [exact Heq'|].
    intros He. apply Hk. eapply (shape_owner st qs H); [exact He|].
    rewrite Hq. apply list_elem_of_here. }
  assert (Hs2 : shape st2 (with_queue i q' qs)).
  { apply shape_upd_channel; [intros; split; reflexivity|exact Hs1]. }
  destruct (free_message_entry_meta st2 (Some e)) as (He3 & Hmeta3).
  exists (with_queue i q' qs).
  split; [now apply free_message_entry_shape|].
  split.
  { assert (Hmeta2 : same_meta st1 st2)
      by (unfold st2; apply same_meta_upd_channel; reflexivity).
    eapply same_meta_trans; [exact Hmeta1|].
    eapply same_meta_trans; [exact Hmeta2|exact Hmeta3]. }
  assert (Hm3 : forall x, message (entry_at (free_message_entry (Some e) st2) x)
                          = message (entry_at st x)).
  { intros x. rewrite He3. unfold st2. rewrite entry_at_upd_channel. apply Hm1. }
  intros c j Hfj. cbn [delivered1].
  rewrite (find_same_channel id c st i j Hfi Hfj).
  destruct (decide (i = j)) as [<-|Hne].
  - rewrite with_queue_eq, Hq. cbn [messages_of map app]. rewrite Hm1. f_equal.
    symmetry. apply messages_of_ext. intros x _. apply Hm3.
  - rewrite with_queue_ne by congruence. cbn [app].
    symmetry. apply messages_of_ext. intros x _. apply Hm3.
Qed.

Lemma shape_with_active_channels (v : Z) st qs :
  shape st qs -> shape (with_active_channels v st) qs.
Proof.
  intros H. apply (shape_frame st); try assumption; try reflexivity.
  intros k c' Hk. exists c'. auto.
Qed.

Lemma mq_create_channel_step (s r : Z) st qs :
  shape st qs -> ids_fresh st -> next_channel_id st < 4294967295 ->
  exists qs',
    shape (snd (mq_create_channel s r st)) qs'
    /\ ids_fresh (snd (mq_create_channel s r st))
    /\ next_channel_id (snd (mq_create_channel s r st)) <= next_channel_id st + 1
    /\ initialized (snd (mq_create_channel s r st)) = initialized st
    /\ forall (c : Z) (j : nat),
         find_channel_by_id c st = Some j ->
         find_channel_by_id c (snd (mq_create_channel s r st)) = Some j
         /\ messages_of (snd (mq_create_channel s r st)) (qs' j) = messages_of st (qs j).
Proof.
  intros H Hids Hn. pose proof Hids as [Hn0 Hid].
  assert (Hsame : exists qs',
    shape st qs' /\ ids_fresh st /\ next_channel_id st <= next_channel_id st + 1
    /\ initialized st = initialized st
    /\ forall (c : Z) (j : nat),
         find_channel_by_id c st = Some j ->
         find_channel_by_id c st = Some j /\ messages_of st (qs' j) = messages_of st (qs j)).
  { exists qs. split; [exact H|]. split; [exact Hids|]. split; [lia|].
    split; [reflexivity|]. intros c j Hf. split; [exact Hf|reflexivity]. }
  unfold mq_create_channel.
  destruct (find_channel_by_participants s r st); [exact Hsame|].
  destruct (find_free_channel st) as [i|] eqn:Hfree; [|exact Hsame].
  clear Hsame. cbn [snd].
  apply mq_find_index_Some in Hfree as (ci & _ & Hci & Hfi).
  rewrite Nat.sub_0_r in Hci. apply negb_true_iff in Hfi.
  set (ch := mk_channel (next_channel_id st) s r None None 0 MAX_QUEUE_DEPTH true true 0 0 0).
  set (st' := with_active_channels _ _).
  assert (Hch' : channels st' = <[i := ch]> (channels st)) by reflexivity.
  assert (Hnx : next_channel_id st' = next_channel_id st + 1).
  { change (next_channel_id st') with (wrap32 (next_channel_id st + 1)).
    apply wrap32_small. lia. }
  pose proof H as [Hp Hu Hc Hnd Ho Hus].
  exists (with_queue i [] qs).
  split; [|split; [|split; [|split]]].
  - constructor.
    + exact Hp.
    + exact Hu.
    + intros k c' Hk. rewrite Hch' in Hk.
      destruct (decide (k = i)) as [->|Hki].
      * rewrite list_lookup_insert_eq in Hk by (eapply lookup_lt_Some, Hci).
        injection Hk as <-. rewrite with_queue_eq. split; reflexivity.
      * rewrite list_lookup_insert_ne in Hk by congruence.
        rewrite with_queue_ne by assumption.
        destruct (Hc k c' Hk) as [Hs Hl]. split; [|exact Hl].
        eapply lseg_frame; [|exact Hs]. reflexivity.
    + intros k. unfold with_queue. destruct (decide (k = i)); [constructor|apply Hnd].
    + apply owner_with_queue_sub; [|exact Ho]. intros e He. inversion He.
    + intros k e. unfold with_queue. destruct (decide (k = i)); [inversion 1|apply Hus].
  - split; [lia|]. intros k c' Hk Hin. rewrite Hch' in Hk. rewrite Hnx.
    destruct (decide (k = i)) as [->|Hki].
    + rewrite list_lookup_insert_eq in Hk by (eapply lookup_lt_Some, Hci).
      injection Hk as <-. cbn [channel_id ch]. lia.
    + rewrite list_lookup_insert_ne in Hk by congruence.
      pose proof (Hid k c' Hk Hin). lia.
  - lia.
  - reflexivity.
  - intros c j Hfj.
    destruct (find_channel_by_id_Some c st j Hfj) as (cj & Hcj & Huj & Hidj).
    assert (Hji : j <> i) by (intros ->; congruence).
    split.
    + unfold find_channel_by_id. rewrite Hch'.
      erewrite find_index_insert_false; [exact Hfj|exact Hci| |].
      * now rewrite Hfi.
      * cbn [in_use channel_id ch andb]. apply Z.eqb_neq.
        pose proof (Hid j cj Hcj Huj). lia.
    + rewrite with_queue_ne by assumption. apply messages_of_ext. reflexivity.
Qed.

(** One round of [mq_shutdown], and the body of [mq_destroy_channel]:
    empty the slot and mark it unused. *)
Lemma drain_close (i : nat) st qs :
  shape st qs -> ids_fresh st ->
  shape (upd_channel i (set_in_use false) (drain i drain_fuel st)) (with_queue i [] qs)
  /\ ids_fresh (upd_channel i (set_in_use false) (drain i drain_fuel st))
  /\ next_channel_id (upd_channel i (set_in_use false) (drain i drain_fuel st))
     = next_channel_id st
  /\ initialized (upd_channel i (set_in_use false) (drain i drain_fuel st))
     = initialized st
  /\ (forall x, message (entry_at (upd_channel i (set_in_use false)
                                               (drain i drain_fuel st)) x)
                = message (entry_at st x))
  /\ forall (c : Z) (j : nat),
       find_channel_by_id c st = Some j ->
       (forall ci, channels st !! i = Some ci -> in_use ci = true ->
                   channel_id ci <> int_to_uint32 c) ->
       find_channel_by_id c (upd_channel i (set_in_use false) (drain i drain_fuel st))
       = Some j.
Proof.
  intros H Hids.
  destruct (drain_shape drain_fuel st qs i H (shape_length st qs i H))
    as (Hs1 & Hm1 & Hid1 & Hn1 & Hin1).
  set (st1 := drain i drain_fuel st) in *.
  split; [apply shape_upd_channel; [intros; split; reflexivity|exact Hs1]|].
  split; [|split; [exact Hn1|split; [exact Hin1|split; [exact Hm1|]]]].
  - destruct Hids as [Hn0 Hid]. split.
    + change (0 <= next_channel_id st1). now rewrite Hn1.
    + intros k c' Hk Hin.
      apply lookup_upd_channel_inv in Hk as (c1 & Hk & ->).
      change (next_channel_id (upd_channel i (set_in_use false) st1))
        with (next_channel_id st1). rewrite Hn1.
      destruct (decide (k = i)); [discriminate Hin|].
      destruct (lookup_idents st st1 k c1 Hid1 Hk) as (c0 & Hc0 & Hident).
      unfold ident in Hident. injection Hident as Hu0 Hc0id.
      rewrite <- Hc0id. apply (Hid k c0 Hc0). congruence.
  - intros c j Hfj Hnot.
    rewrite <- (find_channel_by_id_idents c st st1 Hid1) in Hfj.
    unfold find_channel_by_id, upd_channel. cbn [channels with_channels].
    destruct (channels st1 !! i) as [c1|] eqn:Hc1.
    + rewrite (mq_channel_at_lookup st1 i c1 Hc1).
      erewrite find_index_insert_false; [exact Hfj|exact Hc1| |reflexivity].
      destruct (lookup_idents st st1 i c1 Hid1 Hc1) as (c0 & Hc0 & Hident).
      unfold ident in Hident. injection Hident as Hu0 Hc0id.
      destruct (in_use c1) eqn:Hu1; [|reflexivity].
      cbn [andb]. apply Z.eqb_neq. rewrite <- Hc0id. apply (Hnot c0 Hc0). congruence.
    + rewrite list_insert_ge; [exact Hfj|].
      apply lookup_ge_None. exact Hc1.
Qed.

Lemma mq_destroy_channel_step (id : Z) st qs :
  shape st qs -> ids_fresh st ->
  exists qs',
    shape (mq_destroy_channel id st) qs'
    /\ ids_fresh (mq_destroy_channel id st)
    /\ next_channel_id (mq_destroy_channel id st) = next_channel_id st
    /\ initialized (mq_destroy_channel id st) = initialized st
    /\ forall (c : Z) (j : nat),
         find_channel_by_id c st = Some j ->
         same_channel id c = false ->
         find_channel_by_id c (mq_destroy_channel id st) = Some j
         /\ messages_of (mq_destroy_channel id st) (qs' j) = messages_of st (qs j).
Proof.
  intros H Hids. unfold mq_destroy_channel.
  destruct (find_channel_by_id id st) as [i|] eqn:Hfi.
  - destruct (drain_close i st qs H Hids) as (Hs & Hi & Hn & Hin & Hm & Hfind).
    exists (with_queue i [] qs).
    split; [now apply shape_with_active_channels|].
    split; [exact Hi|]. split; [exact Hn|]. split; [exact Hin|].
    intros c j Hfj Hsame.
    rewrite (find_same_channel id c st i j Hfi Hfj) in Hsame.
    destruct (decide (i = j)) as [|Hne]; [discriminate Hsame|].
    split.
    + apply (Hfind c j Hfj). intros ci Hci Hu Heq.
      destruct (find_channel_by_id_Some id st i Hfi) as (ci' & Hci' & _ & Hidi).
      destruct (find_channel_by_id_Some c st j Hfj) as (cj & Hcj & _ & Hidj).
      apply Hne. unfold find_channel_by_id in Hfi, Hfj.
      assert (Hcc : int_to_uint32 id = int_to_uint32 c) by congruence.
      rewrite Hcc in Hfi. congruence.
    + rewrite with_queue_ne by congruence.
      apply messages_of_ext. intros x _. apply Hm.
  - exists qs. split; [exact H|]. split; [exact Hids|]. split; [reflexivity|].
    split; [reflexivity|]. intros c j Hfj _. split; [exact Hfj|reflexivity].
Qed.

Lemma shutdown_from_step (n : nat) :
  forall (i : nat) st qs,
    shape st qs -> ids_fresh st ->
    exists qs',
      shape (shutdown_from i n st) qs'
      /\ ids_fresh (shutdown_from i n st)
      /\ next_channel_id (shutdown_from i n st) = next_channel_id st.
Proof.
  induction n as [|n IH]; intros i st qs H Hids; cbn [shutdown_from].
  - exists qs. auto.
  - cbv zeta. destruct (drain_close i st qs H Hids) as (Hs & Hi & Hn & _).
    destruct (IH (S i) _ _ Hs Hi) as (qs' & Hs' & Hi' & Hn').
    exists qs'. split; [exact Hs'|]. split; [exact Hi'|]. congruence.
Qed.

Lemma mq_shutdown_step st qs :
  shape st qs -> ids_fresh st ->
  exists qs',
    shape (mq_shutdown st) qs'
    /\ ids_fresh (mq_shutdown st)
    /\ next_channel_id (mq_shutdown st) = next_channel_id st.
Proof.
  intros H Hids. unfold mq_shutdown. cbv zeta.
  destruct (shutdown_from_step (Z.to_nat MAX_CHANNELS) 0 st qs H Hids)
    as (qs' & Hs & Hi & Hn).
  revert Hs Hi Hn. generalize (shutdown_from 0 (Z.to_nat MAX_CHANNELS) st).
  intros st1 Hs Hi Hn.
  exists qs'. split; [|split; [exact Hi|exact Hn]].
  apply (shape_frame st1); try assumption; try reflexivity.
  intros k c' Hk. exists c'. auto.
Qed.

Lemma mq_init_step st qs :
  shape st qs -> ids_fresh st ->
  exists qs',
    shape (snd (mq_init st)) qs'
    /\ ids_fresh (snd (mq_init st))
    /\ next_channel_id (snd (mq_init st)) <= next_channel_id st + 1
    /\ (initialized st = true -> snd (mq_init st) = st /\ qs' = qs).
Proof.
  intros H Hids. unfold mq_init. destruct (initialized st) eqn:Hin.
  - exists qs. cbn [snd]. split; [exact H|]. split; [exact Hids|]. split; [lia|]. auto.
  - exists (fun _ => []). cbn [snd].
    split; [|split; [|split; [|discriminate]]].
    + constructor.
      * exact (shape_pool st qs H).
      * cbn [entry_used]. apply length_replicate.
      * intros k c Hk. cbn [channels] in Hk. apply lookup_replicate in Hk as [-> _].
        split; reflexivity.
      * intros k. constructor.
      * intros k k' e He. inversion He.
      * intros k e He. inversion He.
    + split; [cbn [next_channel_id]; lia|].
      intros k c Hk Hu. cbn [channels] in Hk. apply lookup_replicate in Hk as [-> _].
      discriminate Hu.
    + destruct Hids as [Hn0 _]. cbn [next_channel_id]. lia.
Qed.


(** ** One call *)

(** A call that leaves the queues alone. *)
Lemma fifo_quiet (c : Z) (j : nat) (o : op) (out : outcome) st st' qs :
  find_channel_by_id c st = Some j -> initialized st = true ->
  same_meta st st' ->
  (forall x, message (entry_at st' x) = message (entry_at st x)) ->
  accepted1 c o out = [] -> delivered1 c o out = [] ->
  fifo_step c j o st qs out st' qs.
Proof.
  intros Hf Hi (Hid & Hn & Hin) Hm Ha Hd. split; [|split].
  - rewrite (find_channel_by_id_idents c st st' Hid). exact Hf.
  - congruence.
  - rewrite Ha, Hd, app_nil_r. cbn [app]. symmetry. apply messages_of_ext.
    intros x _. apply Hm.
Qed.

Lemma step_quiet (o : op) (out : outcome) st st' qs :
  shape st qs -> ids_fresh st ->
  shape st' qs -> same_meta st st' ->
  (forall x, message (entry_at st' x) = message (entry_at st x)) ->
  (forall c, accepted1 c o out = []) -> (forall c, delivered1 c o out = []) ->
  exists qs',
    shape st' qs'
    /\ ids_fresh st'
    /\ next_channel_id st' <= next_channel_id st + 1
    /\ forall (c : Z) (j : nat),
         find_channel_by_id c st = Some j -> initialized st = true ->
         keeps_channel c o = true ->
         fifo_step c j o st qs out st' qs'.
Proof.
  intros H Hids Hs Hmeta Hm Ha Hd. exists qs. split; [exact Hs|].
  pose proof Hmeta as (Hid & Hn & Hin).
  split; [now apply (ids_fresh_idents st)|]. split; [lia|].
  intros c j Hf Hi _. now apply fifo_quiet.
Qed.

(** Every call keeps the queues well formed, and for a channel it leaves
    alive it keeps the FIFO bookkeeping. *)
Lemma step_inv (o : op) st qs :
  shape st qs -> ids_fresh st -> next_channel_id st < 4294967295 ->
  exists qs',
    shape (snd (step o st)) qs'
    /\ ids_fresh (snd (step o st))
    /\ next_channel_id (snd (step o st)) <= next_channel_id st + 1
    /\ forall (c : Z) (j : nat),
         find_channel_by_id c st = Some j -> initialized st = true ->
         keeps_channel c o = true ->
         fifo_step c j o st qs (fst (step o st)) (snd (step o st)) qs'.
Proof.
  intros H Hids Hn.
  destruct o as [| |s r|id|id msg|id buf|id buf|g e r|id b|id n|]; cbn [step].
  - (* Init *)
    destruct (mq_init_step st qs H Hids) as (qs' & Hs & Hi & Hnx & Hsame).
    destruct (mq_init st) as [r st1]. cbn [fst snd] in *.
    exists qs'. split; [exact Hs|]. split; [exact Hi|]. split; [exact Hnx|].
    intros c j Hf Hin _. destruct (Hsame Hin) as [-> ->].
    apply fifo_quiet; try assumption; try reflexivity. apply same_meta_refl.
  - (* Shutdown *)
    destruct (mq_shutdown_step st qs H Hids) as (qs' & Hs & Hi & Hnx).
    cbn [fst snd]. exists qs'. split; [exact Hs|]. split; [exact Hi|]. split; [lia|].
    intros c j _ _ Hk. discriminate Hk.
  - (* CreateChannel *)
    destruct (mq_create_channel_step s r st qs H Hids Hn)
      as (qs' & Hs & Hi & Hnx & Hin & Hfifo).
    destruct (mq_create_channel s r st) as [ret st1]. cbn [fst snd] in *.
    exists qs'. split; [exact Hs|]. split; [exact Hi|]. split; [exact Hnx|].
    intros c j Hf Hini _. destruct (Hfifo c j Hf) as [Hf' Hm].
    split; [exact Hf'|]. split; [congruence|].
    cbn [accepted1 delivered1 app]. rewrite app_nil_r. now rewrite Hm.
  - (* DestroyChannel *)
    destruct (mq_destroy_channel_step id st qs H Hids)
      as (qs' & Hs & Hi & Hnx & Hin & Hfifo).
    cbn [fst snd]. exists qs'. split; [exact Hs|]. split; [exact Hi|]. split; [lia|].
    intros c j Hf Hini Hk. cbn [keeps_channel] in Hk. apply negb_true_iff in Hk.
    destruct (Hfifo c j Hf Hk) as [Hf' Hm].
    split; [exact Hf'|]. split; [congruence|].
    cbn [accepted1 delivered1 app]. rewrite app_nil_r. now rewrite Hm.
  - (* SendMessage *)
    destruct (mq_send_message_step id msg st qs H) as (qs' & Hs & Hmeta & Hfifo).
    destruct (mq_send_message id msg st) as [ret st1]. cbn [fst snd] in *.
    pose proof Hmeta as (Hid & Hnx & Hin).
    exists qs'. split; [exact Hs|]. split; [now apply (ids_fresh_idents st)|].
    split; [lia|].
    intros c j Hf Hini _. split; [|split].
    + rewrite (find_channel_by_id_idents c st st1 Hid). exact Hf.
    + congruence.
    + rewrite (Hfifo c j Hf). reflexivity.
  - (* ReceiveMessage *)
    destruct (mq_receive_message_step id buf st qs H) as (qs' & Hs & Hmeta & Hfifo).
    destruct (mq_receive_message id buf st) as [[ret out] st1]. cbn [fst snd] in *.
    pose proof Hmeta as (Hid & Hnx & Hin).
    exists qs'. split; [exact Hs|]. split; [now apply (ids_fresh_idents st)|].
    split; [lia|].
    intros c j Hf Hini _. split; [|split].
    + rewrite (find_channel_by_id_idents c st st1 Hid). exact Hf.
    + congruence.
    + rewrite (Hfifo c j Hf). cbn [accepted1]. now rewrite app_nil_r.
  - (* TryReceive *)
    unfold mq_try_receive.
    destruct (mq_receive_message_step id buf st qs H) as (qs' & Hs & Hmeta & Hfifo).
    destruct (mq_receive_message id buf st) as [[ret out] st1]. cbn [fst snd] in *.
    pose proof Hmeta as (Hid & Hnx & Hin).
    exists qs'. split; [exact Hs|]. split; [now apply (ids_fresh_idents st)|].
    split; [lia|].
    intros c j Hf Hini _. split; [|split].
    + rewrite (find_channel_by_id_idents c st st1 Hid). exact Hf.
    + congruence.
    + rewrite (Hfifo c j Hf). cbn [accepted1]. now rewrite app_nil_r.
  - (* GrantCapability *)
    cbn [fst snd]. unfold mq_grant_capability.
    apply step_quiet; try assumption; try reflexivity. apply same_meta_refl.
  - (* SetBlockingMode *)
    cbn [fst snd]. unfold mq_set_blocking_mode.
    destruct (find_channel_by_id id st) as [i|].
    + apply step_quiet; try assumption; try reflexivity.
      * apply shape_upd_channel; [intros; split; reflexivity|exact H].
      * apply same_meta_upd_channel. reflexivity.
    + apply step_quiet; try assumption; try reflexivity. apply same_meta_refl.
  - (* SetQueueSize *)
    cbn [fst snd]. unfold mq_set_queue_size.
    destruct (find_channel_by_id id st) as [i|];
      [destruct (n <=? MAX_QUEUE_DEPTH)|].
    + apply step_quiet; try assumption; try reflexivity.
      * apply shape_upd_channel; [intros; split; reflexivity|exact H].
      * apply same_meta_upd_channel. reflexivity.
    + apply step_quiet; try assumption; try reflexivity. apply same_meta_refl.
    + apply step_quiet; try assumption; try reflexivity. apply same_meta_refl.
  - (* Tick *)
    cbn [fst snd]. unfold mq_tick.
    apply step_quiet; try assumption; try reflexivity.
    + apply (shape_frame st); try assumption; try reflexivity.
      intros k c' Hk. exists c'. auto.
    + repeat split.
Qed.

(** ** Runs *)

Lemma accepted_cons (c : Z) (o : op) (ops : list op) st :
  accepted c (o :: ops) st
  = accepted1 c o (fst (step o st)) ++ accepted c ops (snd (step o st)).
Proof.
  cbn [accepted]. destruct (step o st) as [out st1]. cbn [fst snd].
  destruct o as [| |s r|id|id m0|id buf|id buf|g e r|id b|id n|]; try reflexivity.
  destruct m0 as [m|]; [|reflexivity].
  destruct out as [|ret|ret|ret b0]; try reflexivity.
  destruct ret; try reflexivity.
  cbn [accepted1]. destruct (same_channel id c); reflexivity.
Qed.

Lemma delivered_cons (c : Z) (o : op) (ops : list op) st :
  delivered c (o :: ops) st
  = delivered1 c o (fst (step o st)) ++ delivered c ops (snd (step o st)).
Proof.
  cbn [delivered]. destruct (step o st) as [out st1]. cbn [fst snd].
  destruct o as [| |s r|id|id m0|id buf|id buf|g e r|id b|id n|]; try reflexivity.
  - destruct out as [|ret|ret|ret b0]; try reflexivity. destruct ret; try reflexivity.
    destruct b0 as [m|]; [|reflexivity].
    cbn [delivered1]. destruct (same_channel id c); reflexivity.
  - destruct out as [|ret|ret|ret b0]; try reflexivity. destruct ret; try reflexivity.
    destruct b0 as [m|]; [|reflexivity].
    cbn [delivered1]. destruct (same_channel id c); reflexivity.
Qed.

Lemma run_cons (o : op) (ops : list op) st :
  run (o :: ops) st = run ops (snd (step o st)).
Proof. reflexivity. Qed.

Lemma run_app (pre ops : list op) st :
  run (pre ++ ops) st = run ops (run pre st).
Proof. unfold run. apply fold_left_app. Qed.

Lemma shape_state0 : shape mq_state0 (fun _ => []).
Proof.
  constructor.
  - apply length_replicate.
  - apply length_replicate.
  - intros k c Hk. cbn [channels mq_state0] in Hk.
    apply lookup_replicate in Hk as [-> _]. split; reflexivity.
  - intros k. constructor.
  - intros k k' e He. inversion He.
  - intros k e He. inversion He.
Qed.

Lemma ids_fresh_state0 : ids_fresh mq_state0.
Proof.
  split; [cbn [next_channel_id mq_state0]; lia|].
  intros k c Hk Hu. cbn [channels mq_state0] in Hk.
  apply lookup_replicate in Hk as [-> _]. discriminate Hu.
Qed.

Lemma run_inv (ops : list op) :
  forall st qs,
    shape st qs -> ids_fresh st ->
    next_channel_id st + Z.of_nat (length ops) <= 4294967295 ->
    exists qs',
      shape (run ops st) qs'
      /\ ids_fresh (run ops st)
      /\ next_channel_id (run ops st) <= next_channel_id st + Z.of_nat (length ops).
Proof.
  induction ops as [|o ops IH]; intros st qs H Hids Hn.
  - exists qs. cbn [run fold_left length]. split; [exact H|]. split; [exact Hids|]. lia.
  - rewrite run_cons. cbn [length] in Hn |- *.
    destruct (step_inv o st qs H Hids) as (qs1 & Hs1 & Hi1 & Hn1 & _); [lia|].
    destruct (IH _ qs1 Hs1 Hi1) as (qs' & Hs' & Hi' & Hn'); [lia|].
    exists qs'. split; [exact Hs'|]. split; [exact Hi'|]. lia.
Qed.

Lemma queued_messages_of (c : Z) (j : nat) st qs :
  shape st qs -> find_channel_by_id c st = Some j ->
  queued c st = messages_of st (qs j).
Proof.
  intros H Hf. unfold queued. rewrite Hf.
  destruct (find_channel_by_id_Some c st j Hf) as (cj & Hcj & _).
  rewrite (mq_channel_at_lookup st j cj Hcj).
  apply chain_messages_lseg; [apply (shape_chan st qs H j cj Hcj)|].
  apply (shape_length st qs j H).
Qed.

Lemma run_fifo (ops : list op) :
  forall st qs (c : Z) (j : nat),
    shape st qs -> ids_fresh st ->
    next_channel_id st + Z.of_nat (length ops) <= 4294967295 ->
    find_channel_by_id c st = Some j -> initialized st = true ->
    forallb (keeps_channel c) ops = true ->
    exists qs',
      shape (run ops st) qs'
      /\ find_channel_by_id c (run ops st) = Some j
      /\ messages_of st (qs j) ++ accepted c ops st
         = delivered c ops st ++ messages_of (run ops st) (qs' j).
Proof.
  induction ops as [|o ops IH]; intros st qs c j H Hids Hn Hf Hin Hk.
  - exists qs. cbn [run fold_left accepted delivered app].
    split; [exact H|]. split; [exact Hf|]. apply app_nil_r.
  - cbn [forallb] in Hk. apply andb_true_iff in Hk as [Hko Hk].
    cbn [length] in Hn.
    destruct (step_inv o st qs H Hids) as (qs1 & Hs1 & Hi1 & Hn1 & Hfifo); [lia|].
    destruct (Hfifo c j Hf Hin Hko) as (Hf1 & Hin1 & Heq1).
    destruct (IH _ qs1 c j Hs1 Hi1) as (qs' & Hs' & Hf' & Heq'); try assumption; [lia|].
    exists qs'. rewrite run_cons, accepted_cons, delivered_cons.
    split; [exact Hs'|]. split; [exact Hf'|].
    rewrite app_assoc, Heq1, <- !app_assoc. f_equal. exact Heq'.
Qed.

(** C6: strict FIFO of the message-queue transport.  Take any state [st]
    the transport reaches from power-up by a run [pre] of its calls, in
    which it is initialised and the channel [c] exists, and let any further
    calls [ops] follow that neither shut the transport down nor destroy [c]
    (the runs being short enough that the 32-bit channel-identifier counter
    does not wrap).  Then the messages waiting in [c] at [st], followed by
    the messages the successful [send_message] calls on [c] passed in, are
    exactly the messages the successful [receive_message] and [try_receive]
    calls on [c] returned, in order, followed by the messages still waiting
    at the end; so the k-th successful receive returns the k-th message of
    the channel, and no accepted message is reordered or lost. *)
Theorem mq_fifo (pre ops : list op) (c : Z) :
  Z.of_nat (length pre + length ops) <= 4294967295 ->
  initialized (run pre mq_state0) = true ->
  find_channel_by_id c (run pre mq_state0) <> None ->
  forallb (keeps_channel c) ops = true ->
  queued c (run pre mq_state0) ++ accepted c ops (run pre mq_state0)
  = delivered c ops (run pre mq_state0) ++ queued c (run ops (run pre mq_state0))
  /\ forall (k : nat) (m : ipc_message),
       delivered c ops (run pre mq_state0) !! k = Some m ->
       (queued c (run pre mq_state0) ++ accepted c ops (run pre mq_state0)) !! k = Some m.
Proof.
  intros Hlen Hin Hfind Hk.
  assert (Heq0 :
    queued c (run pre mq_state0) ++ accepted c ops (run pre mq_state0)
    = delivered c ops (run pre mq_state0) ++ queued c (run ops (run pre mq_state0)));
    [|split; [exact Heq0|intros k m Hd; rewrite Heq0; now apply lookup_app_l_Some]].
  destruct (run_inv pre mq_state0 _ shape_state0 ids_fresh_state0)
    as (qs & Hs & Hids & Hn).
  { cbn [next_channel_id mq_state0]. lia. }
  cbn [next_channel_id mq_state0] in Hn.
  destruct (find_channel_by_id c (run pre mq_state0)) as [j|] eqn:Hf; [|congruence].
  destruct (run_fifo ops _ qs c j Hs Hids) as (qs' & Hs' & Hf' & Heq); try assumption.
  { lia. }
  rewrite (queued_messages_of c j _ qs Hs Hf).
  rewrite (queued_messages_of c j _ qs' Hs' Hf').
  exact Heq.
Qed.

Lemma mq_fifo_witness :
  queued 1 (run session_setup mq_state0)
    ++ accepted 1 session_traffic (run session_setup mq_state0)
  = delivered 1 session_traffic (run session_setup mq_state0)
    ++ queued 1 (run session_traffic (run session_setup mq_state0))
  /\ forall (k : nat) (m : ipc_message),
       delivered 1 session_traffic (run session_setup mq_state0) !! k = Some m ->
       (queued 1 (run session_setup mq_state0)
          ++ accepted 1 session_traffic (run session_setup mq_state0)) !! k = Some m.
Proof.
  apply (mq_fifo session_setup session_traffic 1).
  - vm_compute. discriminate.
  - vm_compute. reflexivity.
  - vm_compute. discriminate.
  - vm_compute. reflexivity.
Defined.

End MQProofs.

(** * More on the message-queue transport *)

Section MQMore.
Import MQ.

(** ** How the primitives move the channel fields *)

Lemma resized_0 (c : message_channel) :
  0 <= queue_size c < 4294967296 -> resized 0 c c.
Proof.
  intros H. unfold resized. rewrite Z.add_0_r, wrap32_small by lia. repeat split.
Qed.

Lemma enqueue_message_fields st (i : nat) (e : entry_ptr) (c : message_channel) :
  channels st !! i = Some c ->
  (exists c', channels (enqueue_message i e st) !! i = Some c' /\ resized 1 c c')
  /\ (forall k, k <> i -> channels (enqueue_message i e st) !! k = channels st !! k)
  /\ entry_used (enqueue_message i e st) = entry_used st
  /\ length (channels (enqueue_message i e st)) = length (channels st).
Proof.
  intros Hi. unfold enqueue_message. cbv zeta.
  set (st1 := upd_entry e (set_next None) st).
  set (st2 := upd_entry e (set_etimestamp (current_tick st1)) st1).
  assert (Hi2 : channels st2 !! i = Some c) by exact Hi.
  change (channel_at st2 i) with (channel_at st i).
  rewrite (mq_channel_at_lookup st i c Hi).
  destruct (queue_tail c) as [t|].
  - set (st3 := upd_entry t (set_next (Some e)) st2).
    assert (Hi3 : channels st3 !! i = Some c) by exact Hi.
    pose proof (lookup_upd_channel_eq i (set_queue_tail (Some e)) st3 c Hi3) as Hi4.
    pose proof (lookup_upd_channel_eq i
                  (fun c0 => set_queue_size (wrap32 (queue_size c0 + 1)) c0) _ _ Hi4) as Hi5.
    split; [eexists; split; [exact Hi5|repeat split]|].
    split; [|split].
    + intros k Hk. now rewrite !lookup_upd_channel_ne by assumption.
    + reflexivity.
    + unfold upd_channel. cbn [channels with_channels]. now rewrite !length_insert.
  - pose proof (lookup_upd_channel_eq i (set_queue_head (Some e)) st2 c Hi2) as Hi3.
    pose proof (lookup_upd_channel_eq i (set_queue_tail (Some e)) _ _ Hi3) as Hi4.
    pose proof (lookup_upd_channel_eq i
                  (fun c0 => set_queue_size (wrap32 (queue_size c0 + 1)) c0) _ _ Hi4) as Hi5.
    split; [eexists; split; [exact Hi5|repeat split]|].
    split; [|split].
    + intros k Hk. now rewrite !lookup_upd_channel_ne by assumption.
    + reflexivity.
    + unfold upd_channel. cbn [channels with_channels]. now rewrite !length_insert.
Qed.

Lemma dequeue_message_fields st (i : nat) (c : message_channel) (e : entry_ptr) :
  channels st !! i = Some c -> queue_head c = Some e ->
  (exists c', channels (snd (dequeue_message i st)) !! i = Some c' /\ resized (-1) c c')
  /\ (forall k, k <> i -> channels (snd (dequeue_message i st)) !! k = channels st !! k)
  /\ length (channels (snd (dequeue_message i st))) = length (channels st).
Proof.
  intros Hi Hh. unfold dequeue_message.
  rewrite (mq_channel_at_lookup st i c Hi), Hh. cbv zeta. cbn [snd].
  set (nx := next (entry_at st e)).
  set (st1 := upd_channel i (set_queue_head nx) st).
  pose proof (lookup_upd_channel_eq i (set_queue_head nx) st c Hi) as Hi1. fold st1 in Hi1.
  rewrite (mq_channel_at_lookup st1 i _ Hi1). cbn [queue_head set_queue_head].
  change (channels (upd_entry e (set_next None) ?s)) with (channels s).
  destruct nx.
  - pose proof (lookup_upd_channel_eq i
                  (fun c0 => set_queue_size (wrap32 (queue_size c0 - 1)) c0) _ _ Hi1) as Hi3.
    split; [eexists; split; [exact Hi3|repeat split]|]. split.
    + intros k Hk. unfold st1. now rewrite !lookup_upd_channel_ne by assumption.
    + unfold st1, upd_channel. cbn [channels with_channels]. now rewrite !length_insert.
  - pose proof (lookup_upd_channel_eq i (set_queue_tail None) _ _ Hi1) as Hi2.
    pose proof (lookup_upd_channel_eq i
                  (fun c0 => set_queue_size (wrap32 (queue_size c0 - 1)) c0) _ _ Hi2) as Hi3.
    split; [eexists; split; [exact Hi3|repeat split]|]. split.
    + intros k Hk. unfold st1. now rewrite !lookup_upd_channel_ne by assumption.
    + unfold st1, upd_channel. cbn [channels with_channels]. now rewrite !length_insert.
Qed.

Lemma free_message_entry_used st (e x : entry_ptr) :
  (e < length (entry_used st))%nat ->
  length (entry_used st) = Z.to_nat POOL_SIZE ->
  entry_used (free_message_entry (Some e) st) !! x
  = if decide (x = e) then Some false else entry_used st !! x.
Proof.
  intros Hlt Hlen. unfold free_message_entry.
  destruct (Z.ltb_spec (Z.of_nat e) POOL_SIZE) as [_|Hge]; [|lia].
  cbn [entry_used with_entry_used]. destruct (decide (x = e)) as [->|Hne].
  - now apply list_lookup_insert_eq.
  - apply list_lookup_insert_ne. congruence.
Qed.

(** ** Keeping the bookkeeping *)

Lemma lookup_None_same_length {A B} (l : list A) (l' : list B) (i : nat) :
  length l' = length l -> l' !! i = None -> l !! i = None.
Proof.
  intros Hlen H. apply lookup_ge_None. apply lookup_ge_None in H. lia.
Qed.

(** A call that leaves the queues, the sizes and the counters alone. *)
Lemma full_frame st st' qs :
  full st qs -> shape st' qs ->
  length (channels st') = length (channels st) ->
  (forall i c', channels st' !! i = Some c' ->
     exists c, channels st !! i = Some c
               /\ queue_size c' = queue_size c
               /\ max_queue_size c' <= MAX_QUEUE_DEPTH
               /\ in_use c' = in_use c
               /\ messages_sent c' = messages_sent c
               /\ messages_received c' = messages_received c) ->
  (forall e, entry_used st' !! e = Some true -> entry_used st !! e = Some true) ->
  full st' qs.
Proof.
  intros [Hs Hlen Hsz Hmax Hd Hsl Hid Hu Hcn] Hs' Hlen' Hch Hused. constructor.
  - exact Hs'.
  - congruence.
  - intros i c' Hi. destruct (Hch i c' Hi) as (c & Hc & Hq & _). rewrite Hq. eauto.
  - intros i c' Hi. destruct (Hch i c' Hi) as (c & Hc & _ & Hm & _). exact Hm.
  - exact Hd.
  - intros i Hi. apply Hsl. eapply lookup_None_same_length; eauto.
  - intros i c' Hi Hin. destruct (Hch i c' Hi) as (c & Hc & _ & _ & Hiu & _).
    apply (Hid i c Hc). congruence.
  - intros e He. apply Hu, Hused, He.
  - intros i c' Hi Hin. destruct (Hch i c' Hi) as (c & Hc & Hq & _ & Hiu & Hsent & Hrecv).
    rewrite Hsent, Hrecv, Hq. apply (Hcn i c Hc). congruence.
Qed.

Lemma full_upd_channel (i : nat) f st qs :
  (forall c, queue_head (f c) = queue_head c /\ queue_tail (f c) = queue_tail c
             /\ queue_size (f c) = queue_size c
             /\ (max_queue_size c <= MAX_QUEUE_DEPTH -> max_queue_size (f c) <= MAX_QUEUE_DEPTH)
             /\ in_use (f c) = in_use c
             /\ messages_sent (f c) = messages_sent c
             /\ messages_received (f c) = messages_received c) ->
  full st qs -> full (upd_channel i f st) qs.
Proof.
  intros Hf H. apply (full_frame st); try assumption.
  - apply shape_upd_channel; [|apply (full_shape st qs H)].
    intros c. destruct (Hf c) as (A & B & _). auto.
  - unfold upd_channel. cbn [channels with_channels]. apply length_insert.
  - intros k c' Hk. destruct (lookup_upd_channel_inv i k f st c' Hk) as (c & Hc & ->).
    exists c. split; [exact Hc|]. pose proof (full_max st qs H k c Hc) as Hm.
    destruct (Hf c) as (_ & _ & A & B & C & D & E).
    destruct (decide (k = i)); auto 10.
  - auto.
Qed.

(** The draining loop: the slot ends with size 0, no other slot changes,
    and exactly the entries of the slot's queue are given back. *)
Lemma drain_fields (fuel : nat) :
  forall st qs (i : nat),
    shape st qs ->
    (forall c, channels st !! i = Some c -> queue_size c = Z.of_nat (length (qs i))) ->
    (channels st !! i = None -> qs i = []) ->
    (length (qs i) <= fuel)%nat ->
    length (channels (drain i fuel st)) = length (channels st)
    /\ (forall k, k <> i -> channels (drain i fuel st) !! k = channels st !! k)
    /\ (forall c, channels st !! i = Some c ->
          exists c', channels (drain i fuel st) !! i = Some c'
                     /\ queue_size c' = 0
                     /\ max_queue_size c' = max_queue_size c
                     /\ in_use c' = in_use c)
    /\ (forall x, entry_used (drain i fuel st) !! x
                  = if decide (x ∈ qs i) then Some false else entry_used st !! x).
Proof.
  induction fuel as [|fuel IH]; intros st qs i H Hsz Hnone Hlen.
  - assert (Hq : qs i = []) by (destruct (qs i); [reflexivity|cbn [length] in Hlen; lia]).
    cbn [drain]. split; [reflexivity|]. split; [reflexivity|]. split.
    + intros c Hc. exists c. rewrite (Hsz c Hc), Hq. auto.
    + intros x. rewrite Hq. destruct (decide (x ∈ [])) as [Hx|_]; [inversion Hx|reflexivity].
  - cbn [drain]. destruct (queue_head (channel_at st i)) as [e0|] eqn:Hh.
    + destruct (channels st !! i) as [c|] eqn:Hi;
        [|unfold channel_at in Hh; rewrite Hi in Hh; discriminate Hh].
      rewrite (mq_channel_at_lookup st i c Hi) in Hh.
      destruct (shape_chan st qs H i c Hi) as [Hs _].
      destruct (qs i) as [|e q'] eqn:Hq; cbn [lseg] in Hs; [congruence|].
      destruct Hs as [Hhe _]. assert (e0 = e) by congruence. subst e0.
      destruct (dequeue_message_shape st qs i c e q' H Hi Hq)
        as (st1 & Hd & Hs1 & _ & Hu1 & _).
      destruct (dequeue_message_fields st i c e Hi Hh) as ((c1 & Hc1 & Hr1) & Hk1 & Hl1).
      rewrite Hd in *. cbn [snd] in Hc1, Hk1, Hl1.
      assert (Hnd : NoDup (e :: q')) by (rewrite <- Hq; apply (shape_nodup st qs H)).
      apply NoDup_cons in Hnd as [Heq' _].
      assert (Hfree : forall k, e ∉ with_queue i q' qs k).
      { intros k. unfold with_queue. destruct (decide (k = i)) as [->|Hk]; [exact Heq'|].
        intros He. apply Hk. eapply (shape_owner st qs H); [exact He|].
        rewrite Hq. apply list_elem_of_here. }
      pose proof (free_message_entry_shape st1 _ e Hs1 Hfree) as Hs2.
      assert (He512 : (e < Z.to_nat POOL_SIZE)%nat).
      { apply (shape_used_lt st qs i e H). rewrite Hq. apply list_elem_of_here. }
      pose proof (shape_used_len st qs H) as Hul.
      pose proof (shape_length st qs i H) as Hlen512. rewrite Hq in Hlen512.
      cbn [length] in Hlen512, Hlen.
      change drain_fuel with 512%nat in Hlen512.
      destruct Hr1 as (Hsize1 & Hmax1 & Hin1 & _).
      rewrite (Hsz c eq_refl) in Hsize1. cbn [length] in Hsize1.
      rewrite wrap32_small in Hsize1 by lia.
      set (st2 := free_message_entry (Some e) st1) in *.
      assert (Hch2 : channels st2 = channels st1).
      { unfold st2, free_message_entry. destruct (Z.of_nat e <? POOL_SIZE); reflexivity. }
      destruct (IH st2 (with_queue i q' qs) i Hs2) as (Hl3 & Hk3 & Hc3 & Hu3).
      { intros c0 Hc0. rewrite Hch2, Hc1 in Hc0. injection Hc0 as <-.
        rewrite with_queue_eq. lia. }
      { intros Hn. rewrite Hch2, Hc1 in Hn. discriminate Hn. }
      { rewrite with_queue_eq. lia. }
      split; [rewrite Hl3, Hch2; exact Hl1|]. split; [|split].
      * intros k Hk. rewrite (Hk3 k Hk), Hch2. now apply Hk1.
      * intros c0 Hc0. injection Hc0 as <-.
        destruct (Hc3 c1) as (c' & Hc' & Hz & Hm & Hiu); [now rewrite Hch2|].
        exists c'. split; [exact Hc'|]. split; [exact Hz|]. split; congruence.
      * intros x. rewrite (Hu3 x), with_queue_eq. unfold st2.
        rewrite free_message_entry_used by (rewrite Hu1; lia).
        rewrite Hu1.
        repeat case_decide; try reflexivity; exfalso;
          repeat match goal with
                 | H : _ ∈ _ :: _ |- _ => apply elem_of_cons in H as [?|?]
                 | H : ¬ (_ ∈ _ :: _) |- _ => apply not_elem_of_cons in H as [? ?]
                 end; subst; contradiction || congruence.
    + assert (Hq : qs i = []).
      { destruct (channels st !! i) as [c|] eqn:Hi.
        - rewrite (mq_channel_at_lookup st i c Hi) in Hh.
          destruct (shape_chan st qs H i c Hi) as [Hs _].
          now apply (lseg_nil_iff st _ _ Hs).
        - now apply Hnone. }
      split; [reflexivity|]. split; [reflexivity|]. split.
      * intros c Hc. exists c. rewrite (Hsz c Hc), Hq. auto.
      * intros x. rewrite Hq.
        destruct (decide (x ∈ [])) as [Hx|_]; [inversion Hx|reflexivity].
Qed.

Lemma full_state0 : full mq_state0 (fun _ => []).
Proof.
  constructor.
  - apply shape_state0.
  - apply length_replicate.
  - intros i c Hi. cbn [channels mq_state0] in Hi.
    apply lookup_replicate in Hi as [-> _]. reflexivity.
  - intros i c Hi. cbn [channels mq_state0] in Hi.
    apply lookup_replicate in Hi as [-> _]. cbn. discriminate.
  - intros i. cbn [length]. lia.
  - reflexivity.
  - reflexivity.
  - intros e He. cbn [entry_used mq_state0] in He.
    apply lookup_replicate in He as [He _]. discriminate He.
  - intros i c Hi Hu. cbn [channels mq_state0] in Hi.
    apply lookup_replicate in Hi as [-> _]. discriminate Hu.
Qed.

Lemma full_init st qs : full st qs -> exists qs', full (snd (mq_init st)) qs'.
Proof.
  intros H. unfold mq_init. destruct (initialized st); [exists qs; exact H|].
  exists (fun _ => []). cbn [snd]. constructor.
  - constructor.
    + exact (shape_pool st qs (full_shape st qs H)).
    + cbn [entry_used]. apply length_replicate.
    + intros k c Hk. cbn [channels] in Hk. apply lookup_replicate in Hk as [-> _].
      split; reflexivity.
    + intros k. constructor.
    + intros k k' e He. inversion He.
    + intros k e He. inversion He.
  - apply length_replicate.
  - intros i c Hi. cbn [channels] in Hi. apply lookup_replicate in Hi as [-> _]. reflexivity.
  - intros i c Hi. cbn [channels] in Hi. apply lookup_replicate in Hi as [-> _].
    cbn [max_queue_size]. lia.
  - intros i. cbn [length]. lia.
  - reflexivity.
  - reflexivity.
  - intros e He. cbn [entry_used] in He. apply lookup_replicate in He as [He _].
    discriminate He.
  - intros i c Hi Hu. cbn [channels] in Hi. apply lookup_replicate in Hi as [-> _].
    discriminate Hu.
Qed.

Lemma full_depth_Z st qs (i : nat) : full st qs -> Z.of_nat (length (qs i)) <= 16.
Proof.
  intros H. pose proof (full_depth st qs H i) as Hd.
  change (Z.to_nat MAX_QUEUE_DEPTH) with 16%nat in Hd. lia.
Qed.

(** Emptying a slot and marking it unused. *)
Lemma full_drain_close (i : nat) st qs :
  full st qs ->
  full (upd_channel i (set_in_use false) (drain i drain_fuel st)) (with_queue i [] qs).
Proof.
  intros H. pose proof (full_shape st qs H) as Hs.
  destruct (drain_shape drain_fuel st qs i Hs (shape_length st qs i Hs)) as (Hs1 & _ & _).
  destruct (drain_fields drain_fuel st qs i Hs) as (Hl1 & Hk1 & Hc1 & Hu1).
  { intros c Hc. apply (full_sized st qs H i c Hc). }
  { apply (full_slots st qs H). }
  { apply (shape_length st qs i Hs). }
  set (st1 := drain i drain_fuel st) in *.
  assert (Hlook : forall k c', channels (upd_channel i (set_in_use false) st1) !! k = Some c' ->
            exists c, channels st !! k = Some c
              /\ (k = i -> queue_size c' = 0 /\ in_use c' = false
                           /\ max_queue_size c' = max_queue_size c)
              /\ (k <> i -> c' = c)).
  { intros k c' Hk. apply lookup_upd_channel_inv in Hk as (c1 & Hk & ->).
    destruct (decide (k = i)) as [->|Hne].
    - destruct (channels st !! i) as [c|] eqn:Hi.
      + destruct (Hc1 c eq_refl) as (c1' & Hc1' & Hz & Hm & _).
        assert (c1' = c1) by congruence. subst c1'.
        exists c. split; [reflexivity|]. split; [intros _; auto|]. congruence.
      + exfalso. apply lookup_ge_None in Hi. apply lookup_lt_Some in Hk. lia.
    - rewrite (Hk1 k Hne) in Hk. exists c1. split; [exact Hk|].
      split; [congruence|reflexivity]. }
  constructor.
  - apply shape_upd_channel; [intros; split; reflexivity|exact Hs1].
  - unfold upd_channel. cbn [channels with_channels]. rewrite length_insert, Hl1.
    apply (full_len st qs H).
  - intros k c' Hk. destruct (Hlook k c' Hk) as (c & Hc & Hi & Hne).
    destruct (decide (k = i)) as [->|Hki].
    + rewrite with_queue_eq. destruct (Hi eq_refl) as (-> & _). reflexivity.
    + rewrite with_queue_ne by assumption. rewrite (Hne Hki).
      apply (full_sized st qs H k c Hc).
  - intros k c' Hk. destruct (Hlook k c' Hk) as (c & Hc & Hi & Hne).
    pose proof (full_max st qs H k c Hc) as Hm.
    destruct (decide (k = i)) as [->|Hki].
    + destruct (Hi eq_refl) as (_ & _ & ->). exact Hm.
    + now rewrite (Hne Hki).
  - intros k. unfold with_queue. destruct (decide (k = i)); [cbn [length]; lia|].
    apply (full_depth st qs H).
  - intros k Hk. unfold with_queue. destruct (decide (k = i)); [reflexivity|].
    apply (full_slots st qs H). apply lookup_ge_None. apply lookup_ge_None in Hk.
    unfold upd_channel in Hk. cbn [channels with_channels] in Hk.
    rewrite length_insert in Hk. lia.
  - intros k c' Hk Hu. destruct (Hlook k c' Hk) as (c & Hc & Hi & Hne).
    unfold with_queue. destruct (decide (k = i)) as [->|Hki]; [reflexivity|].
    rewrite (Hne Hki) in Hu. apply (full_idle st qs H k c Hc Hu).
  - intros e He. change (entry_used (upd_channel i (set_in_use false) st1))
      with (entry_used st1) in He. rewrite Hu1 in He.
    destruct (decide (e ∈ qs i)) as [_|Hn]; [discriminate He|].
    destruct (full_used st qs H e He) as (k & Hk). exists k.
    unfold with_queue. destruct (decide (k = i)) as [->|_]; [contradiction|exact Hk].
  - intros k c' Hk Hu. destruct (Hlook k c' Hk) as (c & Hc & Hi & Hne).
    destruct (decide (k = i)) as [->|Hki].
    + destruct (Hi eq_refl) as (_ & Hf & _). congruence.
    + rewrite (Hne Hki) in *. apply (full_counts st qs H k c Hc Hu).
Qed.

Lemma full_with_active_channels (v : Z) st qs :
  full st qs -> full (with_active_channels v st) qs.
Proof.
  intros H. apply (full_frame st); try assumption; try reflexivity.
  - apply shape_with_active_channels, (full_shape st qs H).
  - intros k c' Hk. exists c'. split; [exact Hk|].
    pose proof (full_max st qs H k c' Hk). auto 10.
  - auto.
Qed.

Lemma full_destroy (id : Z) st qs :
  full st qs -> exists qs', full (mq_destroy_channel id st) qs'.
Proof.
  intros H. unfold mq_destroy_channel.
  destruct (find_channel_by_id id st) as [i|]; [|exists qs; exact H].
  exists (with_queue i [] qs). cbv zeta.
  apply full_with_active_channels, full_drain_close, H.
Qed.

Lemma full_shutdown_from (n : nat) :
  forall (i : nat) st qs, full st qs -> exists qs', full (shutdown_from i n st) qs'.
Proof.
  induction n as [|n IH]; intros i st qs H; cbn [shutdown_from]; [exists qs; exact H|].
  cbv zeta. apply (IH (S i) _ (with_queue i [] qs)). apply full_drain_close, H.
Qed.

Lemma full_shutdown st qs : full st qs -> exists qs', full (mq_shutdown st) qs'.
Proof.
  intros H. unfold mq_shutdown. cbv zeta.
  destruct (full_shutdown_from (Z.to_nat MAX_CHANNELS) 0 st qs H) as (qs' & H').
  revert H'. generalize (shutdown_from 0 (Z.to_nat MAX_CHANNELS) st). intros st1 H'.
  exists qs'. apply (full_frame st1); try assumption; try reflexivity.
  - apply (shape_frame st1); try reflexivity; [apply (full_shape st1 qs' H')|].
    intros k c' Hk. exists c'. auto.
  - intros k c' Hk. exists c'. split; [exact Hk|].
    pose proof (full_max st1 qs' H' k c' Hk). auto 10.
  - auto.
Qed.

Lemma full_drop_one (i : nat) st qs :
  full st qs ->
  full (upd_channel i (fun c => set_messages_dropped (wrap32 (messages_dropped c + 1)) c)
                    st) qs.
Proof. intros H. apply full_upd_channel; [|exact H]. intros c. auto 10. Qed.

(** What a successful [mq_send_message] leaves behind. *)
Lemma mq_send_success_full (i : nat) (ci : message_channel) (e : entry_ptr)
      (m : ipc_message) st st1 qs :
  full st qs ->
  channels st !! i = Some ci -> in_use ci = true ->
  queue_size ci < max_queue_size ci ->
  alloc_message_entry st = (Some e, st1) ->
  full (upd_channel i (fun c => set_messages_sent (wrap32 (messages_sent c + 1)) c)
          (enqueue_message i e
             (upd_entry e (set_etimestamp
                             (current_tick (upd_entry e (set_next None)
                                              (upd_entry e (set_message m) st1))))
                (upd_entry e (set_next None) (upd_entry e (set_message m) st1)))))
       (with_queue i (qs i ++ [e]) qs).
Proof.
  intros H Hci Hin Hroom Ha. pose proof (full_shape st qs H) as Hs.
  pose proof (alloc_scan_spec _ _ _ _ _ (shape_used_len st qs Hs) Ha) as Hspec.
  cbv beta iota in Hspec.
  destruct Hspec as (Hfree & Hused1 & Hpool1 & Hch1 & Hn1 & Hin1).
  pose proof (shape_used_fresh st qs e Hs Hfree) as Hfresh.
  assert (Hlt : (e < Z.to_nat POOL_SIZE)%nat).
  { rewrite <- (shape_used_len st qs Hs). eapply lookup_lt_Some, Hfree. }
  assert (Het1 : forall x, entry_at st1 x = entry_at st x).
  { intros x. unfold entry_at. now rewrite Hpool1. }
  assert (Hs1 : shape st1 qs).
  { apply (shape_frame st); try assumption.
    - now rewrite Hpool1.
    - rewrite Hused1. apply length_insert.
    - intros k c' Hk. rewrite Hch1 in Hk. exists c'. auto.
    - intros k x _. now rewrite Het1.
    - intros k x Hx. rewrite Hused1. apply list_lookup_insert_ne.
      intros ->. exact (Hfresh k Hx). }
  set (st2 := upd_entry e (set_message m) st1).
  set (st3 := upd_entry e (set_next None) st2).
  set (st4 := upd_entry e (set_etimestamp (current_tick st3)) st3).
  assert (Hs4 : shape st4 qs).
  { unfold st4, st3, st2. repeat apply shape_upd_entry_fresh; assumption. }
  assert (Hci4 : channels st4 !! i = Some ci).
  { change (channels st4) with (channels st1). now rewrite Hch1. }
  assert (Hu4 : entry_used st4 !! e = Some true).
  { change (entry_used st4) with (entry_used st1). rewrite Hused1.
    apply list_lookup_insert_eq. eapply lookup_lt_Some, Hfree. }
  pose proof (enqueue_message_shape st4 qs i ci e Hs4 Hci4 Hlt Hu4 Hfresh) as Hs5.
  destruct (enqueue_message_fields st4 i e ci Hci4)
    as ((c5 & Hc5 & Hsz5 & Hmax5 & Hin5 & _ & Hsent5 & Hrecv5) & Hk5 & Hu5 & Hl5).
  set (st5 := enqueue_message i e st4) in *.
  set (fsent := fun c => set_messages_sent (wrap32 (messages_sent c + 1)) c).
  pose proof (lookup_upd_channel_eq i fsent st5 c5 Hc5) as Hi6.
  assert (Hk6 : forall k, k <> i -> channels (upd_channel i fsent st5) !! k = channels st !! k).
  { intros k Hk. rewrite lookup_upd_channel_ne by assumption. rewrite (Hk5 k Hk).
    change (channels st4) with (channels st1). now rewrite Hch1. }
  pose proof (full_sized st qs H i ci Hci) as Hsize.
  pose proof (full_max st qs H i ci Hci) as Hmax.
  pose proof (full_depth_Z st qs i H) as Hdep.
  change MAX_QUEUE_DEPTH with 16 in Hmax.
  rewrite Hsize in Hsz5. rewrite wrap32_small in Hsz5 by lia.
  constructor.
  - apply shape_upd_channel; [intros; split; reflexivity|exact Hs5].
  - unfold upd_channel. cbn [channels with_channels]. rewrite length_insert, Hl5.
    change (channels st4) with (channels st1). rewrite Hch1. apply (full_len st qs H).
  - intros k c' Hk. destruct (decide (k = i)) as [->|Hki].
    + rewrite Hi6 in Hk. injection Hk as <-. rewrite with_queue_eq, length_app.
      cbn [queue_size fsent set_messages_sent length]. lia.
    + rewrite (Hk6 k Hki) in Hk. rewrite with_queue_ne by assumption.
      apply (full_sized st qs H k c' Hk).
  - intros k c' Hk. destruct (decide (k = i)) as [->|Hki].
    + rewrite Hi6 in Hk. injection Hk as <-.
      cbn [max_queue_size fsent set_messages_sent]. rewrite Hmax5. exact Hmax.
    + rewrite (Hk6 k Hki) in Hk. apply (full_max st qs H k c' Hk).
  - intros k. unfold with_queue. destruct (decide (k = i)) as [->|Hki].
    + rewrite length_app. cbn [length]. change (Z.to_nat MAX_QUEUE_DEPTH) with 16%nat. lia.
    + apply (full_depth st qs H).
  - intros k Hk. destruct (decide (k = i)) as [->|Hki]; [rewrite Hi6 in Hk; discriminate|].
    rewrite (Hk6 k Hki) in Hk. rewrite with_queue_ne by assumption.
    apply (full_slots st qs H k Hk).
  - intros k c' Hk Hu. destruct (decide (k = i)) as [->|Hki].
    + rewrite Hi6 in Hk. injection Hk as <-.
      cbn [in_use fsent set_messages_sent] in Hu. congruence.
    + rewrite (Hk6 k Hki) in Hk. rewrite with_queue_ne by assumption.
      apply (full_idle st qs H k c' Hk Hu).
  - intros x Hx. change (entry_used (upd_channel i fsent st5)) with (entry_used st5) in Hx.
    rewrite Hu5 in Hx. change (entry_used st4) with (entry_used st1) in Hx.
    rewrite Hused1 in Hx. destruct (decide (x = e)) as [->|Hne].
    + exists i. rewrite with_queue_eq. apply elem_of_app. right. apply list_elem_of_here.
    + rewrite list_lookup_insert_ne in Hx by congruence.
      destruct (full_used st qs H x Hx) as (k & Hk). exists k. unfold with_queue.
      destruct (decide (k = i)) as [->|_]; [apply elem_of_app; now left|exact Hk].
  - intros k c' Hk Hu. destruct (decide (k = i)) as [->|Hki].
    + rewrite Hi6 in Hk. injection Hk as <-.
      cbn [messages_sent messages_received queue_size fsent set_messages_sent].
      rewrite Hsent5, Hrecv5, Hsz5, (full_counts st qs H i ci Hci Hin), Hsize.
      unfold wrap32. rewrite Z.add_mod_idemp_l by lia. f_equal. lia.
    + rewrite (Hk6 k Hki) in Hk. apply (full_counts st qs H k c' Hk Hu).
Qed.

Lemma full_send (id : Z) (msg : option ipc_message) st qs :
  full st qs -> exists qs', full (snd (mq_send_message id msg st)) qs'.
Proof.
  intros H. unfold mq_send_message.
  destruct msg as [m|]; [|exists qs; exact H].
  destruct (find_channel_by_id id st) as [i|] eqn:Hfi; [|exists qs; exact H].
  destruct (find_channel_by_id_Some id st i Hfi) as (ci & Hci & Hin & _).
  rewrite (mq_channel_at_lookup st i ci Hci).
  destruct (Z.leb_spec (max_queue_size ci) (queue_size ci)) as [_|Hroom];
    [exists qs; cbn [snd]; now apply full_drop_one|].
  destruct (alloc_message_entry st) as [[e|] st1] eqn:Ha.
  - exists (with_queue i (qs i ++ [e]) qs). cbn [snd].
    now apply (mq_send_success_full i ci e m st st1 qs).
  - pose proof (alloc_scan_spec _ _ _ _ _
                  (shape_used_len st qs (full_shape st qs H)) Ha) as Hspec.
    cbv beta iota in Hspec. subst st1.
    exists qs. cbn [snd]. now apply full_drop_one.
Qed.

Lemma full_receive (id : Z) (buf : option ipc_message) st qs :
  full st qs -> exists qs', full (snd (mq_receive_message id buf st)) qs'.
Proof.
  intros H. pose proof (full_shape st qs H) as Hs. unfold mq_receive_message.
  destruct buf as [b|]; [|exists qs; exact H].
  destruct (find_channel_by_id id st) as [i|] eqn:Hfi; [|exists qs; exact H].
  destruct (qs i) as [|e q'] eqn:Hq.
  { rewrite (dequeue_message_empty st qs i Hs Hq). exists qs. exact H. }
  destruct (find_channel_by_id_Some id st i Hfi) as (ci & Hci & Hin & _).
  destruct (dequeue_message_shape st qs i ci e q' Hs Hci Hq)
    as (st1 & Hd & Hs1 & _ & Hu1 & _).
  assert (Hhead : queue_head ci = Some e).
  { destruct (shape_chan st qs Hs i ci Hci) as [Hl _]. rewrite Hq in Hl. apply Hl. }
  destruct (dequeue_message_fields st i ci e Hci Hhead)
    as ((c1 & Hc1 & Hsz1 & Hmax1 & Hin1 & _ & Hsent1 & Hrecv1) & Hk1 & Hl1).
  rewrite Hd in *. cbn [snd] in Hc1, Hk1, Hl1 |- *.
  set (frecv := fun c => set_messages_received (wrap32 (messages_received c + 1)) c).
  set (st2 := upd_channel i frecv st1).
  assert (Hnd : NoDup (e :: q')) by (rewrite <- Hq; apply (shape_nodup st qs Hs)).
  apply NoDup_cons in Hnd as [Heq' _].
  assert (Hfree : forall k, e ∉ with_queue i q' qs k).
  { intros k. unfold with_queue. destruct (decide (k = i)) as [->|Hk]; [exact Heq'|].
    intros He. apply Hk. eapply (shape_owner st qs Hs); [exact He|].
    rewrite Hq. apply list_elem_of_here. }
  assert (Hs2 : shape st2 (with_queue i q' qs)).
  { apply shape_upd_channel; [intros; split; reflexivity|exact Hs1]. }
  assert (He512 : (e < Z.to_nat POOL_SIZE)%nat).
  { apply (shape_used_lt st qs i e Hs). rewrite Hq. apply list_elem_of_here. }
  pose proof (shape_used_len st qs Hs) as Hul.
  set (st3 := free_message_entry (Some e) st2).
  assert (Hch3 : channels st3 = channels st2).
  { unfold st3, free_message_entry. destruct (Z.of_nat e <? POOL_SIZE); reflexivity. }
  pose proof (lookup_upd_channel_eq i frecv st1 c1 Hc1) as Hi2. fold st2 in Hi2.
  assert (Hk2 : forall k, k <> i -> channels st3 !! k = channels st !! k).
  { intros k Hk. rewrite Hch3. unfold st2. rewrite lookup_upd_channel_ne by assumption.
    now apply Hk1. }
  rewrite <- Hch3 in Hi2.
  assert (Hu3 : forall x, entry_used st3 !! x
                          = if decide (x = e) then Some false else entry_used st !! x).
  { intros x. unfold st3. rewrite free_message_entry_used.
    - change (entry_used st2) with (entry_used st1). now rewrite Hu1.
    - change (entry_used st2) with (entry_used st1). rewrite Hu1. lia.
    - change (entry_used st2) with (entry_used st1). now rewrite Hu1. }
  pose proof (full_sized st qs H i ci Hci) as Hsize. rewrite Hq in Hsize.
  cbn [length] in Hsize.
  pose proof (full_depth_Z st qs i H) as Hdep. rewrite Hq in Hdep. cbn [length] in Hdep.
  rewrite Hsize in Hsz1. rewrite wrap32_small in Hsz1 by lia.
  exists (with_queue i q' qs). constructor.
  - now apply free_message_entry_shape.
  - rewrite Hch3. unfold st2, upd_channel. cbn [channels with_channels].
    rewrite length_insert, Hl1. apply (full_len st qs H).
  - intros k c' Hk. destruct (decide (k = i)) as [->|Hki].
    + rewrite Hi2 in Hk. injection Hk as <-. rewrite with_queue_eq.
      cbn [queue_size frecv set_messages_received]. lia.
    + rewrite (Hk2 k Hki) in Hk. rewrite with_queue_ne by assumption.
      apply (full_sized st qs H k c' Hk).
  - intros k c' Hk. destruct (decide (k = i)) as [->|Hki].
    + rewrite Hi2 in Hk. injection Hk as <-.
      cbn [max_queue_size frecv set_messages_received]. rewrite Hmax1.
      apply (full_max st qs H i ci Hci).
    + rewrite (Hk2 k Hki) in Hk. apply (full_max st qs H k c' Hk).
  - intros k. unfold with_queue. destruct (decide (k = i)) as [->|Hki].
    + pose proof (full_depth st qs H i) as Hd'. rewrite Hq in Hd'. cbn [length] in Hd'. lia.
    + apply (full_depth st qs H).
  - intros k Hk. destruct (decide (k = i)) as [->|Hki]; [rewrite Hi2 in Hk; discriminate|].
    rewrite (Hk2 k Hki) in Hk. rewrite with_queue_ne by assumption.
    apply (full_slots st qs H k Hk).
  - intros k c' Hk Hu. destruct (decide (k = i)) as [->|Hki].
    + rewrite Hi2 in Hk. injection Hk as <-.
      cbn [in_use frecv set_messages_received] in Hu. congruence.
    + rewrite (Hk2 k Hki) in Hk. rewrite with_queue_ne by assumption.
      apply (full_idle st qs H k c' Hk Hu).
  - intros x Hx. rewrite Hu3 in Hx. case_decide as Hne; [discriminate Hx|].
    destruct (full_used st qs H x Hx) as (k & Hk). exists k. unfold with_queue.
    destruct (decide (k = i)) as [->|_]; [|exact Hk].
    rewrite Hq in Hk. apply elem_of_cons in Hk as [?|?]; [contradiction|assumption].
  - intros k c' Hk Hu. destruct (decide (k = i)) as [->|Hki].
    + rewrite Hi2 in Hk. injection Hk as <-.
      cbn [messages_sent messages_received queue_size frecv set_messages_received].
      rewrite Hsent1, Hrecv1, Hsz1, (full_counts st qs H i ci Hci Hin), Hsize.
      unfold wrap32. rewrite Z.add_mod_idemp_l by lia. f_equal. lia.
    + rewrite (Hk2 k Hki) in Hk. apply (full_counts st qs H k c' Hk Hu).
Qed.

Lemma full_create (s r : Z) st qs :
  full st qs -> exists qs', full (snd (mq_create_channel s r st)) qs'.
Proof.
  intros H. pose proof (full_shape st qs H) as Hs. unfold mq_create_channel.
  destruct (find_channel_by_participants s r st); [exists qs; exact H|].
  destruct (find_free_channel st) as [i|] eqn:Hfree; [|exists qs; exact H].
  apply mq_find_index_Some in Hfree as (ci & _ & Hci & Hfi).
  rewrite Nat.sub_0_r in Hci. apply negb_true_iff in Hfi.
  pose proof (full_idle st qs H i ci Hci Hfi) as Hq.
  set (ch := mk_channel (next_channel_id st) s r None None 0 MAX_QUEUE_DEPTH true true 0 0 0).
  cbn [snd]. set (st' := with_active_channels _ _).
  assert (Hch' : channels st' = <[i := ch]> (channels st)) by reflexivity.
  assert (Hlook : forall k c', channels st' !! k = Some c' ->
            (k = i /\ c' = ch) \/ (k <> i /\ channels st !! k = Some c')).
  { intros k c' Hk. rewrite Hch' in Hk. destruct (decide (k = i)) as [->|Hki].
    - rewrite list_lookup_insert_eq in Hk by (eapply lookup_lt_Some, Hci).
      left. split; congruence.
    - rewrite list_lookup_insert_ne in Hk by congruence. right. auto. }
  exists qs. destruct Hs as [Hp Hu Hc Hnd Ho Hus]. constructor.
  - constructor; try assumption.
    intros k c' Hk. destruct (Hlook k c' Hk) as [[-> ->]|[Hki Hk0]].
    + rewrite Hq. split; reflexivity.
    + destruct (Hc k c' Hk0) as [Hl Ht]. split; [|exact Ht].
      eapply lseg_frame; [|exact Hl]. reflexivity.
  - rewrite Hch', length_insert. apply (full_len st qs H).
  - intros k c' Hk. destruct (Hlook k c' Hk) as [[-> ->]|[Hki Hk0]].
    + now rewrite Hq.
    + apply (full_sized st qs H k c' Hk0).
  - intros k c' Hk. destruct (Hlook k c' Hk) as [[-> ->]|[Hki Hk0]].
    + cbn [max_queue_size ch]. lia.
    + apply (full_max st qs H k c' Hk0).
  - apply (full_depth st qs H).
  - intros k Hk. apply (full_slots st qs H). apply lookup_ge_None.
    apply lookup_ge_None in Hk. rewrite Hch', length_insert in Hk. exact Hk.
  - intros k c' Hk Hu'. destruct (Hlook k c' Hk) as [[-> ->]|[Hki Hk0]].
    + exact Hq.
    + apply (full_idle st qs H k c' Hk0 Hu').
  - apply (full_used st qs H).
  - intros k c' Hk Hu'. destruct (Hlook k c' Hk) as [[-> ->]|[Hki Hk0]].
    + reflexivity.
    + apply (full_counts st qs H k c' Hk0 Hu').
Qed.

Lemma full_step (o : op) st qs : full st qs -> exists qs', full (snd (step o st)) qs'.
Proof.
  intros H. destruct o as [| |s r|id|id m0|id buf|id buf|g e r|id b|id n|]; cbn [step].
  - destruct (full_init st qs H) as (qs' & H'). destruct (mq_init st). eauto.
  - cbn [snd]. now apply (full_shutdown st qs).
  - destruct (full_create s r st qs H) as (qs' & H'). destruct (mq_create_channel s r st).
    eauto.
  - cbn [snd]. now apply (full_destroy id st qs).
  - destruct (full_send id m0 st qs H) as (qs' & H').
    destruct (mq_send_message id m0 st). eauto.
  - destruct (full_receive id buf st qs H) as (qs' & H').
    destruct (mq_receive_message id buf st) as [[? ?] ?]. eauto.
  - unfold mq_try_receive. destruct (full_receive id buf st qs H) as (qs' & H').
    destruct (mq_receive_message id buf st) as [[? ?] ?]. eauto.
  - exists qs. exact H.
  - cbn [snd]. unfold mq_set_blocking_mode.
    destruct (find_channel_by_id id st); [|exists qs; exact H].
    exists qs. apply full_upd_channel; [|exact H]. intros c. auto 10.
  - cbn [snd]. unfold mq_set_queue_size.
    destruct (find_channel_by_id id st); [|exists qs; exact H].
    destruct (Z.leb_spec n MAX_QUEUE_DEPTH) as [Hn|_]; [|exists qs; exact H].
    exists qs. apply full_upd_channel; [|exact H]. intros c.
    cbn [queue_head queue_tail queue_size max_queue_size in_use messages_sent
         messages_received set_max_queue_size]. auto 10.
  - cbn [snd]. unfold mq_tick. exists qs.
    apply (full_frame st); try assumption; try reflexivity.
    + apply (shape_frame st); try reflexivity; [apply (full_shape st qs H)|].
      intros k c' Hk. exists c'. auto.
    + intros k c' Hk. exists c'. split; [exact Hk|].
      pose proof (full_max st qs H k c' Hk). auto 10.
    + auto.
Qed.

Lemma full_run (ops : list op) :
  forall st qs, full st qs -> exists qs', full (run ops st) qs'.
Proof.
  induction ops as [|o ops IH]; intros st qs H; [exists qs; exact H|].
  rewrite run_cons. destruct (full_step o st qs H) as (qs1 & H1). apply (IH _ qs1 H1).
Qed.

(** ** The pool is never exhausted *)

Lemma alloc_scan_None (n : nat) :
  forall (i : Z) st st',
    alloc_scan i n st = (None, st') ->
    forall k, i <= k < i + Z.of_nat n ->
      default false (entry_used st !! Z.to_nat (wrap32 (next_entry_index st + k)
                                                mod POOL_SIZE)) = true.
Proof.
  induction n as [|n IH]; intros i st st' H k Hk; [lia|]. cbn [alloc_scan] in H.
  destruct (negb (default false
                    (entry_used st !! Z.to_nat (wrap32 (next_entry_index st + i)
                                                mod POOL_SIZE)))) eqn:E;
    [discriminate H|].
  apply negb_false_iff in E. destruct (Z.eq_dec k i) as [->|Hne]; [exact E|].
  apply (IH (i + 1) st st' H). lia.
Qed.

Lemma alloc_None_all_used st st' :
  length (entry_used st) = Z.to_nat POOL_SIZE ->
  alloc_message_entry st = (None, st') ->
  forall e, (e < Z.to_nat POOL_SIZE)%nat -> entry_used st !! e = Some true.
Proof.
  intros Hlen Ha e He. unfold alloc_message_entry in Ha.
  change POOL_SIZE with 512 in *.
  set (k := (Z.of_nat e - next_entry_index st) mod 512).
  assert (Hk : 0 <= k < 512) by (apply Z.mod_pos_bound; lia).
  assert (Hu := alloc_scan_None _ _ _ _ Ha k ltac:(change (Z.of_nat (Z.to_nat 512)) with 512; lia)).
  assert (Hidx : wrap32 (next_entry_index st + k) mod 512 = Z.of_nat e).
  { unfold wrap32. rewrite Z.mod_mod_divide by (exists 8388608; reflexivity).
    unfold k. rewrite Z.add_mod_idemp_r by lia.
    replace (next_entry_index st + (Z.of_nat e - next_entry_index st)) with (Z.of_nat e)
      by lia.
    apply Z.mod_small. lia. }
  change POOL_SIZE with 512 in Hu. rewrite Hidx, Nat2Z.id in Hu.
  assert (Hlt : (e < length (entry_used st))%nat) by lia.
  destruct (lookup_lt_is_Some_2 _ _ Hlt) as [b Hb]. rewrite Hb in Hu |- *.
  change (b = true) in Hu. now rewrite Hu.
Qed.

Lemma elem_of_queued_entries qs (n : nat) (x : entry_ptr) :
  x ∈ queued_entries qs n <-> exists k, (k < n)%nat /\ x ∈ qs k.
Proof.
  induction n as [|n IH]; cbn [queued_entries].
  - split; [inversion 1|intros (k & Hk & _); lia].
  - rewrite elem_of_app, IH. split.
    + intros [(k & Hk & Hx)|Hx]; [exists k; split; [lia|exact Hx]|exists n; split; [lia|exact Hx]].
    + intros (k & Hk & Hx). destruct (decide (k = n)) as [->|Hne]; [now right|].
      left. exists k. split; [lia|exact Hx].
Qed.

Lemma length_queued_entries_le qs (d n : nat) :
  (forall k, (length (qs k) <= d)%nat) ->
  (length (queued_entries qs n) <= d * n)%nat.
Proof.
  intros Hd. induction n as [|n IH]; cbn [queued_entries]; [cbn; lia|].
  rewrite length_app. specialize (Hd n). lia.
Qed.

Lemma length_queued_entries_lt qs (d n i : nat) :
  (forall k, (length (qs k) <= d)%nat) ->
  (i < n)%nat -> (length (qs i) < d)%nat ->
  (length (queued_entries qs n) < d * n)%nat.
Proof.
  intros Hd Hi Hlt. induction n as [|n IH]; [lia|]. cbn [queued_entries].
  rewrite length_app. destruct (decide (i = n)) as [->|Hne].
  - pose proof (length_queued_entries_le qs d n Hd). lia.
  - specialize (Hd n). assert (length (queued_entries qs n) < d * n)%nat by (apply IH; lia).
    lia.
Qed.

Lemma NoDup_queued_entries st qs (n : nat) :
  shape st qs -> NoDup (queued_entries qs n).
Proof.
  intros H. induction n as [|n IH]; cbn [queued_entries]; [constructor|].
  apply NoDup_app. split; [exact IH|]. split; [|apply (shape_nodup st qs H)].
  intros x Hx Hx'. apply elem_of_queued_entries in Hx as (k & Hk & Hxk).
  pose proof (shape_owner st qs H k n x Hxk Hx'). lia.
Qed.

Lemma full_slot_lt st qs (k : nat) (x : entry_ptr) :
  full st qs -> x ∈ qs k -> (k < Z.to_nat MAX_CHANNELS)%nat.
Proof.
  intros H Hx. destruct (channels st !! k) as [c|] eqn:Hk.
  - rewrite <- (full_len st qs H). eapply lookup_lt_Some, Hk.
  - rewrite (full_slots st qs H k Hk) in Hx. inversion Hx.
Qed.

(** With room in a queue there is a free entry in the pool: the pool has
    [MAX_CHANNELS * MAX_QUEUE_DEPTH] entries. *)
Lemma full_alloc_succeeds st qs (i : nat) (ci : message_channel) :
  full st qs -> channels st !! i = Some ci ->
  queue_size ci < max_queue_size ci ->
  exists e st1, alloc_message_entry st = (Some e, st1).
Proof.
  intros H Hci Hroom. destruct (alloc_message_entry st) as [[e|] st1] eqn:Ha; [eauto|].
  exfalso. pose proof (full_shape st qs H) as Hs.
  pose proof (alloc_None_all_used st st1 (shape_used_len st qs Hs) Ha) as Hall.
  assert (Hsub : seq 0 512 ⊆+ queued_entries qs 32).
  { apply NoDup_submseteq; [apply NoDup_seq|]. intros x Hx. apply elem_of_seq in Hx.
    destruct (full_used st qs H x) as (k & Hk); [apply Hall; change (Z.to_nat POOL_SIZE) with 512%nat; lia|].
    apply elem_of_queued_entries. exists k. split; [|exact Hk].
    apply (full_slot_lt st qs k x H Hk). }
  apply submseteq_length in Hsub. rewrite length_seq in Hsub.
  assert (Hlt : (length (queued_entries qs 32) < 16 * 32)%nat).
  { apply (length_queued_entries_lt qs 16 32 i).
    - apply (full_depth st qs H).
    - change 32%nat with (Z.to_nat MAX_CHANNELS).
      rewrite <- (full_len st qs H). eapply lookup_lt_Some, Hci.
    - pose proof (full_sized st qs H i ci Hci). pose proof (full_max st qs H i ci Hci) as Hm.
      change MAX_QUEUE_DEPTH with 16 in Hm. lia. }
  unfold entry_ptr in *. lia.
Qed.

(** ** Counting *)

Lemma stats_prefix st qs (n : nat) :
  full st qs -> (n <= length (channels st))%nat ->
  fold_left (fun acc c => if in_use c then wrap32 (acc + queue_size c) else acc)
            (take n (channels st)) 0
  = Z.of_nat (length (queued_entries qs n)).
Proof.
  intros H. induction n as [|n IH]; intros Hn; [reflexivity|].
  assert (Hlt : (n < length (channels st))%nat) by lia.
  destruct (lookup_lt_is_Some_2 _ _ Hlt) as [c Hc].
  rewrite (take_S_r _ _ _ Hc), fold_left_app, IH by lia. cbn [fold_left queued_entries].
  rewrite length_app. pose proof (full_sized st qs H n c Hc) as Hsz.
  pose proof (length_queued_entries_le qs 16 n (full_depth st qs H)) as Hb.
  pose proof (full_depth st qs H n) as Hd. change (Z.to_nat MAX_QUEUE_DEPTH) with 16%nat in Hd.
  rewrite (full_len st qs H) in Hn. change (Z.to_nat MAX_CHANNELS) with 32%nat in Hn.
  destruct (in_use c) eqn:Hu.
  - rewrite Hsz, wrap32_small by lia. lia.
  - rewrite (full_idle st qs H n c Hc Hu). cbn [length]. lia.
Qed.

Lemma elem_of_used_entries st (x : entry_ptr) :
  x ∈ used_entries st
  <-> (x < Z.to_nat POOL_SIZE)%nat /\ default false (entry_used st !! x) = true.
Proof.
  unfold used_entries. rewrite list_elem_of_In, filter_In, in_seq. split.
  - intros [Hx Hu]. split; [lia|exact Hu].
  - intros [Hx Hu]. split; [lia|exact Hu].
Qed.

Lemma NoDup_used_entries st : NoDup (used_entries st).
Proof.
  unfold used_entries. apply NoDup_ListNoDup. apply List.NoDup_filter. apply seq_NoDup.
Qed.

Lemma used_entries_queued st qs :
  full st qs -> used_entries st ≡ₚ queued_entries qs (Z.to_nat MAX_CHANNELS).
Proof.
  intros H. pose proof (full_shape st qs H) as Hs.
  apply NoDup_Permutation; [apply NoDup_used_entries|now apply (NoDup_queued_entries st)|].
  intros x. rewrite elem_of_used_entries, elem_of_queued_entries. split.
  - intros [Hx Hu]. destruct (entry_used st !! x) as [b|] eqn:Hb; [|discriminate Hu].
    change (b = true) in Hu. rewrite Hu in Hb.
    destruct (full_used st qs H x Hb) as (k & Hk). exists k. split; [|exact Hk].
    apply (full_slot_lt st qs k x H Hk).
  - intros (k & _ & Hk). pose proof (shape_used st qs Hs k x Hk) as Hu.
    split; [apply (shape_used_lt st qs k x Hs Hk)|now rewrite Hu].
Qed.

(** ** Properties of the transport *)

Lemma queued_full (c : Z) st qs :
  full st qs ->
  queued c st = match find_channel_by_id c st with
                | Some i => messages_of st (qs i)
                | None => []
                end.
Proof.
  intros H. destruct (find_channel_by_id c st) as [i|] eqn:Hf.
  - apply (queued_messages_of c i st qs (full_shape st qs H) Hf).
  - unfold queued. now rewrite Hf.
Qed.

(** X10: [get_queue_size] is exact.  In every state the transport reaches
    from power-up, by any calls with any arguments, [mq_get_queue_size]
    of a channel is the number of messages waiting in its chain, it is at
    most [MAX_QUEUE_DEPTH], and [mq_has_messages] holds exactly when the
    chain is not empty. *)
Theorem mq_queue_size_exact (ops : list op) (c : Z) :
  mq_get_queue_size c (run ops mq_state0)
  = Z.of_nat (length (queued c (run ops mq_state0)))
  /\ mq_get_queue_size c (run ops mq_state0) <= MAX_QUEUE_DEPTH
  /\ (mq_has_messages c (run ops mq_state0) = true
      <-> queued c (run ops mq_state0) <> []).
Proof.
  destruct (full_run ops mq_state0 _ full_state0) as (qs & H).
  set (st := run ops mq_state0) in *.
  rewrite (queued_full c st qs H). unfold mq_get_queue_size, mq_has_messages.
  destruct (find_channel_by_id c st) as [i|] eqn:Hf.
  - destruct (find_channel_by_id_Some c st i Hf) as (ci & Hci & _).
    rewrite (mq_channel_at_lookup st i ci Hci), (full_sized st qs H i ci Hci).
    unfold messages_of. rewrite length_map.
    split; [reflexivity|]. split; [apply (full_depth_Z st qs i H)|].
    destruct (qs i) as [|e q]; cbn [length map].
    + split; [discriminate|congruence].
    + split; [discriminate|intros _]. apply Z.ltb_lt. lia.
  - cbn [length]. split; [reflexivity|]. split; [discriminate|].
    split; [discriminate|congruence].
Qed.

(** X11: [can_send] predicts [send_message] exactly.  In every reachable
    state, if [mq_can_send] holds then sending succeeds (returns 0) and puts
    the message at the end of the channel's queue: the pool of
    [MAX_CHANNELS * MAX_QUEUE_DEPTH] entries cannot run out, so the
    "no memory" branch is never taken.  If [mq_can_send] does not hold,
    sending returns -1 and no queue changes. *)
Theorem mq_can_send_exact (ops : list op) (c : Z) (m : ipc_message) :
  (mq_can_send c (run ops mq_state0) = true ->
   fst (mq_send_message c (Some m) (run ops mq_state0)) = 0
   /\ queued c (snd (mq_send_message c (Some m) (run ops mq_state0)))
      = queued c (run ops mq_state0) ++ [m])
  /\ (mq_can_send c (run ops mq_state0) = false ->
      fst (mq_send_message c (Some m) (run ops mq_state0)) = -1
      /\ forall c', queued c' (snd (mq_send_message c (Some m) (run ops mq_state0)))
                    = queued c' (run ops mq_state0)).
Proof.
  destruct (full_run ops mq_state0 _ full_state0) as (qs & H).
  set (st := run ops mq_state0) in *.
  pose proof (full_shape st qs H) as Hs.
  destruct (mq_send_message_step c (Some m) st qs Hs) as (qs' & Hs' & (Hid & _) & Hfifo).
  assert (Hq : forall c', queued c' (snd (mq_send_message c (Some m) st))
             = queued c' st
               ++ accepted1 c' (SendMessage c (Some m))
                            (Sent (fst (mq_send_message c (Some m) st)))).
  { intros c'. pose proof (find_channel_by_id_idents c' st _ Hid) as Hf'.
    destruct (find_channel_by_id c' st) as [j|] eqn:Hf.
    - rewrite (queued_messages_of c' j _ qs' Hs' Hf'),
        (queued_messages_of c' j st qs Hs Hf). symmetry. apply (Hfifo c' j Hf).
    - unfold queued. rewrite Hf', Hf. cbn [app]. symmetry.
      destruct (Z.eqb_spec (int_to_uint32 c) (int_to_uint32 c')) as [Heq|Hne].
      + assert (Hfc : find_channel_by_id c st = None).
        { unfold find_channel_by_id in Hf |- *. now rewrite Heq. }
        unfold mq_send_message. rewrite Hfc. reflexivity.
      + cbn [accepted1]. unfold same_channel.
        destruct (Z.eqb_spec (int_to_uint32 c) (int_to_uint32 c')); [contradiction|].
        destruct (fst (mq_send_message c (Some m) st)); reflexivity. }
  unfold mq_can_send. split.
  - intros Hcan. destruct (find_channel_by_id c st) as [i|] eqn:Hf; [|discriminate Hcan].
    destruct (find_channel_by_id_Some c st i Hf) as (ci & Hci & _).
    rewrite (mq_channel_at_lookup st i ci Hci) in Hcan. apply Z.ltb_lt in Hcan.
    destruct (full_alloc_succeeds st qs i ci H Hci Hcan) as (e & st1 & Ha).
    assert (Hr : fst (mq_send_message c (Some m) st) = 0).
    { unfold mq_send_message. rewrite Hf, (mq_channel_at_lookup st i ci Hci).
      destruct (Z.leb_spec (max_queue_size ci) (queue_size ci)); [lia|].
      now rewrite Ha. }
    split; [exact Hr|]. rewrite (Hq c), Hr. cbn [accepted1].
    unfold same_channel. now rewrite Z.eqb_refl.
  - intros Hcan.
    assert (Hr : fst (mq_send_message c (Some m) st) = -1).
    { unfold mq_send_message. destruct (find_channel_by_id c st) as [i|] eqn:Hf;
        [|reflexivity].
      apply Z.ltb_ge in Hcan.
      destruct (Z.leb_spec (max_queue_size (channel_at st i)) (queue_size (channel_at st i)));
        [reflexivity|lia]. }
    split; [exact Hr|]. intros c'. rewrite (Hq c'), Hr. cbn [accepted1]. apply app_nil_r.
Qed.

(** X12: [receive_message] hands over the oldest message, or nothing.  In
    every reachable state, a receive on a channel with nothing queued (or
    on an unknown channel) returns -1 and changes neither the state nor
    the caller's buffer; with messages queued it returns 0, copies the
    oldest one into the buffer and leaves the rest queued in order. *)
Theorem mq_receive_oldest (ops : list op) (c : Z) (b : ipc_message) :
  (queued c (run ops mq_state0) = [] ->
   mq_receive_message c (Some b) (run ops mq_state0) = (-1, Some b, run ops mq_state0))
  /\ (forall m rest,
        queued c (run ops mq_state0) = m :: rest ->
        fst (mq_receive_message c (Some b) (run ops mq_state0)) = (0, Some m)
        /\ queued c (snd (mq_receive_message c (Some b) (run ops mq_state0))) = rest).
Proof.
  destruct (full_run ops mq_state0 _ full_state0) as (qs & H).
  set (st := run ops mq_state0) in *.
  pose proof (full_shape st qs H) as Hs. rewrite (queued_full c st qs H).
  destruct (find_channel_by_id c st) as [i|] eqn:Hf.
  2:{ split; [|discriminate]. intros _. unfold mq_receive_message. now rewrite Hf. }
  destruct (find_channel_by_id_Some c st i Hf) as (ci & Hci & _).
  split.
  - intros Hq. assert (Hqi : qs i = []) by (destruct (qs i); [reflexivity|discriminate Hq]).
    unfold mq_receive_message. rewrite Hf.
    now rewrite (dequeue_message_empty st qs i Hs Hqi).
  - intros m rest Hq. destruct (qs i) as [|e q'] eqn:Hqi; [discriminate Hq|].
    cbn [messages_of map] in Hq. injection Hq as Hm Hrest.
    destruct (dequeue_message_shape st qs i ci e q' Hs Hci Hqi)
      as (st1 & Hd & _ & Hm1 & _).
    assert (Hr : fst (mq_receive_message c (Some b) st) = (0, Some m)).
    { unfold mq_receive_message. rewrite Hf, Hd. cbn [fst]. now rewrite Hm1, Hm. }
    split; [exact Hr|].
    destruct (mq_receive_message_step c (Some b) st qs Hs)
      as (qs' & Hs' & (Hid & _) & Hfifo).
    pose proof (find_channel_by_id_idents c st _ Hid) as Hf'. rewrite Hf in Hf'.
    rewrite (queued_messages_of c i _ qs' Hs' Hf').
    pose proof (Hfifo c i Hf) as He. clear Hfifo.
    remember (mq_receive_message c (Some b) st) as res eqn:Eres. clear Eres.
    rewrite Hr, Hqi in He.
    change ((0, Some m).1) with 0 in He. change ((0, Some m).2) with (Some m) in He.
    cbn [delivered1] in He.
    unfold same_channel in He. rewrite Z.eqb_refl in He.
    cbn [messages_of map app] in He. injection He as _ He.
    rewrite <- Hrest. exact (eq_sym He).
Qed.

(** X13: the counters of a channel balance.  In every reachable state, for
    every channel in use, [messages_sent] equals [messages_received] plus
    the number of messages waiting (modulo 2^32): every accepted message
    is either delivered or still queued. *)
Theorem mq_counters_balance (ops : list op) (c : Z) (i : nat) :
  find_channel_by_id c (run ops mq_state0) = Some i ->
  messages_sent (channel_at (run ops mq_state0) i)
  = wrap32 (messages_received (channel_at (run ops mq_state0) i)
            + Z.of_nat (length (queued c (run ops mq_state0)))).
Proof.
  intros Hf. destruct (full_run ops mq_state0 _ full_state0) as (qs & H).
  set (st := run ops mq_state0) in *.
  destruct (find_channel_by_id_Some c st i Hf) as (ci & Hci & Hin & _).
  rewrite (mq_channel_at_lookup st i ci Hci).
  rewrite (queued_messages_of c i st qs (full_shape st qs H) Hf).
  unfold messages_of. rewrite length_map, <- (full_sized st qs H i ci Hci).
  apply (full_counts st qs H i ci Hci Hin).
Qed.

Lemma mq_counters_balance_witness :
  messages_sent (channel_at (run (session_setup ++ session_traffic) mq_state0) 0)
  = wrap32 (messages_received (channel_at (run (session_setup ++ session_traffic)
                                               mq_state0) 0)
            + Z.of_nat (length (queued 1 (run (session_setup ++ session_traffic)
                                              mq_state0)))).
Proof.
  apply (mq_counters_balance (session_setup ++ session_traffic) 1 0).
  vm_compute. reflexivity.
Defined.

(** X14: the entry pool does not leak.  In every reachable state the
    number of pool entries marked used is the total that [mq_print_stats]
    adds up as [total_queued], the sum of [queue_size] over the channels in
    use: entries of destroyed channels and of received messages are all
    given back. *)
Theorem mq_pool_accounting (ops : list op) :
  stats_total_queued (run ops mq_state0)
  = Z.of_nat (length (used_entries (run ops mq_state0))).
Proof.
  destruct (full_run ops mq_state0 _ full_state0) as (qs & H).
  set (st := run ops mq_state0) in *.
  rewrite (Permutation_length (used_entries_queued st qs H)).
  unfold stats_total_queued.
  rewrite <- (stats_prefix st qs (Z.to_nat MAX_CHANNELS) H)
    by (rewrite (full_len st qs H); lia).
  rewrite take_ge by (rewrite (full_len st qs H); lia). reflexivity.
Qed.

(** ** Creating and destroying *)

Lemma find_index_insert_first (f : message_channel -> bool) (cs : list message_channel) :
  forall (i from : nat) (new : message_channel),
    find_index f cs from = None -> (i < length cs)%nat -> f new = true ->
    find_index f (<[i := new]> cs) from = Some (from + i)%nat.
Proof.
  induction cs as [|c cs IH]; intros i from new Hn Hi Hf; [cbn [length] in Hi; lia|].
  cbn [find_index] in Hn. destruct (f c) eqn:E; [discriminate Hn|].
  destruct i as [|i].
  - change (<[0%nat := new]> (c :: cs)) with (new :: cs). cbn [find_index].
    rewrite Hf. f_equal. lia.
  - change (<[S i := new]> (c :: cs)) with (c :: <[i := new]> cs). cbn [find_index].
    rewrite E. rewrite (IH i (S from) new Hn); [f_equal; lia| |exact Hf].
    cbn [length] in Hi. lia.
Qed.

(** X15: [create_channel] is idempotent per pair of participants.  In any
    state, calling it again with the same sender and receiver returns the
    same channel identifier (or again -1 when all slots are taken) and
    changes nothing: the second call finds the channel the first one made. *)
Theorem mq_create_channel_idempotent (s r : Z) st :
  mq_create_channel s r (snd (mq_create_channel s r st)) = mq_create_channel s r st.
Proof.
  unfold mq_create_channel at 2 3.
  destruct (find_channel_by_participants s r st) as [i|] eqn:Hp.
  - cbn [snd]. unfold mq_create_channel. now rewrite Hp.
  - destruct (find_free_channel st) as [i|] eqn:Hfree.
    + cbn [snd]. apply mq_find_index_Some in Hfree as (ci & _ & Hci & _).
      rewrite Nat.sub_0_r in Hci.
      set (ch := mk_channel (next_channel_id st) s r None None 0 MAX_QUEUE_DEPTH
                            true true 0 0 0).
      set (st' := with_active_channels _ _).
      assert (Hch' : channels st' = <[i := ch]> (channels st)) by reflexivity.
      assert (Hp' : find_channel_by_participants s r st' = Some i).
      { unfold find_channel_by_participants. rewrite Hch'.
        rewrite (find_index_insert_first _ _ i 0 ch Hp).
        - reflexivity.
        - eapply lookup_lt_Some, Hci.
        - cbn [in_use ch_sender_id ch_receiver_id ch]. now rewrite !Z.eqb_refl. }
      unfold mq_create_channel. rewrite Hp'.
      assert (Hat : channel_at st' i = ch).
      { unfold channel_at. rewrite Hch', list_lookup_insert_eq; [reflexivity|].
        eapply lookup_lt_Some, Hci. }
      now rewrite Hat.
    + cbn [snd]. unfold mq_create_channel. now rewrite Hp, Hfree.
Qed.

(** ** Identifiers are not shared *)

Lemma channels_kept_refl st : channels_kept st st.
Proof. intros k c' Hk Hu. exists c'. auto. Qed.

Lemma channels_kept_trans st1 st2 st3 :
  channels_kept st1 st2 -> channels_kept st2 st3 -> channels_kept st1 st3.
Proof.
  intros H12 H23 k c3 Hk Hu. destruct (H23 k c3 Hk Hu) as (c2 & Hk2 & Hu2 & Hid2).
  destruct (H12 k c2 Hk2 Hu2) as (c1 & Hk1 & Hu1 & Hid1).
  exists c1. split; [exact Hk1|]. split; [exact Hu1|congruence].
Qed.

Lemma channels_kept_idents st st' : idents st' = idents st -> channels_kept st st'.
Proof.
  intros Hid k c' Hk Hu. destruct (lookup_idents st st' k c' Hid Hk) as (c & Hc & Hi).
  unfold ident in Hi. injection Hi as Hu0 Hc0. exists c. split; [exact Hc|].
  split; congruence.
Qed.

Lemma ids_unique_kept st st' : channels_kept st st' -> ids_unique st -> ids_unique st'.
Proof.
  intros Hk Hu i j ci cj Hi Hj Hui Huj Heq.
  destruct (Hk i ci Hi Hui) as (ci0 & Hi0 & Hui0 & Hidi).
  destruct (Hk j cj Hj Huj) as (cj0 & Hj0 & Huj0 & Hidj).
  apply (Hu i j ci0 cj0 Hi0 Hj0 Hui0 Huj0). congruence.
Qed.

Lemma channels_kept_drain_close (i : nat) st qs :
  shape st qs ->
  channels_kept st (upd_channel i (set_in_use false) (drain i drain_fuel st)).
Proof.
  intros Hs.
  destruct (drain_shape drain_fuel st qs i Hs (shape_length st qs i Hs)) as (_ & _ & Hid & _).
  intros k c' Hk Hu. apply lookup_upd_channel_inv in Hk as (c1 & Hk & ->).
  destruct (decide (k = i)); [discriminate Hu|].
  apply (channels_kept_idents st _ Hid k c1 Hk Hu).
Qed.

Lemma channels_kept_shutdown_from (n : nat) :
  forall (i : nat) st qs, shape st qs -> ids_fresh st ->
                          channels_kept st (shutdown_from i n st).
Proof.
  induction n as [|n IH]; intros i st qs Hs Hf; cbn [shutdown_from];
    [apply channels_kept_refl|]. cbv zeta.
  destruct (drain_close i st qs Hs Hf) as (Hs' & Hf' & _).
  eapply channels_kept_trans; [apply (channels_kept_drain_close i st qs Hs)|].
  apply (IH (S i) _ _ Hs' Hf').
Qed.

Lemma ids_unique_step (o : op) st qs :
  shape st qs -> ids_fresh st -> ids_unique st -> ids_unique (snd (step o st)).
Proof.
  intros Hs Hf Hu.
  destruct o as [| |s r|id|id m0|id buf|id buf|g e r|id b|id n|]; cbn [step].
  - unfold mq_init. destruct (initialized st); [exact Hu|]. cbn [snd].
    intros i j ci cj Hi _ Hui. cbn [channels] in Hi.
    apply lookup_replicate in Hi as [-> _]. discriminate Hui.
  - cbn [snd]. unfold mq_shutdown. cbv zeta.
    pose proof (channels_kept_shutdown_from (Z.to_nat MAX_CHANNELS) 0 st qs Hs Hf) as Hk.
    revert Hk. generalize (shutdown_from 0 (Z.to_nat MAX_CHANNELS) st). intros st1 Hk.
    apply (ids_unique_kept st); [|exact Hu]. exact Hk.
  - unfold mq_create_channel.
    destruct (find_channel_by_participants s r st); [exact Hu|].
    destruct (find_free_channel st) as [i|] eqn:Hfree; [|exact Hu].
    cbn [snd]. apply mq_find_index_Some in Hfree as (ci & _ & Hci & Hfi).
    rewrite Nat.sub_0_r in Hci. apply negb_true_iff in Hfi.
    set (ch := mk_channel (next_channel_id st) s r None None 0 MAX_QUEUE_DEPTH
                          true true 0 0 0).
    set (st' := with_active_channels _ _).
    assert (Hch' : channels st' = <[i := ch]> (channels st)) by reflexivity.
    destruct Hf as [_ Hfresh].
    assert (Hlook : forall k c', channels st' !! k = Some c' -> in_use c' = true ->
              (k = i /\ channel_id c' = next_channel_id st)
              \/ (k <> i /\ channels st !! k = Some c' /\ channel_id c' < next_channel_id st)).
    { intros k c' Hk Hin. rewrite Hch' in Hk. destruct (decide (k = i)) as [->|Hki].
      - rewrite list_lookup_insert_eq in Hk by (eapply lookup_lt_Some, Hci).
        injection Hk as <-. left. auto.
      - rewrite list_lookup_insert_ne in Hk by congruence. right.
        split; [exact Hki|]. split; [exact Hk|]. apply (Hfresh k c' Hk Hin). }
    intros a b ca cb Ha Hb Hua Hub Heq.
    destruct (Hlook a ca Ha Hua) as [[-> Hida]|(Hai & Ha0 & Hlta)],
             (Hlook b cb Hb Hub) as [[-> Hidb]|(Hbi & Hb0 & Hltb)]; try lia.
    apply (Hu a b ca cb Ha0 Hb0 Hua Hub Heq).
  - cbn [snd]. unfold mq_destroy_channel.
    destruct (find_channel_by_id id st) as [i|]; [|exact Hu]. cbv zeta.
    apply (ids_unique_kept st); [|exact Hu].
    apply (channels_kept_drain_close i st qs Hs).
  - destruct (mq_send_message_step id m0 st qs Hs) as (_ & _ & (Hid & _) & _).
    destruct (mq_send_message id m0 st) as [ret st1]. cbn [snd] in *.
    apply (ids_unique_kept st); [now apply channels_kept_idents|exact Hu].
  - destruct (mq_receive_message_step id buf st qs Hs) as (_ & _ & (Hid & _) & _).
    destruct (mq_receive_message id buf st) as [[ret out] st1]. cbn [snd] in *.
    apply (ids_unique_kept st); [now apply channels_kept_idents|exact Hu].
  - unfold mq_try_receive.
    destruct (mq_receive_message_step id buf st qs Hs) as (_ & _ & (Hid & _) & _).
    destruct (mq_receive_message id buf st) as [[ret out] st1]. cbn [snd] in *.
    apply (ids_unique_kept st); [now apply channels_kept_idents|exact Hu].
  - exact Hu.
  - cbn [snd]. unfold mq_set_blocking_mode.
    destruct (find_channel_by_id id st); [|exact Hu].
    apply (ids_unique_kept st); [|exact Hu]. apply channels_kept_idents.
    now apply idents_upd_channel.
  - cbn [snd]. unfold mq_set_queue_size.
    destruct (find_channel_by_id id st); [|exact Hu].
    destruct (n <=? MAX_QUEUE_DEPTH); [|exact Hu].
    apply (ids_unique_kept st); [|exact Hu]. apply channels_kept_idents.
    now apply idents_upd_channel.
  - exact Hu.
Qed.

Lemma ids_unique_run (ops : list op) :
  forall st qs,
    shape st qs -> ids_fresh st -> ids_unique st ->
    next_channel_id st + Z.of_nat (length ops) <= 4294967295 ->
    exists qs', shape (run ops st) qs' /\ ids_unique (run ops st).
Proof.
  induction ops as [|o ops IH]; intros st qs Hs Hf Hu Hn; [exists qs; auto|].
  rewrite run_cons. cbn [length] in Hn.
  destruct (step_inv o st qs Hs Hf) as (qs1 & Hs1 & Hf1 & Hn1 & _); [lia|].
  apply (IH _ qs1 Hs1 Hf1); [|lia]. now apply (ids_unique_step o st qs).
Qed.

Lemma ids_unique_state0 : ids_unique mq_state0.
Proof.
  intros i j ci cj Hi _ Hui. cbn [channels mq_state0] in Hi.
  apply lookup_replicate in Hi as [-> _]. discriminate Hui.
Qed.

(** X16: a destroyed channel is gone.  In every state reached from
    power-up by fewer than 2^32 calls, after [destroy_channel] of an
    identifier no channel in use carries it any more; so [can_send] is
    false, and [send_message] and [receive_message] on it return -1 and
    change nothing.  (Identifiers are unique among the channels in use.) *)
Theorem mq_destroy_channel_removes (ops : list op) (c : Z) :
  Z.of_nat (length ops) <= 4294967295 ->
  find_channel_by_id c (mq_destroy_channel c (run ops mq_state0)) = None
  /\ mq_can_send c (mq_destroy_channel c (run ops mq_state0)) = false
  /\ (forall m, mq_send_message c m (mq_destroy_channel c (run ops mq_state0))
                = (-1, mq_destroy_channel c (run ops mq_state0)))
  /\ (forall b, mq_receive_message c b (mq_destroy_channel c (run ops mq_state0))
                = (-1, b, mq_destroy_channel c (run ops mq_state0))).
Proof.
  intros Hlen.
  destruct (ids_unique_run ops mq_state0 _ shape_state0 ids_fresh_state0 ids_unique_state0)
    as (qs & Hs & Hu); [cbn [next_channel_id mq_state0]; lia|].
  set (st := run ops mq_state0) in *.
  assert (Hnone : find_channel_by_id c (mq_destroy_channel c st) = None).
  { unfold mq_destroy_channel. destruct (find_channel_by_id c st) as [i|] eqn:Hf;
      [|exact Hf]. cbv zeta.
    destruct (find_channel_by_id_Some c st i Hf) as (ci & Hci & Hui & Hidi).
    match goal with |- ?x = None => destruct x as [j|] eqn:Hf' end; [|reflexivity].
    exfalso. apply find_channel_by_id_Some in Hf' as (cj & Hcj & Huj & Hidj).
    change (channels (with_active_channels ?v ?s)) with (channels s) in Hcj.
    pose proof (channels_kept_drain_close i st qs Hs j cj Hcj Huj) as (cj0 & Hj0 & Huj0 & Hid0).
    assert (j = i) by (apply (Hu j i cj0 ci Hj0 Hci Huj0 Hui); congruence). subst j.
    apply lookup_upd_channel_inv in Hcj as (c1 & _ & ->).
    rewrite decide_True in Huj by reflexivity. discriminate Huj. }
  split; [exact Hnone|]. split; [unfold mq_can_send; now rewrite Hnone|]. split.
  - intros m. unfold mq_send_message. destruct m; [now rewrite Hnone|reflexivity].
  - intros b. unfold mq_receive_message. destruct b; [now rewrite Hnone|reflexivity].
Qed.

Lemma mq_destroy_channel_removes_witness :
  find_channel_by_id 1 (mq_destroy_channel 1 (run (session_setup ++ session_traffic)
                                                  mq_state0)) = None
  /\ mq_can_send 1 (mq_destroy_channel 1 (run (session_setup ++ session_traffic)
                                              mq_state0)) = false
  /\ (forall m, mq_send_message 1 m (mq_destroy_channel 1
                                       (run (session_setup ++ session_traffic) mq_state0))
                = (-1, mq_destroy_channel 1 (run (session_setup ++ session_traffic)
                                                 mq_state0)))
  /\ (forall b, mq_receive_message 1 b (mq_destroy_channel 1
                                          (run (session_setup ++ session_traffic) mq_state0))
                = (-1, b, mq_destroy_channel 1 (run (session_setup ++ session_traffic)
                                                    mq_state0))).
Proof.
  apply (mq_destroy_channel_removes (session_setup ++ session_traffic) 1).
  vm_compute. discriminate.
Defined.

End MQMore.
